(* ===== verification/_CoqProject ===== *)
-Q . S2P
Prelude.v
GoStrings.v
Regexp.v
Text.v
Params.v
Trace.v
Prog.v
Agent.v
AgentRuns.v
Spec.v
ParseLog.v
Checks.v
Run.v
Boot.v
Pool.v
Cmd.v
EndToEnd.v
Harness.v
GuestLog.v
CasesReach.v
Bits.v
Abi.v
Guest.v
X86.v
GuestMaps.v
GuestRuns.v
Float64.v
HostOps.v
Switcher.v
HostLogic.v
SwitcherTap.v
HostRes.v
SwitcherRes.v
SwitcherRuns.v
AbiTest.v
AbiTap.v
AbiRes.v
Cpio.v
Report.v
ReportRuns.v
Exits.v
ExitsRuns.v
Build.v
BuildRuns.v
BuildStages.v
Checkers.v
CheckersRuns.v
QemuRun.v
Payload.v
PayloadRuns.v
GuestBoots.v
Profile.v
Flags.v
Cli.v
RunCmd.v
CliRuns.v
RunRuns.v
Pvmtest.v
Init.v
InitRuns.v
CaseOps.v
GuestCases.v
PerfCases.v
Registry.v
Victims.v
CaseRuns.v
CaseList.v
CaseHeld.v
Threads.v
