(* ===== verification/Prelude.v ===== *)
(** * The PVM testbed, verified

    The repository is a testbed for PVM, a KVM vendor module that runs a guest
    without hardware virtualisation.  Four programs work together:

    - [pvmtest] (tools/pvmtest), on the developer's machine, builds kernels,
      the initrd and the payload, expands a battery file into boots, runs each
      boot as a qemu process, judges it from its log and reports measurements;
    - the agent (tools/l1agent) is what systemd starts in L1, the machine qemu
      boots: it loads the vendor module and, by the mode of its kernel command
      line, boots the guest under test, runs the host tests or others'
      selftests, or profiles, and prints everything to the console;
    - [pvminit] (initrd) is PID 1 and all of user space of the guest: it runs
      the cases its command line selects and powers the machine off;
    - the host tests (tools/hosttests) are programs the agent runs in L1 that
      talk to /dev/kvm directly, with a hand-assembled guest.

    They share no memory and no protocol but text: kernel command lines going
    in, lines on a serial console coming out, files in directories in between.
    So the theorems that matter most are of three kinds: that a program does its
    own work right, that what one program writes is what the next one reads, and
    that none of them leaves a process, a file, a mapping or a machine behind.

    ** The parts

    Shared:
    - [Prelude] (this file): scope, automation, lists and counting.
    - [GoStrings]: the parts of strings, strconv and fmt that are used, on byte
      strings.  [Flags]: the flag package, with the [listFlag] of cli.go.
    - [Regexp]: Go's regexp as a parser of the source's own pattern texts and a
      matcher with captures, sound and complete for the declarative reading.
    - [Float64]: float64 through the Standard Library's specification floats.
    - [Bits]: machine words with wrap-around, little-endian bytes.
    - [Prog]: programs over an operating system.  A program is a tree of calls;
      the answers are not assumed to be anything, so a theorem about [runs] holds
      for every kernel, file system and child process.  Monitors ([wp]) are how
      their properties are stated and proved; [allowed] says that each call was
      permitted when it was made.

    tools/l1agent: [Text] (text.go), [Params] (params.go), [Trace] (trace.go),
    [Agent] (agent.go, sys.go, stub.go, main.go) and its runs in [AgentRuns].

    tools/pvmtest: [Spec] (spec.go), [ParseLog] (parse.go), [Checks] (checks.go,
    kut.go), [Run] (run.go, and L1Argv and the pinning of boot.go and env.go),
    [Pool] (runPool of run.go), [Boot] (boot.go as functions of what the machine
    has), [Payload] and [PayloadRuns] (boot.go as programs: what is staged for
    L1 and given back), [QemuRun] (the concurrency of runQemu), [Checkers] and
    [CheckersRuns] (checks.go, judge.go and kut.go as programs that read the
    logs and what the items name), [GuestBoots] (the boots of the guest and of
    the host, the regress command), [Profile] (the exit and profile commands),
    [Cmd] (what cmdRun decides, as a function), [RunCmd] and [RunRuns] (cmdRun,
    cmdList and cmdStats as programs: what they read, print and write), [Cli]
    and [CliRuns] (cli.go and main), [Pvmtest] (every sub-command put together,
    from the command line to the exit status), [Cpio], [Build], [BuildRuns] and
    [BuildStages] (build.go, BuildKUT of kut.go), [Report] and [ReportRuns]
    (report.go, compare.go), [Exits] and [ExitsRuns] (exits.go).

    initrd: [Harness] (internal/harness, and the command line of
    internal/sysinit), [Init] and [InitRuns] (internal/sysinit, cmd/pvminit);
    [CaseOps] (the calls of a case and the helpers they share), [GuestCases] and
    [PerfCases] (the functions of the cases and of the goroutines they start),
    [Registry] (the list of the cases), [Victims] (the processes a case starts to
    see them die), with [CaseRuns], [CaseList], [CaseHeld] and, for goroutines
    that share memory, [Threads] (internal/tests).

    tools/hosttests: [Abi] (internal/kvm, internal/pvm), [Guest] (guest.go: the
    assembler, the routines, the page tables), [X86] (no code of the
    repository: the processor that gives those bytes their meaning),
    [GuestMaps], [GuestRuns], [HostOps] (internal/harness), [Switcher] with
    [HostLogic], [SwitcherTap], [HostRes], [SwitcherRes], [SwitcherRuns]
    (cmd/pvm_switcher_test), [AbiTest] with [AbiTap] and [AbiRes]
    (cmd/pvm_abi_test).

    Between programs: [EndToEnd] (pvmtest and the agent), [GuestLog] (the guest
    and pvmtest), [CasesReach] (pvmtest, the agent and the guest).

    Definitions have the names of the source; where Go has a name that is taken
    or reserved, a suffix or a prefix is added ([Set_], [Qemu_], [b_Item]).  A Go
    function that returns an error returns [option string] or [string + A] with
    the text of the error, a panic is [None], a method takes its receiver as an
    argument and returns it when it changes it.

    ** What the theorems show

    - A boot is judged right.  [Run.judge_ok]: the verdict is ok exactly when the
      log shows what the item asks for; [Checks.checkExpected_ok]: the checkers
      hold a log to the expectation file in both directions.
      [GuestLog.ParseLog_guest] and [InitRuns.guest_main_runs_harness]: the
      verdicts read from a log are those of the cases the guest ran, from the
      calls PID 1 makes to the fields of an [Outcome].
    - The boots are those the battery describes.  [Run.Boots_logs]: no two write
      the same log.  [RunRuns.dry_run_looks]: a dry run only looks.  [EndToEnd.L1Append_ParseCmdline] and
      [CasesReach.cases_reach_guest]: what an item asks for arrives, through two
      kernel command lines (two names select themselves; one alone is a substring
      within the suite).  [CliRuns.battery_boot_by_hand]: what a battery's
      boot hands to [BootL1] can be spelt with flags of boot l1, up to the order
      of L1's words.
    - The concurrency is right.  [Pool.runPool_answer]: whatever the interleaving,
      the statuses are in the order of the boots and the right ones recorded.
      [QemuRun.runQemu_answers] and [QemuRun.runQemu_returns]: [runQemu] comes back
      on every fair run, with qemu ended and waited for, no signal before the
      timeout and SIGKILL only five seconds after SIGTERM.
      [CaseHeld.goroutines_ready]: no goroutine keeps the others from starting;
      [Threads.race_no_false_alarm], [Threads.futex_never_stuck]: on a correct
      machine the races of the guest do not fail and its channels do not block,
      however they are scheduled.
    - Nothing is left behind.  [SwitcherRes.main_resources] and
      [AbiRes.abi_resources] for the host tests, [PayloadRuns.boot_l1_payload] for
      a boot of L1, [BuildRuns.BuildInitrd_image] for a build,
      [InitRuns.pid1_powers_off] and [AgentRuns.runAgent_ends] for the machines,
      [CaseHeld.cases_give_back] for every case of the guest: descriptors,
      children, the locked thread, its affinity, GOMAXPROCS and signals, and the
      mappings when it passed (perf/context-switch, which leaves its thread on
      CPU 0, is the stated exception for the affinity).
    - The guest's cases mean what they report.  [CaseRuns.security_denied]:
      priv-insn/*, exec-noexec-page, kernel-text, host-window and
      noncanonical-read of the security suite pass only when their victim got to
      the access and died of it (pkey-denied is not among them: it also passes as
      a skip); [CaseRuns.memory_cases_sound]: a case that writes
      memory and reads it back passes only when it read what was stored and has
      unmapped everything; [CaseList.registered_cases]: the names of the cases
      are distinct and survive the log and both command lines.
    - Builds do not lie.  [BuildRuns.BuildKernel_config] and
      [BuildRuns.BuildRef_stamp]: only checked configurations are compiled, only
      complete image sets are marked; [Cpio.cpio_reads_back]: the kernel unpacks
      what was packed; [BuildStages.BuildKUT_staged]: the agent finds what was
      staged.
    - Reports say what was measured.  [ReportRuns.matrix_reads_back],
      [ReportRuns.matrix_item_regressed], [ExitsRuns.exitrip_resolves],
      [Trace.LastTraceLines_spec].
    - The host tests' guest is what it is meant to be:
      [GuestMaps.buildPageTables_maps], [GuestMaps.buildGuest_bounds],
      [GuestRuns.smod_round], [GuestRuns.pattern_in_order], [Abi.layout_sound].
    - The verdicts are given once and agree with the exit status:
      [SwitcherTap.main_tap], [AbiTap.abi_tap], [AgentRuns.hostTests_verdict],
      [AgentRuns.runAgent_one_verdict], [Cmd.cmdRun_exit],
      [Pvmtest.run_status_0], [Pvmtest.pvmtest_status],
      [GuestBoots.regress_program].
    Some theorems state what the code does and should not:
    [SwitcherTap.main_drops_cases], [Run.judge_ignores_agent_fail],
    [CliRuns.judge_log_needs_results], [ExitsRuns.ExitProfile_failed_silent].

    ** Fuel and bounds

    Recursion is structural wherever the source loops over data it has.  The
    matcher's stars take the length of the rest of the text as fuel, which
    [Regexp.star_fuel] shows to be enough; the parser of patterns is run on closed
    texts and its answer checked by evaluation.  Printing a number takes its size
    in bits ([GoStrings.unradix_radix] reads it back whatever the number).
    [Exits.Search] takes the length plus one and is proved to find the index.
    Loops of the host tests that the kernel can prolong for ever take fuel and
    then make the call [Hang], which never returns: no theorem can conclude
    anything from it.  A 64-bit [int] is a [Z], wrapped by [int64] or [wrap64]
    where the source can overflow; 32-bit fields of the kernel's structures are
    wrapped where they are stored.

    ** What is not modelled

    - In the guest, a load or a store of mapped memory is a call whose answer is
      arbitrary, and so is a victim's death; [Threads] is where memory is
      coherent.  A goroutine is a program of its own, and its case sees only its
      error; the barrier of the scaling cases is not run under interleavings.
      To PID 1 a case is the answer of [Init.RunCase].  A panic in a goroutine a
      case started ends PID 1 and is not modelled, a panic in a case is.
    - strconv.ParseFloat, the printing of a float with [%g], the order of a map's
      iteration and of an unstable sort: [Pvmtest.library] holds them as
      parameters, and [CaseOps.texts] the texts of errors and durations in the
      guest.
    - Code points above ASCII in the functions of Go's library that read runes.
    - What qemu, make, git, the compiler, debootstrap and the kernel do: their
      answers are arbitrary.  Documented behaviour a theorem relies on is a named
      hypothesis ([Exits.sorts_syms], [Report.float_sort]) or the [m_ans] of its
      monitor (a descriptor the kernel hands out is not in use; PID 1 reads 1 as
      its PID).
    - Paths are joined without filepath.Clean ([Run.path_join]): the joined parts
      are as the program writes them, and no theorem compares a path in two
      spellings.
    - The processor of [X86] stops with [PageFault] on a non-canonical address
      too, where hardware raises #GP.
    - The monitors of [AbiTap] and [AbiRes] follow the main goroutine; of the one
      that runs the vcpu they see the start and the join.
    - [QemuRun] takes from the kernel that nothing leaves qemu's process group and
      that the copying of its output ends once the group was sent SIGKILL.
    - The listing of defaults the flag package prints after a mistake, and the
      time stamps of printed lines. *)
From stdpp Require Export base gmap strings list sorting.
From Stdlib Require Export ZArith Lia.

#[export] Set Default Goal Selector "!".

(** ** Scope and notations *)
Declare Scope pvm_scope.
Delimit Scope pvm_scope with pvm.

(** Go's [x := e; ...] sequencing of a fallible step: the early [return] of the
    error branch. *)
Notation "'let?' x ':=' e 'in' k" :=
  (match e with inl err => inl err | inr x => k end)
  (at level 10, x pattern, e at level 100, k at level 200,
   only parsing) : pvm_scope.
Open Scope pvm_scope.

(** ** Automation *)
Create HintDb pvm.

(** Case analysis on the innermost [match]/[if] discriminee of the goal or of a
    hypothesis, simplifying after each step. *)
Ltac step_match :=
  match goal with
  | |- context [match ?x with _ => _ end] => destruct x eqn:?; simplify_eq/=
  | H : context [match ?x with _ => _ end] |- _ => destruct x eqn:?; simplify_eq/=
  end.

(** Evaluate a closed equation. *)
Ltac vm_done := vm_compute; reflexivity.

(** Boolean connectives to propositions, everywhere. *)
Ltac bool_prop :=
  repeat match goal with
  | H : (_ && _) = true |- _ => apply andb_prop in H as [? ?]
  | H : (_ || _) = true |- _ => apply orb_prop in H as [H|H]
  | H : negb _ = true |- _ => apply negb_true_iff in H
  | H : negb _ = false |- _ => apply negb_false_iff in H
  | H : bool_decide _ = true |- _ => apply bool_decide_eq_true in H
  | H : bool_decide _ = false |- _ => apply bool_decide_eq_false in H
  | H : (_ =? _)%Z = true |- _ => apply Z.eqb_eq in H
  | H : (_ =? _)%Z = false |- _ => apply Z.eqb_neq in H
  | H : (_ <=? _)%Z = true |- _ => apply Z.leb_le in H
  | H : (_ <=? _)%Z = false |- _ => apply Z.leb_gt in H
  | H : (_ <? _)%Z = true |- _ => apply Z.ltb_lt in H
  | H : (_ <? _)%Z = false |- _ => apply Z.ltb_ge in H
  end.

(** ** Generic list lemmas *)
Section ListLemmas.
Context {A : Type}.

(** Go's slicing [l[len(l)-n:]] when [len(l) > n], the whole of [l]
    otherwise. *)
Definition last_n (n : nat) (l : list A) : list A := drop (length l - n) l.

Lemma last_n_length n l : length (last_n n l) = length l `min` n.
Proof. unfold last_n. rewrite length_drop. lia. Qed.

Lemma last_n_all n l : length l ≤ n → last_n n l = l.
Proof. intros. unfold last_n. by replace (length l - n) with 0 by lia. Qed.

Lemma last_n_app_r n l1 l2 : length l2 = n → last_n n (l1 ++ l2) = l2.
Proof.
  intros <-. unfold last_n. rewrite length_app.
  replace (length l1 + length l2 - length l2) with (length l1) by lia.
  by rewrite drop_app_length.
Qed.

Lemma last_n_snoc n l x :
  last_n (S n) (l ++ [x]) = last_n n l ++ [x].
Proof.
  unfold last_n. rewrite length_app; simpl.
  replace (length l + 1 - S n) with (length l - n) by lia.
  by rewrite drop_app_le by lia.
Qed.

(** A boolean test splits a list in two. *)
Lemma filter_bool_length (f : A → bool) l :
  length (filter (λ x, f x = true) l) + length (filter (λ x, f x = false) l) = length l.
Proof.
  induction l as [|x l IH]; [done|]. destruct (f x) eqn:E.
  - rewrite filter_cons_True, filter_cons_False by congruence. simpl. lia.
  - rewrite filter_cons_False, filter_cons_True by congruence. simpl. lia.
Qed.
Lemma filter_bool_none (f : A → bool) l :
  length (filter (λ x, f x = true) l) = 0 ↔ Forall (λ x, f x = false) l.
Proof.
  induction l as [|x l IH]; [done|]. rewrite Forall_cons, <-IH. destruct (f x) eqn:E.
  - rewrite filter_cons_True by done. simpl. split; [lia|by intros []].
  - rewrite filter_cons_False by congruence. tauto.
Qed.
End ListLemmas.

(** ** Stable sorting

    [sort.SliceStable] is specified by its result: the stable permutation
    sorted by [less]; [sort.Slice] and [sort.Strings] are used in the program
    on strict total orders only, where that result is the unique sorted
    permutation. *)
Section StableSort.
Context {A : Type} (less : A → A → bool).

Fixpoint insert_stable (x : A) (l : list A) : list A :=
  match l with
  | [] => [x]
  | y :: l' => if less y x then y :: insert_stable x l' else x :: l
  end.

Definition sort_stable (l : list A) : list A := foldr insert_stable [] l.

Lemma insert_stable_perm x l : insert_stable x l ≡ₚ x :: l.
Proof.
  induction l as [|y l IH]; simpl; [done|].
  case_match; [|done]. rewrite IH. apply Permutation_swap.
Qed.

Lemma sort_stable_perm l : sort_stable l ≡ₚ l.
Proof.
  induction l as [|x l IH]; simpl; [done|].
  by rewrite insert_stable_perm, IH.
Qed.

(** [b] does not come strictly before [a]. *)
Definition not_after (a b : A) : Prop := less b a = false.

Class StrictWeak : Prop := {
  less_asym a b : less a b = true → less b a = false;
  less_neg_trans a b c : less a b = false → less b c = false → less a c = false
}.

Context `{!StrictWeak}.

Lemma insert_stable_sorted x l :
  StronglySorted not_after l → StronglySorted not_after (insert_stable x l).
Proof.
  induction 1 as [|y l Hs IH Hall]; simpl; [repeat constructor|].
  destruct (less y x) eqn:E.
  - constructor; [done|].
    assert (Forall (not_after y) (x :: l)) as Hf.
    { constructor; [by apply less_asym|done]. }
    by rewrite <-insert_stable_perm in Hf.
  - constructor; [by constructor|]. constructor; [done|].
    eapply Forall_impl; [exact Hall|]. intros z Hz.
    unfold not_after in *. eapply less_neg_trans; eassumption.
Qed.

Lemma sort_stable_sorted l : StronglySorted not_after (sort_stable l).
Proof. induction l; simpl; [constructor|by apply insert_stable_sorted]. Qed.

(** Under a strict total order the result does not depend on the order of
    the input: what makes iterating over a Go map and then sorting
    deterministic. *)
Lemma sort_stable_unique l1 l2 :
  (∀ a b, less a b = false → less b a = false → a = b) →
  l1 ≡ₚ l2 → sort_stable l1 = sort_stable l2.
Proof.
  intros Htot Hp.
  assert (AntiSymm (=) not_after) as Hanti.
  { intros a b Ha Hb. by apply Htot. }
  apply (StronglySorted_unique not_after); [apply sort_stable_sorted..|].
  by rewrite !sort_stable_perm.
Qed.

Lemma sort_stable_sorted_id l : StronglySorted not_after l → sort_stable l = l.
Proof.
  induction 1 as [|y l Hs IH Hall]; simpl; [done|]. rewrite IH.
  destruct l as [|z l]; simpl; [done|].
  inversion Hall as [|? ? Hz ?]; subst. unfold not_after in Hz. by rewrite Hz.
Qed.
End StableSort.

#[export] Hint Resolve last_n_length sort_stable_perm : pvm.
