(* ===== verification/GoStrings.v ===== *)
(** * Go strings, numbers and formatting

    The part of Go's [strings], [strconv] and [fmt] packages the program uses,
    on byte strings.  A Go [string] is a Rocq [string], a sequence of bytes.
    The functions of the library that read runes ([strings.Fields],
    [strings.TrimSpace], regular expressions) are modelled on ASCII text, where
    a rune is a byte; an [int] is a [Z] with the 64-bit range checked where the
    library checks it. *)
From S2P Require Import Prelude.
From Stdlib Require Import Ascii.
From Stdlib Require String.


(** ** Characters *)
Definition ch_nl : ascii := "010"%char.
Definition ch_tab : ascii := "009"%char.
Definition ch_cr : ascii := "013"%char.
Definition ch_dq : ascii := "034"%char.

(** One-character strings; [nl] is "\n". *)
Definition str1 (c : ascii) : string := String c "".
Definition nl : string := str1 ch_nl.
Definition tab : string := str1 ch_tab.
Definition dq : string := str1 ch_dq.

Definition ceq (a b : ascii) : bool := Ascii.eqb a b.
Definition code (c : ascii) : N := N_of_ascii c.
Definition in_range (lo hi c : ascii) : bool :=
  (code lo <=? code c)%N && (code c <=? code hi)%N.
Definition is_digit (c : ascii) : bool := in_range "0" "9" c.
(** [unicode.IsSpace] on ASCII: tab, newline, vertical tab, form feed, carriage
    return and blank. *)
Definition is_space (c : ascii) : bool := in_range "009" "013" c || ceq c " ".

Lemma ceq_true a b : ceq a b = true ↔ a = b.
Proof. apply Ascii.eqb_eq. Qed.
Lemma ceq_false a b : ceq a b = false ↔ a ≠ b.
Proof. apply Ascii.eqb_neq. Qed.
Lemma ceq_refl a : ceq a a = true.
Proof. by apply ceq_true. Qed.

(** String equality as a [bool]. *)
Definition seqb (a b : string) : bool := bool_decide (a = b).
Notation "a =s b" := (seqb a b) (at level 70) : pvm_scope.
Lemma seqb_true a b : seqb a b = true ↔ a = b.
Proof. apply bool_decide_eq_true. Qed.
Lemma seqb_false a b : seqb a b = false ↔ a ≠ b.
Proof. apply bool_decide_eq_false. Qed.
Lemma seqb_refl a : seqb a a = true.
Proof. by apply seqb_true. Qed.
Lemma seqb_spec a b : Bool.reflect (a = b) (seqb a b).
Proof. apply bool_decide_reflect. Qed.

(** ** Bytes of a string *)
Fixpoint bytes (s : string) : list ascii :=
  match s with "" => [] | String c s => c :: bytes s end.
Fixpoint unbytes (l : list ascii) : string :=
  match l with [] => "" | c :: l => String c (unbytes l) end.
Definition slen (s : string) : nat := length (bytes s).

Lemma unbytes_bytes s : unbytes (bytes s) = s.
Proof. induction s; simpl; congruence. Qed.
Lemma bytes_unbytes l : bytes (unbytes l) = l.
Proof. induction l; simpl; congruence. Qed.
#[export] Instance bytes_inj : Inj (=) (=) bytes.
Proof. intros a b H. by rewrite <-(unbytes_bytes a), H, unbytes_bytes. Qed.
#[export] Instance unbytes_inj : Inj (=) (=) unbytes.
Proof. intros a b H. by rewrite <-(bytes_unbytes a), H, bytes_unbytes. Qed.
Lemma bytes_app a b : bytes (a +:+ b) = bytes a ++ bytes b.
Proof. induction a as [|c a IH]; [done|]. cbn. by rewrite <-IH. Qed.
Lemma unbytes_app l k : unbytes (l ++ k) = unbytes l +:+ unbytes k.
Proof. apply (inj bytes). by rewrite bytes_app, !bytes_unbytes. Qed.
Lemma app_assoc_s a b c : (a +:+ b) +:+ c = a +:+ (b +:+ c).
Proof. apply (inj bytes). by rewrite !bytes_app, (assoc_L (++)). Qed.
Lemma app_nil_r_s a : a +:+ "" = a.
Proof. apply (inj bytes). by rewrite bytes_app, app_nil_r. Qed.
Lemma app_nil_l_s a : "" +:+ a = a.
Proof. done. Qed.
Lemma app_cons_s c a b : String c a +:+ b = String c (a +:+ b).
Proof. done. Qed.
Lemma slen_app a b : slen (a +:+ b) = slen a + slen b.
Proof. unfold slen. by rewrite bytes_app, length_app. Qed.
Lemma slen_cons c s : slen (String c s) = S (slen s).
Proof. done. Qed.
Create Rewrite HintDb strings.
#[export] Hint Rewrite bytes_app bytes_unbytes unbytes_bytes slen_app slen_cons
  app_assoc_s app_nil_r_s app_nil_l_s app_cons_s : strings.

(** Every byte of [s] satisfies [p]. *)
Definition all_bytes (p : ascii → bool) (s : string) : bool := forallb p (bytes s).
Lemma all_bytes_app p a b :
  all_bytes p (a +:+ b) = all_bytes p a && all_bytes p b.
Proof. unfold all_bytes. by rewrite bytes_app, forallb_app. Qed.
Lemma all_bytes_cons p c s : all_bytes p (String c s) = p c && all_bytes p s.
Proof. done. Qed.
Lemma all_bytes_impl (p q : ascii → bool) s :
  (∀ c, p c = true → q c = true) → all_bytes p s = true → all_bytes q s = true.
Proof.
  intros Hpq. induction s as [|c s IH]; [done|].
  rewrite !all_bytes_cons. intros [? ?]%andb_prop. by rewrite Hpq, IH.
Qed.
(** [s] does not hold the byte [c]: [!strings.ContainsRune(s, c)]. *)
Definition no_byte (c : ascii) (s : string) : bool := all_bytes (λ x, negb (ceq x c)) s.

Definition sdrop (n : nat) (s : string) : string := unbytes (drop n (bytes s)).
Definition stake (n : nat) (s : string) : string := unbytes (take n (bytes s)).
Lemma stake_sdrop n s : stake n s +:+ sdrop n s = s.
Proof. unfold stake, sdrop. by rewrite <-unbytes_app, take_drop, unbytes_bytes. Qed.

Lemma sdrop_app a b : sdrop (slen a) (a +:+ b) = b.
Proof. unfold sdrop, slen. by rewrite bytes_app, drop_app_length, unbytes_bytes. Qed.
Lemma stake_app a b : stake (slen a) (a +:+ b) = a.
Proof. unfold stake, slen. by rewrite bytes_app, take_app_length, unbytes_bytes. Qed.
Lemma sdrop_1_cons c s : sdrop 1 (String c s) = s.
Proof. apply unbytes_bytes. Qed.
Lemma app_inj_s a b c : a +:+ b = a +:+ c → b = c.
Proof.
  intros H%(f_equal bytes). rewrite !bytes_app in H. apply app_inv_head in H. by apply bytes_inj.
Qed.

(** ** Prefixes, suffixes, substrings *)
Fixpoint cut_prefix (p s : string) : option string :=
  match p, s with
  | "", _ => Some s
  | String a p, String b s => if ceq a b then cut_prefix p s else None
  | String _ _, "" => None
  end.
Definition has_prefix (s p : string) : bool :=
  match cut_prefix p s with Some _ => true | None => false end.
Definition trim_prefix (s p : string) : string := default s (cut_prefix p s).

Definition srev (s : string) : string := unbytes (reverse (bytes s)).
Definition has_suffix (s p : string) : bool := has_prefix (srev s) (srev p).
Definition trim_suffix (s p : string) : string :=
  if has_suffix s p then stake (slen s - slen p) s else s.

(** [strings.Cut(s, sep)]: the text before and after the first [sep]. *)
Fixpoint cut (s sep : string) : option (string * string) :=
  match cut_prefix sep s with
  | Some after => Some ("", after)
  | None => match s with
            | "" => None
            | String c s' => prod_map (String c) id <$> cut s' sep
            end
  end.
Definition contains (s sub : string) : bool :=
  match cut s sub with Some _ => true | None => false end.

Lemma cut_prefix_app p s : cut_prefix p (p +:+ s) = Some s.
Proof.
  induction p as [|c p IH]; [done|].
  rewrite app_cons_s. cbn [cut_prefix]. by rewrite ceq_refl.
Qed.
Lemma cut_prefix_spec p s r : cut_prefix p s = Some r ↔ s = p +:+ r.
Proof.
  split; [|intros ->; apply cut_prefix_app].
  revert s; induction p as [|a p IH]; intros [|b s]; cbn [cut_prefix]; [naive_solver..|].
  destruct (ceq a b) eqn:E; [|done]. apply ceq_true in E as ->.
  intros ->%IH. by rewrite app_cons_s.
Qed.
Lemma has_prefix_spec s p : has_prefix s p = true ↔ ∃ r, s = p +:+ r.
Proof.
  unfold has_prefix. split.
  - destruct (cut_prefix p s) eqn:E; [|done]. apply cut_prefix_spec in E. eauto.
  - intros [r ->]. by rewrite cut_prefix_app.
Qed.
Lemma has_prefix_app p s : has_prefix (p +:+ s) p = true.
Proof. apply has_prefix_spec. eauto. Qed.
Lemma trim_prefix_app p s : trim_prefix (p +:+ s) p = s.
Proof. unfold trim_prefix. by rewrite cut_prefix_app. Qed.
Lemma has_suffix_spec s p : has_suffix s p = true ↔ ∃ r, s = r +:+ p.
Proof.
  unfold has_suffix. rewrite has_prefix_spec. unfold srev. split.
  - intros [r Hr]. exists (unbytes (reverse (bytes r))). apply (inj bytes).
    apply (f_equal bytes) in Hr. rewrite bytes_app, !bytes_unbytes in Hr.
    rewrite bytes_app, bytes_unbytes.
    rewrite <-(reverse_involutive (bytes s)), Hr, reverse_app, reverse_involutive. done.
  - intros [r ->]. exists (unbytes (reverse (bytes r))).
    by rewrite bytes_app, reverse_app, unbytes_app.
Qed.
Lemma trim_suffix_app s p : trim_suffix (s +:+ p) p = s.
Proof.
  unfold trim_suffix. rewrite (proj2 (has_suffix_spec _ _)) by eauto.
  unfold stake. rewrite slen_app, bytes_app. replace (slen s + slen p - slen p) with
    (length (bytes s)) by (unfold slen; lia).
  by rewrite take_app_length, unbytes_bytes.
Qed.

Lemma cut_spec s sep a b : cut s sep = Some (a, b) → s = a +:+ sep +:+ b.
Proof.
  revert a b; induction s as [|c s IH]; intros a b; cbn [cut].
  - destruct (cut_prefix sep "") eqn:E; [|done]. intros [= <- <-].
    by apply cut_prefix_spec in E.
  - destruct (cut_prefix sep (String c s)) eqn:E.
    { intros [= <- <-]. by apply cut_prefix_spec in E. }
    destruct (cut s sep) as [[a' b']|] eqn:E'; [|done]. intros [= <- <-].
    cbn. rewrite app_cons_s. f_equal. by apply IH.
Qed.
(** The first occurrence of a one-byte separator. *)
Lemma cut_char c a b : no_byte c a = true → cut (a +:+ String c b) (str1 c) = Some (a, b).
Proof.
  unfold str1. induction a as [|x a IH]; intros H.
  - rewrite app_nil_l_s. cbn [cut cut_prefix]. by rewrite ceq_refl.
  - rewrite app_cons_s. unfold no_byte in H. rewrite all_bytes_cons in H. bool_prop.
    cbn [cut cut_prefix].
    rewrite (proj2 (ceq_false c x)) by (apply ceq_false in H; congruence).
    rewrite IH by done. done.
Qed.
Lemma cut_char_none c a : no_byte c a = true → cut a (str1 c) = None.
Proof.
  unfold str1. induction a as [|x a IH]; intros H; [done|].
  unfold no_byte in H. rewrite all_bytes_cons in H. bool_prop. cbn [cut cut_prefix].
  rewrite (proj2 (ceq_false c x)) by (apply ceq_false in H; congruence).
  by rewrite IH.
Qed.
Lemma contains_spec s sub : contains s sub = true ↔ ∃ a b, s = a +:+ sub +:+ b.
Proof.
  unfold contains. split.
  - destruct (cut s sub) as [[a b]|] eqn:E; [|done]. apply cut_spec in E. eauto.
  - intros (a & b & ->). induction a as [|c a IH].
    + rewrite app_nil_l_s. destruct (sub +:+ b) eqn:E; cbn [cut]; rewrite <-E;
        by rewrite cut_prefix_app.
    + rewrite app_cons_s. cbn [cut]. destruct (cut_prefix _ _); [done|].
      by destruct (cut (a +:+ sub +:+ b) sub) as [[]|].
Qed.
Lemma contains_char c s : contains s (str1 c) = negb (no_byte c s).
Proof.
  unfold contains. destruct (no_byte c s) eqn:E; [by rewrite cut_char_none|].
  cbn [negb]. change (contains s (str1 c) = true). apply contains_spec.
  unfold no_byte, all_bytes in E. induction s as [|x s IH]; [done|].
  cbn in E. destruct (ceq x c) eqn:Ex; cbn in E.
  - apply ceq_true in Ex as ->. by exists "", s.
  - destruct (IH E) as (a & b & ->). exists (String x a), b. by rewrite app_cons_s.
Qed.

(** ** Splitting and joining *)

(** [strings.Split(s, c)] for a one-byte separator: always at least one
    piece. *)
Fixpoint split (c : ascii) (s : string) : list string :=
  match s with
  | "" => [""]
  | String a s' =>
      if ceq a c then "" :: split c s'
      else match split c s' with
           | [] => [str1 a]
           | h :: t => String a h :: t
           end
  end.

(** [strings.SplitN(s, c, n)], [n > 0]: at most [n] pieces, the last one
    unsplit. *)
Fixpoint split_n (n : nat) (c : ascii) (s : string) : list string :=
  match n with
  | O => []
  | S O => [s]
  | S n' => match cut s (str1 c) with
            | None => [s]
            | Some (a, b) => a :: split_n n' c b
            end
  end.

(** [strings.Join(l, sep)]. *)
Fixpoint join (sep : string) (l : list string) : string :=
  match l with
  | [] => ""
  | [x] => x
  | x :: l' => x +:+ sep +:+ join sep l'
  end.

Lemma join_cons sep x y l : join sep (x :: y :: l) = x +:+ sep +:+ join sep (y :: l).
Proof. done. Qed.

(** [strings.FieldsFunc(s, p)]: the maximal runs of bytes outside [p];
    [cur] is the run being read. *)
Fixpoint fields_go (p : ascii → bool) (cur : string) (s : string) : list string :=
  match s with
  | "" => if seqb cur "" then [] else [cur]
  | String c s' =>
      if p c then (if seqb cur "" then [] else [cur]) ++ fields_go p "" s'
      else fields_go p (cur +:+ str1 c) s'
  end.
Definition fields_func (p : ascii → bool) (s : string) : list string := fields_go p "" s.
Definition fields : string → list string := fields_func is_space.

(** ** Trimming and replacing *)
Fixpoint trim_left (p : ascii → bool) (s : string) : string :=
  match s with
  | String c s' => if p c then trim_left p s' else s
  | "" => ""
  end.
Fixpoint trim_right (p : ascii → bool) (s : string) : string :=
  match s with
  | "" => ""
  | String c s' =>
      match trim_right p s' with
      | "" => if p c then "" else str1 c
      | r => String c r
      end
  end.
Definition trim (p : ascii → bool) (s : string) : string := trim_right p (trim_left p s).
Definition trim_space : string → string := trim is_space.
(** A cutset, as the byte predicate [strings.Trim*] uses. *)
Definition in_set (set : string) (c : ascii) : bool := existsb (ceq c) (bytes set).

(** [strings.ReplaceAll(s, c, new)] for a one-byte [c]. *)
Fixpoint replace_char (c : ascii) (new s : string) : string :=
  match s with
  | "" => ""
  | String a s' => (if ceq a c then new else str1 a) +:+ replace_char c new s'
  end.
(** [strings.Replace(s, old, new, 1)]. *)
Definition replace_1 (old new s : string) : string :=
  match cut s old with
  | None => s
  | Some (a, b) => a +:+ new +:+ b
  end.
Fixpoint str_map (f : ascii → ascii) (s : string) : string :=
  match s with "" => "" | String c s' => String (f c) (str_map f s') end.
(** [strings.Repeat(c, n)]. *)
Fixpoint repeat_char (c : ascii) (n : nat) : string :=
  match n with O => "" | S n' => String c (repeat_char c n') end.

Lemma split_cons_ne c s : split c s ≠ [].
Proof. destruct s as [|a s]; [done|]. cbn. case_match; [done|]. by case_match. Qed.
(** No piece holds the separator. *)
Lemma split_no_sep c s : Forall (λ x, no_byte c x = true) (split c s).
Proof.
  induction s as [|a s IH]; cbn [split]; [by repeat constructor|].
  destruct (ceq a c) eqn:E; [by constructor|].
  destruct (split c s) as [|h t]; [repeat constructor; unfold no_byte; cbn; by rewrite E|].
  inversion IH; subst. constructor; [|done].
  unfold no_byte in *. rewrite all_bytes_cons, E. done.
Qed.
Lemma split_nosep_id c s : no_byte c s = true → split c s = [s].
Proof.
  induction s as [|a s IH]; [done|]. unfold no_byte. rewrite all_bytes_cons. intros H.
  bool_prop. cbn. rewrite H. by rewrite IH.
Qed.
Lemma split_app_sep c a s :
  no_byte c a = true → split c (a +:+ String c s) = a :: split c s.
Proof.
  induction a as [|x a IH]; intros H.
  - rewrite app_nil_l_s. cbn. by rewrite ceq_refl.
  - unfold no_byte in H. rewrite all_bytes_cons in H. bool_prop.
    rewrite app_cons_s. cbn [split]. rewrite H. by rewrite IH.
Qed.
(** [Join] undoes [Split], and [Split] undoes [Join] on pieces without the
    separator. *)
Lemma join_split c s : join (str1 c) (split c s) = s.
Proof.
  induction s as [|a s IH]; [done|]. cbn [split].
  destruct (ceq a c) eqn:E.
  - apply ceq_true in E as ->. destruct (split c s) as [|h t] eqn:Es.
    { by apply split_cons_ne in Es. }
    change (join _ ("" :: h :: t)) with ("" +:+ str1 c +:+ join (str1 c) (h :: t)).
    by rewrite IH.
  - destruct (split c s) as [|h t] eqn:Es; [by apply split_cons_ne in Es|].
    destruct t; rewrite <-IH; [done|]. done.
Qed.
Lemma split_join c l :
  l ≠ [] → Forall (λ x, no_byte c x = true) l → split c (join (str1 c) l) = l.
Proof.
  intros Hne H. induction H as [|x l Hx Hl IH]; [done|].
  destruct l as [|y l]; [by apply split_nosep_id|].
  rewrite join_cons. unfold str1 at 1. rewrite app_cons_s, app_nil_l_s.
  rewrite split_app_sep by done. by rewrite IH.
Qed.

(** Runs of [FieldsFunc] hold no separator and are not empty. *)
Lemma fields_go_clean p cur s :
  all_bytes (λ c, negb (p c)) cur = true →
  Forall (λ w, all_bytes (λ c, negb (p c)) w = true ∧ w ≠ "") (fields_go p cur s).
Proof.
  revert cur; induction s as [|c s IH]; intros cur Hc; cbn [fields_go].
  - destruct (seqb cur "") eqn:E; repeat constructor; [done|]. by apply seqb_false.
  - destruct (p c) eqn:E.
    + apply Forall_app. split; [|by apply IH].
      destruct (seqb cur "") eqn:E'; repeat constructor; [done|]. by apply seqb_false.
    + apply IH. rewrite all_bytes_app, Hc. cbn. by rewrite E.
Qed.
Lemma fields_go_run p cur w s :
  all_bytes (λ c, negb (p c)) w = true →
  fields_go p cur (w +:+ s) = fields_go p (cur +:+ w) s.
Proof.
  revert cur; induction w as [|c w IH]; intros cur H.
  - by rewrite app_nil_l_s, app_nil_r_s.
  - rewrite all_bytes_cons in H. bool_prop. rewrite app_cons_s. cbn [fields_go].
    rewrite H, IH by done. by rewrite app_assoc_s.
Qed.
(** Words joined by a separator byte come back. *)
Lemma fields_join p c l :
  p c = true →
  Forall (λ w, all_bytes (λ c, negb (p c)) w = true ∧ w ≠ "") l →
  fields_func p (join (str1 c) l) = l.
Proof.
  intros Hp H. unfold fields_func. induction H as [|w l [Hw Hne] Hl IH]; [done|].
  assert (seqb w "" = false) as E by by apply seqb_false.
  destruct l as [|w' l].
  - cbn [join]. rewrite <-(app_nil_r_s w) at 1. rewrite fields_go_run by done.
    cbn [fields_go]. by rewrite app_nil_l_s, E.
  - rewrite join_cons, fields_go_run by done. unfold str1 at 1.
    rewrite app_cons_s, !app_nil_l_s. cbn [fields_go]. rewrite Hp, E, IH. done.
Qed.

Lemma trim_left_id p s : (∀ c s', s = String c s' → p c = false) → trim_left p s = s.
Proof. destruct s as [|c s]; [done|]. intros H. cbn. by rewrite (H c s). Qed.
Lemma trim_right_all p w s : all_bytes p s = true → trim_right p (w +:+ s) = trim_right p w.
Proof.
  intros H. induction w as [|c w IH]; [|rewrite app_cons_s; cbn; by rewrite IH].
  rewrite app_nil_l_s. induction s as [|c s IH]; [done|].
  rewrite all_bytes_cons in H. bool_prop. cbn. rewrite IH by done. by rewrite H.
Qed.
Lemma trim_right_snoc p s c : p c = false → trim_right p (s +:+ str1 c) = s +:+ str1 c.
Proof.
  intros H. induction s as [|a s IH]; [rewrite app_nil_l_s; cbn; by rewrite H|].
  rewrite app_cons_s. cbn [trim_right]. rewrite IH. by destruct s.
Qed.

(** ** Numbers: [strconv] and the verbs of [fmt] *)

(** The digit [d < 16], in lower or upper case. *)
Definition digit_char (upper : bool) (d : N) : ascii :=
  ascii_of_N (if (d <? 10)%N then 48 + d else (if upper then 55 else 87) + d)%N.
Definition digit_val (c : ascii) : option N :=
  if in_range "0" "9" c then Some (code c - 48)%N
  else if in_range "a" "z" c then Some (code c - 87)%N
  else if in_range "A" "Z" c then Some (code c - 55)%N
  else None.

(** Digits of [n] in base [b], most significant first; [fuel] bounds their
    number and [S (N.size n)] is enough for any base from 2 on. *)
Fixpoint radix_go (fuel : nat) (upper : bool) (b n : N) (acc : string) : string :=
  match fuel with
  | O => acc
  | S fuel' =>
      let acc' := String (digit_char upper (n mod b)%N) acc in
      if (n / b =? 0)%N then acc' else radix_go fuel' upper b (n / b)%N acc'
  end.
Definition radix (upper : bool) (b n : N) : string :=
  radix_go (S (N.to_nat (N.size n))) upper b n "".

(** Value of a digit string, [None] on a byte that is no digit of base [b]. *)
Fixpoint unradix_go (b acc : N) (s : string) : option N :=
  match s with
  | "" => Some acc
  | String c s' =>
      match digit_val c with
      | Some d => if (d <? b)%N then unradix_go b (acc * b + d)%N s' else None
      | None => None
      end
  end.
Definition unradix (b : N) (s : string) : option N :=
  if seqb s "" then None else unradix_go b 0 s.

Definition int_min : Z := - 2 ^ 63.
Definition int_max : Z := 2 ^ 63 - 1.
Definition wrap64 (z : Z) : Z := (z mod 2 ^ 64)%Z.
(** A result of [int64] arithmetic. *)
Definition int64 (z : Z) : Z := ((z + 2 ^ 63) mod 2 ^ 64 - 2 ^ 63)%Z.

(** [strconv.Itoa] and [%d]. *)
Definition itoa (z : Z) : string :=
  if (z <? 0)%Z then "-" +:+ radix false 10 (Z.to_N (- z))
  else radix false 10 (Z.to_N z).
(** [strconv.ParseInt(s, 10, 64)] and [strconv.Atoi]: an optional sign and
    decimal digits in range; [None] is the error. *)
Definition parse_int (s : string) : option Z :=
  let '(neg, digits) :=
    match s with
    | String "-" r => (true, r)
    | String "+" r => (false, r)
    | _ => (false, s)
    end in
  match unradix 10 digits with
  | None => None
  | Some n =>
      let z := if (neg : bool) then (- Z.of_N n)%Z else Z.of_N n in
      if (int_min <=? z)%Z && (z <=? int_max)%Z then Some z else None
  end.
Definition atoi : string → option Z := parse_int.
(** [n, _ := strconv.Atoi(s)]: what the program sees when it drops the error.
    A syntax error gives 0, an out of range value the nearest bound. *)
Definition atoi_lossy (s : string) : Z :=
  let '(neg, digits) :=
    match s with
    | String "-" r => (true, r)
    | String "+" r => (false, r)
    | _ => (false, s)
    end in
  match unradix 10 digits with
  | None => 0%Z
  | Some n => Z.max int_min (Z.min int_max
                (if (neg : bool) then (- Z.of_N n)%Z else Z.of_N n))
  end.
(** [strconv.ParseUint(s, 16, 64)]. *)
Definition parse_hex (s : string) : option Z :=
  match unradix 16 s with
  | Some n => if (n <? 2 ^ 64)%N then Some (Z.of_N n) else None
  | None => None
  end.
(** [%x] and [%#x] of an unsigned value. *)
Definition fmt_x (z : Z) : string := radix false 16 (Z.to_N z).
Definition fmt_hash_x (z : Z) : string := "0x" +:+ fmt_x z.
(** Padding to a width: [%8d], [%08X], [%-22s]. *)
Definition pad_left (c : ascii) (w : nat) (s : string) : string :=
  repeat_char c (w - slen s) +:+ s.
Definition pad_right_to (w : nat) (s : string) : string :=
  s +:+ repeat_char " " (w - slen s).

Lemma digit_val_char u d : (d < 16)%N → digit_val (digit_char u d) = Some d.
Proof.
  intros H. assert (Forall (λ d, digit_val (digit_char u d) = Some d)
    (N.of_nat <$> seq 0 16)) as Hall by (destruct u; repeat constructor).
  rewrite Forall_forall in Hall. apply Hall.
  apply list_elem_of_fmap. exists (N.to_nat d). split; [lia|]. apply elem_of_seq. lia.
Qed.

Lemma radix_fuel_step b n fuel :
  (2 <= b)%N → (n < 2 ^ N.of_nat (S fuel))%N → (n / b < 2 ^ N.of_nat fuel)%N.
Proof.
  intros Hb Hn. apply N.Div0.div_lt_upper_bound.
  rewrite Nat2N.inj_succ, N.pow_succ_r' in Hn.
  eapply N.lt_le_trans; [exact Hn|]. by apply N.mul_le_mono_r.
Qed.
Lemma unradix_go_radix fuel u b n acc :
  (2 <= b <= 16)%N → (n < 2 ^ N.of_nat fuel)%N → fuel ≠ 0%nat →
  unradix_go b 0 (radix_go fuel u b n acc) = unradix_go b n acc.
Proof.
  intros Hb. revert n acc. induction fuel as [|fuel IH]; intros n acc Hf Hne; [done|].
  cbn [radix_go]. assert (n mod b < b)%N as Hm by (apply N.mod_lt; lia).
  pose proof (N.div_mod' n b) as Hdm. pose proof (radix_fuel_step b n fuel ltac:(lia) Hf) as Hs.
  destruct (n / b =? 0)%N eqn:E.
  - apply N.eqb_eq in E. cbn [unradix_go]. rewrite digit_val_char by lia.
    rewrite (proj2 (N.ltb_lt _ _) Hm). f_equal. lia.
  - apply N.eqb_neq in E. rewrite IH; [|done|].
    + cbn [unradix_go]. rewrite digit_val_char by lia.
      rewrite (proj2 (N.ltb_lt _ _) Hm). f_equal. lia.
    + intros ->. by apply E, N.lt_1_r.
Qed.
Lemma radix_go_ne fuel u b n acc : fuel ≠ 0%nat → radix_go fuel u b n acc ≠ "".
Proof.
  destruct fuel as [|fuel]; [done|]. intros _. revert n acc.
  induction fuel as [|fuel IH]; intros n acc; cbn [radix_go]; case_match; try done.
  cbn [radix_go] in IH. apply IH.
Qed.
Lemma size_fuel n : (n < 2 ^ N.of_nat (S (N.to_nat (N.size n))))%N.
Proof.
  rewrite Nat2N.inj_succ, N2Nat.id, N.pow_succ_r'. pose proof (N.size_gt n). lia.
Qed.
(** Parsing a printed number gives it back. *)
Lemma unradix_radix u b n : (2 <= b <= 16)%N → unradix b (radix u b n) = Some n.
Proof.
  intros Hb. unfold unradix, radix. rewrite (proj2 (seqb_false _ _)) by by apply radix_go_ne.
  rewrite unradix_go_radix; [done|done|apply size_fuel|done].
Qed.

(** The digits of a printed number. *)
Lemma radix_go_all p fuel u b n acc :
  (2 <= b)%N → (∀ d, (d < b)%N → p (digit_char u d) = true) →
  all_bytes p acc = true → all_bytes p (radix_go fuel u b n acc) = true.
Proof.
  intros Hb Hp. revert n acc. induction fuel as [|fuel IH]; intros n acc Hacc; [done|].
  cbn [radix_go]. assert (all_bytes p (String (digit_char u (n mod b)) acc) = true).
  { rewrite all_bytes_cons, Hp, Hacc; [done|]. apply N.mod_lt. lia. }
  case_match; [done|]. by apply IH.
Qed.
Lemma radix10_digits u n : all_bytes is_digit (radix u 10 n) = true.
Proof.
  apply radix_go_all; [lia| |done]. intros d Hd.
  assert (Forall (λ d, is_digit (digit_char u d) = true) (N.of_nat <$> seq 0 10)) as Hall
    by (destruct u; repeat constructor).
  rewrite Forall_forall in Hall. apply Hall.
  apply list_elem_of_fmap. exists (N.to_nat d). split; [lia|]. apply elem_of_seq. lia.
Qed.
Lemma radix_ne u b n : radix u b n ≠ "".
Proof. by apply radix_go_ne. Qed.

Lemma digits_no_sign s r :
  all_bytes is_digit s = true → s ≠ String "-" r ∧ s ≠ String "+" r.
Proof. intros H. split; intros ->; discriminate H. Qed.

Lemma parse_int_digits n :
  (Z.of_N n <= int_max)%Z → parse_int (radix false 10 n) = Some (Z.of_N n).
Proof.
  intros Hn. pose proof (radix10_digits false n) as Hd.
  pose proof (unradix_radix false 10 n ltac:(lia)) as Hu.
  unfold parse_int. destruct (radix false 10 n) as [|c r] eqn:E; [by apply radix_ne in E|].
  assert (∀ A (x y z : A), match c with "-"%char => x | "+"%char => y | _ => z end = z) as Hc.
  { intros A x y z. rewrite all_bytes_cons in Hd. apply andb_prop in Hd as [Hd _].
    destruct c as [[] [] [] [] [] [] [] []]; done. }
  rewrite Hc, Hu. unfold int_min, int_max in *.
  rewrite (proj2 (Z.leb_le (-2^63) _)) by lia. rewrite (proj2 (Z.leb_le _ _)) by lia. done.
Qed.
Lemma parse_int_minus r n :
  unradix 10 r = Some n → (Z.of_N n <= - int_min)%Z →
  parse_int (String "-" r) = Some (- Z.of_N n)%Z.
Proof.
  intros Hu Hn. unfold parse_int. rewrite Hu. unfold int_min, int_max in *.
  rewrite (proj2 (Z.leb_le (-2^63) _)) by lia. by rewrite (proj2 (Z.leb_le _ _)) by lia.
Qed.
(** [Atoi] undoes [Itoa] on every [int]. *)
Lemma atoi_itoa z : (int_min <= z <= int_max)%Z → atoi (itoa z) = Some z.
Proof.
  intros Hz. unfold atoi, itoa. destruct (z <? 0)%Z eqn:E.
  - apply Z.ltb_lt in E. change ("-" +:+ ?x) with (String "-" ("" +:+ x)).
    rewrite app_nil_l_s, (parse_int_minus _ (Z.to_N (- z)));
      [f_equal; lia|by apply unradix_radix|unfold int_min in *; lia].
  - apply Z.ltb_ge in E. rewrite parse_int_digits; rewrite Z2N.id by lia; [done|lia].
Qed.
(** [%d] of a count is digits, as the regular expressions of the readers
    expect. *)
Lemma itoa_digits z : (0 <= z)%Z → all_bytes is_digit (itoa z) = true.
Proof.
  intros H. unfold itoa. rewrite (proj2 (Z.ltb_ge _ _)) by lia. apply radix10_digits.
Qed.
Lemma itoa_ne z : itoa z ≠ "".
Proof. unfold itoa. case_match; [done|]. apply radix_ne. Qed.

Lemma slen_repeat c n : slen (repeat_char c n) = n.
Proof. induction n as [|n IH]; [done|]. cbn [repeat_char]. by rewrite slen_cons, IH. Qed.
Lemma slen_pad_left c w s : slen (pad_left c w s) = (w `max` slen s)%nat.
Proof. unfold pad_left. rewrite slen_app, slen_repeat. lia. Qed.

(** ** Byte order: [strings.Compare] and [<] on strings *)
Definition str_less (a b : string) : bool :=
  match String.compare a b with Lt => true | _ => false end.
Lemma str_less_spec a b : str_less a b = false ↔ String.le b a.
Proof.
  unfold str_less, String.le, String.leb.
  rewrite (String.compare_antisym b a).
  destruct (String.compare a b); cbn; naive_solver.
Qed.
#[export] Instance str_less_strict : StrictWeak str_less.
Proof.
  split.
  - intros a b H. rewrite str_less_spec. destruct (total String.le a b) as [Hl|Hl]; [done|].
    apply str_less_spec in Hl. congruence.
  - intros a b c. rewrite !str_less_spec. intros ??. by etrans.
Qed.
Lemma str_less_total a b : str_less a b = false → str_less b a = false → a = b.
Proof. rewrite !str_less_spec. intros. by apply (anti_symm String.le). Qed.
(** [sort.Strings]. *)
Definition sort_strings : list string → list string := sort_stable str_less.

(** ** bufio.Scanner with ScanLines

    The lines of a text without their newline and one carriage return before
    it; a line of [max] bytes or more ends the scan with [ErrTooLong], the
    [false] of the result. *)
Definition text_lines (s : string) : list string :=
  let l := split ch_nl s in
  match last l with Some "" => take (length l - 1) l | _ => l end.
Definition drop_cr (s : string) : string := trim_suffix s (str1 ch_cr).
Fixpoint scan_lines_go (max : nat) (l : list string) : list string * bool :=
  match l with
  | [] => ([], true)
  | x :: l =>
      if max <=? slen x then ([], false)
      else let '(r, ok) := scan_lines_go max l in (drop_cr x :: r, ok)
  end.
Definition scan_lines (max : nat) (s : string) : list string * bool :=
  scan_lines_go max (text_lines s).
(** Lines written one after the other, and scanned back. *)
Definition unlines (l : list string) : string := foldr (λ x s, x +:+ nl +:+ s) "" l.
Lemma split_unlines l : Forall (λ x, no_byte ch_nl x = true) l → split ch_nl (unlines l) = l ++ [""].
Proof.
  induction 1 as [|x l Hx _ IH]; [done|]. cbn [unlines foldr app]. fold (unlines l). unfold nl at 1, str1.
  by rewrite app_cons_s, app_nil_l_s, split_app_sep, IH.
Qed.
Lemma scan_unlines max l :
  Forall (λ x, no_byte ch_nl x = true ∧ slen x < max) l → scan_lines max (unlines l) = (drop_cr <$> l, true).
Proof.
  intros H. unfold scan_lines, text_lines.
  rewrite split_unlines by (eapply Forall_impl; [exact H|]; by intros ? [? _]).
  rewrite last_snoc, length_app. cbn [length]. rewrite Nat.add_sub, take_app_length.
  induction H as [|x l [_ Hx] _ IH]; [done|]. cbn [scan_lines_go].
  rewrite (proj2 (Nat.leb_gt _ _)) by done. by rewrite IH.
Qed.
Lemma drop_cr_id s : no_byte ch_cr s = true → drop_cr s = s.
Proof.
  intros H. unfold drop_cr, trim_suffix. destruct (has_suffix s (str1 ch_cr)) eqn:E; [|done].
  apply has_suffix_spec in E as [r ->]. unfold no_byte in H. rewrite all_bytes_app in H.
  apply andb_prop in H as [_ H]. discriminate H.
Qed.
(** [bufio.MaxScanTokenSize]. *)
Definition max_token : nat := Z.to_nat 65536.
#[global] Opaque max_token.

(** [strconv.Quote] on ASCII text, the %q of [fmt]. *)
Definition quote_byte (c : ascii) : string :=
  if ceq c ch_dq || ceq c "\" then String "\" (str1 c)
  else if ceq c ch_nl then "\n" else if ceq c ch_tab then "\t" else if ceq c ch_cr then "\r"
  else if ceq c "007" then "\a" else if ceq c "008" then "\b"
  else if ceq c "012" then "\f" else if ceq c "011" then "\v"
  else if in_range " " "~" c then str1 c
  else "\x" +:+ pad_left "0" 2 (radix false 16 (code c)).
Definition quote (s : string) : string :=
  dq +:+ foldr (λ c r, quote_byte c +:+ r) "" (bytes s) +:+ dq.
