(* ===== verification/Regexp.v ===== *)
(** * Go's [regexp] package, as the program uses it

    A parser for the RE2 syntax of the program's patterns, so that every model
    carries the source's own pattern text, and the leftmost-first backtracking
    matcher with captures whose result Go's automata reproduce.  The matcher is
    proved sound and complete against the relation [Match], the declarative
    reading of a pattern, and comes with the equations the clients use on
    symbolic text. *)
From S2P Require Import Prelude GoStrings.
From Stdlib Require Import Ascii.

(** ** Syntax *)

(** A byte class: ranges, possibly complemented. *)
Record cclass := CClass { cc_neg : bool; cc_ranges : list (ascii * ascii) }.
Definition in_class (k : cclass) (c : ascii) : bool :=
  xorb (cc_neg k) (existsb (λ '(lo, hi), in_range lo hi c) (cc_ranges k)).

Inductive re :=
  | REps
  | RClass (k : cclass)
  | RCat (a b : re)
  | RAlt (a b : re)
  | RStar (a : re)
  | RGroup (n : nat) (a : re)
  | RBegin (* ^ *) | RBeginLine (* ^ under (?m) *)
  | REnd (* $ *) | REndLine (* $ under (?m) *)
  | RWordB (* \b *).

(** Flags of a leading [(?i)] or [(?m)]. *)
Record rflags := RFlags { fl_i : bool; fl_m : bool }.

Definition is_lower (c : ascii) : bool := in_range "a" "z" c.
Definition is_upper (c : ascii) : bool := in_range "A" "Z" c.
Definition is_word (c : ascii) : bool :=
  is_lower c || is_upper c || is_digit c || ceq c "_".
Definition to_lower (c : ascii) : ascii :=
  if is_upper c then ascii_of_N (code c + 32) else c.
Definition to_upper (c : ascii) : ascii :=
  if is_lower c then ascii_of_N (code c - 32) else c.

(** Case folding of a class: the ranges of letters in the other case too. *)
Definition fold_range (r : ascii * ascii) : list (ascii * ascii) :=
  let '(lo, hi) := r in
  r :: (if is_lower lo && is_lower hi then [(to_upper lo, to_upper hi)]
        else if is_upper lo && is_upper hi then [(to_lower lo, to_lower hi)] else []).
Definition mk_class (fl : rflags) (neg : bool) (rs : list (ascii * ascii)) : re :=
  RClass (CClass neg (if fl_i fl then rs ≫= fold_range else rs)).
Definition lit (fl : rflags) (c : ascii) : re := mk_class fl false [(c, c)].

Definition digit_ranges : list (ascii * ascii) := [("0", "9")]%char.
Definition space_ranges : list (ascii * ascii) :=
  [("009", "010"); ("012", "013"); (" ", " ")]%char.
Definition word_ranges : list (ascii * ascii) :=
  [("0", "9"); ("A", "Z"); ("_", "_"); ("a", "z")]%char.

(** ** Parser *)

(** One item of a bracketed class: its ranges and what follows. *)
Definition p_class_atom (s : string) : option (list (ascii * ascii) * bool * string) :=
  match s with
  | String "\" (String c r) =>
      if ceq c "d" then Some (digit_ranges, false, r)
      else if ceq c "s" then Some (space_ranges, false, r)
      else if ceq c "w" then Some (word_ranges, false, r)
      else if is_word c then None else Some ([(c, c)], true, r)
  | String c r => Some ([(c, c)], true, r)
  | "" => None
  end.
Fixpoint p_class (fuel : nat) (s : string) : option (list (ascii * ascii) * string) :=
  match fuel with
  | O => None
  | S fuel =>
      match s with
      | String "]" r => Some ([], r)
      | _ =>
          match p_class_atom s with
          | None => None
          | Some (rs, single, r) =>
              let range :=
                match rs, single, r with
                | [(lo, _)], true, String "-" (String hi r') =>
                    if ceq hi "]" then None else Some ([(lo, hi)], r')
                | _, _, _ => None
                end in
              let '(rs, r) := default (rs, r) range in
              match p_class fuel r with
              | Some (rs', r') => Some (rs ++ rs', r')
              | None => None
              end
          end
      end
  end.

Fixpoint rep_n (n : nat) (a : re) : re :=
  match n with O => REps | S O => a | S n => RCat a (rep_n n a) end.
Fixpoint opt_n (n : nat) (a : re) : re :=
  match n with O => REps | S n => RAlt (RCat a (opt_n n a)) REps end.
Definition rcat (a b : re) : re :=
  match a, b with REps, _ => b | _, REps => a | _, _ => RCat a b end.

(** A counted repetition [{n}], [{n,}], [{n,m}]. *)
Definition p_count (a : re) (s : string) : option (re * string) :=
  match cut s "}" with
  | None => None
  | Some (body, r) =>
      match cut body "," with
      | None => match unradix 10 body with
                | Some n => Some (rep_n (N.to_nat n) a, r)
                | None => None
                end
      | Some (lo, hi) =>
          match unradix 10 lo, unradix 10 hi with
          | Some n, Some m =>
              if (n <=? m)%N
              then Some (rcat (rep_n (N.to_nat n) a) (opt_n (N.to_nat (m - n)) a), r)
              else None
          | Some n, None =>
              if seqb hi "" then Some (rcat (rep_n (N.to_nat n) a) (RStar a), r) else None
          | None, _ => None
          end
      end
  end.
Definition p_quant (a : re) (s : string) : re * string :=
  match s with
  | String c r =>
      if ceq c "*" then (RStar a, r)
      else if ceq c "+" then (RCat a (RStar a), r)
      else if ceq c "?" then (RAlt a REps, r)
      else if ceq c "{" then default (a, s) (p_count a r)
      else (a, s)
  | "" => (a, s)
  end.

Definition p_escape (fl : rflags) (c : ascii) : option re :=
  if ceq c "d" then Some (mk_class fl false digit_ranges)
  else if ceq c "s" then Some (mk_class fl false space_ranges)
  else if ceq c "S" then Some (mk_class fl true space_ranges)
  else if ceq c "w" then Some (mk_class fl false word_ranges)
  else if ceq c "b" then Some RWordB
  else if ceq c "n" then Some (lit fl ch_nl)
  else if ceq c "t" then Some (lit fl ch_tab)
  else if is_word c then None
  else Some (lit fl c).

(** [g] is the number of the next capturing group.  Every call consumes fuel;
    a pattern of [n] bytes needs at most [3 * n + 3] of it. *)
Fixpoint p_alt (fuel : nat) (fl : rflags) (g : nat) (s : string)
    : option (re * nat * string) :=
  match fuel with
  | O => None
  | S fuel =>
      match p_cat fuel fl g s with
      | Some (a, g', String "|" r) =>
          match p_alt fuel fl g' r with
          | Some (b, g'', r') => Some (RAlt a b, g'', r')
          | None => None
          end
      | res => res
      end
  end
with p_cat (fuel : nat) (fl : rflags) (g : nat) (s : string)
    : option (re * nat * string) :=
  match fuel with
  | O => None
  | S fuel =>
      match s with
      | "" => Some (REps, g, s)
      | String c _ =>
          if ceq c "|" || ceq c ")" then Some (REps, g, s)
          else match p_atom fuel fl g s with
               | Some (a, g', r) =>
                   let '(a', r') := p_quant a r in
                   match p_cat fuel fl g' r' with
                   | Some (b, g'', r'') => Some (rcat a' b, g'', r'')
                   | None => None
                   end
               | None => None
               end
      end
  end
with p_atom (fuel : nat) (fl : rflags) (g : nat) (s : string)
    : option (re * nat * string) :=
  match fuel with
  | O => None
  | S fuel =>
      match s with
      | "" => None
      | String c r =>
          if ceq c "(" then
            match cut_prefix "?:" r with
            | Some r' =>
                match p_alt fuel fl g r' with
                | Some (a, g', String ")" r'') => Some (a, g', r'')
                | _ => None
                end
            | None =>
                if has_prefix r "?" then None else
                match p_alt fuel fl (S g) r with
                | Some (a, g', String ")" r'') => Some (RGroup g a, g', r'')
                | _ => None
                end
            end
          else if ceq c "[" then
            let '(neg, r') := match r with
                              | String "^" r' => (true, r')
                              | _ => (false, r)
                              end in
            match p_class (S (slen r)) r' with
            | Some (rs, r'') => Some (mk_class fl neg rs, g, r'')
            | None => None
            end
          else if ceq c "." then Some (RClass (CClass true [(ch_nl, ch_nl)]), g, r)
          else if ceq c "^" then Some (if fl_m fl then RBeginLine else RBegin, g, r)
          else if ceq c "$" then Some (if fl_m fl then REndLine else REnd, g, r)
          else if ceq c "\" then
            match r with
            | String e r' => (λ a, (a, g, r')) <$> p_escape fl e
            | "" => None
            end
          else if ceq c "*" || ceq c "+" || ceq c "?" then None
          else Some (lit fl c, g, r)
      end
  end.

(** [regexp.Compile]; [None] is its error. *)
Definition compile (pat : string) : option re :=
  let '(fl, p) :=
    match cut_prefix "(?i)" pat with
    | Some p => (RFlags true false, p)
    | None => match cut_prefix "(?m)" pat with
              | Some p => (RFlags false true, p)
              | None => (RFlags false false, pat)
              end
    end in
  match p_alt (3 * slen p + 3) fl 1 p with
  | Some (r, _, "") => Some r
  | _ => None
  end.
(** [regexp.MustCompile]: the patterns in the source all compile, which
    [compile_ok] checks where they are declared. *)
Definition must_compile (pat : string) : re := default REps (compile pat).

(** ** Matching *)

(** A position: the byte before it, the text after it, and the captures so
    far, the latest first. *)
Record mst := Mst { m_prev : option ascii; m_rest : string; m_caps : list (nat * string) }.

Definition set_cap (n : nat) (v : string) (st : mst) : mst :=
  Mst (m_prev st) (m_rest st) ((n, v) :: m_caps st).
(** The text between two positions. *)
Definition between (st st' : mst) : string :=
  stake (slen (m_rest st) - slen (m_rest st')) (m_rest st).

Definition word_opt (o : option ascii) : bool :=
  match o with Some c => is_word c | None => false end.
Definition head_opt (s : string) : option ascii :=
  match s with "" => None | String c _ => Some c end.

(** The assertions. *)
Definition holds_at (r : re) (st : mst) : bool :=
  match r with
  | RBegin => match m_prev st with None => true | Some _ => false end
  | RBeginLine => match m_prev st with None => true | Some c => ceq c ch_nl end
  | REnd => seqb (m_rest st) ""
  | REndLine => match m_rest st with "" => true | String c _ => ceq c ch_nl end
  | RWordB => xorb (word_opt (m_prev st)) (word_opt (head_opt (m_rest st)))
  | _ => true
  end.

Section Matcher.
Context {R : Type}.

(** [loop] of [RStar]: greedy, each iteration consuming some text; [n]
    bounds the iterations left and the length of the rest is enough. *)
Fixpoint star_loop (body : mst → (mst → option R) → option R) (n : nat) (st : mst)
    (k : mst → option R) : option R :=
  match n with
  | O => k st
  | S n =>
      match body st (λ st', if slen (m_rest st') <? slen (m_rest st)
                            then star_loop body n st' k else None) with
      | Some x => Some x
      | None => k st
      end
  end.

Fixpoint m (r : re) (st : mst) (k : mst → option R) : option R :=
  match r with
  | REps => k st
  | RClass cl =>
      match m_rest st with
      | "" => None
      | String c s => if in_class cl c then k (Mst (Some c) s (m_caps st)) else None
      end
  | RCat a b => m a st (λ st', m b st' k)
  | RAlt a b => match m a st k with Some x => Some x | None => m b st k end
  | RStar a => star_loop (m a) (slen (m_rest st)) st k
  | RGroup n a => m a st (λ st', k (set_cap n (between st st') st'))
  | _ => if holds_at r st then k st else None
  end.
End Matcher.

(** A successful match: the text before it, its own, the text after it and
    the captures. *)
Record mres := Mres { r_before : string; r_text : string; r_end : mst }.
Definition m_at (r : re) (st : mst) : option mst := m r st Some.

(** The leftmost match from a position on; [before] is what was skipped. *)
Fixpoint find_from (r : re) (prev : option ascii) (before s : string) : option mres :=
  let st := Mst prev s [] in
  match m_at r st with
  | Some st' => Some (Mres before (between st st') st')
  | None => match s with
            | "" => None
            | String c s' => find_from r (Some c) (before +:+ str1 c) s'
            end
  end.
(** [re.FindStringSubmatch(s)]. *)
Definition find (r : re) (s : string) : option mres := find_from r None "" s.
(** [m[n]] of a match: the last text group [n] captured, or "". *)
Fixpoint cap_lookup (n : nat) (l : list (nat * string)) : option string :=
  match l with
  | [] => None
  | (k, v) :: l => if Nat.eqb k n then Some v else cap_lookup n l
  end.
Definition group (n : nat) (x : mres) : string :=
  match n with
  | O => r_text x
  | _ => default "" (cap_lookup n (m_caps (r_end x)))
  end.
Definition is_match (r : re) (s : string) : bool :=
  match find r s with Some _ => true | None => false end.
(** [re.ReplaceAllStringFunc(s, f)].  The patterns the program replaces match
    no empty text; an empty match is skipped over one byte. *)
Fixpoint replace_go (fuel : nat) (r : re) (f : mres → string) (prev : option ascii)
    (s : string) : string :=
  match fuel with
  | O => s
  | S fuel =>
      match find_from r prev "" s with
      | None => s
      | Some x =>
          r_before x +:+
          (if seqb (r_text x) "" then
             match m_rest (r_end x) with
             | "" => f x
             | String c s' => f x +:+ String c (replace_go fuel r f (Some c) s')
             end
           else f x +:+ replace_go fuel r f (m_prev (r_end x)) (m_rest (r_end x)))
      end
  end.
Definition replace_func (r : re) (f : mres → string) (s : string) : string :=
  replace_go (S (slen s)) r f None s.
Definition replace_all (r : re) (new s : string) : string := replace_func r (λ _, new) s.

(** ** The declarative reading *)
Inductive Match : re → mst → mst → Prop :=
  | M_eps st : Match REps st st
  | M_class cl p c s caps :
      in_class cl c = true → Match (RClass cl) (Mst p (String c s) caps) (Mst (Some c) s caps)
  | M_cat a b st1 st2 st3 : Match a st1 st2 → Match b st2 st3 → Match (RCat a b) st1 st3
  | M_alt_l a b st st' : Match a st st' → Match (RAlt a b) st st'
  | M_alt_r a b st st' : Match b st st' → Match (RAlt a b) st st'
  | M_star_nil a st : Match (RStar a) st st
  | M_star_cons a st1 st2 st3 :
      Match a st1 st2 → slen (m_rest st2) < slen (m_rest st1) →
      Match (RStar a) st2 st3 → Match (RStar a) st1 st3
  | M_group n a st st' :
      Match a st st' → Match (RGroup n a) st (set_cap n (between st st') st')
  | M_assert r st :
      match r with RBegin | RBeginLine | REnd | REndLine | RWordB => True | _ => False end →
      holds_at r st = true → Match r st st.

(** Whatever the matcher answers went through the relation. *)
Lemma m_sound {R} r st (k : mst → option R) x :
  m r st k = Some x → ∃ st', Match r st st' ∧ k st' = Some x.
Proof.
  revert st k x. induction r as [|cl|a IHa b IHb|a IHa b IHb|a IHa|n a IHa| | | | |];
    intros st k x; cbn [m].
  - eauto using Match.
  - destruct st as [p [|c s] caps]; cbn; [done|]. destruct (in_class cl c) eqn:E; [|done].
    eauto using Match.
  - intros (st1 & H1 & (st2 & H2 & Hk)%IHb)%IHa. eauto using Match.
  - destruct (m a st k) eqn:E.
    + intros [= ->]. apply IHa in E as (st' & ? & ?). eauto using Match.
    + intros (st' & ? & ?)%IHb. eauto using Match.
  - generalize (slen (m_rest st)) as n. intros n.
    revert st. induction n as [|n IHn]; intros st; cbn [star_loop]; [eauto using Match|].
    destruct (m a st _) eqn:E; [|eauto using Match].
    intros [= ->]. apply IHa in E as (st1 & H1 & H2).
    destruct (slen (m_rest st1) <? slen (m_rest st)) eqn:El; [|done].
    apply IHn in H2 as (st2 & ? & ?). apply Nat.ltb_lt in El. eauto using Match.
  - intros (st' & ? & ?)%IHa. eauto using Match.
  - destruct (holds_at RBegin st) eqn:E; [|done]. exists st. split; [by constructor|done].
  - destruct (holds_at RBeginLine st) eqn:E; [|done]. exists st. split; [by constructor|done].
  - destruct (holds_at REnd st) eqn:E; [|done]. exists st. split; [by constructor|done].
  - destruct (holds_at REndLine st) eqn:E; [|done]. exists st. split; [by constructor|done].
  - destruct (holds_at RWordB st) eqn:E; [|done]. exists st. split; [by constructor|done].
Qed.

(** The matcher depends on its continuation only through its values. *)
Lemma m_ext {R} r st (k k' : mst → option R) :
  (∀ st', k st' = k' st') → m r st k = m r st k'.
Proof.
  revert st k k'. induction r as [|cl|a IHa b IHb|a IHa b IHb|a IHa|n a IHa| | | | |];
    intros st k k' Hk; cbn [m]; try (by rewrite Hk).
  - case_match; [done|]. by rewrite Hk.
  - apply IHa. intros. by apply IHb.
  - by rewrite (IHa st k k'), (IHb st k k').
  - generalize (slen (m_rest st)) as n. intros n. revert st.
    induction n as [|n IHn]; intros st; cbn [star_loop]; [done|].
    rewrite (IHa st _ (λ st', if slen (m_rest st') <? slen (m_rest st)
      then star_loop (m a) n st' k' else None)); [by rewrite Hk|].
    intros st'. by rewrite IHn.
  - apply IHa. intros. by rewrite Hk.
Qed.
(** The loop needs no more fuel than the length of the rest. *)
Lemma star_fuel {R} a n n' st (k : mst → option R) :
  slen (m_rest st) ≤ n → slen (m_rest st) ≤ n' →
  star_loop (m a) n st k = star_loop (m a) n' st k.
Proof.
  revert n' st. induction n as [|n IHn]; intros n' st Hn Hn'.
  - destruct n' as [|n']; [done|]. cbn [star_loop].
    rewrite (m_ext a st _ (λ _, None)).
    + destruct (m a st _) eqn:E; [|done]. by apply m_sound in E as (? & _ & ?).
    + intros st'. by rewrite (proj2 (Nat.ltb_ge _ _)) by lia.
  - destruct n' as [|n']; cbn [star_loop].
    + rewrite (m_ext a st _ (λ _, None)).
      * destruct (m a st _) eqn:E; [|done]. by apply m_sound in E as (? & _ & ?).
      * intros st'. by rewrite (proj2 (Nat.ltb_ge _ _)) by lia.
    + match goal with
      | |- match m a st ?f with _ => _ end = match m a st ?g with _ => _ end =>
          assert (m a st f = m a st g) as ->; [apply m_ext|done]
      end. intros st'.
      destruct (slen (m_rest st') <? slen (m_rest st)) eqn:E; [|done].
      apply Nat.ltb_lt in E. apply IHn; lia.
Qed.

(** If some reading of the pattern lets the continuation succeed, the matcher
    answers. *)
Lemma m_complete {R} r st st' (k : mst → option R) :
  Match r st st' → is_Some (k st') → is_Some (m r st k).
Proof.
  intros H. revert k. induction H as [st|cl p c s caps Hc|a b st1 st2 st3 H1 IH1 H2 IH2
    |a b st st' H IH|a b st st' H IH|a st|a st1 st2 st3 H1 IH1 Hl H2 IH2|n a st st' H IH|r st Hr Hh];
    intros k Hk; cbn [m].
  - done.
  - cbn. by rewrite Hc.
  - apply IH1. by apply IH2.
  - destruct (IH k Hk) as [x ->]. eauto.
  - destruct (m a st k); [eauto|]. by apply IH.
  - destruct (slen (m_rest st)); cbn [star_loop]; [done|]. by case_match.
  - destruct (slen (m_rest st1)) as [|n] eqn:En; [lia|]. cbn [star_loop].
    match goal with |- is_Some (match ?e with _ => _ end) => assert (is_Some e) as [y ->] end;
      [|eauto].
    apply IH1. rewrite (proj2 (Nat.ltb_lt _ _)) by lia.
    rewrite (star_fuel a n (slen (m_rest st2))) by lia. by apply IH2.
  - by apply IH.
  - destruct r; try done; cbn [m]; by rewrite Hh.
Qed.

(** ** The search *)
Lemma find_from_sound r prev before s x :
  find_from r prev before s = Some x →
  ∃ skipped p rest, s = skipped +:+ rest ∧ r_before x = before +:+ skipped ∧
    Match r (Mst p rest []) (r_end x) ∧ r_text x = between (Mst p rest []) (r_end x).
Proof.
  revert prev before. induction s as [|c s IH]; intros prev before; cbn [find_from];
    (destruct (m_at r _) as [st'|] eqn:E;
      [intros [= <-]; apply m_sound in E as (st2 & HM & [= ->]);
       eexists "", prev, _; split; [by rewrite app_nil_l_s|]; cbn; by rewrite app_nil_r_s|]); [done|].
  intros (sk & p & rest & -> & Hb & HM & Ht)%IH.
  exists (String c sk), p, rest. rewrite Hb, app_assoc_s. done.
Qed.
(** A pattern matches somewhere in [s] exactly when the relation says so. *)
Definition prev_of (prev : option ascii) (skipped : string) : option ascii :=
  match last (bytes skipped) with Some c => Some c | None => prev end.
Lemma find_from_complete r prev before skipped rest st' :
  Match r (Mst (prev_of prev skipped) rest []) st' →
  is_Some (find_from r prev before (skipped +:+ rest)).
Proof.
  revert prev before. induction skipped as [|c sk IH]; intros prev before HM.
  - rewrite app_nil_l_s. assert (is_Some (m_at r (Mst prev rest []))) as [y Hy].
    { apply (m_complete r _ st'); [done|eauto]. }
    destruct rest; cbn [find_from]; by rewrite Hy.
  - rewrite app_cons_s. cbn [find_from]. case_match; [done|].
    apply IH. unfold prev_of in *. cbn [bytes] in HM.
    destruct (bytes sk) as [|b l]; [done|]. rewrite last_cons_cons in HM.
    destruct (last (b :: l)) eqn:E; [done|]. by apply last_None in E.
Qed.
Lemma is_match_spec r s :
  is_match r s = true ↔
  ∃ skipped rest st', s = skipped +:+ rest ∧ Match r (Mst (prev_of None skipped) rest []) st'.
Proof.
  unfold is_match, find. split.
  - destruct (find_from r None "" s) as [x|] eqn:E; [|done]. intros _.
    revert x E. generalize "" as before.
    assert (∀ prev before x, find_from r prev before s = Some x →
      ∃ skipped rest st', s = skipped +:+ rest ∧
        Match r (Mst (prev_of prev skipped) rest []) st') as Hgen; [|eauto].
    induction s as [|c s IH]; intros prev before x; cbn [find_from];
      (destruct (m_at r _) as [st'|] eqn:E;
        [intros _; apply m_sound in E as (st2 & HM & _); eexists "", _, st2; by split|]);
      [done|].
    intros (sk & rest & st' & -> & HM)%IH. exists (String c sk), rest, st'. split; [done|].
    unfold prev_of in *. cbn [bytes]. destruct (bytes sk) as [|b l]; [done|].
    rewrite last_cons_cons. destruct (last (b :: l)) eqn:E2; [done|]. by apply last_None in E2.
  - intros (sk & rest & st' & -> & HM). destruct (find_from_complete r None "" sk rest st' HM) as [y ->].
    done.
Qed.

(** ** Equations on symbolic text *)

(** The star of a class is greedy: its continuation is tried at the end of the
    run first. *)
Fixpoint greedy {R} (cl : cclass) (p : option ascii) (s : string) (caps : list (nat * string))
    (k : mst → option R) : option R :=
  match s with
  | "" => k (Mst p s caps)
  | String c s' =>
      if in_class cl c then
        match greedy cl (Some c) s' caps k with
        | Some x => Some x
        | None => k (Mst p s caps)
        end
      else k (Mst p s caps)
  end.
Lemma m_star_class {R} cl p s caps (k : mst → option R) :
  m (RStar (RClass cl)) (Mst p s caps) k = greedy cl p s caps k.
Proof.
  cbn [m m_rest]. revert p. induction s as [|c s IH]; intros p; [done|].
  rewrite slen_cons.
  cbn [star_loop m m_rest m_caps greedy]. destruct (in_class cl c); [|done].
  cbn [m_rest]. rewrite slen_cons, (proj2 (Nat.ltb_lt _ _)) by lia.
  specialize (IH (Some c)). cbn [m_rest] in IH. by rewrite IH.
Qed.

(** A run of literals. *)
Definition lits (s : string) (r : re) : re :=
  foldr (λ c r, RCat (lit (RFlags false false) c) r) r (bytes s).
Lemma in_class_lit c d : in_class (CClass false [(c, c)]) d = ceq d c.
Proof.
  unfold in_class, in_range, ceq. cbn. rewrite orb_false_r.
  destruct (Ascii.eqb_spec d c) as [->|H].
  - by rewrite N.leb_refl.
  - apply andb_false_iff. rewrite !N.leb_gt.
    assert (code d ≠ code c); [|lia]. unfold code. intros E. apply H.
    by rewrite <-(ascii_N_embedding c), <-(ascii_N_embedding d), E.
Qed.
Lemma prev_of_cons p c w : prev_of (Some c) w = prev_of p (String c w).
Proof.
  unfold prev_of. cbn [bytes]. destruct (bytes w) as [|b l]; [done|].
  rewrite last_cons_cons. destruct (last (b :: l)) eqn:E; [done|]. by apply last_None in E.
Qed.
Lemma m_lits {R} w r p s caps (k : mst → option R) :
  m (lits w r) (Mst p s caps) k =
  match cut_prefix w s with
  | Some s' => m r (Mst (prev_of p w) s' caps) k
  | None => None
  end.
Proof.
  revert p s. induction w as [|c w IH]; intros p s; [by destruct s|].
  unfold lits in *. cbn [bytes foldr m]. unfold lit, mk_class. cbn [fl_i m m_rest m_caps].
  destruct s as [|d s]; [done|]. rewrite in_class_lit. cbn [cut_prefix].
  destruct (ceq d c) eqn:E.
  - apply ceq_true in E as ->. by rewrite ceq_refl, IH, (prev_of_cons p).
  - apply ceq_false in E. by rewrite (proj2 (ceq_false c d)).
Qed.

(** A capturing group around the star of a class, at the end of a pattern:
    the whole run is captured. *)
Fixpoint span (p : ascii → bool) (s : string) : string * string :=
  match s with
  | "" => ("", "")
  | String c s' => if p c then let '(a, b) := span p s' in (String c a, b) else ("", s)
  end.
Lemma span_app p s : fst (span p s) +:+ snd (span p s) = s.
Proof.
  induction s as [|c s IH]; [done|]. cbn [span]. destruct (p c); [|done].
  destruct (span p s) as [a b]. cbn [fst snd] in *. by rewrite app_cons_s, IH.
Qed.
Lemma span_all p s : all_bytes p (fst (span p s)) = true.
Proof.
  induction s as [|c s IH]; [done|]. cbn [span]. destruct (p c) eqn:E; [|done].
  destruct (span p s) as [a b]. cbn [fst] in *. by rewrite all_bytes_cons, E.
Qed.
Lemma span_run p w s :
  all_bytes p w = true → (∀ c s', s = String c s' → p c = false) → span p (w +:+ s) = (w, s).
Proof.
  intros Hw Hs. induction w as [|c w IH].
  - rewrite app_nil_l_s. destruct s as [|c s]; [done|]. cbn. by rewrite (Hs c s).
  - rewrite all_bytes_cons in Hw. apply andb_prop in Hw as [Hc Hw].
    rewrite app_cons_s. cbn [span]. by rewrite Hc, IH.
Qed.
Lemma greedy_run {R} cl p s caps (k : mst → option R) x :
  k (Mst (prev_of p (fst (span (in_class cl) s))) (snd (span (in_class cl) s)) caps) = Some x →
  greedy cl p s caps k = Some x.
Proof.
  revert p. induction s as [|c s IH]; intros p; [done|]. cbn [span greedy].
  destruct (in_class cl c); [|done].
  specialize (IH (Some c)). destruct (span _ s) as [a b]. cbn [fst snd] in *.
  rewrite (prev_of_cons p) in IH. intros H. by rewrite (IH H).
Qed.
Lemma between_span p q q' s caps caps' :
  between (Mst q s caps) (Mst q' (snd (span p s)) caps') = fst (span p s).
Proof.
  unfold between. cbn [m_rest]. rewrite <-(span_app p s) at 1 3. rewrite slen_app.
  replace (_ + _ - _) with (slen (fst (span p s))) by lia.
  unfold stake, slen. by rewrite bytes_app, take_app_length, unbytes_bytes.
Qed.

Section Equations.
Context {R : Type}.
Implicit Types (st : mst) (k : mst → option R).
Lemma m_eps st k : m REps st k = k st.
Proof. done. Qed.
Lemma m_cat a b st k : m (RCat a b) st k = m a st (λ st', m b st' k).
Proof. done. Qed.
Lemma m_alt a b st k :
  m (RAlt a b) st k = match m a st k with Some x => Some x | None => m b st k end.
Proof. done. Qed.
Lemma m_group n a st k : m (RGroup n a) st k = m a st (λ st', k (set_cap n (between st st') st')).
Proof. done. Qed.
End Equations.
