(* ===== verification/Text.v ===== *)
(** * tools/l1agent/text.go: the text tools

    grep, sed, tail, head, [sort -rn], [uniq -c], tr and cut as far as the agent
    uses them.  A reader is the text it will deliver; what a function writes is
    the string it returns; [eachLine] threads the state its callback closes
    over. *)
From Stdlib Require Import Ascii QArith Lqa.
From S2P Require Import Prelude GoStrings Regexp.
Open Scope nat_scope.

(** ** Reading lines *)

(** What [bufio.Reader.ReadSlice('\n')] returns for a buffer of [size] bytes:
    the chunk and why it ended. *)
Inductive slice_end := SliceDelim | SliceFull | SliceEOF.
Fixpoint read_slice (size : nat) (s : string) : string * slice_end * string :=
  match size with
  | O => ("", SliceFull, s)
  | S size' =>
      match s with
      | "" => ("", SliceEOF, "")
      | String c s' =>
          if ceq c ch_nl then (str1 c, SliceDelim, s')
          else let '(chunk, e, rest) := read_slice size' s' in (String c chunk, e, rest)
      end
  end.

(** A line without its newline, and whether it had one. *)
Definition line_of (raw : string) : string * bool :=
  if has_suffix raw nl then (trim_suffix raw nl, true) else (raw, false).

(** The loop of [eachLine]: [acc] holds the full buffers of the line being
    read.  [fuel] bounds the calls to [ReadSlice]; each consumes a byte or is
    the last one. *)
Fixpoint eachLine_go {S} (size fuel : nat) (fn : S → string → bool → S * bool)
    (st : S) (acc s : string) : S :=
  match fuel with
  | O => st
  | Datatypes.S fuel =>
      let '(chunk, e, rest) := read_slice size s in
      match e with
      | SliceFull => eachLine_go size fuel fn st (acc +:+ chunk) rest
      | _ =>
          let raw := acc +:+ chunk in
          if seqb raw "" then
            match e with SliceEOF => st | _ => eachLine_go size fuel fn st "" rest end
          else
            let '(line, eol) := line_of raw in
            let '(st', more) := fn st line eol in
            if (more : bool) then
              match e with SliceEOF => st' | _ => eachLine_go size fuel fn st' "" rest end
            else st'
      end
  end.

Definition bufio_size : nat := Z.to_nat 65536.
#[global] Opaque bufio_size.
Definition eachLine {S} (fn : S → string → bool → S * bool) (st : S) (r : string) : S :=
  eachLine_go bufio_size (Datatypes.S (slen r)) fn st "" r.

(** [sed 's/^/prefix/'], after [head -max] when [max >= 0]; what it writes. *)
Definition prefixStream (prefix r : string) (max : Z) : string :=
  if (max =? 0)%Z then "" else
  fst (eachLine (λ '(out, n) l eol,
    ((out +:+ prefix +:+ l +:+ (if (eol : bool) then nl else ""), (n + 1)%Z),
     (max <? 0)%Z || (n + 1 <? max)%Z)) ("", 0%Z) r).

Definition writePrefixed (prefix : string) (lines : list string) : string :=
  foldl (λ out l, out +:+ prefix +:+ l +:+ nl) "" lines.

Definition splitLines (b : string) : list string :=
  eachLine (λ out l _, (out ++ [l], true)) [] b.

Definition grepLines (b : string) (keep : string → bool) : list string :=
  foldl (λ out l, if keep l then out ++ [l] else out) [] (splitLines b).

(** ** Case folding *)
Definition asciiLower (s : string) : string := str_map to_lower s.
Definition containsFold (line lowerNeedle : string) : bool :=
  contains (asciiLower line) lowerNeedle.

(** ** head and tail *)
Definition head (lines : list string) (n : nat) : list string :=
  if n <? length lines then take n lines else lines.
Definition tail (lines : list string) (n : nat) : list string :=
  if n <? length lines then drop (length lines - n) lines else lines.

(** The backward scan of [tailBytes]: [i] runs down from [end-1], [cnt] is the
    number of newlines seen; the result is the start of the tail. *)
Fixpoint tailBytes_scan (b : list ascii) (n cnt i : nat) : nat :=
  (* looks at index i-1 *)
  match i with
  | O => 0
  | Datatypes.S j =>
      if bool_decide (b !! j = Some ch_nl) then
        if Nat.eqb (Datatypes.S cnt) n then Datatypes.S j
        else tailBytes_scan b n (Datatypes.S cnt) j
      else tailBytes_scan b n cnt j
  end.
(** [tail -n] on raw input. *)
Definition tailBytes (b : string) (n : Z) : string :=
  if (n <=? 0)%Z then "" else
  let l := bytes b in
  let e := length l in
  let e := if (0 <? e) && bool_decide (l !! (e - 1) = Some ch_nl) then e - 1 else e in
  unbytes (drop (tailBytes_scan l (Z.to_nat n) 0 e) l).

(** [sed -n '/re/,+n p']. *)
Fixpoint sedRange_go (lines : list string) (mt : string → bool) (n left : Z)
    : list string :=
  match lines with
  | [] => []
  | l :: ls =>
      if (0 <=? left)%Z then l :: sedRange_go ls mt n (left - 1)
      else if mt l then l :: sedRange_go ls mt n (n - 1)
      else sedRange_go ls mt n left
  end.
Definition sedRangePlus (lines : list string) (mt : string → bool) (n : Z) : list string :=
  sedRange_go lines mt n (-1).

(** ** Words and fields *)
Definition stripNewlines (s : string) : string := trim_right (λ c, ceq c ch_nl) s.

Definition ifs (c : ascii) : bool := ceq c " " || ceq c ch_tab || ceq c ch_nl.
Definition splitIFS (s : string) : list string := fields_func ifs s.
Definition awkFields (s : string) : list string := fields_func ifs s.

Definition field (f : list string) (i : nat) : string :=
  if (1 <=? i) && (i <=? length f) then default "" (f !! (i - 1)) else "".

Definition padRight (s : string) (n : nat) : string :=
  if n <=? slen s then s else s +:+ repeat_char " " (n - slen s).

(** Counting into a Go map: [n[k]++]. *)
Definition count_up (k : string) (n : gmap string Z) : gmap string Z :=
  <[k := (default 0 (n !! k) + 1)%Z]> n.

(** The map is read in the order of [map_to_list]; Go's order is unspecified
    and [sortRN_perm] is why it does not matter. *)
Definition uniqLine (kv : string * Z) : string := pad_left " " 7 (itoa kv.2) +:+ " " +:+ kv.1.
Definition uniqCount (counts : gmap string Z) : list string := uniqLine <$> map_to_list counts.

(** ** sort -rn *)

Definition zero_byte (c : ascii) : bool := ceq c "0".

Definition numKey (s : string) : bool * string * string :=
  let s := snd (span (λ c, ceq c " " || ceq c ch_tab) s) in
  let '(neg, s) := match s with String "-" r => (true, r) | _ => (false, s) end in
  let '(ip, s) := span is_digit s in
  let intp := trim_left zero_byte ip in
  let frac := match s with
              | String "." r => trim_right zero_byte (fst (span is_digit r))
              | _ => ""
              end in
  let neg := if seqb intp "" && seqb frac "" then false else neg in
  (neg, intp, frac).

(** [strings.Compare]: -1, 0 or 1. *)
Definition Compare (a b : string) : Z :=
  match String.compare a b with Lt => -1 | Eq => 0 | Gt => 1 end%Z.

Definition numCompare (a b : string) : Z :=
  let '(an, ai, af) := numKey a in
  let '(bn, bi, bf) := numKey b in
  if negb (Bool.eqb an bn) then (if an then -1 else 1)%Z
  else
    let c := if negb (slen ai =? slen bi) then (Z.of_nat (slen ai) - Z.of_nat (slen bi))%Z
             else if negb (seqb ai bi) then Compare ai bi
             else Compare af bf in
    if an then (- c)%Z else c.

(** The [less] of [sortRN]. *)
Definition sortRN_less (a b : string) : bool :=
  let c := numCompare a b in
  let c := if (c =? 0)%Z then Compare a b else c in
  (0 <? c)%Z.
Definition sortRN (lines : list string) : list string := sort_stable sortRN_less lines.

(** ** tr and cut *)
Definition echoTr (s : string) : string :=
  if (1 <? slen s) && bool_decide (bytes s !! 0 = Some "-"%char) &&
     seqb (trim (in_set "neE") (sdrop 1 s)) "" then ""
  else replace_char "," " " s.

Definition cutF2 (line : string) : string :=
  match cut line ":" with Some (_, after) => after | None => line end.

(** ** eachLine reads lines

    [lines_of] is what a line-oriented tool sees; the buffered reader delivers
    exactly that whatever the size of its buffer. *)
Fixpoint lines_of (s : string) : list (string * bool) :=
  match s with
  | "" => []
  | String c s' =>
      if ceq c ch_nl then ("", true) :: lines_of s'
      else match lines_of s' with
           | [] => [(str1 c, false)]
           | (l, e) :: r => (String c l, e) :: r
           end
  end.

(** The callback over a list of lines, stopping when it says so. *)
Fixpoint fold_lines {S} (fn : S → string → bool → S * bool) (st : S)
    (l : list (string * bool)) : S :=
  match l with
  | [] => st
  | (x, e) :: l => let '(st', more) := fn st x e in if (more : bool) then fold_lines fn st' l else st'
  end.

(** The lines of [s] with [acc] already read of the first one. *)
Definition lines_acc (acc s : string) : list (string * bool) :=
  match lines_of s with
  | [] => if seqb acc "" then [] else [(acc, false)]
  | (l, e) :: r => (acc +:+ l, e) :: r
  end.

Lemma lines_of_cons c s :
  ceq c ch_nl = false → lines_of (String c s) = lines_acc (str1 c) s.
Proof. intros H. unfold lines_acc. cbn [lines_of]. rewrite H. by destruct (lines_of s) as [|[]]. Qed.

Lemma lines_acc_app acc c s :
  ceq c ch_nl = false → lines_acc acc (String c s) = lines_acc (acc +:+ str1 c) s.
Proof.
  intros H. unfold lines_acc at 1. rewrite lines_of_cons by done. unfold lines_acc.
  assert (seqb (acc +:+ str1 c) "" = false) as Hne.
  { apply seqb_false. intros Hx%(f_equal slen). rewrite slen_app in Hx. cbn in Hx. lia. }
  rewrite Hne. destruct (lines_of s) as [|[l e] r]; [done|].
  by rewrite app_assoc_s.
Qed.
Lemma lines_acc_nl acc s : lines_acc acc (String ch_nl s) = (acc, true) :: lines_of s.
Proof. unfold lines_acc. cbn [lines_of]. rewrite ceq_refl. by rewrite app_nil_r_s. Qed.

Lemma line_of_nl l : line_of (l +:+ nl) = (l, true).
Proof.
  unfold line_of. rewrite (proj2 (has_suffix_spec _ _)) by eauto.
  by rewrite trim_suffix_app.
Qed.
Lemma line_of_open l : no_byte ch_nl l = true → line_of l = (l, false).
Proof.
  intros H. unfold line_of. destruct (has_suffix l nl) eqn:E; [|done].
  apply has_suffix_spec in E as [r ->]. unfold no_byte in H.
  rewrite all_bytes_app in H. apply andb_prop in H as [_ H]. done.
Qed.

Lemma read_slice_spec size s chunk e rest :
  read_slice size s = (chunk, e, rest) →
  s = chunk +:+ rest ∧
  match e with
  | SliceDelim => ∃ l, chunk = l +:+ nl ∧ no_byte ch_nl l = true
  | SliceFull => slen chunk = size ∧ no_byte ch_nl chunk = true
  | SliceEOF => rest = "" ∧ no_byte ch_nl chunk = true
  end.
Proof.
  revert s chunk e rest. induction size as [|size IH]; intros s chunk e rest; cbn [read_slice].
  { by intros [= <- <- <-]. }
  destruct s as [|c s]; [by intros [= <- <- <-]|].
  destruct (ceq c ch_nl) eqn:Ec.
  - apply ceq_true in Ec as ->. intros [= <- <- <-]. split; [done|]. by exists "".
  - destruct (read_slice size s) as [[ch e'] r] eqn:E. intros [= <- <- <-].
    apply IH in E as [-> H]. rewrite app_cons_s. split; [done|].
    unfold no_byte in *. destruct e'.
    + destruct H as (l & -> & Hl). exists (String c l). rewrite all_bytes_cons, Ec.
      by rewrite app_cons_s.
    + destruct H as [<- H]. by rewrite slen_cons, all_bytes_cons, Ec, H.
    + destruct H as [-> H]. by rewrite all_bytes_cons, Ec, H.
Qed.

Lemma lines_acc_run acc w s :
  no_byte ch_nl w = true → lines_acc acc (w +:+ s) = lines_acc (acc +:+ w) s.
Proof.
  revert acc. induction w as [|c w IH]; intros acc H.
  - by rewrite app_nil_l_s, app_nil_r_s.
  - unfold no_byte in *. rewrite all_bytes_cons in H. bool_prop.
    rewrite app_cons_s, lines_acc_app, IH by done. rewrite app_assoc_s.
    unfold str1. by rewrite app_cons_s, app_nil_l_s.
Qed.

Lemma lines_acc_nil s : lines_acc "" s = lines_of s.
Proof. unfold lines_acc. destruct (lines_of s) as [|[l e] r]; [done|]. by rewrite app_nil_l_s. Qed.

Lemma eachLine_go_lines {S} size fuel (fn : S → string → bool → S * bool) st acc s :
  0 < size → slen s < fuel → no_byte ch_nl acc = true →
  eachLine_go size fuel fn st acc s = fold_lines fn st (lines_acc acc s).
Proof.
  intros Hsize. revert st acc s. induction fuel as [|fuel IH]; intros st acc s Hf Hacc; [lia|].
  cbn [eachLine_go]. destruct (read_slice size s) as [[chunk e] rest] eqn:E.
  apply read_slice_spec in E as [-> H]. rewrite slen_app in Hf. destruct e.
  - destruct H as (l & -> & Hl).
    rewrite (proj2 (seqb_false _ _)); last first.
    { intros Hx%(f_equal slen). rewrite !slen_app in Hx. cbn in Hx. lia. }
    rewrite <-app_assoc_s, line_of_nl, app_assoc_s, lines_acc_run by done.
    unfold nl, str1. rewrite app_cons_s, app_nil_l_s, lines_acc_nl. cbn [fold_lines].
    destruct (fn st (acc +:+ l) true) as [st' []]; [|done].
    rewrite IH; [by rewrite lines_acc_nil| |done]. rewrite slen_app in Hf. cbn in Hf. lia.
  - destruct H as [Hlen Hch]. rewrite IH; [by rewrite lines_acc_run|lia|].
    unfold no_byte in *. by rewrite all_bytes_app, Hacc, Hch.
  - destruct H as [-> Hch]. rewrite lines_acc_run by done. unfold lines_acc. cbn [lines_of].
    case_match; [done|]. rewrite line_of_open.
    + cbn. by destruct (fn st _ false) as [st' []].
    + unfold no_byte in *. by rewrite all_bytes_app, Hacc, Hch.
Qed.

Lemma eachLine_lines {S} (fn : S → string → bool → S * bool) st r :
  eachLine fn st r = fold_lines fn st (lines_of r).
Proof.
  unfold eachLine. rewrite eachLine_go_lines; [by rewrite lines_acc_nil| |lia|done].
  Transparent bufio_size. unfold bufio_size. lia.
Qed.
#[global] Opaque bufio_size.

Lemma fold_lines_total {S} (fn : S → string → bool → S * bool) (g : S → string * bool → S) st l :
  (∀ st x e, fn st x e = (g st (x, e), true)) → fold_lines fn st l = foldl g st l.
Proof.
  intros H. revert st. induction l as [|[x e] l IH]; intros st; [done|].
  cbn. by rewrite H, IH.
Qed.
Lemma splitLines_lines b : splitLines b = fst <$> lines_of b.
Proof.
  unfold splitLines. rewrite eachLine_lines.
  rewrite (fold_lines_total _ (λ out (x : string * bool), out ++ [x.1])) by done.
  assert (∀ (l : list (string * bool)) out,
    foldl (λ out x, out ++ [x.1]) out l = out ++ (fst <$> l)) as H; [|apply H].
  induction l as [|x l IH]; intros out; cbn; [by rewrite app_nil_r|].
  by rewrite IH, <-(assoc_L (++)).
Qed.
Lemma grepLines_filter b keep :
  grepLines b keep = filter (λ l, keep l = true) (splitLines b).
Proof.
  unfold grepLines. assert (∀ l out : list string, foldl (λ out l, if keep l then out ++ [l] else out) out l
    = out ++ filter (λ l, keep l = true) l) as H; [|by rewrite H].
  induction l as [|x l IH]; intros out; cbn [foldl]; [by rewrite app_nil_r|].
  rewrite IH, filter_cons. destruct (keep x) eqn:E.
  - rewrite decide_True by done. by rewrite <-(assoc_L (++)).
  - by rewrite decide_False.
Qed.

(** Reading newline-terminated lines back. *)
Lemma lines_of_app_line x s :
  no_byte ch_nl x = true → lines_of (x +:+ nl +:+ s) = (x, true) :: lines_of s.
Proof.
  intros H. rewrite <-lines_acc_nil, lines_acc_run by done. unfold nl, str1.
  by rewrite app_cons_s, !app_nil_l_s, lines_acc_nl.
Qed.
Lemma lines_of_unlines l :
  Forall (λ x, no_byte ch_nl x = true) l → lines_of (unlines l) = (λ x, (x, true)) <$> l.
Proof.
  induction 1 as [|x l Hx Hl IH]; [done|]. cbn [unlines foldr].
  rewrite lines_of_app_line by done. cbn. by rewrite <-IH.
Qed.
Lemma lines_of_no_nl s : Forall (λ x, no_byte ch_nl x.1 = true) (lines_of s).
Proof.
  induction s as [|c s IH]; [constructor|]. cbn [lines_of].
  destruct (ceq c ch_nl) eqn:E; [by constructor|].
  destruct (lines_of s) as [|[l e] r].
  { repeat constructor. unfold no_byte, str1. cbn. by rewrite E. }
  inversion IH; subst. constructor; [|done]. unfold no_byte in *. cbn [fst].
  by rewrite all_bytes_cons, E.
Qed.
Lemma writePrefixed_concat prefix lines :
  writePrefixed prefix lines = unlines ((λ l, prefix +:+ l) <$> lines).
Proof.
  unfold writePrefixed. assert (∀ (l : list string) (out : string), foldl (λ out l, out +:+ prefix +:+ l +:+ nl) out l
    = out +:+ unlines ((λ l, prefix +:+ l) <$> l)) as H; [|by rewrite H].
  induction l as [|x l IH]; intros out; cbn [foldl fmap list_fmap unlines foldr].
  - by rewrite app_nil_r_s.
  - rewrite IH, !app_assoc_s. done.
Qed.

(** ** head and tail cut the list *)
Lemma head_take lines n : head lines n = take n lines.
Proof.
  unfold head. destruct (n <? length lines) eqn:E; [done|].
  apply Nat.ltb_ge in E. by rewrite take_ge.
Qed.
Lemma tail_last_n lines n : tail lines n = last_n n lines.
Proof.
  unfold tail, last_n. destruct (n <? length lines) eqn:E; [done|].
  apply Nat.ltb_ge in E. by replace (length lines - n) with 0 by lia.
Qed.

(** ** tailBytes keeps the last lines *)

(** The lines of a text from its pieces between newlines. *)
Fixpoint open_last (l : list string) : list (string * bool) :=
  match l with
  | [] => []
  | [x] => if seqb x "" then [] else [(x, false)]
  | x :: l => (x, true) :: open_last l
  end.
Lemma lines_of_split s : lines_of s = open_last (split ch_nl s).
Proof.
  induction s as [|c s IH]; [done|]. cbn [lines_of split].
  destruct (split ch_nl s) as [|h t] eqn:Es; [by apply split_cons_ne in Es|].
  destruct (ceq c ch_nl); rewrite IH; [done|].
  destruct t as [|h' t]; cbn [open_last]; [|done].
  destruct (seqb h "") eqn:E; [by apply seqb_true in E as ->|done].
Qed.
Lemma open_last_snoc l x :
  open_last (l ++ [x]) = ((λ y, (y, true)) <$> l) ++ (if seqb x "" then [] else [(x, false)]).
Proof.
  induction l as [|y l IH]; [done|]. cbn. rewrite <-IH.
  destruct (l ++ [x]) eqn:E; [|done]. by destruct l.
Qed.

Lemma split_snoc_nl c s : split c (s +:+ str1 c) = split c s ++ [""].
Proof.
  induction s as [|a s IH].
  { rewrite app_nil_l_s. cbn. by rewrite ceq_refl. }
  rewrite app_cons_s. cbn [split].
  destruct (ceq a c); rewrite IH; [done|]. by destruct (split c s) as [|h t] eqn:E;
    [apply split_cons_ne in E|].
Qed.
Lemma split_snoc_other c s x :
  ceq x c = false → ∃ l p, split c s = l ++ [p] ∧ split c (s +:+ str1 x) = l ++ [p +:+ str1 x].
Proof.
  intros Hx. induction s as [|a s IH].
  - exists [], "". rewrite !app_nil_l_s. cbn. by rewrite Hx.
  - destruct IH as (l & p & H1 & H2). rewrite app_cons_s. cbn [split]. rewrite H1, H2.
    destruct (ceq a c); [by exists ("" :: l), p|].
    destruct l as [|h l]; [by exists [], (String a p)|]. by exists (String a h :: l), p.
Qed.
Lemma join_snoc sep l x :
  join sep (l ++ [x]) = foldr (λ y s, y +:+ sep +:+ s) x l.
Proof.
  induction l as [|y l IH]; [done|]. cbn [foldr app]. rewrite <-IH.
  by destruct (l ++ [x]) eqn:E; [destruct l|].
Qed.
Lemma foldr_sep_app sep l x y :
  foldr (λ y s, y +:+ sep +:+ s) (x +:+ y) l = foldr (λ y s, y +:+ sep +:+ s) x l +:+ y.
Proof. induction l as [|z l IH]; [done|]. cbn. rewrite IH. by rewrite !app_assoc_s. Qed.
Lemma last_n_snoc_pos {A} k (l : list A) x : 0 < k → last_n k (l ++ [x]) = last_n (k - 1) l ++ [x].
Proof. intros. destruct k; [lia|]. by rewrite last_n_snoc, Nat.sub_succ, Nat.sub_0_r. Qed.


Lemma join_snoc_nil sep l : l ≠ [] → join sep (l ++ [""]) = join sep l +:+ sep.
Proof.
  induction l as [|x l _] using rev_ind; [done|]. intros _.
  rewrite !join_snoc, foldr_app. cbn [foldr].
  rewrite app_nil_r_s. by rewrite foldr_sep_app.
Qed.

Lemma sdrop_app_le r a b : r ≤ slen a → sdrop r (a +:+ b) = sdrop r a +:+ b.
Proof.
  intros Hr. unfold sdrop. rewrite bytes_app, drop_app_le by done.
  by rewrite unbytes_app, unbytes_bytes.
Qed.
Lemma last_n_split_ne n c s : 0 < n → last_n n (split c s) ≠ [].
Proof.
  intros Hn Hl%(f_equal length). rewrite last_n_length in Hl.
  pose proof (split_cons_ne c s). destruct (split c s); [done|]. cbn [length] in Hl. lia.
Qed.

Lemma string_rev_ind (P : string → Prop) :
  P "" → (∀ a c, P a → P (a +:+ str1 c)) → ∀ a, P a.
Proof.
  intros H0 HS a. rewrite <-(unbytes_bytes a). generalize (bytes a) as l. clear a.
  induction l as [|c l IH] using rev_ind; [done|]. rewrite unbytes_app. by apply HS.
Qed.

Lemma tailBytes_scan_spec a rest n cnt :
  cnt < n →
  tailBytes_scan (bytes a ++ rest) n cnt (slen a) ≤ slen a ∧
  sdrop (tailBytes_scan (bytes a ++ rest) n cnt (slen a)) a =
  join nl (last_n (n - cnt) (split ch_nl a)).
Proof.
  revert rest cnt. induction a as [|a c IH] using string_rev_ind; intros rest cnt Hc.
  { split; [cbn; lia|]. rewrite last_n_all; [done|]. cbn. lia. }
  replace (slen (a +:+ str1 c)) with (S (slen a)) by (rewrite slen_app; cbn; lia).
  cbn [tailBytes_scan].
  assert ((bytes (a +:+ str1 c) ++ rest) = bytes a ++ (c :: rest)) as ->.
  { by rewrite bytes_app, <-(assoc_L (++)). }
  replace ((bytes a ++ c :: rest) !! slen a) with (Some c) by
    (symmetry; by apply list_lookup_middle).
  destruct (ceq c ch_nl) eqn:Ec.
  - apply ceq_true in Ec as ->. rewrite bool_decide_eq_true_2 by done. rewrite split_snoc_nl.
    rewrite last_n_snoc_pos by lia. destruct (Nat.eqb (S cnt) n) eqn:E.
    + apply Nat.eqb_eq in E. split; [lia|]. replace (n - cnt - 1) with 0 by lia.
      unfold last_n. rewrite Nat.sub_0_r, drop_all. cbn [app].
      unfold sdrop. rewrite drop_ge; [done|]. rewrite bytes_app, length_app. cbn. unfold slen. lia.
    + apply Nat.eqb_neq in E. destruct (IH (ch_nl :: rest) (S cnt)) as [IH1 IH2]; [lia|].
      split; [lia|]. rewrite sdrop_app_le, IH2 by done.
      replace (n - cnt - 1) with (n - S cnt) by lia.
      rewrite join_snoc_nil; [done|]. apply last_n_split_ne. lia.
  - rewrite bool_decide_eq_false_2 by (intros [= ->]; by rewrite ceq_refl in Ec).
    destruct (IH (c :: rest) cnt Hc) as [IH1 IH2]. split; [lia|]. rewrite sdrop_app_le, IH2 by done.
    destruct (split_snoc_other ch_nl a c Ec) as (l & p & -> & ->).
    rewrite !last_n_snoc_pos by lia. by rewrite !join_snoc, foldr_sep_app.
Qed.

Lemma tail_scan_join a rest n :
  0 < n →
  unbytes (drop (tailBytes_scan (bytes (a +:+ rest)) n 0 (slen a)) (bytes (a +:+ rest))) =
  join nl (last_n n (split ch_nl a)) +:+ rest.
Proof.
  intros Hn. destruct (tailBytes_scan_spec a (bytes rest) n 0 Hn) as [H1 H2].
  rewrite <-bytes_app in *. rewrite Nat.sub_0_r in H2. fold (sdrop (tailBytes_scan (bytes (a +:+ rest)) n 0 (slen a)) (a +:+ rest)).
  by rewrite sdrop_app_le, H2.
Qed.
Lemma last_n_fmap {A B} (f : A → B) n l : last_n n (f <$> l) = f <$> last_n n l.
Proof. unfold last_n. by rewrite fmap_drop, length_fmap. Qed.
Lemma Forall_last_n {A} (P : A → Prop) n l : Forall P l → Forall P (last_n n l).
Proof. apply Forall_drop. Qed.
Lemma split_last_n n s :
  0 < n → split ch_nl (join nl (last_n n (split ch_nl s))) = last_n n (split ch_nl s).
Proof.
  intros Hn. apply split_join; [by apply last_n_split_ne|].
  apply Forall_last_n, split_no_sep.
Qed.

(** [tailBytes] keeps exactly the last [n] lines, whether or not the last
    one ends in a newline. *)
Theorem tailBytes_lines b n :
  (0 < n)%Z → lines_of (tailBytes b n) = last_n (Z.to_nat n) (lines_of b).
Proof.
  intros Hn. unfold tailBytes. rewrite (proj2 (Z.leb_gt _ _)) by done.
  induction b as [|a c _] using string_rev_ind.
  { by rewrite last_n_all by (cbn; lia). }
  change (length (bytes ?x)) with (slen x).
  assert (slen (a +:+ str1 c) = S (slen a)) as -> by (rewrite slen_app; cbn; lia).
  rewrite Nat.sub_succ, Nat.sub_0_r.
  replace (bytes (a +:+ str1 c) !! slen a) with (Some c) by
    (rewrite bytes_app; symmetry; by apply list_lookup_middle).
  cbn [Nat.ltb Nat.leb andb]. destruct (ceq c ch_nl) eqn:Ec.
  - apply ceq_true in Ec as ->. rewrite bool_decide_eq_true_2 by done.
    change (str1 ch_nl) with nl. rewrite tail_scan_join, !lines_of_split by lia.
    rewrite !(split_snoc_nl ch_nl), split_last_n, !open_last_snoc, !app_nil_r by lia.
    by rewrite last_n_fmap.
  - rewrite bool_decide_eq_false_2 by (intros [= ->]; by rewrite ceq_refl in Ec).
    pose proof (tail_scan_join (a +:+ str1 c) "" (Z.to_nat n)) as H.
    rewrite !app_nil_r_s in H. rewrite slen_app in H. cbn [slen bytes str1 length] in H.
    rewrite Nat.add_1_r in H. rewrite H, !lines_of_split, split_last_n by lia.
    destruct (split_snoc_other ch_nl a c Ec) as (l & p & _ & ->).
    rewrite last_n_snoc_pos, !open_last_snoc by lia.
    replace (seqb (p +:+ str1 c) "") with false.
    + by rewrite last_n_snoc_pos, last_n_fmap by lia.
    + symmetry. apply seqb_false. intros Hp%(f_equal slen). rewrite slen_app in Hp. cbn in Hp. lia.
Qed.

Lemma tailBytes_lines_witness :
  lines_of (tailBytes ("a" +:+ nl +:+ "b" +:+ nl +:+ "c") 2) = [("b", true); ("c", false)].
Proof. rewrite (tailBytes_lines ("a" +:+ nl +:+ "b" +:+ nl +:+ "c") 2); [vm_done|lia]. Defined.

(** ** sort -rn orders by value

    [numKey] is a canonical decimal: its value as a rational is what
    [numCompare] compares. *)
Definition digit (c : ascii) : Z := (Z.of_N (code c) - 48)%Z.
Fixpoint int_value (s : string) : Z :=
  match s with
  | "" => 0
  | String c s' => digit c * 10 ^ Z.of_nat (slen s') + int_value s'
  end%Z.
Fixpoint frac_value (s : string) : Q :=
  match s with
  | "" => 0
  | String c s' => (inject_Z (digit c) + frac_value s') * (1 # 10)
  end%Q.
Definition key_value (k : bool * string * string) : Q :=
  let '(neg, i, f) := k in
  let v := (inject_Z (int_value i) + frac_value f)%Q in
  if (neg : bool) then (- v)%Q else v.

Definition digits (s : string) : Prop := all_bytes is_digit s = true.
Definition no_lead (s : string) : Prop := ∀ c s', s = String c s' → c ≠ "0"%char.
Definition no_trail (s : string) : Prop := ∀ c s', s = s' +:+ str1 c → c ≠ "0"%char.

Lemma digits_cons c s : digits (String c s) ↔ (0 <= digit c <= 9)%Z ∧ digits s.
Proof.
  unfold digits. rewrite all_bytes_cons. rewrite andb_true_iff.
  unfold is_digit, in_range, digit. rewrite andb_true_iff, !N.leb_le.
  change (code "0") with 48%N. change (code "9") with 57%N. intuition lia.
Qed.
Lemma code_inj a b : code a = code b → a = b.
Proof. intros H. by rewrite <-(ascii_N_embedding a), <-(ascii_N_embedding b); f_equal. Qed.
Lemma digit_inj a b : digit a = digit b → a = b.
Proof. unfold digit. intros. apply code_inj. lia. Qed.

Lemma digit_q c s :
  digits (String c s) → (0 <= inject_Z (digit c) <= 9)%Q ∧ digits s.
Proof.
  intros [H ?]%digits_cons. split; [|done].
  split; [change 0%Q with (inject_Z 0)|change 9%Q with (inject_Z 9)]; rewrite <-Zle_Qle; lia.
Qed.

Lemma compare_cons a b s t :
  String.compare (String a s) (String b t) =
  match (digit a ?= digit b)%Z with Eq => String.compare s t | c => c end.
Proof.
  cbn. unfold Ascii.compare, digit. fold (code a) (code b).
  destruct (N.compare_spec (code a) (code b)), (Z.compare_spec (Z.of_N (code a) - 48) (Z.of_N (code b) - 48));
    (done || lia).
Qed.
Lemma no_trail_cons c s : no_trail (String c s) → no_trail s.
Proof. intros H d s' ->. apply (H d (String c s')). by rewrite app_cons_s. Qed.

Lemma frac_bounds s : digits s → (0 <= frac_value s < 1)%Q.
Proof.
  induction s as [|c s IH]; intros H; cbn [frac_value]; [lra|].
  apply digit_q in H as [? H]. specialize (IH H). lra.
Qed.
Lemma frac_pos s : digits s → no_trail s → s ≠ "" → (0 < frac_value s)%Q.
Proof.
  induction s as [|c s IH]; intros H Ht Hne; [done|]. cbn [frac_value].
  pose proof (digit_q _ _ H) as [Hd Hs]. destruct (decide (s = "")) as [->|Hn].
  - assert (c ≠ "0"%char) as Hc by (by apply (Ht c "")).
    assert (0 < digit c)%Z.
    { apply digits_cons in H as [H _]. assert (digit c ≠ 0%Z); [|lia].
      intros E. apply Hc, digit_inj. by rewrite E. }
    assert (0 < inject_Z (digit c))%Q by (change 0%Q with (inject_Z 0); by rewrite <-Zlt_Qlt).
    cbn [frac_value]. lra.
  - specialize (IH Hs (no_trail_cons _ _ Ht) Hn). lra.
Qed.

(** [String.compare] of fractions is the comparison of their values. *)
Lemma frac_compare a b :
  digits a → digits b → no_trail a → no_trail b →
  String.compare a b = (frac_value a ?= frac_value b)%Q.
Proof.
  revert b. induction a as [|x a IH]; intros [|y b] Ha Hb Ta Tb; [done|..].
  - cbn [String.compare]. symmetry. rewrite <-Qlt_alt. by apply (frac_pos (String y b)).
  - cbn [String.compare]. symmetry. rewrite <-Qgt_alt. by apply (frac_pos (String x a)).
  - rewrite compare_cons. apply digit_q in Ha as [Hx Ha], Hb as [Hy Hb].
    pose proof (frac_bounds a Ha). pose proof (frac_bounds b Hb).
    cbn [frac_value]. destruct (Z.compare_spec (digit x) (digit y)) as [E|E|E].
    + rewrite (IH b) by eauto using no_trail_cons. rewrite E. symmetry.
      destruct (frac_value a ?= frac_value b)%Q eqn:Ec.
      * rewrite <-Qeq_alt in Ec. rewrite <-Qeq_alt. by rewrite Ec.
      * rewrite <-Qlt_alt in Ec. rewrite <-Qlt_alt. lra.
      * rewrite <-Qgt_alt in Ec. rewrite <-Qgt_alt. lra.
    + assert (inject_Z (digit x) + 1 <= inject_Z (digit y))%Q.
      { change 1%Q with (inject_Z 1). rewrite <-inject_Z_plus, <-Zle_Qle. lia. }
      symmetry. rewrite <-Qlt_alt. lra.
    + assert (inject_Z (digit y) + 1 <= inject_Z (digit x))%Q.
      { change 1%Q with (inject_Z 1). rewrite <-inject_Z_plus, <-Zle_Qle. lia. }
      symmetry. rewrite <-Qgt_alt. lra.
Qed.

Lemma int_bounds s : digits s → (0 <= int_value s < 10 ^ Z.of_nat (slen s))%Z.
Proof.
  induction s as [|c s IH]; intros H; [cbn; lia|]. apply digits_cons in H as [Hc H].
  specialize (IH H). rewrite slen_cons, Nat2Z.inj_succ, Z.pow_succ_r by lia. cbn [int_value]. nia.
Qed.
Lemma int_lead s : digits s → no_lead s → s ≠ "" → (10 ^ Z.of_nat (slen s - 1) <= int_value s)%Z.
Proof.
  destruct s as [|c s]; [done|]. intros H Hl _. apply digits_cons in H as [Hc H].
  assert (digit c ≠ 0%Z) by (intros E; by apply (Hl c s eq_refl), digit_inj).
  pose proof (int_bounds s H). rewrite slen_cons, Nat.sub_succ, Nat.sub_0_r. cbn [int_value].
  assert (0 < 10 ^ Z.of_nat (slen s))%Z by (apply Z.pow_pos_nonneg; lia). nia.
Qed.
Lemma int_shorter a b :
  digits a → digits b → no_lead b → slen a < slen b → (int_value a < int_value b)%Z.
Proof.
  intros Ha Hb Lb Hl. pose proof (int_bounds a Ha).
  assert (b ≠ "") as Hb0 by (intros ->; cbn in Hl; lia).
  pose proof (int_lead b Hb Lb Hb0).
  assert (10 ^ Z.of_nat (slen a) <= 10 ^ Z.of_nat (slen b - 1))%Z; [|lia].
  apply Z.pow_le_mono_r; lia.
Qed.
Lemma int_compare a b :
  digits a → digits b → slen a = slen b → String.compare a b = (int_value a ?= int_value b)%Z.
Proof.
  revert b. induction a as [|x a IH]; intros [|y b] Ha Hb Hl; [done..|].
  rewrite !slen_cons in Hl. injection Hl as Hl. rewrite compare_cons.
  apply digits_cons in Ha as [Hx Ha], Hb as [Hy Hb].
  pose proof (int_bounds a Ha). pose proof (int_bounds b Hb). rewrite <-Hl in *.
  cbn [int_value]. rewrite <-Hl, (IH b) by done.
  destruct (Z.compare_spec (digit x) (digit y)), (Z.compare_spec (int_value a) (int_value b)); symmetry;
    first [apply Z.compare_eq_iff|apply Z.compare_lt_iff|apply Z.compare_gt_iff]; nia.
Qed.

(** What [numKey] returns is canonical. *)
Definition canonical (k : bool * string * string) : Prop :=
  let '(neg, i, f) := k in
  digits i ∧ digits f ∧ no_lead i ∧ no_trail f ∧ (neg = true → ¬ (i = "" ∧ f = "")).

Lemma trim_left_digits s : digits s → digits (trim_left zero_byte s) ∧ no_lead (trim_left zero_byte s).
Proof.
  induction s as [|c s IH]; intros H; cbn [trim_left]; [done|].
  pose proof (proj1 (digits_cons _ _) H) as [_ Hs]. unfold zero_byte at 1 3.
  destruct (ceq c "0") eqn:E; [by apply IH|]. split; [done|].
  by intros d s' [= -> ->] ->.
Qed.
Lemma trim_right_digits s :
  digits s → digits (trim_right zero_byte s) ∧ no_trail (trim_right zero_byte s).
Proof.
  induction s as [|a c IH] using string_rev_ind; intros H.
  { split; [done|]. intros d s' Hx%(f_equal slen). rewrite slen_app in Hx. cbn in Hx. lia. }
  assert (digits a) as Ha.
  { unfold digits in *. rewrite all_bytes_app in H. by bool_prop. }
  destruct (zero_byte c) eqn:E.
  - rewrite trim_right_all by (unfold all_bytes; cbn; by rewrite E). by apply IH.
  - rewrite trim_right_snoc by done. split; [done|]. intros d s' Hx%(f_equal bytes).
    rewrite !bytes_app in Hx. apply app_inj_tail in Hx as [_ <-].
    by intros ->.
Qed.
Lemma numKey_canonical s : canonical (numKey s).
Proof.
  unfold numKey. destruct (match snd _ with String "-" r => _ | _ => _ end) as [neg s1].
  pose proof (span_all is_digit s1) as Hi. destruct (span is_digit s1) as [ip s2].
  apply trim_left_digits in Hi as [Hi Li].
  set (f := match s2 with String "." r => _ | _ => _ end).
  assert (digits f ∧ no_trail f) as [Hf Tf].
  { unfold f. repeat case_match; try (by apply trim_right_digits, span_all);
      (split; [done|]; intros ? ? Hx%(f_equal slen); rewrite slen_app in Hx; cbn in Hx; lia). }
  cbn [canonical]. repeat split_and; try done. cbn [fst]. intros Hn [Hi0 Hf0].
  cbn [fst] in *. by rewrite Hi0, Hf0 in Hn.
Qed.

Definition mag (i f : string) : Q := (inject_Z (int_value i) + frac_value f)%Q.
Lemma mag_pos i f :
  digits i → digits f → no_lead i → no_trail f → ¬ (i = "" ∧ f = "") → (0 < mag i f)%Q.
Proof.
  intros Hi Hf Li Tf Hne. unfold mag. pose proof (frac_bounds f Hf).
  destruct (decide (i = "")) as [->|Hi0].
  - assert (f ≠ "") as Hf0 by (intros ->; by apply Hne). pose proof (frac_pos f Hf Tf Hf0). cbn [int_value].
    change (inject_Z 0) with 0%Q. lra.
  - pose proof (int_lead i Hi Li Hi0).
    assert (0 < 10 ^ Z.of_nat (slen i - 1))%Z by (apply Z.pow_pos_nonneg; lia).
    assert (0 < inject_Z (int_value i))%Q; [|lra].
    change 0%Q with (inject_Z 0). rewrite <-Zlt_Qlt. lia.
Qed.
Lemma mag_nonneg i f : digits i → digits f → (0 <= mag i f)%Q.
Proof.
  intros Hi Hf. unfold mag. pose proof (frac_bounds f Hf). pose proof (int_bounds i Hi).
  assert (0 <= inject_Z (int_value i))%Q; [|lra].
  change 0%Q with (inject_Z 0). rewrite <-Zle_Qle. lia.
Qed.
Lemma mag_int_lt i f j g :
  digits f → digits g → (int_value i < int_value j)%Z → (mag i f < mag j g)%Q.
Proof.
  intros Hf Hg H. unfold mag. pose proof (frac_bounds f Hf). pose proof (frac_bounds g Hg).
  assert (inject_Z (int_value i) + 1 <= inject_Z (int_value j))%Q; [|lra].
  change 1%Q with (inject_Z 1). rewrite <-inject_Z_plus, <-Zle_Qle. lia.
Qed.

Definition magCompare (ai af bi bf : string) : Z :=
  if negb (slen ai =? slen bi) then (Z.of_nat (slen ai) - Z.of_nat (slen bi))%Z
  else if negb (seqb ai bi) then Compare ai bi
  else Compare af bf.
Lemma Compare_sign a b : (Compare a b ?= 0)%Z = String.compare a b.
Proof. unfold Compare. by destruct (String.compare a b). Qed.
Lemma magCompare_value ai af bi bf :
  digits ai → digits af → no_lead ai → no_trail af →
  digits bi → digits bf → no_lead bi → no_trail bf →
  (magCompare ai af bi bf ?= 0)%Z = (mag ai af ?= mag bi bf)%Q.
Proof.
  intros Hai Haf Lai Taf Hbi Hbf Lbi Tbf. unfold magCompare.
  destruct (slen ai =? slen bi) eqn:El; cbn [negb].
  - apply Nat.eqb_eq in El. destruct (seqb ai bi) eqn:Es; cbn [negb].
    + apply seqb_true in Es as <-. rewrite Compare_sign, frac_compare by done.
      unfold mag. destruct (frac_value af ?= frac_value bf)%Q eqn:Ec; symmetry.
      * rewrite <-Qeq_alt in Ec |- *. lra.
      * rewrite <-Qlt_alt in Ec |- *. lra.
      * rewrite <-Qgt_alt in Ec |- *. lra.
    + apply seqb_false in Es. rewrite Compare_sign, int_compare by done.
      destruct (Z.compare_spec (int_value ai) (int_value bi)) as [E|E|E]; symmetry.
      * destruct Es. pose proof (int_compare ai bi Hai Hbi El) as Hc.
        rewrite E, Z.compare_refl in Hc. by apply String.compare_eq_iff in Hc.
      * rewrite <-Qlt_alt. by apply mag_int_lt.
      * rewrite <-Qgt_alt. by apply mag_int_lt.
  - apply Nat.eqb_neq in El. symmetry.
    destruct (Z.compare_spec (Z.of_nat (slen ai) - Z.of_nat (slen bi)) 0) as [E|E|E]; [lia|..].
    + rewrite <-Qlt_alt. apply mag_int_lt; [done..|]. apply int_shorter; [done..|lia].
    + rewrite <-Qgt_alt. apply mag_int_lt; [done..|]. apply int_shorter; [done..|lia].
Qed.

Lemma numCompare_value a b :
  (numCompare a b ?= 0)%Z = (key_value (numKey a) ?= key_value (numKey b))%Q.
Proof.
  pose proof (numKey_canonical a) as Ha. pose proof (numKey_canonical b) as Hb.
  unfold numCompare. destruct (numKey a) as [[an ai] af], (numKey b) as [[bn bi] bf].
  destruct Ha as (Hai & Haf & Lai & Taf & Na), Hb as (Hbi & Hbf & Lbi & Tbf & Nb).
  pose proof (magCompare_value ai af bi bf Hai Haf Lai Taf Hbi Hbf Lbi Tbf) as Hm.
  fold (magCompare ai af bi bf). cbn [key_value]. fold (mag ai af). fold (mag bi bf).
  pose proof (mag_nonneg ai af Hai Haf). pose proof (mag_nonneg bi bf Hbi Hbf).
  destruct an, bn; cbn [Bool.eqb negb].
  - destruct (mag ai af ?= mag bi bf)%Q eqn:E; symmetry.
    + rewrite <-Qeq_alt in E. rewrite Z.compare_eq_iff in Hm. rewrite Hm. cbn [Z.opp Z.compare].
      rewrite <-Qeq_alt. lra.
    + rewrite <-Qlt_alt in E. rewrite Z.compare_lt_iff in Hm.
      rewrite (proj2 (Z.compare_gt_iff _ _)) by lia. rewrite <-Qgt_alt. lra.
    + rewrite <-Qgt_alt in E. rewrite Z.compare_gt_iff in Hm.
      rewrite (proj2 (Z.compare_lt_iff _ _)) by lia. rewrite <-Qlt_alt. lra.
  - pose proof (mag_pos ai af Hai Haf Lai Taf (Na eq_refl)). symmetry. rewrite <-Qlt_alt. lra.
  - pose proof (mag_pos bi bf Hbi Hbf Lbi Tbf (Nb eq_refl)). symmetry. rewrite <-Qgt_alt. lra.
  - done.
Qed.

(** The order of [sort -rn]: a larger value first, then the byte order
    reversed. *)
Definition rn_before (a b : string) : Prop :=
  (key_value (numKey b) < key_value (numKey a))%Q ∨
  (key_value (numKey b) == key_value (numKey a))%Q ∧ String.le b a.

Lemma sortRN_less_cmp a b :
  sortRN_less a b =
  match (key_value (numKey a) ?= key_value (numKey b))%Q, String.compare a b with
  | Gt, _ | Eq, Gt => true | _, _ => false end.
Proof.
  unfold sortRN_less. pose proof (numCompare_value a b) as H. pose proof (Compare_sign a b) as Hc.
  rewrite <-H. destruct (Z.compare_spec (numCompare a b) 0) as [E|E|E].
  - rewrite E. cbn [Z.eqb]. destruct (String.compare a b); rewrite ?Z.compare_eq_iff,
      ?Z.compare_lt_iff, ?Z.compare_gt_iff in Hc; lia.
  - rewrite (proj2 (Z.eqb_neq _ _)) by lia. destruct (String.compare a b); lia.
  - rewrite (proj2 (Z.eqb_neq _ _)) by lia. destruct (String.compare a b); lia.
Qed.
Lemma sortRN_less_spec a b : sortRN_less a b = false ↔ rn_before b a.
Proof.
  rewrite sortRN_less_cmp. unfold rn_before. rewrite <-str_less_spec. unfold str_less.
  rewrite (String.compare_antisym b a).
  destruct (key_value (numKey a) ?= key_value (numKey b))%Q eqn:E.
  - rewrite <-Qeq_alt in E. assert (¬ (key_value (numKey a) < key_value (numKey b))%Q) by lra.
    destruct (String.compare a b); cbn; split; try done;
      [by right|by right|intros [?|[_ ?]]; done].
  - rewrite <-Qlt_alt in E. split; [by left|done].
  - rewrite <-Qgt_alt in E. split; [done|]. intros [Hl|[Hl _]]; lra.
Qed.
Lemma rn_before_trans a b c : rn_before a b → rn_before b c → rn_before a c.
Proof.
  unfold rn_before. intros [H1|[H1 L1]] [H2|[H2 L2]]; [left; lra..|].
  right. split; [lra|]. by etrans.
Qed.
#[export] Instance sortRN_strict : StrictWeak sortRN_less.
Proof.
  split.
  - intros a b H. rewrite sortRN_less_spec. rewrite sortRN_less_cmp in H. unfold rn_before.
    destruct (_ ?= _)%Q eqn:E; [|done|].
    + rewrite <-Qeq_alt in E. right. split; [lra|]. rewrite <-str_less_spec. unfold str_less.
      by destruct (String.compare a b).
    + rewrite <-Qgt_alt in E. by left.
  - intros a b c. rewrite !sortRN_less_spec. eauto using rn_before_trans.
Qed.
Lemma sortRN_total a b : sortRN_less a b = false → sortRN_less b a = false → a = b.
Proof.
  rewrite !sortRN_less_spec. unfold rn_before. intros [H1|[H1 L1]] [H2|[H2 L2]]; [lra..|].
  by apply (anti_symm String.le).
Qed.
Lemma sortRN_perm l1 l2 : l1 ≡ₚ l2 → sortRN l1 = sortRN l2.
Proof. intros Hp. by apply (sort_stable_unique _ _ _ sortRN_total). Qed.
Lemma sortRN_sorted l : StronglySorted rn_before (sortRN l).
Proof.
  pose proof (sort_stable_sorted sortRN_less l) as H. fold (sortRN l) in H.
  induction H as [|x k Hk IH Hall]; [constructor|]. constructor; [done|].
  eapply Forall_impl; [exact Hall|]. intros y Hy. by apply sortRN_less_spec.
Qed.

(** [sortRN] is [sort -rn]: a permutation ordered by the numeric value of
    the lines' leading decimals, larger first, equal values in reverse byte
    order; the result does not depend on the order of the input. *)
Theorem sortRN_sort lines lines' :
  lines ≡ₚ lines' →
  sortRN lines ≡ₚ lines ∧ StronglySorted rn_before (sortRN lines) ∧ sortRN lines = sortRN lines'.
Proof.
  intros Hp. split_and!; [apply sort_stable_perm|apply sortRN_sorted|by apply sortRN_perm].
Qed.
Lemma sortRN_sort_witness :
  sortRN [" 2 b"; "10 a"; " 2 c"] = sortRN [" 2 c"; " 2 b"; "10 a"] ∧
  sortRN [" 2 b"; "10 a"; " 2 c"] = ["10 a"; " 2 c"; " 2 b"].
Proof.
  split; [|vm_done]. apply (sortRN_sort [" 2 b"; "10 a"; " 2 c"] [" 2 c"; " 2 b"; "10 a"]).
  by apply (bool_decide_unpack _).
Defined.

(** ** prefixStream *)
Definition prefix_lines (prefix : string) (l : list (string * bool)) : string :=
  foldr (λ '(x, e) s, prefix +:+ x +:+ (if (e : bool) then nl else "") +:+ s) "" l.

Lemma prefixStream_fold prefix max l out n :
  (n < max ∨ max < 0)%Z →
  fst (fold_lines (λ '(out, n) l eol,
    ((out +:+ prefix +:+ l +:+ (if (eol : bool) then nl else ""), (n + 1)%Z),
     (max <? 0)%Z || (n + 1 <? max)%Z)) (out, n) l) =
  out +:+ prefix_lines prefix (if (max <? 0)%Z then l else take (Z.to_nat (max - n)) l).
Proof.
  revert out n. induction l as [|[x e] l IH]; intros out n Hn; cbn [fold_lines].
  - rewrite take_nil. case_match; cbn; by rewrite app_nil_r_s.
  - destruct (max <? 0)%Z eqn:Em; cbn [orb].
    + rewrite IH by lia. cbn [prefix_lines foldr]. by rewrite !app_assoc_s.
    + apply Z.ltb_ge in Em. replace (Z.to_nat (max - n)) with (S (Z.to_nat (max - (n + 1)))) by lia.
      cbn [take]. destruct (n + 1 <? max)%Z eqn:El.
      * rewrite IH by lia. cbn [prefix_lines foldr]. by rewrite !app_assoc_s.
      * apply Z.ltb_ge in El. replace (Z.to_nat (max - (n + 1))) with 0 by lia.
        rewrite take_0. cbn [fst prefix_lines foldr]. by rewrite !app_nil_r_s.
Qed.
(** What [prefixStream] writes: the prefix before each line, of the first [max]
    lines when [max] is not negative; a last line without a newline stays
    without one. *)
Lemma prefixStream_lines prefix r max :
  prefixStream prefix r max =
  prefix_lines prefix (if (max <? 0)%Z then lines_of r else take (Z.to_nat max) (lines_of r)).
Proof.
  unfold prefixStream. destruct (max =? 0)%Z eqn:E.
  - apply Z.eqb_eq in E as ->. cbn. by rewrite take_0.
  - apply Z.eqb_neq in E. rewrite eachLine_lines, prefixStream_fold by lia.
    by rewrite app_nil_l_s, Z.sub_0_r.
Qed.

(** The lines of a text: no newline inside, and only the last may lack one. *)
Fixpoint lines_ok (l : list (string * bool)) : Prop :=
  match l with
  | [] => True
  | (x, e) :: l => no_byte ch_nl x = true ∧ (e = true ∨ e = false ∧ l = []) ∧ lines_ok l
  end.
Lemma lines_of_ok s : lines_ok (lines_of s).
Proof.
  induction s as [|c s IH]; [done|]. cbn [lines_of].
  destruct (ceq c ch_nl) eqn:E; [cbn; eauto|].
  destruct (lines_of s) as [|[l e] r]; cbn [lines_ok] in *.
  - split; [unfold no_byte; cbn; by rewrite E|eauto].
  - destruct IH as (H & ? & ?). split; [|done]. unfold no_byte in *.
    by rewrite all_bytes_cons, E.
Qed.
Lemma lines_ok_take n l : lines_ok l → lines_ok (take n l).
Proof.
  revert n. induction l as [|[x e] l IH]; intros [|n]; try done.
  cbn [take lines_ok]. intros (? & [->|[-> ->]] & ?); split_and!; eauto.
  rewrite take_nil. eauto.
Qed.
Lemma lines_of_open s : no_byte ch_nl s = true → s ≠ "" → lines_of s = [(s, false)].
Proof.
  intros H Hne. rewrite lines_of_split, split_nosep_id by done. cbn.
  by rewrite (proj2 (seqb_false _ _)).
Qed.
Lemma app_ne_s a b : a ≠ "" → a +:+ b ≠ "".
Proof. by destruct a. Qed.
Lemma lines_of_prefix_lines prefix l :
  no_byte ch_nl prefix = true → prefix ≠ "" → lines_ok l →
  lines_of (prefix_lines prefix l) = prod_map (λ l, prefix +:+ l) id <$> l.
Proof.
  intros Hp Hne. induction l as [|[x e] l IH]; [done|]. cbn [lines_ok prefix_lines foldr].
  intros (Hx & He & Hl). fold (prefix_lines prefix l). cbn [fmap list_fmap prod_map id].
  assert (no_byte ch_nl (prefix +:+ x) = true).
  { unfold no_byte in *. by rewrite all_bytes_app, Hp, Hx. }
  rewrite <-app_assoc_s. destruct He as [->|[-> ->]].
  - rewrite lines_of_app_line by done. by rewrite <-IH.
  - cbn [prefix_lines foldr]. rewrite !app_nil_r_s, lines_of_open; [done..|]. by apply app_ne_s.
Qed.

(** What [prefixStream] writes reads back, line for line, as the first
    [max] lines of its input (all of them for a negative [max]), each with the
    prefix before it and with its newline if it had one: no line of a child's
    output reaches the console without its prefix. *)
Theorem prefixStream_reads prefix r max :
  no_byte ch_nl prefix = true → prefix ≠ "" →
  lines_of (prefixStream prefix r max) =
  prod_map (λ l, prefix +:+ l) id <$>
    (if (max <? 0)%Z then lines_of r else take (Z.to_nat max) (lines_of r)).
Proof.
  intros Hp Hne. rewrite prefixStream_lines.
  apply lines_of_prefix_lines; [done..|].
  case_match; [apply lines_of_ok|apply lines_ok_take, lines_of_ok].
Qed.
Lemma prefixStream_reads_witness :
  lines_of (prefixStream "L1: perf: " ("a" +:+ nl +:+ "b" +:+ nl +:+ "c") 2) =
  [("L1: perf: a", true); ("L1: perf: b", true)].
Proof. rewrite (prefixStream_reads "L1: perf: " _ 2); [vm_compute; reflexivity|reflexivity|done]. Defined.

(** Both writers put out nothing, or something that starts with the prefix. *)
Lemma prefixStream_head prefix r max :
  prefixStream prefix r max = "" ∨ ∃ s, prefixStream prefix r max = prefix +:+ s.
Proof.
  rewrite prefixStream_lines. destruct (if _ : bool then _ else _) as [|[x e] l]; [by left|].
  right. cbn. eauto.
Qed.
Lemma writePrefixed_head prefix l :
  writePrefixed prefix l = "" ∨ ∃ s, writePrefixed prefix l = prefix +:+ s.
Proof.
  rewrite writePrefixed_concat. destruct l as [|x l]; [by left|]. right. cbn.
  rewrite app_assoc_s. eauto.
Qed.
