(* ===== verification/Params.v ===== *)
(** * tools/l1agent/params.go: what the agent decides from the command line

    Everything is a pure function of the contents of /proc/cmdline and the mode:
    the parameters, the module arguments, the guest's command line, the tracefs
    writes, the perf wrapper, qemu's argument vectors, and the reading of the
    kvm-unit-tests manifest.  The section [LastValue] proves that the regular
    expression of [cmdlineValue] reads the last occurrence of a key. *)
From Stdlib Require Import Ascii.
From S2P Require Import Prelude GoStrings Regexp Text.

Definition payload : string := "/mnt/payload".
Definition perfPath : string := payload +:+ "/perf".

Record Params := {
  Vendor : string;
  Suite : string;
  GuestCPUs : string;
  GuestMem : string;
  ModArgs : string;
  TestTimeout : string;
  GuestTimeout : string;
  ProfileCase : string;
  p_GuestAppend : string
}.

(** ** The kernel command line *)

(** [regexp.QuoteMeta]. *)
Definition is_meta (c : ascii) : bool := in_set "\.+*?()|[]{}^$" c.
Fixpoint QuoteMeta (s : string) : string :=
  match s with
  | "" => ""
  | String c s => if is_meta c then String "\" (String c (QuoteMeta s)) else String c (QuoteMeta s)
  end.

Definition cmdlineRe (key class : string) : re :=
  must_compile (".*pvmtest\." +:+ QuoteMeta key +:+ "=(" +:+ class +:+ ")").
(** [strings.Split] into lines, less the empty piece after a final newline. *)
Definition cmdline_lines (cmdline : string) : list string :=
  let lines := split ch_nl cmdline in
  match last lines with Some "" => take (length lines - 1) lines | _ => lines end.
Definition cmdlineValue (cmdline key class : string) : string :=
  let re := cmdlineRe key class in
  stripNewlines
    (foldl (λ out l, match find re l with Some x => out +:+ group 1 x +:+ nl | None => out end)
       "" (cmdline_lines cmdline)).

Definition orDefault (v def : string) : string := if seqb v "" then def else v.

Definition word_class : string := "[^ ]*".
Definition digits_class : string := "[0-9]*".
Definition ParseCmdline (cmdline : string) : Params := {|
  Vendor := orDefault (cmdlineValue cmdline "vendor" word_class) "pvm";
  Suite := orDefault (cmdlineValue cmdline "suite" word_class) "default";
  GuestCPUs := orDefault (cmdlineValue cmdline "guest_cpus" word_class) "2";
  GuestMem := orDefault (cmdlineValue cmdline "guest_mem" word_class) "1G";
  ModArgs := replace_char "," " " (cmdlineValue cmdline "mod_args" word_class);
  TestTimeout := orDefault (cmdlineValue cmdline "test_timeout" digits_class) "300";
  GuestTimeout := cmdlineValue cmdline "guest_timeout" digits_class;
  ProfileCase := cmdlineValue cmdline "profile_case" word_class;
  p_GuestAppend := cmdlineValue cmdline "guest_append" word_class
|}.

(** [ModulePath]: [None] is the false of the second result. *)
Definition ModulePath (vendor : string) : option string :=
  if seqb vendor "pvm" then Some (payload +:+ "/kvm-pvm.ko")
  else if seqb vendor "intel" then Some (payload +:+ "/kvm-intel.ko")
  else None.

Definition InsmodArgv (ko modArgs : string) : list string :=
  ["insmod"; ko] ++ splitIFS modArgs.

(** ** Modes *)
Inductive mode := modeRun | modeProfile | modeLock | modeMMU | modeHosttests | modeKUT.
#[export] Instance mode_eq_dec : EqDecision mode.
Proof. solve_decision. Defined.
Definition mode_string (m : mode) : string :=
  match m with
  | modeRun => "run" | modeProfile => "profile" | modeLock => "lock" | modeMMU => "mmu"
  | modeHosttests => "hosttests" | modeKUT => "kut"
  end.

Definition ResolveMode (suite : string) : mode * string :=
  if seqb suite "profile" then (modeProfile, "perf")
  else if seqb suite "lock" then (modeLock, "perf")
  else if seqb suite "mmu" then (modeMMU, "perf")
  else if seqb suite "hosttests" then (modeHosttests, suite)
  else if seqb suite "kut" then (modeKUT, suite)
  else (modeRun, suite).

(** The function [GuestTimeout]. *)
Definition GuestTimeout_of (suite override : string) : string :=
  let t := if seqb suite "full" || seqb suite "perf" || seqb suite "all" then "1800" else "120" in
  if seqb override "" then t else override.

Definition GuestAppend (p : Params) (m : mode) (suite : string) : string :=
  let s := "console=ttyS0,115200 panic=-1 oops=panic pvmtest.suite=" +:+ suite +:+
           " pvmtest.tag=" +:+ Vendor p +:+ "-guest" in
  let s :=
    if seqb suite "perf" then
      let s := s +:+ " quiet loglevel=0" in
      let s := if decide (m = modeProfile)
               then s +:+ " pvmtest.only=" +:+ orDefault (ProfileCase p) "perf/syscall" else s in
      if decide (m = modeLock)
      then s +:+ " pvmtest.only=" +:+ orDefault (ProfileCase p) "perf/fault-scaling" else s
    else s +:+ " earlyprintk=serial,ttyS0,115200" in
  let s := if seqb (p_GuestAppend p) "" then s else s +:+ " " +:+ echoTr (p_GuestAppend p) in
  if seqb (Vendor p) "pvm" then s +:+ " pvmtest.expect=pvm" else s.

(** ** Tracing and perf *)
Record traceWrite := { File : string; Data : string; Say : string }.

Definition TraceSetup (m : mode) (suite : string) : list traceWrite :=
  let w := [Build_traceWrite "tracing_on" ("0" +:+ nl) ""; Build_traceWrite "trace" nl ""] in
  let w :=
    if decide (m = modeProfile) then w
    else if seqb suite "perf" then
      let w := w ++
        [Build_traceWrite "buffer_size_kb" ("131072" +:+ nl) "";
         Build_traceWrite "events/kvm/kvm_emulate_insn/enable" ("1" +:+ nl)
           "tracing emulated instructions";
         Build_traceWrite "events/kvm/kvm_msr/enable" ("1" +:+ nl) ""] in
      if decide (m = modeMMU)
      then w ++ [Build_traceWrite "events/kvm/kvm_exit/enable" ("1" +:+ nl) "tracing exit reasons"]
      else w
    else w ++
      [Build_traceWrite "buffer_size_kb" ("32768" +:+ nl) "";
       Build_traceWrite "events/kvm/enable" ("1" +:+ nl) "kvm tracepoints enabled"] in
  w ++ [Build_traceWrite "tracing_on" ("1" +:+ nl) ""].

Inductive perfKind := perfNone | perfMMU | perfLock | perfProfile | perfKVMStat.
#[export] Instance perfKind_eq_dec : EqDecision perfKind.
Proof. solve_decision. Defined.

Definition PerfKind (m : mode) (suite : string) (perfOK : bool) : perfKind :=
  if negb perfOK then perfNone
  else match m with
       | modeMMU => perfMMU
       | modeLock => perfLock
       | modeProfile => perfProfile
       | _ => if seqb suite "perf" then perfKVMStat else perfNone
       end.

Definition mmuEvents : string :=
  "kvm:kvm_exit,kvm:kvm_entry,kvm:kvm_emulate_insn,kvm:kvm_pio,kvm:kvm_mmio,kvm:kvm_msr,kvm:kvm_hypercall" +:+
  ",kvmmmu:kvm_mmu_get_page,kvmmmu:kvm_mmu_prepare_zap_page" +:+
  ",kvmmmu:kvm_mmu_sync_page,kvmmmu:kvm_mmu_unsync_page,kvmmmu:fast_page_fault".

Definition PerfPrefix (k : perfKind) : list string :=
  match k with
  | perfMMU => [perfPath; "stat"; "-a"; "-o"; "/tmp/mmu.txt"; "-e"; mmuEvents; "--"]
  | perfLock => [perfPath; "lock"; "record"; "-a"; "-o"; "/tmp/lock.data"; "--"]
  | perfProfile =>
      [perfPath; "record"; "-e"; "cycles:k"; "-F"; "4000"; "-g"; "-o"; "/tmp/cycles.data"; "--"]
  | perfKVMStat => [perfPath; "kvm"; "stat"; "record"; "-a"; "--"]
  | perfNone => []
  end.
Definition KVMStatProbeArgv : list string :=
  [perfPath; "kvm"; "stat"; "record"; "-a"; "--"; "true"].

(** ** Argument vectors *)
Definition QemuArgv (guestTimeout : string) (perfPrefix machine : list string)
    (cpus mem appendLine : string) : list string :=
  ["timeout"; "-k"; "5"; guestTimeout] ++ perfPrefix ++ ["qemu-system-x86_64"] ++ machine ++
  ["-cpu"; "host"; "-smp"; cpus; "-m"; mem;
   "-kernel"; payload +:+ "/guest-vmlinux";
   "-initrd"; payload +:+ "/initrd.cpio.gz";
   "-append"; appendLine;
   "-display"; "none"; "-monitor"; "none"; "-serial"; "file:/tmp/guest.log";
   "-no-reboot"].
Definition TestArgv (testTimeout path : string) : list string :=
  ["timeout"; "-k"; "5"; testTimeout; path].

Definition SelftestName (base : string) : string := replace_1 "__" "/" base.
Definition SelftestVerdict (rc : Z) : string :=
  if (rc =? 0)%Z then "pass"
  else if (rc =? 4)%Z then "skip"
  else if (rc =? 124)%Z || (rc =? 137)%Z then "timeout"
  else "fail".

Definition profileReportArgv (extra : list string) : list string :=
  [perfPath; "report"; "-i"; "/tmp/cycles.data"; "--stdio"; "--sort"; "symbol"] ++ extra.
Definition lockContentionArgv (extra : list string) : list string :=
  [perfPath; "lock"; "contention"; "-i"; "/tmp/lock.data"; "-q"; "-k"; "wait_total"] ++ extra.
Definition kvmStatReportArgv (data : string) : list string :=
  [perfPath; "kvm"; "-i"; data; "stat"; "report"; "--stdio"].

(** ** kvm-unit-tests *)
Record KUTTest := {
  Name : string; KFile : string; Smp : string; Timeout : string; Check_ : string;
  Args : list string
}.

(** The loop of [SplitQuoted]: [quote] is [Some q] inside quotes, [cur] the
    word being read and [word] whether there is one. *)
Fixpoint SplitQuoted_go (quote : option ascii) (word : bool) (cur s : string) : list string :=
  match s with
  | "" => if word then [cur] else []
  | String ch s =>
      match quote with
      | Some q =>
          if ceq ch q then SplitQuoted_go None word cur s
          else SplitQuoted_go quote word (cur +:+ str1 ch) s
      | None =>
          if ceq ch "'" || ceq ch ch_dq then SplitQuoted_go (Some ch) true cur s
          else if ceq ch " " || ceq ch ch_tab then
            if word then cur :: SplitQuoted_go None false "" s
            else SplitQuoted_go None word cur s
          else SplitQuoted_go None true (cur +:+ str1 ch) s
      end
  end.
Definition SplitQuoted (s : string) : list string := SplitQuoted_go None false "" s.

Definition ParseKUTManifest (b : string) : list KUTTest :=
  foldl (λ out l,
    if seqb l "" || has_prefix l "#" then out
    else match split_n 6 ch_tab l with
         | [n; f; s; t; c; a] => out ++ [Build_KUTTest n f s t c (SplitQuoted a)]
         | _ => out
         end) [] (split ch_nl b).

(** [read] is the file system: [None] is an error. *)
Fixpoint KUTCheck_go (cs : list string) (read : string → option string) : string :=
  match cs with
  | [] => ""
  | c :: cs =>
      let '(path, value) := match cut c "=" with Some pv => pv | None => (c, "") end in
      match read path with
      | Some got => if seqb (trim_space got) value then KUTCheck_go cs read else c
      | None => c
      end
  end.
Definition KUTCheck (check : string) (read : string → option string) : string :=
  KUTCheck_go (fields check) read.

Definition KUTArgv (dir : string) (t : KUTTest) : list string :=
  ["timeout"; "-k"; "5"; Timeout t; "qemu-system-x86_64";
   "--no-reboot"; "-nodefaults"; "-global"; "kvm-pit.lost_tick_policy=discard";
   "-device"; "pc-testdev"; "-device"; "isa-debug-exit,iobase=0xf4,iosize=0x4";
   "-display"; "none"; "-serial"; "stdio"; "-device"; "pci-testdev";
   "-machine"; "accel=kvm"; "-kernel"; dir +:+ "/" +:+ KFile t; "-smp"; Smp t] ++ Args t.

Definition KUTVerdict (rc : Z) : string :=
  if (rc =? 1)%Z then "pass"
  else if (rc =? 77)%Z then "skip"
  else if (rc =? 3)%Z then "fail"
  else if (rc =? 124)%Z || (rc =? 137)%Z then "timeout"
  else "error".

(** ** cmdlineValue reads the last occurrence *)

(** The parameters, with the class of their values. *)
Definition cmdline_keys : list (string * string * cclass) :=
  let w := CClass true [(" ", " ")%char] in
  let d := CClass false [("0", "9")%char] in
  [("vendor", word_class, w); ("suite", word_class, w); ("guest_cpus", word_class, w);
   ("guest_mem", word_class, w); ("mod_args", word_class, w); ("test_timeout", digits_class, d);
   ("guest_timeout", digits_class, d); ("profile_case", word_class, w);
   ("guest_append", word_class, w)].

Section LastValue.
(** What comes before the value, and the bytes a value has. *)
Context (key : string) (cl : cclass).

(** The run of value bytes after the last occurrence of the key. *)
Fixpoint last_value (s : string) : option string :=
  match s with
  | "" => match cut_prefix key s with Some r => Some (fst (span (in_class cl) r)) | None => None end
  | String c s' =>
      match last_value s' with
      | Some v => Some v
      | None =>
          match cut_prefix key s with
          | Some r => Some (fst (span (in_class cl) r))
          | None => None
          end
      end
  end.

Definition dot : cclass := CClass true [(ch_nl, ch_nl)].
Definition last_re : re := RCat (RStar (RClass dot)) (lits key (RGroup 1 (RStar (RClass cl)))).

Lemma in_class_dot c : in_class dot c = negb (ceq c ch_nl).
Proof. unfold dot. rewrite <-in_class_lit. done. Qed.

(** From a position, the tail of the pattern captures the run. *)
Definition value_st (p : option ascii) (r : string) : mst :=
  let '(v, r') := span (in_class cl) r in Mst (prev_of (prev_of p key) v) r' [(1, v)].
Lemma value_at p s :
  m (lits key (RGroup 1 (RStar (RClass cl)))) (Mst p s []) Some =
  value_st p <$> cut_prefix key s.
Proof.
  rewrite m_lits. destruct (cut_prefix key s) as [r|]; [|done]. cbn [fmap option_fmap option_map].
  rewrite m_group, m_star_class. apply greedy_run. rewrite between_span. unfold value_st.
  destruct (span (in_class cl) r) as [v r'] eqn:E. done.
Qed.
Lemma value_caps p r : cap_lookup 1 (m_caps (value_st p r)) = Some (fst (span (in_class cl) r)).
Proof. unfold value_st. by destruct (span _ r). Qed.

Lemma greedy_last p s :
  no_byte ch_nl s = true →
  match m_at last_re (Mst p s []) with
  | Some st => ∃ v, last_value s = Some v ∧ cap_lookup 1 (m_caps st) = Some v
  | None => last_value s = None
  end.
Proof.
  unfold m_at, last_re. rewrite m_cat, m_star_class.
  revert p. induction s as [|c s IH]; intros p H.
  - cbn [greedy last_value]. rewrite value_at. destruct (cut_prefix key "") as [r|]; [|done].
    cbn. eauto using value_caps.
  - unfold no_byte in *. rewrite all_bytes_cons in H. apply andb_prop in H as [Hc H].
    cbn [greedy]. rewrite in_class_dot, Hc. specialize (IH (Some c) H).
    cbn [last_value]. destruct (greedy _ _ s _ _) as [st|].
    + destruct IH as (v & -> & Hv). eauto.
    + rewrite IH, value_at. destruct (cut_prefix key (String c s)) as [r|]; [|done].
      cbn. eauto using value_caps.
Qed.
Lemma find_last prev before s :
  no_byte ch_nl s = true →
  match find_from last_re prev before s with
  | Some x => last_value s = Some (group 1 x)
  | None => last_value s = None
  end.
Proof.
  intros H. pose proof (greedy_last prev s H) as Hg.
  destruct s as [|c s]; cbn [find_from]; destruct (m_at _ _) as [st|].
  - destruct Hg as (v & -> & Hv). unfold group. cbn [r_end]. by rewrite Hv.
  - done.
  - destruct Hg as (v & -> & Hv). unfold group. cbn [r_end]. by rewrite Hv.
  - assert (last_value s = None) as Hn by (cbn [last_value] in Hg; by destruct (last_value s)).
    assert (no_byte ch_nl s = true) as Hs.
    { unfold no_byte in *. rewrite all_bytes_cons in H. by apply andb_prop in H as [_ ?]. }
    rewrite Hg. clear Hg. generalize dependent (before +:+ str1 c). intros b.
    generalize (Some c). intros prev'.
    clear H. revert prev' b Hn Hs. induction s as [|d s IH]; intros prev' b Hn Hs;
      pose proof (greedy_last prev' _ Hs) as Hg; cbn [find_from]; destruct (m_at _ _) as [st|];
      try (destruct Hg as (v & Hv & _); congruence); [done|].
    apply IH.
    + cbn [last_value] in Hn. by destruct (last_value s).
    + unfold no_byte in *. rewrite all_bytes_cons in Hs. by apply andb_prop in Hs as [_ ?].
Qed.

Lemma last_value_bytes q s v : all_bytes q s = true → last_value s = Some v → all_bytes q v = true.
Proof.
  assert (∀ s r, all_bytes q s = true → cut_prefix key s = Some r →
    all_bytes q (fst (span (in_class cl) r)) = true) as Hr.
  { intros t r H ->%cut_prefix_spec. rewrite all_bytes_app in H. apply andb_prop in H as [_ H].
    rewrite <-(span_app (in_class cl) r), all_bytes_app in H. by apply andb_prop in H as [? _]. }
  revert v. induction s as [|c s IH]; intros v H; cbn [last_value].
  - destruct (cut_prefix key "") as [r|] eqn:E; [|done]. intros [= <-]. eauto.
  - destruct (last_value s) as [w|] eqn:Es.
    + intros [= <-]. apply IH; [|done]. rewrite all_bytes_cons in H. by apply andb_prop in H as [_ ?].
    + destruct (cut_prefix key (String c s)) as [r|] eqn:E; [|done]. intros [= <-]. eauto.
Qed.

Lemma last_value_none s : contains s key = false → last_value s = None.
Proof.
  induction s as [|c s IH]; cbn [last_value]; intros H.
  - destruct (cut_prefix key "") as [r|] eqn:E; [|done]. apply cut_prefix_spec in E.
    rewrite E in H. rewrite (proj2 (contains_spec _ _)) in H; [done|by exists "", r].
  - rewrite IH.
    + destruct (cut_prefix key (String c s)) as [r|] eqn:E; [|done]. apply cut_prefix_spec in E.
      rewrite E in H. rewrite (proj2 (contains_spec _ _)) in H; [done|by exists "", r].
    + apply not_true_iff_false. rewrite contains_spec. intros (a & b & ->).
      rewrite (proj2 (contains_spec _ _)) in H; [done|by exists (String c a), b].
Qed.
Lemma last_value_app a s v : last_value s = Some v → last_value (a +:+ s) = Some v.
Proof.
  intros H. induction a as [|c a IH]; [done|]. rewrite app_cons_s. cbn [last_value]. by rewrite IH.
Qed.
Lemma last_value_at a s :
  key ≠ "" → (∀ x y, key +:+ s = x +:+ key +:+ y → x = "") →
  last_value (a +:+ key +:+ s) = Some (fst (span (in_class cl) s)).
Proof.
  intros Hne Hk. apply last_value_app. pose proof (cut_prefix_app key s) as Hc.
  destruct (key +:+ s) as [|c t] eqn:E; [by destruct key|].
  assert (last_value t = None) as Ht.
  { apply last_value_none, not_true_iff_false. rewrite contains_spec. intros (x & y & ->).
    by specialize (Hk (String c x) y eq_refl). }
  cbn [last_value]. by rewrite Ht, Hc.
Qed.
End LastValue.

Lemma stripNewlines_clean s : no_byte ch_nl s = true → stripNewlines s = s.
Proof.
  unfold stripNewlines, no_byte. induction s as [|a c _] using string_rev_ind; [done|].
  rewrite all_bytes_app. intros [_ H]%andb_prop. unfold all_bytes in H. cbn in H.
  rewrite andb_true_r in H. apply trim_right_snoc. by destruct (ceq c ch_nl).
Qed.
Lemma stripNewlines_nl s : stripNewlines (s +:+ nl) = stripNewlines s.
Proof. by apply trim_right_all. Qed.

(** The patterns are the ones the section is about. *)
Lemma cmdlineRe_shape key class cl :
  (key, class, cl) ∈ cmdline_keys →
  cmdlineRe key class = last_re ("pvmtest." +:+ key +:+ "=") cl.
Proof.
  assert (Forall (λ '(key, class, cl), cmdlineRe key class = last_re ("pvmtest." +:+ key +:+ "=") cl)
    cmdline_keys) as H by (repeat constructor; vm_compute; reflexivity).
  intros Hin. rewrite Forall_forall in H. exact (H _ Hin).
Qed.

(** [cmdlineValue] is [last_value], with or without the final newline. *)
Lemma cmdlineValue_eq key class cl line :
  (key, class, cl) ∈ cmdline_keys → no_byte ch_nl line = true →
  let v := default "" (last_value ("pvmtest." +:+ key +:+ "=") cl line) in
  cmdlineValue line key class = v ∧ cmdlineValue (line +:+ nl) key class = v.
Proof.
  intros Hin Hl v.
  assert (∀ x, (x = [line] ∨ line = "" ∧ x = []) → stripNewlines
    (foldl (λ out l, match find (cmdlineRe key class) l with Some x => out +:+ group 1 x +:+ nl | None => out end)
       "" x) = v) as Hx.
  { intros x Hx. rewrite (cmdlineRe_shape _ _ _ Hin).
    pose proof (find_last ("pvmtest." +:+ key +:+ "=") cl None "" line Hl) as Hf.
    destruct Hx as [->|[-> ->]]; cbn [foldl].
    - unfold find. destruct (find_from _ _ _ line) as [x|]; subst v; rewrite Hf; [|done].
      rewrite app_nil_l_s, stripNewlines_nl. cbn [default].
      apply stripNewlines_clean. by eapply last_value_bytes. 
    - subst v. unfold last_value. by rewrite app_cons_s. }
  split; unfold cmdlineValue; apply Hx; unfold cmdline_lines.
  - rewrite split_nosep_id by done. cbn. destruct line; [by right|by left].
  - left. unfold nl. change (str1 ch_nl) with (String ch_nl "").
    rewrite split_app_sep by done. done.
Qed.

(** The regular expression of [cmdlineValue] reads the value after the LAST
    occurrence of [pvmtest.<key>=], wherever in the line it stands: the run of
    value bytes after an occurrence that no other follows, and "" when there is
    none. *)
Theorem cmdlineValue_last key class cl line :
  (key, class, cl) ∈ cmdline_keys → no_byte ch_nl line = true →
  let k := "pvmtest." +:+ key +:+ "=" in
  (∀ a s, line = a +:+ k +:+ s → (∀ x y, k +:+ s = x +:+ k +:+ y → x = "") →
     cmdlineValue (line +:+ nl) key class = fst (span (in_class cl) s)) ∧
  (contains line k = false → cmdlineValue (line +:+ nl) key class = "").
Proof.
  intros Hin Hl k. rewrite (proj2 (cmdlineValue_eq _ _ _ _ Hin Hl)). fold k. split.
  - intros a s -> Hk. by rewrite last_value_at.
  - intros Hc. by rewrite last_value_none.
Qed.
Lemma cmdlineValue_last_witness :
  ("suite", word_class, CClass true [(" ", " ")%char]) ∈ cmdline_keys ∧
  cmdlineValue ("ro pvmtest.suite=fast x=pvmtest.suite=full quiet" +:+ nl) "suite" word_class = "full".
Proof.
  split; [by apply list_elem_of_further, list_elem_of_here|].
  refine (proj1 (cmdlineValue_last "suite" word_class (CClass true [(" ", " ")%char])
    "ro pvmtest.suite=fast x=pvmtest.suite=full quiet" _ _) "ro pvmtest.suite=fast x=" "full quiet" _ _).
  - by apply list_elem_of_further, list_elem_of_here.
  - vm_done.
  - vm_done.
  - intros [|c x] y E; [done|]. exfalso.
    assert (contains (sdrop 1 (String c x +:+ "pvmtest.suite=" +:+ y)) "pvmtest.suite=" = true) as H.
    { rewrite app_cons_s, sdrop_1_cons.
      apply contains_spec. by exists x, y. }
    change "pvmtest.suite=" with ("pvmtest." +:+ "suite" +:+ "=") in H at 1.
    rewrite <-E in H. vm_compute in H. discriminate.
Defined.

(** ** SplitQuoted reads back what is written *)

(** How a word is written in unittests.cfg. *)
Definition plain_byte (c : ascii) : bool :=
  negb (ceq c "'" || ceq c ch_dq) && negb (ceq c " " || ceq c ch_tab).
Inductive written : string → string → Prop :=
  | written_plain w : all_bytes plain_byte w = true → w ≠ "" → written w w
  | written_quoted q w :
      (q = "'"%char ∨ q = ch_dq) → no_byte q w = true → written w (str1 q +:+ w +:+ str1 q).

Lemma SplitQuoted_plain word cur w s :
  all_bytes plain_byte w = true →
  SplitQuoted_go None word cur (w +:+ s) =
  SplitQuoted_go None (word || negb (seqb w "")) (cur +:+ w) s.
Proof.
  revert word cur. induction w as [|c w IH]; intros word cur H.
  - by rewrite app_nil_l_s, app_nil_r_s, orb_false_r.
  - rewrite all_bytes_cons in H. unfold plain_byte at 1 in H. bool_prop.
    rewrite app_cons_s. cbn [SplitQuoted_go]. 
    destruct (ceq c "'" || ceq c ch_dq); [done|]. destruct (ceq c " " || ceq c ch_tab); [done|].
    rewrite IH by done. rewrite app_assoc_s. cbn [orb].
    rewrite (proj2 (seqb_false (String c w) "")) by done. by rewrite orb_true_r.
Qed.
Lemma SplitQuoted_quoted q word cur w s :
  no_byte q w = true →
  SplitQuoted_go (Some q) word cur (w +:+ String q s) = SplitQuoted_go None word (cur +:+ w) s.
Proof.
  unfold no_byte. revert cur. induction w as [|c w IH]; intros cur H.
  - rewrite app_nil_l_s, app_nil_r_s. cbn [SplitQuoted_go]. by rewrite ceq_refl.
  - rewrite all_bytes_cons in H. apply andb_prop in H as [Hc H].
    rewrite app_cons_s. cbn [SplitQuoted_go]. destruct (ceq c q); [done|].
    rewrite IH by done. by rewrite app_assoc_s.
Qed.
Lemma SplitQuoted_word w t s :
  written w t → SplitQuoted_go None false "" (t +:+ s) = SplitQuoted_go None true w s.
Proof.
  intros [w' H Hne|q w' Hq H].
  - rewrite SplitQuoted_plain by done. by rewrite app_nil_l_s, (proj2 (seqb_false _ _)).
  - rewrite !app_assoc_s. unfold str1. rewrite !app_cons_s, !app_nil_l_s. cbn [SplitQuoted_go].
    replace (ceq q "'" || ceq q ch_dq) with true by (by destruct Hq as [-> | ->]).
    rewrite SplitQuoted_quoted by done. by rewrite app_nil_l_s.
Qed.

(** A list of words, each written plain or quoted, and joined by blanks is
    read back by [SplitQuoted] as exactly those words, empty and blank-holding
    quoted ones included. *)
Theorem SplitQuoted_written ws ts :
  Forall2 written ws ts → SplitQuoted (join " " ts) = ws.
Proof.
  unfold SplitQuoted. intros H. induction H as [|w t ws ts Hw H IH]; [done|].
  destruct H as [|w' t' ws ts Hw' H].
  - cbn [join]. rewrite <-(app_nil_r_s t), (SplitQuoted_word w) by done. done.
  - rewrite join_cons, (SplitQuoted_word w) by done. rewrite app_cons_s, app_nil_l_s.
    cbn [SplitQuoted_go ceq orb]. by f_equal.
Qed.
Lemma SplitQuoted_written_witness :
  SplitQuoted (join " " ["-append"; "'force emulation 1'"; "-cpu"; "host"]) =
  ["-append"; "force emulation 1"; "-cpu"; "host"].
Proof.
  apply (SplitQuoted_written ["-append"; "force emulation 1"; "-cpu"; "host"]).
  repeat (apply Forall2_cons; split).
  - by apply written_plain.
  - apply (written_quoted "'" "force emulation 1"); [by left|done].
  - by apply written_plain.
  - by apply written_plain.
  - apply Forall2_nil; done.
Defined.

(** ** The check of a unit test *)
Lemma fields_ne s : Forall (λ w, w ≠ "") (fields s).
Proof.
  pose proof (fields_go_clean is_space "" s eq_refl) as H. fold (fields s) in H.
  eapply Forall_impl; [exact H|]. by intros x [_ ?].
Qed.

(** [<path>=<value>] holds: the file is readable and its trimmed text is the
    value. *)
Definition KUT_holds (read : string → option string) (c : string) : Prop :=
  ∃ got, read (default c (fst <$> cut c "=")) = Some got ∧
         trim_space got = default "" (snd <$> cut c "=").
Lemma KUTCheck_step c cs read :
  KUT_holds read c ∧ KUTCheck_go (c :: cs) read = KUTCheck_go cs read ∨
  ¬ KUT_holds read c ∧ KUTCheck_go (c :: cs) read = c.
Proof.
  unfold KUT_holds. cbn [KUTCheck_go]. destruct (cut c "=") as [[path value]|]; cbn.
  - destruct (read path) as [got|]; [|right; naive_solver].
    destruct (seqb (trim_space got) value) eqn:E.
    + apply seqb_true in E. naive_solver.
    + apply seqb_false in E. right. split; [|done]. intros (g & [= <-] & ?). done.
  - destruct (read c) as [got|]; [|right; naive_solver].
    destruct (seqb (trim_space got) "") eqn:E.
    + apply seqb_true in E. naive_solver.
    + apply seqb_false in E. right. split; [|done]. intros (g & [= <-] & ?). done.
Qed.

(** [KUTCheck] returns "" exactly when every <path>=<value> of the check
    holds of the files read; otherwise it returns the first one that does
    not. *)
Theorem KUTCheck_holds check read :
  (KUTCheck check read = "" ↔ Forall (KUT_holds read) (fields check)) ∧
  (KUTCheck check read ≠ "" → ∃ before after,
    fields check = before ++ KUTCheck check read :: after ∧
    Forall (KUT_holds read) before ∧ ¬ KUT_holds read (KUTCheck check read)).
Proof.
  unfold KUTCheck. pose proof (fields_ne check) as Hne.
  induction (fields check) as [|c cs IH]; [naive_solver|].
  apply Forall_cons in Hne as [Hc Hne]. destruct (IH Hne) as [IH1 IH2].
  destruct (KUTCheck_step c cs read) as [[Hh ->]|[Hh ->]]; rewrite Forall_cons.
  - split; [rewrite IH1; by split; [|intros []]|]. intros (b & a & Hb & ? & ?)%IH2.
    exists (c :: b), a. rewrite Forall_cons. by rewrite Hb at 1.
  - split; [split; [by intros ->|by intros [? _]]|]. intros _. exists [], cs. by rewrite Forall_nil.
Qed.
Lemma KUTCheck_holds_witness :
  let read f := if seqb f "/sys/module/kvm_intel/parameters/allow_smaller_maxphyaddr"
                then Some ("Y" +:+ nl) else None in
  KUTCheck "/sys/module/kvm_intel/parameters/allow_smaller_maxphyaddr=Y /no=1" read = "/no=1" ∧
  ¬ KUT_holds read "/no=1".
Proof.
  intros read. split; [reflexivity|].
  destruct (proj2 (KUTCheck_holds
    "/sys/module/kvm_intel/parameters/allow_smaller_maxphyaddr=Y /no=1" read))
    as (b & a & _ & _ & H); [by vm_compute|]. exact H.
Defined.
