(* ===== verification/Trace.v ===== *)
(** * tools/l1agent/trace.go: the ftrace and dmesg reports

    Functions from a text to the lines printed.  A Go map counted up and then
    ranged over is a [gmap] read in the order of [map_to_list]; the histogram
    theorems show that no other order would print anything else, and what each
    count is.  The ring buffer of [LastTraceLines] is modelled with its indices:
    an index out of range is [None], the panic. *)
From Stdlib Require Import Ascii.
From S2P Require Import Prelude GoStrings Regexp Text.

(** ** Exit reasons *)
Definition hcNames : list (string * string) :=
  [("20001", "HC_IRQ_WIN"); ("20002", "HC_IRQ_HALT");
   ("20003", "HC_LOAD_PGTBL"); ("20004", "HC_TLB_FLUSH");
   ("20005", "HC_TLB_FLUSH_CURRENT");
   ("20006", "HC_TLB_INVLPG");
   ("20007", "HC_LOAD_GS"); ("20008", "HC_RDMSR");
   ("20009", "HC_WRMSR"); ("2000a", "HC_LOAD_TLS")].
(** Lookup in a map literal. *)
Fixpoint assoc (k : string) (l : list (string * string)) : option string :=
  match l with
  | [] => None
  | (k', v) :: l => if seqb k' k then Some v else assoc k l
  end.

Definition hcReason (r info2 : string) : string :=
  if negb (seqb r "HYPERCALL") then r
  else
    let v := if has_prefix info2 "0x" then trim_left (in_set "0") (sdrop 2 info2) else info2 in
    match assoc v hcNames with
    | Some n => n
    | None => "HYPERCALL(" +:+ v +:+ ")"
    end.

Definition exitRe : re :=
  must_compile ".*kvm_exit: .* reason (.*) rip .*info2 (0x[0-9a-f]*)".
Definition exitRipRe : re :=
  must_compile ".*kvm_exit: .* reason (.*) rip (0x[0-9a-f]*).*info2 (0x[0-9a-f]*)".
Definition insnRe : re := must_compile ".*kvm_emulate_insn: [^:]*:[^:]*:([0-9a-f ]*)\(".
Definition msrRe : re := must_compile ".*kvm_msr: msr_([a-z]*) ([0-9a-f]*) ".
Lemma trace_compile_ok :
  Forall (λ p, is_Some (compile p))
    [".*kvm_exit: .* reason (.*) rip .*info2 (0x[0-9a-f]*)";
     ".*kvm_exit: .* reason (.*) rip (0x[0-9a-f]*).*info2 (0x[0-9a-f]*)";
     ".*kvm_emulate_insn: [^:]*:[^:]*:([0-9a-f ]*)\(";
     ".*kvm_msr: msr_([a-z]*) ([0-9a-f]*) "; "segfault|trap [a-z]+ ip|traps:"].
Proof. repeat constructor; vm_compute; eauto. Qed.

Definition litExit : string := "kvm_exit: ".
Definition litInsn : string := "kvm_emulate_insn: ".
Definition litMsr : string := "kvm_msr: msr_".

Definition awkSplitBar (s : string) : list string := split "|" s.

(** The loop the histograms share: [keyOf] is what the callback counts the
    line under, if anything. *)
Definition countLines (keyOf : string → option string) (r : string) : gmap string Z :=
  eachLine (λ n l _, (match keyOf l with Some k => count_up k n | None => n end, true)) ∅ r.

Definition exitKey (l : string) : option string :=
  if negb (contains l litExit) then None
  else match find exitRe l with
       | Some x => let f := awkSplitBar (group 1 x +:+ "|" +:+ group 2 x) in
                   Some (hcReason (field f 1) (field f 2))
       | None => None
       end.
(** ["%8d  %s"] for each key. *)
Definition countLine (kv : string * Z) : string :=
  pad_left " " 8 (itoa kv.2) +:+ "  " +:+ kv.1.
Definition ExitsByReason (r : string) : list string :=
  let n := countLines exitKey r in
  head (sortRN (countLine <$> map_to_list n)) 18.

(** The pair (reason, rip) of [ExitsByRip]. *)
Definition exitRipKey (l : string) : option (string * string) :=
  if negb (contains l litExit) then None
  else match find exitRipRe l with
       | Some x => let f := awkSplitBar (group 1 x +:+ "|" +:+ group 2 x +:+ "|" +:+ group 3 x) in
                   Some (hcReason (field f 1) (field f 3), field f 2)
       | None => None
       end.
Definition count_up2 (k : string * string) (n : gmap (string * string) Z)
    : gmap (string * string) Z := <[k := (default 0 (n !! k) + 1)%Z]> n.
Definition ripLine (kv : (string * string) * Z) : string :=
  pad_left " " 8 (itoa kv.2) +:+ "  " +:+ padRight kv.1.1 22 +:+ " " +:+ kv.1.2.
Definition countRips (r : string) : gmap (string * string) Z :=
  eachLine (λ n l _, (match exitRipKey l with Some k => count_up2 k n | None => n end, true)) ∅ r.
Definition ExitsByRip (r : string) : list string :=
  head (sortRN (ripLine <$> map_to_list (countRips r))) 25.

Definition insnBytes (l : string) : option string :=
  if negb (contains l litInsn) then None
  else match find insnRe l with
       | Some x => Some (group 1 x)
       | None => None
       end.

Definition CountLines (r lit : string) : Z :=
  eachLine (λ c l _, ((if contains l lit then c + 1 else c)%Z, true)) 0%Z r.

Definition insnKey (l : string) : option string :=
  match insnBytes l with
  | Some s => let f := awkFields s in
              Some (field f 1 +:+ " " +:+ field f 2 +:+ " " +:+ field f 3)
  | None => None
  end.
Definition InsnHistogram (r : string) : list string :=
  head (sortRN (uniqCount (countLines insnKey r))) 20.

(** ** Privileged instructions *)
Definition isHexLower (c : ascii) : bool := is_digit c || in_range "a" "f" c.
Definition isPrefix (p : string) : bool :=
  seqb p "66" || seqb p "67" ||
  match p with String "4" (String d "") => isHexLower d | _ => false end ||
  seqb p "f2" || seqb p "f3" || seqb p "2e" || seqb p "3e" ||
  seqb p "26" || seqb p "36" || seqb p "64" || seqb p "65".
(** The [for] loop: the index of the first field that is no prefix; fields end,
    so [length f] steps are enough ([skipPrefixes_stop]). *)
Fixpoint skipPrefixes (fuel i : nat) (f : list string) : nat :=
  match fuel with
  | O => i
  | S fuel => if isPrefix (field f i) then skipPrefixes fuel (S i) f else i
  end.
Definition privName (f : list string) : string :=
  let i := skipPrefixes (S (length f)) 1 f in
  let op := field f i in
  let op2 := field f (S i) in
  if seqb op "0f" then
    default "" (assoc op2
      [("20", "mov %crN,%reg"); ("22", "mov %reg,%crN"); ("21", "mov %drN,%reg");
       ("23", "mov %reg,%drN"); ("30", "wrmsr"); ("32", "rdmsr"); ("31", "rdtsc");
       ("a2", "cpuid"); ("01", "lgdt/lidt/etc"); ("06", "clts"); ("09", "wbinvd");
       ("00", "lldt/ltr/etc"); ("07", "sysret"); ("05", "syscall")])
  else
    default "" (assoc op
      [("ec", "in dx"); ("ed", "in dx"); ("ee", "out dx"); ("ef", "out dx");
       ("e4", "in imm"); ("e5", "in imm"); ("e6", "out imm"); ("e7", "out imm");
       ("6c", "ins"); ("6d", "ins"); ("6e", "outs"); ("6f", "outs");
       ("fa", "cli"); ("fb", "sti"); ("f4", "hlt")]).

Definition privKey (l : string) : option string :=
  match insnBytes l with
  | Some s => let name := privName (awkFields s) in
              if seqb name "" then None else Some name
  | None => None
  end.
Definition PrivHistogram (r : string) : list string :=
  sortRN (countLine <$> map_to_list (countLines privKey r)).

Definition msrKey (l : string) : option string :=
  if negb (contains l litMsr) then None
  else match find msrRe l with
       | Some x => Some (group 1 x +:+ " " +:+ group 2 x)
       | None => None
       end.
Definition MSRHistogram (r : string) : list string :=
  head (sortRN (uniqCount (countLines msrKey r))) 12.

(** ** The last lines *)
Definition traceNoise : list string :=
  ["kvm-nx-lpage"; "kvm_unmap_hva_range"; "kvm_hv_stimer_cleanup";
   "kvm-pit"; "kvm_pic_set_irq"; "kvm_ioapic_set_irq"; "kvm_set_irq"].
Definition isNoise (l : string) : bool := existsb (contains l) traceNoise.

(** One line into the ring; [None] is the panic of an index out of range. *)
Definition ringPush (n : nat) (st : option (list string * nat)) (l : string)
    : option (list string * nat) :=
  match st with
  | None => None
  | Some (ring, pos) =>
      if length ring <? n then Some (ring ++ [l], pos)
      else if pos <? length ring then Some (<[pos := l]> ring, (pos + 1) mod n)
      else None
  end.
Definition LastTraceLines (r : string) (n : nat) : option (list string) :=
  match
    eachLine (λ st l _, (if isNoise l then st else ringPush n st l, true)) (Some ([], 0)) r
  with
  | Some (ring, pos) => Some (drop pos ring ++ take pos ring)
  | None => None
  end.

Definition MMUCounts (b : string) : list string :=
  grepLines b (λ l, contains l "kvmmmu:" || contains l "kvm:" || contains l "seconds").

(** ** dmesg *)
Definition dropEmpty (lines : list string) : list string :=
  foldl (λ out l, if negb (seqb l "") then out ++ [l] else out) [] lines.
Definition DmesgKVM (b : string) (n : nat) : list string :=
  tail (grepLines b (λ l, containsFold l "pvm" || containsFold l "kvm")) n.
Definition DmesgPVM (b : string) : list string :=
  tail (grepLines b (λ l, containsFold l "pvm:" || containsFold l "non-pvm mode")) 6.
Definition DmesgWarn (b : string) : list string :=
  dropEmpty (tail (grepLines b (λ l, containsFold l "non-pvm mode")) 3).
Definition sigRe : re := must_compile "segfault|trap [a-z]+ ip|traps:".
Definition DmesgSig (b : string) : list string :=
  dropEmpty (tail (grepLines b (λ l, is_match sigRe l)) 5).
Definition DmesgBug (b : string) : list string :=
  dropEmpty (head (sedRangePlus (splitLines b)
    (λ l, contains l "scheduling while atomic" || contains l "BUG:" ||
          contains l "general protection fault" || contains l "unable to handle") 12) 30).

(** ** What a histogram counts *)

(** A loop whose callback always goes on is a fold over the lines. *)
Lemma eachLine_fold {S} (g : S → string → S) (st : S) r :
  eachLine (λ st l _, (g st l, true)) st r = foldl g st (splitLines r).
Proof.
  rewrite eachLine_lines, (fold_lines_total _ (λ st (x : string * bool), g st x.1)) by done.
  rewrite splitLines_lines. generalize (lines_of r) as l. intros l. revert st.
  induction l as [|x l IH]; intros st; [done|]. cbn. by rewrite <-IH.
Qed.

Section Counting.
Context {K} `{Countable K} (keyOf : string → option K).
Definition tally (n : gmap K Z) (l : string) : gmap K Z :=
  match keyOf l with Some k => <[k := (default 0 (n !! k) + 1)%Z]> n | None => n end.
Definition occurrences (k : K) (ls : list string) : nat :=
  length (filter (λ l, keyOf l = Some k) ls).

Lemma tally_lookup ls n k :
  default 0%Z (foldl tally n ls !! k) = (default 0 (n !! k) + Z.of_nat (occurrences k ls))%Z.
Proof.
  unfold occurrences. revert n. induction ls as [|l ls IH]; intros n; cbn [foldl].
  { rewrite filter_nil. cbn [length]. lia. }
  rewrite IH, filter_cons. unfold tally at 1. destruct (keyOf l) as [k'|] eqn:E.
  - destruct (decide (k' = k)) as [->|Hne].
    + rewrite lookup_insert_eq, decide_True by done. cbn [length from_option default id]. lia.
    + rewrite lookup_insert_ne by done. by rewrite decide_False by congruence.
  - by rewrite decide_False.
Qed.
Lemma tally_dom ls n k :
  is_Some (foldl tally n ls !! k) ↔ is_Some (n !! k) ∨ Exists (λ l, keyOf l = Some k) ls.
Proof.
  revert n. induction ls as [|l ls IH]; intros n; cbn [foldl].
  { rewrite Exists_nil. naive_solver. }
  rewrite IH, Exists_cons. unfold tally at 1. destruct (keyOf l) as [k'|] eqn:E.
  - destruct (decide (k' = k)) as [->|Hne].
    + rewrite lookup_insert_eq. naive_solver.
    + rewrite lookup_insert_ne by done. assert (Some k' ≠ Some k) by congruence. naive_solver.
  - assert (None ≠ Some k) by done. naive_solver.
Qed.
End Counting.

Lemma countLines_tally keyOf r : countLines keyOf r = foldl (tally keyOf) ∅ (splitLines r).
Proof. apply (eachLine_fold (tally keyOf) ∅ r). Qed.
Lemma countRips_tally r : countRips r = foldl (tally exitRipKey) ∅ (splitLines r).
Proof. apply (eachLine_fold (tally exitRipKey) ∅ r). Qed.

(** The map a trace histogram builds holds exactly the keys some line of
    the trace has, each with the number of lines that have it. *)
Theorem countLines_spec keyOf r k :
  countLines keyOf r !! k =
  if decide (occurrences keyOf k (splitLines r) = 0%nat) then None
  else Some (Z.of_nat (occurrences keyOf k (splitLines r))).
Proof.
  rewrite countLines_tally. pose proof (tally_lookup keyOf (splitLines r) ∅ k) as Hl.
  pose proof (tally_dom keyOf (splitLines r) ∅ k) as Hd. rewrite lookup_empty in Hl, Hd.
  assert (Exists (λ l, keyOf l = Some k) (splitLines r) ↔ occurrences keyOf k (splitLines r) ≠ 0%nat) as He.
  { unfold occurrences. rewrite Exists_exists. split.
    - intros (x & Hx & Hk) H0%nil_length_inv.
      assert (x ∈ filter (λ l, keyOf l = Some k) (splitLines r)) as Hin.
      { by apply list_elem_of_filter. }
      rewrite H0 in Hin. by apply not_elem_of_nil in Hin.
    - intros H0. destruct (filter _ _) as [|x l] eqn:E; [done|]. exists x.
      assert (x ∈ filter (λ l, keyOf l = Some k) (splitLines r)) as Hx by (rewrite E; left).
      by apply list_elem_of_filter in Hx as [? ?]. }
  destruct (foldl _ _ _ !! k) as [v|] eqn:Ev.
  - rewrite decide_False; [cbn in Hl; by f_equal|].
    rewrite <-He. destruct (proj1 Hd) as [[? ?]|?]; [eauto|done|done].
  - destruct (decide _) as [|Hne]; [done|]. apply He in Hne.
    destruct (proj2 Hd) as [v ?]; [by right|done].
Qed.

(** Go ranges over a map in an order it does not promise; whatever that
    order, the two exit histograms, the instruction, the privileged and the MSR
    histograms print the same lines. *)
Theorem histograms_order_irrelevant r :
  (∀ kvs, kvs ≡ₚ map_to_list (countLines exitKey r) →
     head (sortRN (countLine <$> kvs)) 18 = ExitsByReason r) ∧
  (∀ kvs, kvs ≡ₚ map_to_list (countRips r) →
     head (sortRN (ripLine <$> kvs)) 25 = ExitsByRip r) ∧
  (∀ kvs, kvs ≡ₚ map_to_list (countLines privKey r) →
     sortRN (countLine <$> kvs) = PrivHistogram r) ∧
  (∀ kvs, kvs ≡ₚ map_to_list (countLines insnKey r) →
     head (sortRN (uniqLine <$> kvs)) 20 = InsnHistogram r) ∧
  (∀ kvs, kvs ≡ₚ map_to_list (countLines msrKey r) →
     head (sortRN (uniqLine <$> kvs)) 12 = MSRHistogram r).
Proof.
  split_and!; intros kvs Hp;
    unfold ExitsByReason, ExitsByRip, PrivHistogram, InsnHistogram, MSRHistogram, uniqCount;
    match goal with |- context [sortRN (?f <$> kvs)] =>
      by rewrite (sortRN_perm _ _ (fmap_Permutation f _ _ Hp)) end.
Qed.

Lemma histograms_order_irrelevant_witness :
  let r := "x kvm_msr: msr_read 10 = 1" +:+ nl +:+ "x kvm_msr: msr_write 11 = 1" in
  let kvs := [("write 11", 1%Z); ("read 10", 1%Z)] in
  kvs ≡ₚ map_to_list (countLines msrKey r) ∧ head (sortRN (uniqLine <$> kvs)) 12 = MSRHistogram r.
Proof.
  intros r kvs. assert (kvs ≡ₚ map_to_list (countLines msrKey r)) as H.
  { vm_compute. apply Permutation_refl || apply Permutation_swap. }
  split; [exact H|]. destruct (histograms_order_irrelevant r) as (_ & _ & _ & _ & Hm).
  exact (Hm kvs H).
Defined.

(** ** The ring keeps the last lines *)
Definition ring_of (n : nat) (done : list string) (st : list string * nat) : Prop :=
  let '(ring, pos) := st in
  length ring = n `min` length done ∧ pos < n ∧ (length ring < n → pos = 0) ∧
  drop pos ring ++ take pos ring = last_n n done.

Lemma ringPush_ok n done st l :
  ring_of n done st →
  ∃ st', ringPush n (Some st) l = Some st' ∧ ring_of n (done ++ [l]) st'.
Proof.
  destruct st as [ring pos]. intros (Hlen & Hpos & H0 & Hr). cbn [ringPush].
  destruct (length ring <? n) eqn:E.
  - apply Nat.ltb_lt in E. eexists. split; [done|]. specialize (H0 E) as ->.
    rewrite drop_0, take_0, app_nil_r in Hr. cbn [ring_of].
    rewrite !length_app in *. cbn [length]. split_and!; try lia.
    rewrite drop_0, take_0, app_nil_r, Hr. rewrite !last_n_all; [done|..];
      rewrite ?length_app; cbn [length]; lia.
  - apply Nat.ltb_ge in E. rewrite (proj2 (Nat.ltb_lt _ _)) by lia. eexists. split; [done|].
    cbn [ring_of]. rewrite length_insert, length_app. cbn [length].
    split_and!; [lia|apply Nat.mod_upper_bound; lia|lia|].
    rewrite last_n_snoc_pos by lia.
    assert (last_n (n - 1) done = drop (pos + 1) ring ++ take pos ring) as ->.
    { assert (last_n (n - 1) done = drop 1 (last_n n done)) as ->.
      { unfold last_n. rewrite drop_drop. f_equal. lia. }
      rewrite <-Hr. rewrite drop_app_le by (rewrite length_drop; lia).
      by rewrite drop_drop. }
    assert (length ring = n) as Hn by lia.
    destruct (decide (pos + 1 = n)) as [Hw|Hw].
    + rewrite Hw, Nat.Div0.mod_same, drop_0, take_0, app_nil_r.
      rewrite (drop_ge ring) by lia. rewrite insert_take_drop by lia.
      by rewrite drop_ge by lia.
    + rewrite Nat.mod_small by lia. rewrite drop_insert_lt by lia.
      rewrite <-(assoc_L (++)). f_equal. rewrite Nat.add_1_r.
      rewrite (take_S_r _ _ l) by (apply list_lookup_insert_eq; lia).
      by rewrite take_insert_ge by lia.
Qed.

Lemma LastTraceLines_last r n :
  0 < n →
  LastTraceLines r n = Some (last_n n (filter (λ l, isNoise l = false) (splitLines r))).
Proof.
  intros Hn. unfold LastTraceLines.
  rewrite (eachLine_fold (λ st l, if isNoise l then st else ringPush n st l)).
  assert (∀ ls done st, ring_of n done st → ∃ st',
    foldl (λ st l, if isNoise l then st else ringPush n st l) (Some st) ls = Some st' ∧
    ring_of n (done ++ filter (λ l, isNoise l = false) ls) st') as H.
  { induction ls as [|l ls IH]; intros done st Hst; cbn [foldl].
    { exists st. by rewrite app_nil_r. }
    rewrite filter_cons. destruct (isNoise l) eqn:E.
    - rewrite decide_False by done. by apply IH.
    - rewrite decide_True by done. destruct (ringPush_ok n done st l Hst) as (st' & -> & Hst').
      rewrite cons_middle, (assoc_L (++)). by apply IH. }
  destruct (H (splitLines r) [] ([], 0)) as ([ring pos] & -> & _ & _ & _ & Hr).
  - cbn. split_and!; try lia. done.
  - by rewrite Hr.
Qed.
(** C24: for a positive [n], [LastTraceLines] never indexes out of its ring and
    returns the last [n] lines that are not noise, in order. *)
Theorem LastTraceLines_spec r n :
  0 < n →
  LastTraceLines r n = Some (last_n n (filter (λ l, isNoise l = false) (splitLines r))).
Proof. apply LastTraceLines_last. Qed.
Lemma LastTraceLines_spec_witness :
  LastTraceLines ("a" +:+ nl +:+ "b" +:+ nl +:+ "kvm-pit" +:+ nl +:+ "c" +:+ nl +:+ "d") 2 = Some ["c"; "d"].
Proof. rewrite (LastTraceLines_spec _ 2); [vm_compute; reflexivity|lia]. Defined.

(** ** Prefixes of an instruction *)
Lemma field_out f i : length f < i → field f i = "".
Proof.
  intros H. unfold field. rewrite (proj2 (Nat.leb_gt i _)) by done. by rewrite andb_false_r.
Qed.
(** The loop stops at the first field that is no prefix: the fuel is enough. *)
Lemma skipPrefixes_stop f :
  let i := skipPrefixes (S (length f)) 1 f in
  isPrefix (field f i) = false ∧ (∀ j, 1 ≤ j < i → isPrefix (field f j) = true).
Proof.
  assert (∀ fuel i, 1 ≤ i → length f + 2 ≤ fuel + i →
    (∀ j, 1 ≤ j < i → isPrefix (field f j) = true) →
    isPrefix (field f (skipPrefixes fuel i f)) = false ∧
    (∀ j, 1 ≤ j < skipPrefixes fuel i f → isPrefix (field f j) = true)) as H.
  { induction fuel as [|fuel IH]; intros i Hi Hf Hj; cbn [skipPrefixes].
    - split; [|done]. by rewrite field_out by lia.
    - destruct (isPrefix (field f i)) eqn:E; [|done]. apply IH; [lia|lia|].
      intros j ?. destruct (decide (j = i)) as [->|]; [done|]. apply Hj. lia. }
  apply H; [lia|lia|]. intros j ?. lia.
Qed.
