(* ===== verification/Prog.v ===== *)
(** * Programs over an operating system

    A program is a tree whose nodes are the calls it makes and whose branches
    are their answers; [op] says which calls there are and what they answer.
    The agent, the switcher test and the ABI test are such programs.  [runs]
    says which sequences of calls and answers a program allows; a call may
    also never return. *)
From S2P Require Import Prelude.

Inductive prog (op : Type → Type) (A : Type) : Type :=
  | Ret (a : A)
  | Exit (code : Z) (* os.Exit *)
  | Do {B} (o : op B) (k : B → prog op A).
Arguments Ret {op A} a.
Arguments Exit {op A} code.
Arguments Do {op A B} o k.

Fixpoint bind {op A B} (f : A → prog op B) (p : prog op A) : prog op B :=
  match p with
  | Ret a => f a
  | Exit n => Exit n
  | Do o k => Do o (λ b, bind f (k b))
  end.
#[export] Instance prog_ret op : MRet (prog op) := @Ret op.
#[export] Instance prog_bind op : MBind (prog op) := @bind op.
Definition call {op : Type → Type} {B} (o : op B) : prog op B := Do o Ret.
Fixpoint each {op A} (l : list A) (f : A → prog op unit) : prog op unit :=
  match l with
  | [] => Ret tt
  | x :: l => f x ;; each l f
  end.
(** A loop that folds a state. *)
Fixpoint each_with {op A S} (l : list A) (st : S) (f : S → A → prog op S) : prog op S :=
  match l with
  | [] => Ret st
  | x :: l => st' ← f st x; each_with l st' f
  end.


(** ** Runs

    An event is a call with its answer, or a call that never returned. *)
Record event (op : Type → Type) := Ev { ev_type : Type; ev_op : op ev_type; ev_ans : option ev_type }.
Arguments Ev {op ev_type} ev_op ev_ans.
Arguments ev_type {op} e.
Arguments ev_op {op} e.
Arguments ev_ans {op} e.
Inductive outcome (A : Type) := Returned (a : A) | Exited (code : Z) | Stopped.
Arguments Returned {A} a.
Arguments Exited {A} code.
Arguments Stopped {A}.

Section Op.
Context {op : Type → Type}.

Fixpoint runs {A} (p : prog op A) (tr : list (event op)) (out : outcome A) : Prop :=
  match p with
  | Ret a => tr = [] ∧ out = Returned a
  | Exit n => tr = [] ∧ out = Exited n
  | Do o k =>
      (tr = [Ev o None] ∧ out = Stopped) ∨
      ∃ b tr', tr = Ev o (Some b) :: tr' ∧ runs (k b) tr' out
  end.

(** The outcome of a sequence: the first part returned and the second went on
    from there, or the first part was the end of it. *)
Lemma runs_bind {A B} (p : prog op A) (f : A → prog op B) tr out :
  runs (p ≫= f) tr out →
  (∃ a tr1 tr2, tr = tr1 ++ tr2 ∧ runs p tr1 (Returned a) ∧ runs (f a) tr2 out) ∨
  (∃ n, runs p tr (Exited n) ∧ out = Exited n) ∨
  (runs p tr Stopped ∧ out = Stopped).
Proof.
  unfold mbind, prog_bind. revert tr.
  induction p as [a|n|C o k IH]; intros tr; cbn [bind runs].
  - intros H. left. by exists a, [], tr.
  - intros [-> ->]. right; left. by exists n.
  - intros [[-> ->]|(b & tr' & -> & H)]; [right; right; eauto|].
    apply IH in H as [(a & tr1 & tr2 & -> & H1 & H2)|[(n & H & ->)|[H ->]]].
    + left. exists a, (Ev o (Some b) :: tr1), tr2. split; [done|]. split; [|done]. eauto.
    + right; left. exists n. eauto 6.
    + right; right. eauto 6.
Qed.
Lemma runs_call {B} (o : op B) tr out :
  runs (call o) tr out →
  (tr = [Ev o None] ∧ out = Stopped) ∨ ∃ b, tr = [Ev o (Some b)] ∧ out = Returned b.
Proof. intros [?|(b & tr' & -> & -> & ->)]; eauto. Qed.

(** A predicate of every call a program can make, and of every status it can
    exit with. *)
Fixpoint all_ops {A} (P : ∀ B, op B → Prop) (p : prog op A) : Prop :=
  match p with
  | Ret _ | Exit _ => True
  | Do o k => P _ o ∧ ∀ b, all_ops P (k b)
  end.
Fixpoint exits {A} (E : Z → Prop) (p : prog op A) : Prop :=
  match p with
  | Ret _ => True
  | Exit n => E n
  | Do o k => ∀ b, exits E (k b)
  end.

Section Structure.
Context (P : ∀ B, op B → Prop).
Lemma all_ops_ret {A} (a : A) : all_ops P (Ret a).
Proof. exact I. Qed.
Lemma all_ops_exit {A} n : all_ops P (@Exit op A n).
Proof. exact I. Qed.
Lemma all_ops_call {B} (o : op B) : P _ o → all_ops P (call o).
Proof. intros. by split. Qed.
Lemma all_ops_bind {A B} (p : prog op A) (f : A → prog op B) :
  all_ops P p → (∀ a, all_ops P (f a)) → all_ops P (p ≫= f).
Proof.
  unfold mbind, prog_bind. intros Hp Hf.
  induction p as [a|n|C o k IH]; cbn [bind all_ops] in *; [apply Hf|done|].
  destruct Hp as [? Hk]. split; [done|]. intros b. by apply IH.
Qed.
Lemma all_ops_each {A} (l : list A) f : (∀ x, all_ops P (f x)) → all_ops P (each l f).
Proof. intros H. induction l as [|x l IH]; cbn [each]; [exact I|]. by apply all_ops_bind. Qed.
Lemma all_ops_each_with {A S} (l : list A) (st : S) f :
  (∀ st x, all_ops P (f st x)) → all_ops P (each_with l st f).
Proof.
  intros H. revert st. induction l as [|x l IH]; intros st; cbn [each_with]; [exact I|].
  apply all_ops_bind; eauto.
Qed.
Lemma all_ops_runs {A} (p : prog op A) tr out :
  all_ops P p → runs p tr out → Forall (λ e, P _ (ev_op e)) tr.
Proof.
  revert tr. induction p as [a|n|C o k IH]; intros tr; cbn [all_ops runs].
  - by intros _ [-> _].
  - by intros _ [-> _].
  - intros [Ho Hk] [[-> _]|(b & tr' & -> & H)]; constructor; try done. by eapply IH.
Qed.
End Structure.
Lemma all_ops_impl {A} (P P' : ∀ B, op B → Prop) (p : prog op A) :
  (∀ B (o : op B), P B o → P' B o) → all_ops P p → all_ops P' p.
Proof. intros H. induction p as [a|n|B o k IH]; cbn [all_ops]; [done..|]. intros [? ?]. auto. Qed.
Lemma exits_impl {A} (E E' : Z → Prop) (p : prog op A) : (∀ n, E n → E' n) → exits E p → exits E' p.
Proof. intros H. induction p as [a|n|B o k IH]; cbn [exits]; auto. Qed.
Lemma exits_any {A} (E : Z → Prop) (p : prog op A) : (∀ n, E n) → exits E p.
Proof. intros H. by induction p as [a|n|B o k IH]; cbn [exits]. Qed.

Section Exits.
Context (E : Z → Prop).
Lemma exits_bind {A B} (p : prog op A) (f : A → prog op B) :
  exits E p → (∀ a, exits E (f a)) → exits E (p ≫= f).
Proof.
  unfold mbind, prog_bind. intros Hp Hf.
  induction p as [a|n|C o k IH]; cbn [bind exits] in *; [apply Hf|done|]. eauto.
Qed.
Lemma exits_call {B} (o : op B) : exits E (call o).
Proof. done. Qed.
Lemma exits_each {A} (l : list A) f : (∀ x, exits E (f x)) → exits E (each l f).
Proof. intros H. induction l as [|x l IH]; cbn [each]; [exact I|]. by apply exits_bind. Qed.
Lemma exits_each_with {A S} (l : list A) (st : S) f :
  (∀ st x, exits E (f st x)) → exits E (each_with l st f).
Proof.
  intros H. revert st. induction l as [|x l IH]; intros st; cbn [each_with]; [exact I|].
  apply exits_bind; eauto.
Qed.
Lemma exits_runs {A} (p : prog op A) tr n : exits E p → runs p tr (Exited n) → E n.
Proof.
  revert tr. induction p as [a|n'|C o k IH]; intros tr; cbn [exits runs].
  - by intros _ [_ ?].
  - intros HE [_ [= ->]]. done.
  - intros Hk [[_ ?]|(b & tr' & -> & H)]; [done|]. by eapply IH.
Qed.
End Exits.


(** ** Driving a program

    A host that answers every call the same way gives one run. *)
Fixpoint drive {A} (h : ∀ B, op B → option B) (p : prog op A) : list (event op) * outcome A :=
  match p with
  | Ret a => ([], Returned a)
  | Exit n => ([], Exited n)
  | Do o k =>
      match h _ o with
      | None => ([Ev o None], Stopped)
      | Some b => let '(tr, out) := drive h (k b) in (Ev o (Some b) :: tr, out)
      end
  end.
Lemma drive_runs {A} h (p : prog op A) : runs p (drive h p).1 (drive h p).2.
Proof.
  induction p as [a|n|B o k IH]; cbn [drive runs]; [done..|].
  destruct (h B o) as [b|]; [|by left]. right. exists b.
  specialize (IH b). destruct (drive h (k b)) as [tr out]. eauto.
Qed.

(** The same with a state of the host's own. *)
Fixpoint drive_with {S A} (h : ∀ B, S → op B → option (B * S)) (s : S) (p : prog op A) : list (event op) * outcome A :=
  match p with
  | Ret a => ([], Returned a)
  | Exit n => ([], Exited n)
  | Do o k =>
      match h _ s o with
      | None => ([Ev o None], Stopped)
      | Some (b, s) => let '(tr, out) := drive_with h s (k b) in (Ev o (Some b) :: tr, out)
      end
  end.
Lemma drive_with_runs {S A} h (s : S) (p : prog op A) : runs p (drive_with h s p).1 (drive_with h s p).2.
Proof.
  revert s. induction p as [a|n|B o k IH]; intros s; cbn [drive_with runs]; [done..|].
  destruct (h B s o) as [[b s']|]; [|by left]. right. exists b.
  specialize (IH b s'). destruct (drive_with h s' (k b)) as [tr out]. eauto.
Qed.

End Op.

(** ** Monitors

    A monitor follows a run: a state updated by every answered call, what a
    call may be made in ([m_pre]) and what the answers are assumed to be
    ([m_ans]).  [wp] is the weakest precondition of a program under it: [Q] of
    what it returns, [E] of what it exits with. *)
Record monitor (op : Type → Type) := Monitor {
  m_state : Type;
  m_obs : ∀ B, op B → B → m_state → m_state;
  m_pre : ∀ B, op B → m_state → Prop;
  m_ans : ∀ B, op B → B → m_state → Prop }.
Arguments m_state {op} m.
Arguments m_obs {op} m {B} o b g.
Arguments m_pre {op} m {B} o g.
Arguments m_ans {op} m {B} o b g.

Section Wp.
Context {op : Type → Type} (M : monitor op).
Implicit Types g : m_state M.

Fixpoint wp {A} (p : prog op A) (Q : A → m_state M → Prop) (E : Z → m_state M → Prop) g : Prop :=
  match p with
  | Ret a => Q a g
  | Exit n => E n g
  | Do o k => m_pre M o g ∧ ∀ b, m_ans M o b g → wp (k b) Q E (m_obs M o b g)
  end.

(** What the monitor has seen of a run; that the answers were as assumed; that
    every call was allowed when it was made. *)
Fixpoint observe (tr : list (event op)) g : m_state M :=
  match tr with
  | [] => g
  | Ev o (Some b) :: tr => observe tr (m_obs M o b g)
  | Ev o None :: tr => observe tr g
  end.
Fixpoint answered (tr : list (event op)) g : Prop :=
  match tr with
  | [] => True
  | Ev o (Some b) :: tr => m_ans M o b g ∧ answered tr (m_obs M o b g)
  | Ev o None :: tr => answered tr g
  end.
Fixpoint allowed (tr : list (event op)) g : Prop :=
  match tr with
  | [] => True
  | Ev o (Some b) :: tr => m_pre M o g ∧ allowed tr (m_obs M o b g)
  | Ev o None :: tr => m_pre M o g ∧ allowed tr g
  end.

Lemma wp_runs {A} (p : prog op A) Q E tr out g :
  wp p Q E g → runs p tr out → answered tr g →
  allowed tr g ∧
  match out with
  | Returned a => Q a (observe tr g)
  | Exited n => E n (observe tr g)
  | Stopped => ∃ tr' B (o : op B), tr = tr' ++ [Ev o None] ∧ m_pre M o (observe tr g)
  end.
Proof.
  revert tr g. induction p as [a|n|B o k IH]; intros tr g; cbn [wp runs].
  - by intros HQ [-> ->] _.
  - by intros HE [-> ->] _.
  - intros [Hp Hk] [[-> ->]|(b & tr' & -> & H)]; cbn.
    + intros _. split; [done|]. by exists [], B, o.
    + intros [Ha Hr]. destruct (IH b _ _ (Hk b Ha) H Hr) as [Hal Ho]. split; [done|].
      destruct out; [done..|]. destruct Ho as (t & C & o' & -> & Ho). exists (Ev o (Some b) :: t). eauto.
Qed.

Lemma wp_mono {A} (p : prog op A) (Q Q' : A → m_state M → Prop) (E E' : Z → m_state M → Prop) g :
  wp p Q E g → (∀ a g, Q a g → Q' a g) → (∀ n g, E n g → E' n g) → wp p Q' E' g.
Proof.
  intros H HQ HE. revert g H. induction p as [a|n|B o k IH]; intros g; cbn [wp]; [auto..|].
  intros [Hp Hk]. split; [done|]. eauto.
Qed.
Lemma wp_bind {A B} (p : prog op A) (f : A → prog op B) Q E g :
  wp p (λ a, wp (f a) Q E) E g → wp (p ≫= f) Q E g.
Proof.
  unfold mbind, prog_bind. revert g.
  induction p as [a|n|C o k IH]; intros g; cbn [bind wp]; [done..|].
  intros [Hp Hk]. split; [done|]. eauto.
Qed.
Lemma wp_call {B} (o : op B) Q E g :
  m_pre M o g → (∀ b, m_ans M o b g → Q b (m_obs M o b g)) → wp (call o) Q E g.
Proof. done. Qed.
Lemma wp_each_with {A S} (I : S → m_state M → Prop) (l : list A) (st : S) f E g :
  I st g → (∀ x st g, x ∈ l → I st g → wp (f st x) I E g) → wp (each_with l st f) I E g.
Proof.
  revert st g. induction l as [|x l IH]; intros st g HI Hf; [done|].
  cbn [each_with]. apply wp_bind. eapply wp_mono; [apply Hf; [left|done]| |done].
  intros st' g' HI'. apply IH; [done|]. intros. apply Hf; [by right|done].
Qed.
Lemma wp_each {A} (I : m_state M → Prop) (l : list A) f E g :
  I g → (∀ x g, x ∈ l → I g → wp (f x) (λ _, I) E g) → wp (each l f) (λ _, I) E g.
Proof.
  revert g. induction l as [|x l IH]; intros g HI Hf; [done|].
  cbn [each]. apply wp_bind. eapply wp_mono; [apply Hf; [left|done]| |done].
  intros [] g' HI'. apply IH; [exact HI'|]. intros. apply Hf; [by right|done].
Qed.
(** A monitor that allows every call, about a result nothing is asked of. *)
Lemma wp_any {A} (p : prog op A) (Q : A → m_state M → Prop) (E : Z → m_state M → Prop) g :
  (∀ B (o : op B) g, m_pre M o g) → (∀ a g, Q a g) → (∀ n g, E n g) → wp p Q E g.
Proof.
  intros Hp HQ HE. revert g. induction p as [a|n|B o k IH]; intros g; cbn [wp]; [apply HQ|apply HE|].
  split; [apply Hp|]. auto.
Qed.
(** An invariant of the state that every call of a program keeps. *)
Lemma wp_all_ops {A} (I : m_state M → Prop) (p : prog op A) E g :
  all_ops (λ B o, ∀ g, I g → m_pre M o g ∧ ∀ b, m_ans M o b g → I (m_obs M o b g)) p →
  exits (λ n, ∀ g, I g → E n g) p → I g → wp p (λ _, I) E g.
Proof.
  revert g. induction p as [a|n|B o k IH]; intros g; cbn [all_ops exits wp]; [done|by intros _ H ?; apply H|].
  intros [Ho Hk] He HI. destruct (Ho g HI) as [Hp Hb]. split; [done|]. intros b Ha. by apply IH; auto.
Qed.
End Wp.
Arguments wp {op} M {A} p Q E g.

(** ** Known answers

    What a program returns when some of its calls are answered as [h] says and
    the others in any way. *)
Definition given {op} (h : ∀ B, op B → option B) : monitor op := Monitor op unit
  (λ _ _ _ _, tt) (λ _ _ _, True) (λ B o b _, match h B o with Some b' => b = b' | None => True end).
Definition gives {op A} (h : ∀ B, op B → option B) (p : prog op A) (Q : A → Prop) : Prop :=
  wp (given h) p (λ a _, Q a) (λ _ _, True) tt.
Section Given.
Context {op : Type → Type} (h : ∀ B, op B → option B).
Lemma gives_ret {A} (a : A) Q : Q a → gives h (Ret a) Q.
Proof. done. Qed.
Lemma gives_bind {A B} (p : prog op A) (k : A → prog op B) Q : gives h p (λ a, gives h (k a) Q) → gives h (p ≫= k) Q.
Proof. intros H. apply wp_bind. eapply wp_mono; [exact H| |done]. by intros a []. Qed.
Lemma gives_mono {A} (p : prog op A) (Q Q' : A → Prop) : gives h p Q → (∀ a, Q a → Q' a) → gives h p Q'.
Proof. intros H HQ. eapply wp_mono; [exact H| |done]. intros a g. apply HQ. Qed.
Lemma gives_known {B} (o : op B) b Q : h B o = Some b → Q b → gives h (call o) Q.
Proof. intros Ho HQ. split; [exact I|]. intros b' Hb. cbn in Hb. rewrite Ho in Hb. by subst. Qed.
Lemma gives_any {A} (p : prog op A) Q : (∀ a, Q a) → gives h p Q.
Proof. intros HQ. by apply wp_any. Qed.
Lemma gives_skip {A B} (p : prog op A) (k : A → prog op B) Q : (∀ a, gives h (k a) Q) → gives h (p ≫= k) Q.
Proof. intros H. by apply gives_bind, gives_any. Qed.
Lemma gives_read {B C} (o : op B) b (k : B → prog op C) Q : h B o = Some b → gives h (k b) Q → gives h (call o ≫= k) Q.
Proof. intros Ho Hk. apply gives_bind. by apply (gives_known _ b). Qed.
Lemma gives_each_with {A S} (f : S → A → S) (l : list A) (st : S) (p : S → A → prog op S) (Q : S → Prop) :
  (∀ st x, gives h (p st x) (λ st', st' = f st x)) → Q (foldl f st l) → gives h (each_with l st p) Q.
Proof.
  intros Hp. revert st. induction l as [|x l IH]; intros st HQ; [exact HQ|]. cbn [each_with].
  apply gives_bind. eapply gives_mono; [apply Hp|]. intros ? ->. by apply IH.
Qed.
Lemma gives_runs {A} (p : prog op A) Q tr a :
  gives h p Q → runs p tr (Returned a) → answered (given h) tr tt → Q a.
Proof. intros H Hr Ha. by destruct (wp_runs (given h) _ _ _ _ _ _ H Hr Ha) as [_ ?]. Qed.
End Given.

Create HintDb agent discriminated.
(** Walks the structure of a program down to its calls. *)
Ltac walk tac :=
  repeat (intros; first
    [ solve [auto with agent] | apply all_ops_bind | apply exits_bind
    | apply all_ops_call; tac | apply exits_call
    | apply all_ops_each | apply exits_each
    | apply all_ops_each_with | apply exits_each_with
    | exact I | exact eq_refl
    | case_match ]).
