(* ===== verification/Agent.v ===== *)
(** * tools/l1agent: agent.go, sys.go, stub.go and main.go

    The agent is a program over the operating system: a tree of type [prog]
    whose nodes are the calls it makes ([op]) and whose branches are their
    answers.  Every loop of the agent runs over a list it has read, so the tree
    is finite.  [runs] says which sequences of calls and answers a tree allows;
    a call may also never return, as a [poweroff] that works does.

    A file opened for writing is known by its path; reading an open file to its
    end is one call that answers the text.  A pipeline's left side answers what
    the reader gets to read and the status the wait reports. *)
From Stdlib Require Import Ascii.
From S2P Require Import Prelude GoStrings Regexp Text Params Trace Prog.

(** ** The operating system *)

(** An error: the text of its [syscall.Errno], if it wraps one, its own text,
    and the two kinds [startFailure] asks about. *)
Record oserr := {
  e_errno : option string;
  e_text : string;
  e_notfound : bool; (* exec.ErrNotFound *)
  e_noent : bool     (* ENOENT *)
}.
(** [syscall.WaitStatus] of a finished command, or a wait that failed
    otherwise. *)
Inductive waited := WExit (code : Z) | WSignal (sig : Z) | WFailed.
Inductive spawned := SFailed (e : oserr) | SDone (w : waited).
Inductive source := INull | IStdin.
Inductive sink := ONull | OStdout | OStderr | OFile (path : string).
Inductive stderrTo := stderrConsole | stderrMerged | stderrDiscard.
Inductive piped :=
  | PNoPipe (e : oserr)               (* os.Pipe failed *)
  | PFailed (e : oserr)               (* the command did not start *)
  | PDone (text : string) (w : waited).

Inductive op : Type → Type :=
  | Out (s : string) : op unit
  | Err (s : string) : op unit
  | Append (path s : string) : op unit            (* to a file opened by Create *)
  | ToConsole : op (option oserr)
  | Uname : op string
  | ReadFile (path : string) : op (string * option oserr)
  | Open (path : string) : op (oserr + string)
  | ReadDir (path : string) : op (oserr + list string)
  | Exists (path : string) : op bool
  | IsDir (path : string) : op bool
  | NonEmpty (path : string) : op bool
  | Executable (path : string) : op bool
  | Create (path : string) : op (option oserr)
  | WriteTo (path data : string) : op (option oserr)
  | Remove (path : string) : op unit
  | MkdirAll (path : string) : op (option oserr)
  | Chdir (path : string) : op (option oserr)
  | Setrlimit : op (option oserr)
  | LookupEnv (name : string) : op (option string)
  | Setenv (name value : string) : op unit
  | Spawn (argv : list string) (i : source) (o e : sink) : op spawned
  | Pipe (argv : list string) (se : stderrTo) : op piped
  | ExecSelf (path : string) : op oserr.           (* answers only when it fails *)

Abbreviation prog := (Prog.prog op).

(** ** sys.go *)
Definition progName : string := "l1agent".
Definition echo (s : string) : prog unit := call (Out (s +:+ nl)).
Definition say (s : string) : prog unit := echo ("L1: " +:+ s).
Definition shErr (s : string) : prog unit := call (Err (progName +:+ ": " +:+ s +:+ nl)).

Definition ToUpper1 (s : string) : string :=
  match s with "" => "" | String c s => String (to_upper c) s end.
Definition errText (e : oserr) : string :=
  match e_errno e with
  | Some s => if seqb s "" then e_text e else ToUpper1 s
  | None => e_text e
  end.
Definition exitStatus (w : waited) : Z :=
  match w with
  | WExit n => n
  | WSignal n => 128 + n
  | WFailed => 1
  end.
Definition startFailure (name : string) (e : oserr) : string * Z :=
  if e_notfound e then (name +:+ ": command not found", 127%Z)
  else if e_noent e then (name +:+ ": No such file or directory", 127%Z)
  else (name +:+ ": " +:+ errText e, 126%Z).
Definition argv0 (argv : list string) : string := default "" (argv !! 0).

(** Writing to wherever a descriptor leads. *)
Definition writeSink (o : sink) (s : string) : prog unit :=
  match o with
  | ONull => Ret tt
  | OStdout => call (Out s)
  | OStderr => call (Err s)
  | OFile f => call (Append f s)
  end.

Definition run (argv : list string) (i : source) (o e : sink) : prog Z :=
  r ← call (Spawn argv i o e);
  match r with
  | SFailed err =>
      let '(msg, rc) := startFailure (argv0 argv) err in
      writeSink e (progName +:+ ": " +:+ msg +:+ nl) ;;
      Ret rc
  | SDone w => Ret (exitStatus w)
  end.

(** [pipe]: the text the reader gets (nothing when there is no pipe), and the
    status [wait] will report.  A command that does not start reports on its
    stderr, which in the merged case is the pipe itself. *)
Definition pipe (argv : list string) (se : stderrTo) : prog (option string * Z) :=
  r ← call (Pipe argv se);
  match r with
  | PNoPipe e => shErr ("pipe: " +:+ errText e) ;; Ret (None, 1%Z)
  | PFailed e =>
      let '(msg, rc) := startFailure (argv0 argv) e in
      let text := progName +:+ ": " +:+ msg +:+ nl in
      match se with
      | stderrConsole => call (Err text) ;; Ret (Some "", rc)
      | stderrMerged => Ret (Some text, rc)
      | stderrDiscard => Ret (Some "", rc)
      end
  | PDone text w => Ret (Some text, exitStatus w)
  end.

Definition capture (argv : list string) (se : stderrTo) : prog string :=
  '(r, _) ← pipe argv se;
  Ret (default "" r).

Definition streamPrefixed (argv : list string) (se : stderrTo) (prefix : string) (max : Z) : prog Z :=
  '(r, rc) ← pipe argv se;
  match r with
  | Some text => call (Out (prefixStream prefix text max))
  | None => Ret tt
  end ;;
  Ret rc.

Definition filterLines (text : string) (keep : string → bool) (max : Z) : list string :=
  eachLine (λ out l _,
    if (0 <=? max)%Z && (max <=? Z.of_nat (length out))%Z then (out, false)
    else let out := if keep l then out ++ [l] else out in
         (out, (max <? 0)%Z || (Z.of_nat (length out) <? max)%Z)) [] text.
Definition filterPrefixed (argv : list string) (se : stderrTo) (keep : string → bool)
    (max : Z) (prefix : string) : prog Z :=
  '(r, rc) ← pipe argv se;
  match r with
  | Some text => call (Out (writePrefixed prefix (filterLines text keep max)))
  | None => Ret tt
  end ;;
  Ret rc.

(** [echoTo]: [true] when it succeeds. *)
Definition echoTo (path data : string) : prog bool :=
  r ← call (Create path);
  match r with
  | Some _ => Ret false
  | None => w ← call (WriteTo path data);
            Ret (match w with None => true | Some _ => false end)
  end.
Definition echoLoud (path data : string) : prog unit :=
  r ← call (Create path);
  match r with
  | Some e => shErr (path +:+ ": " +:+ errText e)
  | None => w ← call (WriteTo path data);
            match w with
            | Some e => shErr ("echo: write error: " +:+ errText e)
            | None => Ret tt
            end
  end.
Definition executable (path : string) : prog bool := call (Executable path).
Definition exists_ (path : string) : prog bool := call (Exists path).
Definition isDir (path : string) : prog bool := call (IsDir path).
Definition nonEmpty (path : string) : prog bool := call (NonEmpty path).
Definition poweroff : prog Z := run ["poweroff"; "-f"] IStdin OStdout OStderr.

(** ** Helpers of agent.go *)

(** [filepath.Join] of clean paths, and [filepath.Base]. *)
Definition Join (a b : string) : string := a +:+ "/" +:+ b.
Definition Base (path : string) : string :=
  if seqb path "" then "." else
  let b := default "" (last (split "/" (trim_right (in_set "/") path))) in
  if seqb b "" then "/" else b.

Definition toConsole : prog unit :=
  r ← call ToConsole;
  match r with
  | Some e => shErr ("/dev/console: " +:+ errText e)
  | None => Ret tt
  end.
Definition dmesg : prog string := capture ["dmesg"] stderrConsole.

(** The fixed-size array of [Utsname], up to its first zero. *)
Fixpoint utsString (s : string) : string :=
  match s with
  | "" => ""
  | String c s => if ceq c "000" then "" else String c (utsString s)
  end.
Fixpoint cpuModel_go (ls : list string) : string :=
  match ls with
  | [] => ""
  | l :: ls => if contains l "model name" then cutF2 l else cpuModel_go ls
  end.
Definition cpuModel (cpuinfo : string) : string := cpuModel_go (splitLines cpuinfo).

Definition globAll (dir : string) : prog (list string) :=
  r ← call (ReadDir dir);
  match r with
  | inl _ => Ret []
  | inr ents =>
      Ret (sort_strings (Join dir <$> filter (λ n, has_prefix n "." = false) ents))
  end.

(** Reading a file whose error the agent does not look at. *)
Definition readQuiet (path : string) : prog string :=
  '(b, _) ← call (ReadFile path);
  Ret b.

(** ** The suites without a guest *)
Definition failClosed (vendor : string) : prog unit :=
  say ("=== expecting " +:+ vendor +:+ " to refuse to load ===") ;;
  lsmod ← capture ["lsmod"] stderrConsole;
  let stayed := existsb (λ l, has_prefix l "kvm_pvm") (splitLines lsmod) in
  (if stayed then echo "FAILCLOSED: fail reason=module-stayed-loaded"
   else present ← exists_ "/dev/kvm";
        if (present : bool) then echo "FAILCLOSED: fail reason=kvm-device-present"
        else echo "FAILCLOSED: ok reason=refused") ;;
  say "--- what it said ---" ;;
  d ← dmesg;
  call (Out (writePrefixed "L1: dmesg: " (DmesgKVM d 20))) ;;
  _ ← poweroff;
  Ret tt.

(** One of the staged host tests; [st] is (found, rc). *)
Definition hostTest (tt_ : string) (st : bool * Z) (t : string) : prog (bool * Z) :=
  let '(found, rc) := st in
  x ← executable t;
  if negb x then Ret (found, rc) else
  say ("=== " +:+ Base t +:+ " ===") ;;
  r ← streamPrefixed (TestArgv tt_ t) stderrMerged "H: " (-1);
  say (Base t +:+ " exited " +:+ itoa r) ;;
  Ret (true, if (r =? 0)%Z then rc else 1%Z).

(** One of the staged KVM selftests; [found] is threaded through. *)
Definition selftest (tt_ : string) (found : bool) (t : string) : prog bool :=
  x ← executable t;
  if negb x then Ret found else
  let name := SelftestName (Base t) in
  c ← call (Create "/tmp/st.log");
  r ← match c with
      | Some e => shErr ("/tmp/st.log: " +:+ errText e) ;; Ret 1%Z
      | None => run (TestArgv tt_ t) IStdin (OFile "/tmp/st.log") (OFile "/tmp/st.log")
      end;
  let verdict := SelftestVerdict r in
  echo ("SELFTEST: " +:+ name +:+ " " +:+ verdict +:+ " rc=" +:+ itoa r) ;;
  (if seqb verdict "pass" then Ret tt else
   '(b, err) ← call (ReadFile "/tmp/st.log");
   match err with
   | Some e => call (Err ("tail: cannot open '/tmp/st.log' for reading: " +:+ errText e +:+ nl))
   | None => call (Out (prefixStream ("S[" +:+ name +:+ "]: ") (tailBytes b 15) (-1)))
   end) ;;
  Ret true.

Definition hostTests (p : Params) : prog unit :=
  let tt_ := TestTimeout p in
  ts ← globAll (payload +:+ "/hosttests");
  '(found, rc) ← each_with ts (false, 0%Z) (hostTest tt_);
  ss ← globAll (payload +:+ "/kvm-selftests");
  found ← each_with ss found (selftest tt_);
  (if negb found then
     say "no host tests in the payload" ;;
     echo "PVMTEST-RESULT: fail stage=hosttests reason=no-tests"
   else if (rc =? 0)%Z then echo "PVMTEST-RESULT: ok stage=hosttests"
   else echo "PVMTEST-RESULT: fail stage=hosttests") ;;
  d ← dmesg;
  call (Out (prefixStream "L1: dmesg: " (tailBytes d 60) (-1))) ;;
  _ ← poweroff;
  Ret tt.

(** [KUTCheck] over the agent's own reads: the files are read one at a time,
    until a condition fails. *)
Fixpoint kutCheck_go (cs : list string) : prog string :=
  match cs with
  | [] => Ret ""
  | c :: cs =>
      let '(path, value) := match cut c "=" with Some pv => pv | None => (c, "") end in
      '(got, err) ← call (ReadFile path);
      match err with
      | Some _ => Ret c
      | None => if seqb (trim_space got) value then kutCheck_go cs else Ret c
      end
  end.
Definition kutCheck (check : string) : prog string := kutCheck_go (fields check).

(** The last SUMMARY line of a log, as it is appended to the KUT line. *)
Definition kutSummaryOf (log : string) : string :=
  foldl (λ summary l,
    if has_prefix l "SUMMARY: " then " " +:+ trim_prefix l "SUMMARY: " else summary)
    "" (splitLines log).

Definition kutTest (dir : string) (t : KUTTest) : prog unit :=
  c ← kutCheck (Check_ t);
  if negb (seqb c "") then echo ("KUT: " +:+ Name t +:+ " skip rc=0 check=" +:+ c) else
  f ← call (Create "/tmp/kut.log");
  r ← match f with
      | Some e => shErr ("/tmp/kut.log: " +:+ errText e) ;; Ret 1%Z
      | None => run (KUTArgv dir t) INull (OFile "/tmp/kut.log") (OFile "/tmp/kut.log")
      end;
  log ← readQuiet "/tmp/kut.log";
  let verdict := KUTVerdict r in
  echo ("KUT: " +:+ Name t +:+ " " +:+ verdict +:+ " rc=" +:+ itoa r +:+ kutSummaryOf log) ;;
  if seqb verdict "pass" || seqb verdict "skip" then Ret tt else
  each (filter (λ l, has_prefix l "FAIL: " = true) (splitLines log))
    (λ l, echo ("K[" +:+ Name t +:+ "]: " +:+ l)) ;;
  call (Out (prefixStream ("K[" +:+ Name t +:+ "]: ") (tailBytes log 10) (-1))).

Definition kutTests : prog unit :=
  let dir := payload +:+ "/kut" in
  '(b, err) ← call (ReadFile (dir +:+ "/tests.txt"));
  let tests := ParseKUTManifest b in
  if (match err with Some _ => true | None => false end) || (length tests =? 0) then
    say "no kvm-unit-tests in the payload" ;;
    echo "PVMTEST-RESULT: fail stage=kut reason=no-tests" ;;
    _ ← poweroff;
    Ret tt
  else
  each ["ept"; "unrestricted_guest"; "enable_shadow_vmcs"] (λ p,
    '(v, e) ← call (ReadFile ("/sys/module/kvm_intel/parameters/" +:+ p));
    match e with
    | None => say ("kvm_intel " +:+ p +:+ ": " +:+ stripNewlines v)
    | Some _ => Ret tt
    end) ;;
  each tests (kutTest dir) ;;
  echo "PVMTEST-RESULT: ok stage=kut" ;;
  d ← dmesg;
  call (Out (prefixStream "L1: dmesg: " (tailBytes d 40) (-1))) ;;
  _ ← poweroff;
  Ret tt.

(** ** The guest *)
Definition qemuVersion : prog string :=
  '(r, _) ← pipe ["qemu-system-x86_64"; "-version"] stderrMerged;
  Ret (match r with
       | Some text => eachLine (λ _ l _, (l, false)) "" text
       | None => ""
       end).

Definition cdTmp : prog unit :=
  r ← call (Chdir "/tmp");
  match r with
  | Some e => shErr ("cd: /tmp: " +:+ errText e) ;; Exit 1
  | None => Ret tt
  end.

(** The perf prefix it decides on. *)
Definition setupPerf (m : mode) (suite : string) : prog (list string) :=
  x ← executable perfPath;
  let k := PerfKind m suite x in
  match k with
  | perfMMU =>
      cdTmp ;;
      echoLoud "/proc/sys/kernel/perf_event_paranoid" ("-1" +:+ nl) ;;
      say "counting exits and shadow MMU events" ;;
      Ret (PerfPrefix k)
  | perfLock =>
      cdTmp ;;
      echoLoud "/proc/sys/kernel/perf_event_paranoid" ("-1" +:+ nl) ;;
      echoLoud "/proc/sys/kernel/kptr_restrict" ("0" +:+ nl) ;;
      say "recording lock contention" ;;
      Ret (PerfPrefix k)
  | perfProfile =>
      cdTmp ;;
      echoLoud "/proc/sys/kernel/kptr_restrict" ("0" +:+ nl) ;;
      echoLoud "/proc/sys/kernel/perf_event_paranoid" ("-1" +:+ nl) ;;
      say "sampling qemu's cycles at 4kHz" ;;
      Ret (PerfPrefix k)
  | perfKVMStat =>
      r ← run KVMStatProbeArgv IStdin ONull ONull;
      if (r =? 0)%Z then
        say "recording kvm exits with perf" ;;
        cdTmp ;;
        Ret (PerfPrefix k)
      else
        say "perf has no working 'kvm stat' (built without libtraceevent?)" ;;
        Ret []
  | perfNone => Ret []
  end.

Definition prefixFile (path prefix : string) : prog unit :=
  r ← call (Open path);
  match r with
  | inl e => call (Err ("sed: can't read " +:+ path +:+ ": " +:+ errText e +:+ nl))
  | inr text => call (Out (prefixStream prefix text (-1)))
  end.

Definition runGuest (p : Params) (perfPrefix : list string)
    (guestTimeout appendLine tag : string) (machine : list string) : prog unit :=
  call (Remove "/tmp/guest.log") ;;
  call (Remove "/tmp/qemu.log") ;;
  say ("=== booting the PVM guest on " +:+ tag +:+ " ===") ;;
  let argv := QemuArgv guestTimeout perfPrefix machine (GuestCPUs p) (GuestMem p) appendLine in
  f ← call (Create "/tmp/qemu.log");
  rc ← match f with
       | Some e => shErr ("/tmp/qemu.log: " +:+ errText e) ;; Ret 1%Z
       | None => run argv INull (OFile "/tmp/qemu.log") (OFile "/tmp/qemu.log")
       end;
  say (tag +:+ ": qemu exited " +:+ itoa rc) ;;
  q ← nonEmpty "/tmp/qemu.log";
  (if (q : bool) then prefixFile "/tmp/qemu.log" ("L1: " +:+ tag +:+ " qemu: ") else Ret tt) ;;
  g ← nonEmpty "/tmp/guest.log";
  if (g : bool) then prefixFile "/tmp/guest.log" ("G[" +:+ tag +:+ "]: ")
  else say (tag +:+ ": the guest produced no serial output at all").

(** ** The reports *)

(** [withTrace]: what [fn] makes of a fresh read of the trace is written with
    the prefix. *)
Definition withTrace (t : string) (prefix : string) (fn : string → list string) : prog unit :=
  let p := Join t "trace" in
  r ← call (Open p);
  match r with
  | inl e => call (Err ("sed: can't read " +:+ p +:+ ": " +:+ errText e +:+ nl)) ;;
             call (Out (writePrefixed prefix (fn "")))
  | inr text => call (Out (writePrefixed prefix (fn text)))
  end.

Definition traceReports (suite t : string) : prog unit :=
  go ← (if seqb suite "perf" || seqb suite "mmu" then isDir t else Ret false);
  if negb go then Ret tt else
  say "--- exits by reason ---" ;;
  withTrace t "L1: exit: " ExitsByReason ;;
  say "--- exits by reason and guest rip ---" ;;
  withTrace t "L1: exitrip: " ExitsByRip ;;
  r ← call (Open (Join t "trace"));
  let total := match r with
               | inr text => let c := CountLines text "kvm_emulate_insn" in
                             if (c =? 0)%Z then "0" +:+ nl +:+ "0" else itoa c
               | inl _ => "0"
               end in
  say ("--- emulated instructions: " +:+ total +:+ " traced ---") ;;
  withTrace t "L1: insn: " InsnHistogram ;;
  say "--- privileged instructions only ---" ;;
  withTrace t "L1: priv: " PrivHistogram ;;
  say "--- MSR accesses by register ---" ;;
  withTrace t "L1: msr: " MSRHistogram ;;
  say "--- dropped by the trace buffer ---" ;;
  '(b, err) ← call (ReadFile (Join t "per_cpu/cpu0/stats"));
  match err with
  | Some _ => Ret tt
  | None => call (Out (writePrefixed "L1: insn: cpu0 " (grepLines b (λ l, contains l "overrun"))))
  end.

Fixpoint firstNonEmpty (fs : list string) : prog string :=
  match fs with
  | [] => Ret ""
  | f :: fs => x ← nonEmpty f; if (x : bool) then Ret f else firstNonEmpty fs
  end.
Definition when_ (b : bool) (p : prog unit) : prog unit := if b then p else Ret tt.
Definition andNonEmpty (b : bool) (path : string) : prog bool :=
  if b then nonEmpty path else Ret false.

Definition perfReports (m : mode) (perfPrefix : list string) : prog unit :=
  mmu ← andNonEmpty (bool_decide (m = modeMMU)) "/tmp/mmu.txt";
  when_ mmu
    (say "--- shadow MMU event counts ---" ;;
     b ← readQuiet "/tmp/mmu.txt";
     call (Out (writePrefixed "L1: mmu: " (MMUCounts b)))) ;;
  lock ← andNonEmpty (bool_decide (m = modeLock)) "/tmp/lock.data";
  when_ lock
    (say "--- lock contention by lock, wait_total ---" ;;
     _ ← streamPrefixed (lockContentionArgv ["-E"; "12"; "-F"; "contended,wait_total,wait_max,avg_wait"])
           stderrMerged "L1: lock: " (-1);
     say "--- lock contention by caller, wait_total ---" ;;
     _ ← streamPrefixed (lockContentionArgv ["-E"; "12"; "-l"; "-F"; "contended,wait_total,avg_wait"])
           stderrMerged "L1: lockaddr: " (-1);
     say "--- contended in the shadow MMU page fault path ---" ;;
     _ ← streamPrefixed (lockContentionArgv ["-E"; "8"; "-S"; "kvm_mmu_page_fault"; "-F";
                                             "contended,wait_total,wait_max,avg_wait"])
           stderrMerged "L1: lockpf: " (-1);
     Ret tt) ;;
  prof ← andNonEmpty (bool_decide (m = modeProfile)) "/tmp/cycles.data";
  when_ prof
    (let report l := match l with "" => false | String c _ => negb (ceq c "#") end in
     say "--- host cycles, kernel symbols ---" ;;
     _ ← filterPrefixed (profileReportArgv ["--percent-limit"; "0.4"; "-g"; "none"])
           stderrDiscard report 28 "L1: prof: ";
     say "--- host cycles, self time ---" ;;
     _ ← filterPrefixed (profileReportArgv ["--no-children"; "--percent-limit"; "0.3"; "-g"; "none"])
           stderrDiscard report 40 "L1: self: ";
     say "--- anything with 'switcher' in the name ---" ;;
     _ ← filterPrefixed (profileReportArgv ["-g"; "none"]) stderrDiscard
           (λ l, containsFold l "switcher") 10 "L1: prof: ";
     Ret tt) ;;
  if (0 <? length perfPrefix) && bool_decide (m ≠ modeProfile) && bool_decide (m ≠ modeLock) then
    data ← firstNonEmpty ["/tmp/perf.data.guest"; "/tmp/perf.data.kvm"; "/tmp/perf.data.host"];
    if negb (seqb data "") then
      say ("--- kvm exits by reason (" +:+ Base data +:+ ") ---") ;;
      _ ← streamPrefixed (kvmStatReportArgv data) stderrMerged "L1: perf: " 45;
      Ret tt
    else say "perf produced no data file"
  else Ret tt.

Definition dmesgReports : prog unit :=
  say "--- what the host said about the guest ---" ;;
  d ← dmesg; call (Out (writePrefixed "L1: pvm: " (DmesgPVM d))) ;;
  say "--- injection warnings ---" ;;
  d ← dmesg; call (Out (writePrefixed "L1: warn: " (DmesgWarn d))) ;;
  say "--- did qemu fault, and where ---" ;;
  d ← dmesg; call (Out (writePrefixed "L1: sig: " (DmesgSig d))) ;;
  say "--- kernel complaints from the guest run ---" ;;
  d ← dmesg; call (Out (writePrefixed "L1: bug: " (DmesgBug d))).

(** The last trace lines. *)
Definition lastTrace (t : string) : prog unit :=
  say "--- last 70 trace lines, teardown and unmaps removed ---" ;;
  let p := Join t "trace" in
  r ← call (Open p);
  match r with
  | inl e => call (Err ("grep: " +:+ p +:+ ": " +:+ errText e +:+ nl))
  | inr text =>
      match LastTraceLines text 70 with
      | Some ls => call (Out (writePrefixed "L1: kvm: " ls))
      | None => Exit 2 (* the panic; LastTraceLines_last rules it out *)
      end
  end.

(** ** The whole run *)

(** What the host is, once /dev/kvm is there. *)
Definition hostReport (cpuinfo : string) : prog unit :=
  say "/dev/kvm present" ;;
  meltdown ← readQuiet "/sys/devices/system/cpu/vulnerabilities/meltdown";
  say ("host PTI: " +:+ stripNewlines meltdown) ;;
  say ("host pti flag: " +:+ (if contains cpuinfo " pti" then " pti" else "")) ;;
  '(thp, err) ← call (ReadFile "/sys/kernel/mm/transparent_hugepage/enabled");
  match err with
  | Some _ => say "host THP: not built"
  | None => say ("host THP: " +:+ stripNewlines thp)
  end ;;
  say ("host paging: " +:+ (if contains cpuinfo " la57" then "5-level" else "4-level")).

Definition traceSetup (m : mode) (suite t : string) : prog unit :=
  d ← isDir t;
  if negb d then Ret tt else
  each (TraceSetup m suite) (λ w,
    ok ← echoTo (Join t (File w)) (Data w);
    if ok && negb (seqb (Say w) "") then say (Say w) else Ret tt).

(** The middle of [runAgent], from the modes on: the guest and the reports. *)
Definition bootGuest (p : Params) : prog Z :=
  let '(m, suite) := ResolveMode (Suite p) in
  (if decide (m = modeHosttests) then hostTests p else Ret tt) ;;
  (if decide (m = modeKUT) then kutTests else Ret tt) ;;
  v ← qemuVersion;
  say ("qemu: " +:+ v) ;;
  _ ← streamPrefixed ["ls"; "-l"; payload] stderrConsole "L1: payload: " (-1);
  tracing ← isDir "/sys/kernel/tracing";
  let t := if (tracing : bool) then "/sys/kernel/tracing" else "/sys/kernel/debug/tracing" in
  traceSetup m suite t ;;
  let guestTimeout := GuestTimeout_of suite (GuestTimeout p) in
  say ("guest: " +:+ GuestCPUs p +:+ " vcpus, " +:+ GuestMem p +:+ ", timeout " +:+
       guestTimeout +:+ "s") ;;
  let appendLine := GuestAppend p m suite in
  r ← call Setrlimit;
  match r with
  | Some e => shErr ("ulimit: core file size: cannot modify limit: " +:+ errText e)
  | None => Ret tt
  end ;;
  _ ← echoTo "/proc/sys/kernel/core_pattern" ("core" +:+ nl);
  _ ← echoTo "/proc/sys/kernel/print-fatal-signals" ("1" +:+ nl);
  lib ← call (LookupEnv "LD_LIBRARY_PATH");
  call (Setenv "LD_LIBRARY_PATH"
    (match lib with
     | Some v => if seqb v "" then payload else payload +:+ ":" +:+ v
     | None => payload
     end)) ;;
  perfPrefix ← setupPerf m suite;
  runGuest p perfPrefix guestTimeout appendLine "q35" ["-machine"; "q35,accel=kvm"] ;;
  traceReports suite t ;;
  perfReports m perfPrefix ;;
  d ← isDir t;
  (if (d : bool) then _ ← echoTo (Join t "tracing_on") ("0" +:+ nl); Ret tt else Ret tt) ;;
  dmesgReports ;;
  d ← isDir t;
  when_ d (lastTrace t) ;;
  say "done" ;;
  poweroff.

Definition runAgent : prog Z :=
  toConsole ;;
  release ← call Uname;
  say ("kernel: " +:+ utsString release) ;;
  cpuinfo ← readQuiet "/proc/cpuinfo";
  say ("cpu: " +:+ cpuModel cpuinfo) ;;
  cmdline ← readQuiet "/proc/cmdline";
  let p := ParseCmdline cmdline in
  match ModulePath (Vendor p) with
  | None =>
      say ("unknown vendor: " +:+ Vendor p) ;;
      _ ← poweroff;
      shErr "mod: unbound variable" ;;
      Ret 1%Z
  | Some ko =>
      say ("loading " +:+ Vendor p +:+ " from " +:+ ko +:+ " " +:+ ModArgs p) ;;
      rc ← streamPrefixed (InsmodArgv ko (ModArgs p)) stderrMerged "L1: insmod: " (-1);
      (if negb (rc =? 0)%Z then say "insmod failed" else Ret tt) ;;
      _ ← filterPrefixed ["lsmod"] stderrConsole (λ l, has_prefix l "kvm") (-1) "L1: lsmod: ";
      d ← dmesg;
      call (Out (writePrefixed "L1: dmesg: " (DmesgKVM d 40))) ;;
      (if seqb (Suite p) "failclosed" then failClosed (Vendor p) else Ret tt) ;;
      present ← exists_ "/dev/kvm";
      (if negb present then
         say "no /dev/kvm -- the PVM host did not register" ;;
         echo "PVMTEST-RESULT: fail stage=1 reason=no-kvm-device" ;;
         _ ← poweroff;
         Ret tt
       else Ret tt) ;;
      hostReport cpuinfo ;;
      bootGuest p
  end.

(** ** stub.go and main.go *)
Definition agentPath : string := payload +:+ "/l1agent".
Definition runStub : prog Z :=
  echo "L1-STUB: mounting the payload share" ;;
  r ← call (MkdirAll payload);
  match r with
  | Some e => shErr ("mkdir: cannot create directory '" +:+ payload +:+ "': " +:+ errText e)
  | None => Ret tt
  end ;;
  rc ← run ["mount"; "-t"; "9p"; "-o"; "trans=virtio,version=9p2000.L"; "payload"; payload]
         IStdin OStdout OStderr;
  (if negb (rc =? 0)%Z then
     echo "L1-STUB: could not mount the payload share" ;;
     echo "PVMTEST-RESULT: fail stage=1 reason=no-payload" ;;
     _ ← poweroff;
     Ret tt
   else Ret tt) ;;
  x ← executable agentPath;
  (if negb x then
     echo "L1-STUB: no agent on the share" ;;
     echo "PVMTEST-RESULT: fail stage=1 reason=no-agent" ;;
     _ ← poweroff;
     Ret tt
   else Ret tt) ;;
  e ← call (ExecSelf agentPath);
  let '(msg, rc) := startFailure agentPath e in
  shErr msg ;;
  Ret rc.

(** [main], on [os.Args]; it always ends in [os.Exit]. *)
Definition main (args : list string) : prog unit :=
  match args with
  | [_] => rc ← runAgent; Exit rc
  | [_; "stub"] => rc ← runStub; Exit rc
  | _ => call (Err ("usage: " +:+ default "" (args !! 0) +:+ " [stub]" +:+ nl)) ;; Exit 2
  end.

(** [inheritSigpipe]: whether /proc/self/status makes it ignore SIGPIPE.
    SIGPIPE is 13, so the bit is 12. *)
Fixpoint inheritSigpipe_go (ls : list string) : bool :=
  match ls with
  | [] => false
  | l :: ls =>
      match cut_prefix "SigIgn:" l with
      | None => inheritSigpipe_go ls
      | Some v =>
          match unradix 16 (trim_space v) with
          | Some mask => (mask <? 2 ^ 64)%N && negb (N.land mask (N.shiftl 1 12) =? 0)%N
          | None => false
          end
      end
  end.
Definition inheritSigpipe (status : string) : bool := inheritSigpipe_go (split ch_nl status).
