(* ===== verification/AgentRuns.v ===== *)
(** * Runs of the agent

    The agent's theorems over the runs of its program ([Prog.runs]): it gives at most one
    verdict, never returns without having told the machine to go down, and its
    verdicts say what they mean. *)
From Stdlib Require Import Ascii.
From S2P Require Import Prelude GoStrings Regexp Text Params Trace Prog Agent.

Abbreviation event := (Prog.event op).

Ltac unfold_agent :=
  unfold echo, say, shErr, writeSink, run, pipe, capture, streamPrefixed, filterPrefixed, echoTo,
    echoLoud, executable, exists_, isDir, nonEmpty, poweroff, toConsole, dmesg, globAll, readQuiet,
    when_.

(** ** Verdicts

    A verdict is a line that pvmtest reads as one: it starts with
    "PVMTEST-RESULT: ".  Everything else the agent writes is empty or starts
    with another byte than "P". *)
Definition is_verdict {B} (o : op B) : bool :=
  match o with Out s => has_prefix s "PVMTEST-RESULT: " | _ => false end.
Definition verdicts (tr : list event) : list event :=
  filter (λ e, is_verdict (ev_op e) = true) tr.
Definition quiet B (o : op B) : Prop := is_verdict o = false.

Definition not_P (s : string) : bool :=
  match s with "" => true | String c _ => negb (ceq c "P") end.
Lemma not_P_quiet s : not_P s = true → quiet _ (Out s).
Proof.
  unfold quiet. cbn. destruct s as [|c s]; [done|]. unfold has_prefix. cbn [not_P cut_prefix].
  destruct (ceq c "P") eqn:E; [done|]. intros _. apply ceq_false in E.
  by rewrite (proj2 (ceq_false _ _)).
Qed.
Lemma not_P_app a b : not_P a = true → a ≠ "" → not_P (a +:+ b) = true.
Proof. by destruct a. Qed.
Lemma prefixStream_quiet prefix r max :
  not_P prefix = true → prefix ≠ "" → quiet _ (Out (prefixStream prefix r max)).
Proof.
  intros. apply not_P_quiet. destruct (prefixStream_head prefix r max) as [->|[s ->]]; [done|].
  by apply not_P_app.
Qed.
Lemma writePrefixed_quiet prefix l :
  not_P prefix = true → prefix ≠ "" → quiet _ (Out (writePrefixed prefix l)).
Proof.
  intros. apply not_P_quiet. destruct (writePrefixed_head prefix l) as [->|[s ->]]; [done|].
  by apply not_P_app.
Qed.

(** Decides that a call writes no verdict. *)
Ltac quiet_call :=
  first [ reflexivity
        | apply prefixStream_quiet; [reflexivity|done]
        | apply writePrefixed_quiet; [reflexivity|done]
        | apply not_P_quiet; reflexivity ].
Ltac quiet_prog := try unfold_agent; walk ltac:(quiet_call).

Lemma quiet_verdicts {A} (p : prog A) tr out : all_ops quiet p → runs p tr out → verdicts tr = [].
Proof.
  intros Hq Hr. pose proof (all_ops_runs _ _ _ _ Hq Hr) as Hall. clear Hq Hr. unfold verdicts.
  induction Hall as [|e tr He Hall IH]; [done|]. rewrite filter_cons.
  rewrite decide_False; [done|]. unfold quiet in He. by rewrite He.
Qed.
Lemma verdicts_app a b : verdicts (a ++ b) = verdicts a ++ verdicts b.
Proof. apply filter_app. Qed.

(** ** Poweroff *)
Definition is_poweroff {B} (o : op B) : bool :=
  match o with Spawn argv _ _ _ => bool_decide (argv = ["poweroff"; "-f"]) | _ => false end.
(** The machine goes down when told to: no poweroff returns. *)
Definition poweroff_works (tr : list event) : Prop :=
  Forall (λ e, is_poweroff (ev_op e) = true → ev_ans e = None) tr.

Lemma poweroff_stops tr out :
  poweroff_works tr → runs poweroff tr out → out = Stopped ∧ verdicts tr = [].
Proof.
  intros Hw Hr. unfold poweroff, run in Hr. 
  apply runs_bind in Hr as [(r & tr1 & tr2 & -> & H1 & H2)|[(n & H & _)|[H ->]]].
  - apply runs_call in H1 as [[-> ?]|(b & -> & [= <-])]; [done|].
    apply Forall_inv in Hw. by specialize (Hw eq_refl).
  - by apply runs_call in H as [[? ?]|(? & ? & ?)].
  - split; [done|]. apply runs_call in H as [[-> _]|(b & -> & ?)]; done.
Qed.
Lemma works_app a b : poweroff_works (a ++ b) ↔ poweroff_works a ∧ poweroff_works b.
Proof. apply Forall_app. Qed.

(** [D p]: at most one verdict, and none when [p] returns; [E p]: no verdict,
    and it never returns -- both on a machine that goes down when told to. *)
Definition D {A} (p : prog A) : Prop :=
  ∀ tr out, poweroff_works tr → runs p tr out →
    length (verdicts tr) ≤ 1 ∧ (∀ a, out = Returned a → verdicts tr = []).
Definition E {A} (p : prog A) : Prop :=
  ∀ tr out, poweroff_works tr → runs p tr out → verdicts tr = [] ∧ ∀ a, out ≠ Returned a.

Lemma D_quiet {A} (p : prog A) : all_ops quiet p → D p.
Proof. intros Hq tr out _ Hr. rewrite (quiet_verdicts _ _ _ Hq Hr). cbn. split; [lia|done]. Qed.
Lemma D_bind {A B} (p : prog A) (f : A → prog B) : D p → (∀ a, D (f a)) → D (p ≫= f).
Proof.
  intros Hp Hf tr out Hw [(a & t1 & t2 & -> & H1 & H2)|[(n & H & ->)|[H ->]]]%runs_bind.
  - apply works_app in Hw as [Hw1 Hw2]. destruct (Hp _ _ Hw1 H1) as [_ H0].
    rewrite verdicts_app, (H0 a eq_refl). by apply (Hf a).
  - split; [by apply (Hp _ _ Hw H)|done].
  - split; [by apply (Hp _ _ Hw H)|done].
Qed.
Lemma E_poweroff : E poweroff.
Proof. intros tr out Hw Hr. by destruct (poweroff_stops _ _ Hw Hr) as [-> ->]. Qed.
Lemma E_stop {A B} (p : prog A) (f : A → prog B) : E p → E (p ≫= f).
Proof.
  intros Hp tr out Hw [(a & t1 & t2 & -> & H1 & H2)|[(n & H & ->)|[H ->]]]%runs_bind.
  - apply works_app in Hw as [Hw1 _]. by destruct (Hp _ _ Hw1 H1) as [_ []%(λ H, H a)].
  - split; [by apply (Hp _ _ Hw H)|done].
  - split; [by apply (Hp _ _ Hw H)|done].
Qed.
Lemma E_quiet {A B} (p : prog A) (f : A → prog B) :
  all_ops quiet p → (∀ a, E (f a)) → E (p ≫= f).
Proof.
  intros Hq Hf tr out Hw [(a & t1 & t2 & -> & H1 & H2)|[(n & H & ->)|[H ->]]]%runs_bind.
  - apply works_app in Hw as [_ Hw2]. rewrite verdicts_app, (quiet_verdicts _ _ _ Hq H1).
    by apply (Hf a).
  - by rewrite (quiet_verdicts _ _ _ Hq H).
  - by rewrite (quiet_verdicts _ _ _ Hq H).
Qed.
(** At most one line, and then the machine goes down. *)
Definition L {A} (p : prog A) : Prop := ∀ tr out, runs p tr out → length (verdicts tr) ≤ 1.
Lemma L_call {B} (o : op B) : L (call o).
Proof.
  intros tr out [[-> _]|(b & -> & _)]%runs_call; unfold verdicts; rewrite filter_cons;
    case_decide; cbn; lia.
Qed.
Lemma L_quiet {A B} (p : prog A) (f : A → prog B) :
  all_ops quiet p → (∀ a, L (f a)) → L (p ≫= f).
Proof.
  intros Hq Hf tr out [(a & t1 & t2 & -> & H1 & H2)|[(n & H & ->)|[H ->]]]%runs_bind.
  - rewrite verdicts_app, (quiet_verdicts _ _ _ Hq H1). by apply (Hf a _ out).
  - rewrite (quiet_verdicts _ _ _ Hq H). cbn. lia.
  - rewrite (quiet_verdicts _ _ _ Hq H). cbn. lia.
Qed.
Lemma D_down {A B} (p : prog A) (f : A → prog B) : L p → (∀ a, E (f a)) → D (p ≫= f).
Proof.
  intros Hp Hf tr out Hw [(a & t1 & t2 & -> & H1 & H2)|[(n & H & ->)|[H ->]]]%runs_bind.
  - apply works_app in Hw as [_ Hw2]. destruct (Hf _ _ _ Hw2 H2) as [Hv Hn].
    rewrite verdicts_app, Hv, app_nil_r. split; [by eapply Hp|naive_solver].
  - split; [by eapply Hp|done].
  - split; [by eapply Hp|done].
Qed.

(** The parts that give no verdict. *)
Lemma failClosed_quiet v : all_ops quiet (failClosed v).
Proof. unfold failClosed. quiet_prog. Qed.
Lemma hostTest_quiet tt_ st t : all_ops quiet (hostTest tt_ st t).
Proof. unfold hostTest. quiet_prog. Qed.
Lemma selftest_quiet tt_ st t : all_ops quiet (selftest tt_ st t).
Proof. unfold selftest. quiet_prog. Qed.
Lemma kutCheck_quiet c : all_ops quiet (kutCheck c).
Proof. unfold kutCheck. induction (fields c) as [|x l IH]; cbn [kutCheck_go]; quiet_prog. Qed.
#[local] Hint Resolve failClosed_quiet hostTest_quiet selftest_quiet kutCheck_quiet : agent.
Lemma kutTest_quiet d t : all_ops quiet (kutTest d t).
Proof. unfold kutTest. quiet_prog. Qed.
Lemma setupPerf_quiet m s : all_ops quiet (setupPerf m s).
Proof. unfold setupPerf, cdTmp. quiet_prog. Qed.
Lemma runGuest_quiet p pre t a tag m : all_ops quiet (runGuest p pre t a tag m).
Proof. unfold runGuest, prefixFile. quiet_prog. Qed.
Lemma traceReports_quiet s t : all_ops quiet (traceReports s t).
Proof. unfold traceReports, withTrace. quiet_prog. Qed.
Lemma perfReports_quiet m pre : all_ops quiet (perfReports m pre).
Proof. unfold perfReports, andNonEmpty, when_. cbn [firstNonEmpty]. quiet_prog. Qed.
Lemma dmesgReports_quiet : all_ops quiet dmesgReports.
Proof. unfold dmesgReports. quiet_prog. Qed.
Lemma lastTrace_quiet t : all_ops quiet (lastTrace t).
Proof. unfold lastTrace. quiet_prog. Qed.
Lemma hostReport_quiet c : all_ops quiet (hostReport c).
Proof. unfold hostReport. quiet_prog. Qed.
Lemma traceSetup_quiet m s t : all_ops quiet (traceSetup m s t).
Proof. unfold traceSetup. quiet_prog. Qed.
#[local] Hint Resolve kutTest_quiet setupPerf_quiet runGuest_quiet traceReports_quiet
  perfReports_quiet dmesgReports_quiet lastTrace_quiet hostReport_quiet traceSetup_quiet : agent.

Lemma hostTests_D p : D (hostTests p).
Proof.
  unfold hostTests. apply D_bind; [apply D_quiet; quiet_prog|intros ts].
  apply D_bind; [apply D_quiet; quiet_prog|intros [found rc]].
  apply D_bind; [apply D_quiet; quiet_prog|intros ss].
  apply D_bind; [apply D_quiet; quiet_prog|intros found'].
  apply D_down.
  - repeat case_match; [apply L_quiet; [quiet_prog|intros _]|..]; apply L_call.
  - intros _. apply E_quiet; [quiet_prog|intros d]. apply E_quiet; [quiet_prog|intros _].
    apply E_stop, E_poweroff.
Qed.
Lemma kutTests_D : D kutTests.
Proof.
  unfold kutTests. apply D_bind; [apply D_quiet; quiet_prog|intros [b err]]. case_match.
  - apply D_bind; [apply D_quiet; quiet_prog|intros _].
    apply D_down; [apply L_call|intros _]. apply E_stop, E_poweroff.
  - apply D_bind; [apply D_quiet; quiet_prog|intros _].
    apply D_bind; [apply D_quiet; quiet_prog|intros _].
    apply D_down; [apply L_call|intros _]. apply E_quiet; [quiet_prog|intros d].
    apply E_quiet; [quiet_prog|intros _]. apply E_stop, E_poweroff.
Qed.
(** The parts in sequence, each of them fine. *)
Ltac sequence tac :=
  repeat first [apply D_bind; [first [by apply D_quiet; quiet_prog|tac]|intros ?]
               | by apply D_quiet; quiet_prog].
Lemma bootGuest_D p : D (bootGuest p).
Proof.
  unfold bootGuest. destruct (ResolveMode (Suite p)) as [m suite].
  sequence ltac:(case_decide; [first [apply hostTests_D|apply kutTests_D]|by apply D_quiet]).
Qed.

(** On a machine that goes down when told to, a whole run of the agent
    writes at most one "PVMTEST-RESULT: " line, whatever the operating system
    and the programs it runs answer. *)
Theorem runAgent_one_verdict tr out :
  poweroff_works tr → runs runAgent tr out → length (verdicts tr) ≤ 1.
Proof.
  intros Hw Hr. assert (D runAgent) as HD; [|by apply (HD tr out)]. clear.
  unfold runAgent. sequence idtac. case_match.
  - sequence ltac:(first
      [ by repeat case_match; apply D_quiet; quiet_prog
      | case_match; [|by apply D_quiet];
        apply D_bind; [by apply D_quiet; quiet_prog|intros ?];
        apply D_down; [apply L_call|intros _]; apply E_stop, E_poweroff ]).
    apply bootGuest_D.
  - sequence idtac.
Qed.

(** A host with no files and no devices, on which every command succeeds with
    no output, and which goes down when told to iff [down]. *)
Definition no_file : oserr :=
  {| e_errno := Some "no such file or directory"; e_text := "open: no such file or directory";
     e_notfound := false; e_noent := true |}.
Definition bare_host (cmdline : string) (down : bool) (B : Type) (o : op B) : option B :=
  match o in op B return option B with
  | Out _ | Err _ | Append _ _ | Remove _ | Setenv _ _ => Some tt
  | ToConsole | Create _ | WriteTo _ _ | MkdirAll _ | Chdir _ | Setrlimit => Some None
  | Uname => Some "6.0"
  | ReadFile f => Some (if seqb f "/proc/cmdline" then (cmdline, None) else ("", Some no_file))
  | Open _ => Some (inl no_file)
  | ReadDir _ => Some (inl no_file)
  | Exists _ | IsDir _ | NonEmpty _ | Executable _ => Some false
  | LookupEnv _ => Some None
  | Spawn argv _ _ _ =>
      if down && bool_decide (argv = ["poweroff"; "-f"]) then None else Some (SDone (WExit 0))
  | Pipe _ _ => Some (PDone "" (WExit 0))
  | ExecSelf _ => Some no_file
  end.

(** The lines written. *)
Definition outs (tr : list event) : list string :=
  omap (λ e, match ev_op e with Out s => Some s | _ => None end) tr.

Lemma runAgent_one_verdict_witness :
  let tr := (drive (bare_host "pvmtest.suite=default" true) runAgent).1 in
  poweroff_works tr ∧ length (verdicts tr) ≤ 1 ∧
  ("PVMTEST-RESULT: fail stage=1 reason=no-kvm-device" +:+ nl) ∈ outs tr.
Proof.
  intros tr. assert (poweroff_works tr) as Hw.
  { vm_compute. repeat (constructor; [discriminate || reflexivity|]). constructor. }
  split; [exact Hw|]. split.
  - apply (runAgent_one_verdict tr (drive (bare_host "pvmtest.suite=default" true) runAgent).2 Hw).
    apply drive_runs.
  - apply (bool_decide_unpack _). vm_compute. exact I.
Defined.

(** ** How a run ends *)
Definition told_down (tr : list event) : Prop := List.Exists (λ e, is_poweroff (ev_op e) = true) tr.
Definition returns_down {A} (p : prog A) : Prop := ∀ tr a, runs p tr (Returned a) → told_down tr.
Lemma returns_down_last {A B} (p : prog A) (f : A → prog B) :
  (∀ a, returns_down (f a)) → returns_down (p ≫= f).
Proof.
  intros Hf tr b [(a & t1 & t2 & -> & H1 & H2)|[(n & _ & ?)|[_ ?]]]%runs_bind; try done.
  apply Exists_app. right. by eapply Hf.
Qed.
Lemma returns_down_first {A B} (p : prog A) (f : A → prog B) :
  returns_down p → returns_down (p ≫= f).
Proof.
  intros Hf tr b [(a & t1 & t2 & -> & H1 & H2)|[(n & _ & ?)|[_ ?]]]%runs_bind; try done.
  apply Exists_app. left. by eapply Hf.
Qed.
Lemma poweroff_down : returns_down poweroff.
Proof.
  intros tr a [(r & t1 & t2 & -> & H1 & H2)|[(n & _ & ?)|[_ ?]]]%runs_bind; try done.
  apply runs_call in H1 as [[_ ?]|(b & -> & _)]; [done|]. by apply Exists_cons_hd.
Qed.

#[local] Abbreviation exits_1 := (exits (λ n, n = 1%Z)).
Lemma lastTrace_exits t : exits_1 (lastTrace t).
Proof.
  unfold lastTrace. unfold_agent. walk idtac.
  match goal with H : LastTraceLines ?s 70 = None |- _ =>
    pose proof (LastTraceLines_last s 70) as Hl; rewrite H in Hl end.
  discriminate Hl. lia.
Qed.
#[local] Hint Resolve lastTrace_exits : agent.

Ltac exit_prog := try unfold_agent; walk idtac.
Lemma failClosed_exits v : exits_1 (failClosed v).
Proof. unfold failClosed. exit_prog. Qed.
Lemma kutCheck_exits c : exits_1 (kutCheck c).
Proof. unfold kutCheck. induction (fields c) as [|x l IH]; cbn [kutCheck_go]; exit_prog. Qed.
#[local] Hint Resolve failClosed_exits kutCheck_exits : agent.
Lemma hostTests_exits p : exits_1 (hostTests p).
Proof. unfold hostTests, hostTest, selftest. exit_prog. Qed.
Lemma kutTest_exits d t : exits_1 (kutTest d t).
Proof. unfold kutTest. exit_prog. Qed.
#[local] Hint Resolve kutTest_exits : agent.
Lemma kutTests_exits : exits_1 kutTests.
Proof. unfold kutTests. exit_prog. Qed.
Lemma setupPerf_exits m s : exits_1 (setupPerf m s).
Proof. unfold setupPerf, cdTmp. exit_prog. Qed.
Lemma runGuest_exits p pre t a tag m : exits_1 (runGuest p pre t a tag m).
Proof. unfold runGuest, prefixFile. exit_prog. Qed.
Lemma traceReports_exits s t : exits_1 (traceReports s t).
Proof. unfold traceReports, withTrace. exit_prog. Qed.
Lemma perfReports_exits m pre : exits_1 (perfReports m pre).
Proof. unfold perfReports, andNonEmpty. cbn [firstNonEmpty]. exit_prog. Qed.
#[local] Hint Resolve hostTests_exits kutTests_exits setupPerf_exits runGuest_exits
  traceReports_exits perfReports_exits : agent.

(** C38: the agent never returns without having told the machine to go down,
    and the only status it exits with by itself is the 1 of a failed
    "cd /tmp"; in particular the trace report never panics. *)
Theorem runAgent_ends tr out :
  runs runAgent tr out →
  match out with
  | Returned _ => told_down tr
  | Exited n => n = 1%Z
  | Stopped => True
  end.
Proof.
  intros Hr. destruct out as [rc|n|]; [| |done].
  - assert (returns_down runAgent) as H; [clear|by eapply H].
    unfold runAgent, bootGuest.
    repeat first [apply poweroff_down | apply returns_down_first, poweroff_down
                 | apply returns_down_last; intros ? | case_match].
  - apply (exits_runs (λ n, n = 1%Z) runAgent tr n); [clear|done].
    unfold runAgent, bootGuest, hostReport, traceSetup, qemuVersion, dmesgReports. exit_prog.
Qed.
Lemma runAgent_ends_witness :
  let d := drive (bare_host "pvmtest.vendor=amd" false) runAgent in
  d.2 = Returned 1%Z ∧ told_down d.1.
Proof.
  intros d. split; [vm_compute; reflexivity|].
  assert (d.2 = Returned 1%Z) as He by (vm_compute; reflexivity).
  pose proof (runAgent_ends d.1 d.2 (drive_runs _ _)) as H. rewrite He in H. exact H.
Defined.

(** ** What the verdicts say *)
Lemma outs_app a b : outs (a ++ b) = outs a ++ outs b.
Proof. apply omap_app. Qed.
Lemma quiet_outs {A} (p : prog A) tr out s :
  all_ops quiet p → runs p tr out → has_prefix s "PVMTEST-RESULT: " = true → s ∉ outs tr.
Proof.
  intros Hq Hr Hs (e & He & Ho)%list_elem_of_omap.
  pose proof (all_ops_runs _ _ _ _ Hq Hr) as Hall. rewrite Forall_forall in Hall.
  specialize (Hall e He). unfold quiet in Hall. destruct e as [B o a]. cbn in *.
  destruct o; try done. injection Ho as ->. cbn in Hall. congruence.
Qed.

(** The status of a program run with its stderr merged, once it is known, and
    whether something was found executable. *)
Definition merged_status (e : event) : option Z :=
  match ev_op e in op B return option B → option Z with
  | Pipe argv stderrMerged => λ a,
      match a with
      | Some (PDone _ w) => Some (exitStatus w)
      | Some (PFailed err) => Some (snd (startFailure (argv0 argv) err))
      | Some (PNoPipe _) => Some 1%Z
      | None => None
      end
  | _ => λ _, None
  end (ev_ans e).
Definition found_one (e : event) : bool :=
  match ev_op e in op B return option B → bool with
  | Executable _ => λ a, default false a
  | _ => λ _, false
  end (ev_ans e).
Definition statuses (tr : list event) : list Z := omap merged_status tr.
Definition found (tr : list event) : bool := existsb found_one tr.
Lemma statuses_app a b : statuses (a ++ b) = statuses a ++ statuses b.
Proof. apply omap_app. Qed.
Lemma found_app a b : found (a ++ b) = found a || found b.
Proof. apply existsb_app. Qed.

(** Inverts a run of a program whose structure is known. *)
Lemma runs_bind_ret {A B} (p : prog A) (f : A → prog B) tr b :
  runs (p ≫= f) tr (Returned b) →
  ∃ a tr1 tr2, tr = tr1 ++ tr2 ∧ runs p tr1 (Returned a) ∧ runs (f a) tr2 (Returned b).
Proof. by intros [?|[(n & _ & ?)|[_ ?]]]%runs_bind. Qed.
Lemma runs_call_ret {B} (o : op B) tr b : runs (call o) tr (Returned b) → tr = [Ev o (Some b)].
Proof. by intros [[_ ?]|(c & -> & [= ->])]%runs_call. Qed.

Lemma streamPrefixed_status argv prefix max tr rc :
  runs (streamPrefixed argv stderrMerged prefix max) tr (Returned rc) →
  statuses tr = [rc] ∧ found tr = false.
Proof.
  unfold streamPrefixed, pipe. intros ([r rc'] & t1 & t2 & -> & H1 & H2)%runs_bind_ret.
  apply runs_bind_ret in H1 as (a & t3 & t4 & -> & ->%runs_call_ret & H4).
  apply runs_bind_ret in H2 as ([] & t5 & t6 & -> & H5 & [-> [= ->]]).
  assert (statuses t4 = [] ∧ found t4 = false ∧ merged_status (Ev (Pipe argv stderrMerged) (Some a)) = Some rc')
    as (E4 & F4 & E1).
  { destruct a as [e|e|text w].
    - apply runs_bind_ret in H4 as ([] & t7 & t8 & -> & ->%runs_call_ret & [-> [= -> ->]]). done.
    - cbn. destruct (startFailure (argv0 argv) e) as [msg rc''] eqn:E.
      by destruct H4 as [-> [= -> ->]].
    - by destruct H4 as [-> [= -> ->]]. }
  assert (statuses t5 = [] ∧ found t5 = false) as [E5 F5].
  { destruct r; [by apply runs_call_ret in H5 as ->|]. by destruct H5 as [-> _]. }
  rewrite !statuses_app, !found_app, E4, E5, F4, F5. cbn [statuses omap list_omap].
  change (ev_type _) with piped in *. split; [|done].
  unfold statuses. cbn [omap list_omap]. by rewrite E1.
Qed.

Definition plain B (o : op B) : Prop :=
  match o with Pipe _ stderrMerged => False | Executable _ => False | _ => True end.
Lemma plain_runs {A} (p : prog A) tr out :
  all_ops plain p → runs p tr out → statuses tr = [] ∧ found tr = false.
Proof.
  intros Hq Hr. pose proof (all_ops_runs _ _ _ _ Hq Hr) as Hall. clear Hq Hr.
  induction Hall as [|e tr He Hall [IH1 IH2]]; [done|].
  change (e :: tr) with ([e] ++ tr). rewrite statuses_app, found_app, IH1, IH2.
  destruct e as [B o a]. destruct o; try done. by destruct se.
Qed.
Ltac plain_prog := try unfold_agent; walk ltac:(exact I).

Lemma quiet_prefix {A B} (p : prog A) (f : A → prog B) tr out s :
  all_ops quiet p → has_prefix s "PVMTEST-RESULT: " = true → runs (p ≫= f) tr out → s ∈ outs tr →
  ∃ a t1 t2, tr = t1 ++ t2 ∧ runs p t1 (Returned a) ∧ runs (f a) t2 out ∧ s ∈ outs t2.
Proof.
  intros Hq Hs [(a & t1 & t2 & -> & H1 & H2)|[(n & H & ->)|[H ->]]]%runs_bind Hin.
  - exists a, t1, t2. split_and!; try done. rewrite outs_app, elem_of_app in Hin.
    destruct Hin as [Hin|]; [|done]. by apply (quiet_outs p t1 (Returned a) s Hq H1 Hs) in Hin.
  - by apply (quiet_outs p tr (Exited n) s Hq H Hs) in Hin.
  - by apply (quiet_outs p tr Stopped s Hq H Hs) in Hin.
Qed.

Lemma runs_executable t tr x :
  runs (executable t) tr (Returned x) → statuses tr = [] ∧ found tr = x.
Proof. intros ->%runs_call_ret. cbn. by rewrite orb_false_r. Qed.

Lemma hostTest_runs tt_ fnd rc t tr st' :
  runs (hostTest tt_ (fnd, rc) t) tr (Returned st') →
  st'.1 = fnd || found tr ∧ (st'.2 = 0%Z ↔ rc = 0%Z ∧ Forall (λ z, z = 0%Z) (statuses tr)).
Proof.
  unfold hostTest. intros (x & t1 & t2 & -> & [S1 F1]%runs_executable & H)%runs_bind_ret.
  rewrite statuses_app, found_app, S1, F1. destruct x; cbn [negb] in H.
  - apply runs_bind_ret in H as ([] & t3 & t4 & -> & ->%runs_call_ret & H).
    apply runs_bind_ret in H as (r & t5 & t6 & -> & [S5 F5]%streamPrefixed_status & H).
    apply runs_bind_ret in H as ([] & t7 & t8 & -> & ->%runs_call_ret & [-> [= ->]]).
    rewrite !statuses_app, S5. cbn [fst snd]. rewrite orb_true_l, orb_true_r. split; [done|].
    assert (∀ s a, statuses [Ev (Out s) a] = []) as Ho by done.
    rewrite !Ho, app_nil_r, !app_nil_l.
    rewrite Forall_singleton. destruct (r =? 0)%Z eqn:E; [|]; lia.
  - destruct H as [-> [= ->]]. cbn. rewrite orb_false_r. split; [done|]. by split; [|intros []].
Qed.
Lemma hostTests_loop tt_ ts fnd rc tr st' :
  runs (each_with ts (fnd, rc) (hostTest tt_)) tr (Returned st') →
  st'.1 = fnd || found tr ∧ (st'.2 = 0%Z ↔ rc = 0%Z ∧ Forall (λ z, z = 0%Z) (statuses tr)).
Proof.
  revert fnd rc tr. induction ts as [|t ts IH]; intros fnd rc tr; cbn [each_with].
  - intros [-> [= ->]]. cbn. rewrite orb_false_r. split; [done|]. by split; [|intros []].
  - intros ([fnd1 rc1] & t1 & t2 & -> & [E1 S1]%hostTest_runs & H)%runs_bind_ret.
    apply IH in H as [E2 S2]. cbn [fst snd] in *. rewrite statuses_app, found_app, Forall_app.
    rewrite E2, E1, S2, S1, orb_assoc. split; [done|]. tauto.
Qed.
Lemma selftest_runs tt_ fnd t tr fnd' :
  runs (selftest tt_ fnd t) tr (Returned fnd') → fnd' = fnd || found tr ∧ statuses tr = [].
Proof.
  unfold selftest. intros (x & t1 & t2 & -> & [S1 F1]%runs_executable & H)%runs_bind_ret.
  rewrite statuses_app, found_app, S1, F1. destruct x; cbn [negb] in H.
  - pose proof H as H0. apply plain_runs in H0 as [-> _]; [|plain_prog].
    rewrite orb_true_r. split; [|done].
    repeat (apply runs_bind_ret in H as (? & ? & ? & _ & _ & H)). by destruct H as [_ [= ->]].
  - destruct H as [-> [= ->]]. by rewrite orb_false_r.
Qed.
Lemma selftests_loop tt_ ts fnd tr fnd' :
  runs (each_with ts fnd (selftest tt_)) tr (Returned fnd') →
  fnd' = fnd || found tr ∧ statuses tr = [].
Proof.
  revert fnd tr. induction ts as [|t ts IH]; intros fnd tr; cbn [each_with].
  - intros [-> [= ->]]. by rewrite orb_false_r.
  - intros (f1 & t1 & t2 & -> & [-> S1]%selftest_runs & [-> S2]%IH)%runs_bind_ret.
    rewrite statuses_app, found_app, S1, S2, orb_assoc. done.
Qed.

Definition all_zero (tr : list event) : Prop := Forall (λ z, z = 0%Z) (statuses tr).

Lemma echo_outs x tr out s : runs (echo x) tr out → s ∈ outs tr → s = x +:+ nl.
Proof. intros [[-> _]|(b & -> & _)]%runs_call; cbn; intros ?%list_elem_of_singleton; done. Qed.
(** The line the suite ends with. *)
Definition host_verdict (fnd : bool) (rc : Z) : string :=
  (if negb fnd then "PVMTEST-RESULT: fail stage=hosttests reason=no-tests"
   else if (rc =? 0)%Z then "PVMTEST-RESULT: ok stage=hosttests"
   else "PVMTEST-RESULT: fail stage=hosttests") +:+ nl.
Lemma host_verdict_outs {A} fnd rc (f : unit → prog A) tr out s :
  (∀ a, all_ops quiet (f a)) → has_prefix s "PVMTEST-RESULT: " = true →
  runs ((if negb fnd then
           say "no host tests in the payload" ;;
           echo "PVMTEST-RESULT: fail stage=hosttests reason=no-tests"
         else if (rc =? 0)%Z then echo "PVMTEST-RESULT: ok stage=hosttests"
         else echo "PVMTEST-RESULT: fail stage=hosttests") ≫= f) tr out →
  s ∈ outs tr → s = host_verdict fnd rc.
Proof.
  intros Hf Hs Hr Hin. unfold host_verdict. destruct fnd; cbn [negb] in *.
  - destruct (rc =? 0)%Z;
      (apply runs_bind in Hr as [([] & t1 & t2 & -> & H1 & H2)|[(n & H & ->)|[H ->]]];
       [rewrite outs_app, elem_of_app in Hin; destruct Hin as [Hin|Hin];
        [by eapply echo_outs|by apply (quiet_outs _ _ _ s (Hf tt) H2 Hs) in Hin]
       |by eapply echo_outs|by eapply echo_outs]).
  - apply runs_bind in Hr as [([] & t1 & t2 & -> & H1 & H2)|[(n & H & ->)|[H ->]]].
    + rewrite outs_app, elem_of_app in Hin. destruct Hin as [Hin|Hin];
        [|by apply (quiet_outs _ _ _ s (Hf tt) H2 Hs) in Hin].
      apply (quiet_prefix _ _ _ _ s) in H1 as (? & ? & ? & -> & _ & H1 & Hin1);
        [by eapply echo_outs|quiet_prog|done|done].
    + apply (quiet_prefix _ _ _ _ s) in H as (? & ? & ? & -> & _ & H1 & Hin1);
        [by eapply echo_outs|quiet_prog|done|done].
    + apply (quiet_prefix _ _ _ _ s) in H as (? & ? & ? & -> & _ & H1 & Hin1);
        [by eapply echo_outs|quiet_prog|done|done].
Qed.

(** C14: in any run of the host-test suite the verdict written is the right
    one: ok when a staged program was executable and every host test exited 0,
    fail when one did not, and no-tests when nothing was executable.  The KVM
    selftests' statuses count for nothing. *)
Theorem hostTests_verdict p tr out s :
  runs (hostTests p) tr out → s ∈ outs tr →
  (s = "PVMTEST-RESULT: ok stage=hosttests" +:+ nl → found tr = true ∧ all_zero tr) ∧
  (s = "PVMTEST-RESULT: fail stage=hosttests" +:+ nl → found tr = true ∧ ¬ all_zero tr) ∧
  (s = "PVMTEST-RESULT: fail stage=hosttests reason=no-tests" +:+ nl → found tr = false).
Proof.
  intros Hr Hin. destruct (has_prefix s "PVMTEST-RESULT: ") eqn:Hs; last first.
  { split_and!; intros ->; done. }
  unfold hostTests in Hr.
  apply (quiet_prefix _ _ _ _ s) in Hr as (ts & t1 & t2 & -> & H1 & Hr & Hin2); [|quiet_prog|done|done].
  clear Hin. apply plain_runs in H1 as [S1 F1]; [|plain_prog].
  apply (quiet_prefix _ _ _ _ s) in Hr as ([fnd rc] & t3 & t4 & -> & H3 & Hr & Hin3); [|quiet_prog|done|done].
  apply hostTests_loop in H3 as [F3 S3]. cbn [fst snd] in F3, S3.
  apply (quiet_prefix _ _ _ _ s) in Hr as (ss & t5 & t6 & -> & H5 & Hr & Hin4); [|quiet_prog|done|done].
  apply plain_runs in H5 as [S5 F5]; [|plain_prog].
  apply (quiet_prefix _ _ _ _ s) in Hr as (fnd' & t7 & t8 & -> & H7 & Hr & Hin5); [|quiet_prog|done|done].
  apply selftests_loop in H7 as [F7 S7].
  pose proof Hr as H8. apply plain_runs in H8 as [S8 F8]; [|plain_prog].
  unfold all_zero. rewrite !statuses_app, !found_app, S1, S5, S7, S8, F1, F5, F8, !app_nil_r, !app_nil_l.

  assert (s = host_verdict fnd' rc) as Hv.
  { eapply host_verdict_outs; [|exact Hs|exact Hr|exact Hin5]. intros ?. quiet_prog. }
  unfold host_verdict in Hv. rewrite !orb_false_r, !orb_false_l in *. rewrite F7, F3 in Hv.
  destruct (found t3 || found t7); cbn [negb] in Hv.
  - destruct (rc =? 0)%Z eqn:Erc; subst s; split_and!; intros E; try discriminate E;
      split; try done; unfold all_zero in *; rewrite ?Z.eqb_eq, ?Z.eqb_neq in Erc; tauto.
  - subst s. split_and!; intros E; done.
Qed.

(** A host with one executable host test that exits with [rc]. *)
Definition test_host (rc : Z) (B : Type) (o : op B) : option B :=
  match o in op B return option B → option B with
  | ReadDir d => λ def, if seqb d (payload +:+ "/hosttests") then Some (inr ["abi"]) else def
  | Executable _ => λ _, Some true
  | Pipe argv se => λ def,
      if bool_decide (argv = TestArgv "300" (payload +:+ "/hosttests/abi"))
      then Some (PDone ("ok 1" +:+ nl) (WExit rc)) else def
  | _ => λ def, def
  end (bare_host "" true B o).
Lemma hostTests_verdict_witness :
  let tr := (drive (test_host 1) (hostTests (ParseCmdline ""))).1 in
  found tr = true ∧ ¬ all_zero tr.
Proof.
  intros tr.
  apply (proj1 (proj2 (hostTests_verdict (ParseCmdline "") tr
    (drive (test_host 1) (hostTests (ParseCmdline ""))).2
    ("PVMTEST-RESULT: fail stage=hosttests" +:+ nl)
    (drive_runs _ _) ltac:(apply (bool_decide_unpack _); vm_compute; exact I)))).
  reflexivity.
Defined.

(** ** The kvm-unit-tests suite reports every test *)
Definition is_kut (s : string) : bool := has_prefix s "KUT: ".
Definition kut_lines (tr : list event) : list string := filter (λ s, is_kut s = true) (outs tr).
Definition no_kut B (o : op B) : Prop := match o with Out s => is_kut s = false | _ => True end.
Lemma kut_lines_app a b : kut_lines (a ++ b) = kut_lines a ++ kut_lines b.
Proof. unfold kut_lines. by rewrite outs_app, filter_app. Qed.
Lemma no_kut_lines {A} (p : prog A) tr out : all_ops no_kut p → runs p tr out → kut_lines tr = [].
Proof.
  intros Hq Hr. pose proof (all_ops_runs _ _ _ _ Hq Hr) as Hall. clear Hq Hr.
  induction Hall as [|e tr He Hall IH]; [done|].
  change (e :: tr) with ([e] ++ tr). rewrite kut_lines_app, IH.
  destruct e as [B o a]. destruct o; try done. unfold kut_lines, outs.
  cbn [omap list_omap ev_op no_kut] in *. rewrite filter_cons, decide_False; [done|]. by rewrite He.
Qed.
(** Text that does not start as "KUT: " does. *)
Lemma no_kut_stream prefix r max :
  (∀ s, is_kut (prefix +:+ s) = false) → no_kut _ (Out (prefixStream prefix r max)).
Proof. intros H. cbn. destruct (prefixStream_head prefix r max) as [->|[s ->]]; [done|]. apply H. Qed.
Ltac kut_prog :=
  try unfold_agent; walk ltac:(first [reflexivity|exact I|apply no_kut_stream; intros ?; reflexivity]).
Lemma kutCheck_no_kut c : all_ops no_kut (kutCheck c).
Proof. unfold kutCheck. induction (fields c) as [|x l IH]; cbn [kutCheck_go]; kut_prog. Qed.
#[local] Hint Resolve kutCheck_no_kut : agent.

Lemma kutTest_line d t tr :
  runs (kutTest d t) tr (Returned tt) →
  ∃ rest, kut_lines tr = ["KUT: " +:+ Name t +:+ " " +:+ rest].
Proof.
  unfold kutTest. intros (c & t1 & t2 & -> & H1 & H2)%runs_bind_ret.
  apply no_kut_lines in H1; [|apply kutCheck_no_kut]. rewrite kut_lines_app, H1.
  destruct (negb (seqb c "")).
  - apply runs_call_ret in H2 as ->. exists ("skip rc=0 check=" +:+ c +:+ nl).
    unfold kut_lines. cbn. rewrite !app_assoc_s. done.
  - apply runs_bind_ret in H2 as (f & t3 & t4 & -> & H3 & H2). apply no_kut_lines in H3; [|kut_prog].
    apply runs_bind_ret in H2 as (r & t5 & t6 & -> & H5 & H2). apply no_kut_lines in H5; [|kut_prog].
    apply runs_bind_ret in H2 as (log & t7 & t8 & -> & H7 & H2). apply no_kut_lines in H7; [|kut_prog].
    apply runs_bind_ret in H2 as ([] & t9 & t10 & -> & ->%runs_call_ret & H2).
    apply no_kut_lines in H2; [|kut_prog].
    exists (KUTVerdict r +:+ " rc=" +:+ itoa r +:+ kutSummaryOf log +:+ nl).
    rewrite !kut_lines_app, H3, H5, H7, H2. unfold kut_lines. cbn. rewrite !app_assoc_s. done.
Qed.

(** Every test in order, one line each. *)
Lemma kutTests_loop d ts tr :
  runs (each ts (kutTest d)) tr (Returned tt) →
  Forall2 (λ t line, ∃ rest, line = "KUT: " +:+ Name t +:+ " " +:+ rest) ts (kut_lines tr).
Proof.
  revert tr. induction ts as [|t ts IH]; intros tr; cbn [each].
  - intros [-> _]. constructor.
  - intros ([] & t1 & t2 & -> & [rest H1]%kutTest_line & H2%IH)%runs_bind_ret.
    rewrite kut_lines_app, H1. constructor; eauto.
Qed.

(** The manifest the agent read. *)
Definition manifest_text (e : event) : option string :=
  match ev_op e in op B return option B → option string with
  | ReadFile f => λ a, if seqb f (payload +:+ "/kut/tests.txt") then fst <$> a else None
  | _ => λ _, None
  end (ev_ans e).

(** When the kvm-unit-tests suite gives its verdict, it has written exactly
    one "KUT: " line for each test of the manifest it read, in the manifest's
    order and with the test's name. *)
Theorem kutTests_reports tr out :
  runs kutTests tr out → ("PVMTEST-RESULT: ok stage=kut" +:+ nl) ∈ outs tr →
  ∃ b, b ∈ omap manifest_text tr ∧ ParseKUTManifest b ≠ [] ∧
    Forall2 (λ t line, ∃ rest, line = "KUT: " +:+ Name t +:+ " " +:+ rest)
      (ParseKUTManifest b) (kut_lines tr).
Proof.
  intros Hr Hin. unfold kutTests in Hr.
  remember ("PVMTEST-RESULT: ok stage=kut" +:+ nl) as s eqn:Es.
  revert Hr Hin. intros Hr Hin.
  assert (has_prefix s "PVMTEST-RESULT: " = true) as Hs by (by rewrite Es).
  apply (quiet_prefix _ _ _ _ s) in Hr as ([b err] & t1 & t2 & -> & H1 & Hr & Hin2);
    [|quiet_prog|exact Hs|exact Hin]. clear Hin. apply runs_call_ret in H1. subst t1.
  exists b. split; [by left|]. destruct (_ || _) eqn:Eb.
  - apply (quiet_prefix _ _ _ _ s) in Hr as ([] & t3 & t4 & -> & _ & Hr & Hin3); [|quiet_prog|done|done].
    exfalso. apply runs_bind in Hr as [([] & t5 & t6 & -> & H5 & H6)|[(n & H & ->)|[H ->]]].
    + rewrite outs_app, elem_of_app in Hin3. destruct Hin3 as [Hi|Hi].
      * pose proof (echo_outs _ _ _ _ H5 Hi). by subst s.
      * refine (quiet_outs _ _ _ s _ H6 Hs Hi). quiet_prog.
    + pose proof (echo_outs _ _ _ _ H Hin3). by subst s.
    + pose proof (echo_outs _ _ _ _ H Hin3). by subst s.
  - split; [intros E; rewrite E in Eb; by destruct err|].
    apply (quiet_prefix _ _ _ _ s) in Hr as ([] & t3 & t4 & -> & H3 & Hr & Hin3); [|quiet_prog|done|done].
    apply no_kut_lines in H3; [|kut_prog].
    apply (quiet_prefix _ _ _ _ s) in Hr as ([] & t5 & t6 & -> & H5 & Hr & Hin5); [|quiet_prog|done|done].
    apply no_kut_lines in Hr; [|kut_prog].
    rewrite !kut_lines_app, H3, Hr, app_nil_r, app_nil_l. by apply kutTests_loop in H5.
Qed.
Definition kut_host (B : Type) (o : op B) : option B :=
  match o in op B return option B → option B with
  | ReadFile f => λ def,
      if seqb f (payload +:+ "/kut/tests.txt")
      then Some ("cpuid" +:+ tab +:+ "cpuid.flat" +:+ tab +:+ "1" +:+ tab +:+ "90" +:+ tab +:+ tab +:+ "-m 64" +:+ nl, None)
      else def
  | _ => λ def, def
  end (bare_host "" true B o).
Lemma kutTests_reports_witness :
  let tr := (drive kut_host kutTests).1 in
  kut_lines tr = ["KUT: cpuid error rc=0" +:+ nl] ∧
  ∃ b, b ∈ omap manifest_text tr ∧ length (ParseKUTManifest b) = 1.
Proof.
  intros tr. split; [vm_compute; reflexivity|].
  destruct (kutTests_reports tr (drive kut_host kutTests).2 (drive_runs _ _)
    ltac:(apply (bool_decide_unpack _); vm_compute; exact I)) as (b & Hb & _ & H).
  exists b. split; [exact Hb|]. apply Forall2_length in H. rewrite H. vm_compute. reflexivity.
Defined.
