(* ===== verification/Spec.v ===== *)
(** * tools/pvmtest/spec.go: batteries

    A battery is parsed line by line into items and kernels; an error is the
    text of Go's error.  The environment is the function [getenv].  Maps of keys
    are [gmap]s, so nothing depends on the order Go ranges over them. *)
From Stdlib Require Import Ascii.
From S2P Require Import Prelude GoStrings Regexp.

Abbreviation keys := (gmap string string).
Record Item := { Kind : string; i_Name : string; Line : nat; Keys : keys }.
Record Kernel := { k_Name : string; Git : string; Rev : string; Host : string; k_Line : nat }.
Record Battery := {
  Path : string; Text : string; Items : list Item; Kernels : list Kernel
}.

Definition knownKeys : list string :=
  ["suite"; "cases"; "vendor"; "cpus"; "reps";
   "host"; "l1"; "pti"; "guest"; "mod";
   "l1append"; "stats"; "profile"; "allow-fail";
   "expect"; "timeout"; "baseline"; "threshold"; "reason"; "kernel"].
Definition known (k : string) : bool := bool_decide (k ∈ knownKeys).

(** ** Lines *)
Definition envRe : re := must_compile "\$\{([A-Za-z_][A-Za-z0-9_]*)(:-([^}]*))?\}".
Lemma envRe_ok : is_Some (compile "\$\{([A-Za-z_][A-Za-z0-9_]*)(:-([^}]*))?\}").
Proof. vm_compute. eauto. Qed.

(** The callback matches its own argument again to get at the groups. *)
Definition expandEnv (getenv : string → string) (line : string) : string :=
  replace_func envRe (λ x,
    match find envRe (group 0 x) with
    | Some g => let v := getenv (group 1 g) in if negb (seqb v "") then v else group 3 g
    | None => ""
    end) line.

(** The loop of [fields]: in a quote, whether there is a word, the word. *)
Fixpoint fields_loop (inQuote have : bool) (cur line : string) : string + list string :=
  match line with
  | "" =>
      if inQuote then inl "unterminated quote"
      else inr (if have then [cur] else [])
  | String r line =>
      if ceq r ch_dq then fields_loop (negb inQuote) true cur line
      else if ceq r "#" && negb inQuote then inr (if have then [cur] else [])
      else if (ceq r " " || ceq r ch_tab) && negb inQuote then
        if have then
          match fields_loop inQuote false "" line with
          | inl e => inl e
          | inr l => inr (cur :: l)
          end
        else fields_loop inQuote have cur line
      else fields_loop inQuote true (cur +:+ str1 r) line
  end.
Definition fields (line : string) : string + list string := fields_loop false false "" line.

Definition is_variant (k : string) : bool := has_prefix k "a." || has_prefix k "b.".
Definition base_key (allowVariants : bool) (k : string) : string :=
  if allowVariants && is_variant k then sdrop 2 k else k.

Fixpoint parseKeys_go (fs : list string) (allowVariants : bool) (kv : keys) : string + keys :=
  match fs with
  | [] => inr kv
  | f :: fs =>
      match cut f "=" with
      | None => inl (quote f +:+ " is not key=value")
      | Some (k, v) =>
          if negb (known (base_key allowVariants k)) then inl ("unknown key " +:+ quote k)
          else parseKeys_go fs allowVariants (<[k := v]> kv)
      end
  end.
Definition parseKeys (fs : list string) (allowVariants : bool) : string + keys :=
  parseKeys_go fs allowVariants ∅.

Definition hasPrefix (m : keys) (p : string) : bool :=
  existsb (λ kv, has_prefix kv.1 p) (map_to_list m).

(** The keys of a kernel line. *)
Fixpoint kernelKeys (fs : list string) (k : Kernel) : string + Kernel :=
  match fs with
  | [] => inr k
  | kv :: fs =>
      match cut kv "=" with
      | None => inl (quote kv +:+ " is not key=value")
      | Some (key, val) =>
          if seqb key "git" then kernelKeys fs (Build_Kernel (k_Name k) val (Rev k) (Host k) (k_Line k))
          else if seqb key "rev" then kernelKeys fs (Build_Kernel (k_Name k) (Git k) val (Host k) (k_Line k))
          else if seqb key "host" then kernelKeys fs (Build_Kernel (k_Name k) (Git k) (Rev k) val (k_Line k))
          else inl ("kernel: unknown key " +:+ quote key)
      end
  end.

(** ** The parser *)
Record pstate := { defaults : keys; p_items : list Item; p_kernels : list Kernel }.

(** An error with its position, "%s:%d: %s". *)
Definition at_line (path : string) (n : nat) (msg : string) : string :=
  path +:+ ":" +:+ itoa (Z.of_nat n) +:+ ": " +:+ msg.

Definition parseLine (getenv : string → string) (path : string) (n : nat) (line : string)
    (st : pstate) : string + pstate :=
  match fields (expandEnv getenv line) with
  | inl e => inl (at_line path n e)
  | inr [] => inr st
  | inr (kind :: args) =>
      if seqb kind "set" then
        match parseKeys args true with
        | inl e => inl (at_line path n e)
        | inr kv => inr {| defaults := kv ∪ defaults st; p_items := p_items st; p_kernels := p_kernels st |}
        end
      else if seqb kind "kernel" then
        match args with
        | [] => inl (at_line path n "kernel needs a name")
        | name :: kvs =>
            match kernelKeys kvs (Build_Kernel name "" "" "timing" n) with
            | inl e => inl (at_line path n e)
            | inr k =>
                if seqb (Git k) "" || seqb (Rev k) "" then
                  inl (at_line path n "kernel needs git= and rev= (is the variable they name set?)")
                else inr {| defaults := defaults st; p_items := p_items st;
                            p_kernels := p_kernels st ++ [k] |}
            end
        end
      else if seqb kind "run" || seqb kind "matrix" || seqb kind "ab" then
        match args with
        | [] => inl (at_line path n (kind +:+ " needs a name"))
        | name :: kvs =>
            match parseKeys kvs (seqb kind "ab") with
            | inl e => inl (at_line path n e)
            | inr kv =>
                let ks := kv ∪ defaults st in
                if seqb kind "ab" && (negb (hasPrefix ks "a.") || negb (hasPrefix ks "b.")) then
                  inl (at_line path n "ab needs a.<key> and b.<key>")
                else inr {| defaults := defaults st;
                            p_items := p_items st ++ [Build_Item kind name n ks];
                            p_kernels := p_kernels st |}
            end
        end
      else inl (at_line path n ("unknown directive " +:+ quote kind))
  end.
Fixpoint parseLines (getenv : string → string) (path : string) (n : nat) (lines : list string)
    (st : pstate) : string + pstate :=
  match lines with
  | [] => inr st
  | l :: ls =>
      match parseLine getenv path n l st with
      | inl e => inl e
      | inr st => parseLines getenv path (S n) ls st
      end
  end.

(** [raw] is what [os.ReadFile] returns: its error or the text. *)
Definition ParseBattery (getenv : string → string) (path : string) (raw : string + string)
    : string + Battery :=
  match raw with
  | inl e => inl e
  | inr raw =>
      let '(lines, ok) := scan_lines max_token raw in
      match parseLines getenv path 1 lines {| defaults := ∅; p_items := []; p_kernels := [] |} with
      | inl e => inl e
      | inr st =>
          if (ok : bool) then
            inr {| Path := path; Text := raw; Items := p_items st; Kernels := p_kernels st |}
          else inl "bufio.Scanner: token too long"
      end
  end.

(** ** Items *)
Definition Get (it : Item) (k def : string) : string :=
  match Keys it !! k with
  | Some v => if negb (seqb v "") then v else def
  | None => def
  end.
(** [List]: [None] is nil. *)
Definition List_ (it : Item) (k : string) : option (list string) :=
  let v := Get it k "" in
  if seqb v "" then None else Some (split "," v).
Fixpoint atois (k : string) (l : list string) : string + list Z :=
  match l with
  | [] => inr []
  | s :: l =>
      match atoi s with
      | None => inl (k +:+ ": " +:+ quote s +:+ " is not a number")
      | Some n => match atois k l with inl e => inl e | inr r => inr (n :: r) end
      end
  end.
Definition Ints (it : Item) (k : string) (def : list Z) : string + list Z :=
  match List_ it k with
  | None => inr def
  | Some l => atois k l
  end.

Definition Variant (it : Item) (side : string) : Item :=
  let kept := filter (λ kv : string * string, is_variant kv.1 = false) (Keys it) in
  {| Kind := "run"; i_Name := i_Name it +:+ "-" +:+ side; Line := Line it;
     Keys := foldl (λ m kv, if has_prefix kv.1 (side +:+ ".") then <[sdrop 2 kv.1 := kv.2]> m else m)
               kept (map_to_list (Keys it)) |}.

Definition String_ (it : Item) : string :=
  foldl (λ s k, s +:+ " " +:+ k +:+ "=" +:+ default "" (Keys it !! k))
    (Kind it +:+ " " +:+ i_Name it) (sort_strings ((map_to_list (Keys it)).*1)).

(** ** fields reads back what is written *)

(** A word is written as segments, bare or in double quotes. *)
Inductive segment := Bare (w : string) | Quoted (w : string).
Definition bare_byte (c : ascii) : bool :=
  negb (ceq c ch_dq) && negb (ceq c "#") && negb (ceq c " " || ceq c ch_tab).
Definition segment_ok (s : segment) : Prop :=
  match s with
  | Bare w => w ≠ "" ∧ all_bytes bare_byte w = true
  | Quoted w => no_byte ch_dq w = true
  end.
Definition render (s : segment) : string :=
  match s with Bare w => w | Quoted w => dq +:+ w +:+ dq end.
Definition seg_text (s : segment) : string := match s with Bare w | Quoted w => w end.
Definition concat_s (l : list string) : string := foldr (λ a b, a +:+ b) "" l.
Definition word_written (ss : list segment) : string := concat_s (render <$> ss).
Definition word_read (ss : list segment) : string := concat_s (seg_text <$> ss).

Lemma fields_bare have cur w rest :
  all_bytes bare_byte w = true →
  fields_loop false have cur (w +:+ rest) =
  fields_loop false (have || negb (seqb w "")) (cur +:+ w) rest.
Proof.
  revert have cur. induction w as [|c w IH]; intros have cur H.
  - by rewrite app_nil_l_s, app_nil_r_s, orb_false_r.
  - rewrite all_bytes_cons in H. apply andb_prop in H as [Hc H]. unfold bare_byte in Hc.
    rewrite app_cons_s. cbn [fields_loop].
    destruct (ceq c ch_dq); [done|]. destruct (ceq c "#"); [done|].
    destruct (ceq c " " || ceq c ch_tab); [done|]. cbn [negb andb].
    rewrite IH by done. rewrite app_assoc_s, (proj2 (seqb_false (String c w) "")) by done.
    by rewrite orb_true_r.
Qed.
Lemma fields_quoted have cur w rest :
  no_byte ch_dq w = true →
  fields_loop true have cur (w +:+ dq +:+ rest) = fields_loop false true (cur +:+ w) rest.
Proof.
  unfold no_byte. revert have cur. induction w as [|c w IH]; intros have cur H.
  - rewrite app_nil_l_s, app_nil_r_s. unfold dq, str1. rewrite app_cons_s, app_nil_l_s. done.
  - rewrite all_bytes_cons in H. apply andb_prop in H as [Hc H].
    rewrite app_cons_s. cbn [fields_loop].
    destruct (ceq c ch_dq); [done|]. cbn [negb]. rewrite !andb_false_r, IH by done.
    by rewrite app_assoc_s.
Qed.
Lemma fields_segment have cur s rest :
  segment_ok s →
  fields_loop false have cur (render s +:+ rest) =
  fields_loop false true (cur +:+ seg_text s) rest.
Proof.
  destruct s as [w|w]; cbn [segment_ok render seg_text].
  - intros [Hne Hw]. rewrite fields_bare by done. rewrite (proj2 (seqb_false _ _)) by done.
    by rewrite orb_true_r.
  - intros Hw. rewrite !app_assoc_s. unfold dq at 1, str1. rewrite app_cons_s, app_nil_l_s.
    cbn [fields_loop]. by rewrite fields_quoted.
Qed.
Lemma fields_word ss cur rest :
  Forall segment_ok ss →
  fields_loop false true cur (word_written ss +:+ rest) =
  fields_loop false true (cur +:+ word_read ss) rest.
Proof.
  intros H. revert cur. induction H as [|s ss Hs H IH]; intros cur.
  - by rewrite app_nil_l_s, app_nil_r_s.
  - unfold word_written, word_read in *. cbn [fmap list_fmap concat_s foldr].
    fold (concat_s (render <$> ss)). fold (concat_s (seg_text <$> ss)).
    rewrite app_assoc_s, fields_segment, IH by done. by rewrite app_assoc_s.
Qed.
Lemma fields_first_word s ss cur rest :
  segment_ok s → Forall segment_ok ss →
  fields_loop false false cur (word_written (s :: ss) +:+ rest) =
  fields_loop false true (cur +:+ word_read (s :: ss)) rest.
Proof.
  intros Hs H. unfold word_written, word_read. cbn [fmap list_fmap concat_s foldr].
  fold (word_written ss). fold (word_read ss).
  rewrite app_assoc_s, fields_segment by done. fold (concat_s (render <$> ss)).
  fold (word_written ss). rewrite fields_word by done. by rewrite app_assoc_s.
Qed.

(** Words written bare, quoted, or partly quoted (reason="without KPTI"),
    joined by blanks, are read back by [fields] as those words; an unquoted #
    after a blank ends the line. *)
Theorem fields_written (ws : list (list segment)) (comment : string) :
  Forall (λ ss, ss ≠ [] ∧ Forall segment_ok ss) ws →
  fields (join " " (word_written <$> ws)) = inr (word_read <$> ws) ∧
  fields (join " " (word_written <$> ws) +:+ " #" +:+ comment) = inr (word_read <$> ws).
Proof.
  intros H. unfold fields.
  assert (∀ rest, (∀ w, fields_loop false true w rest = inr [w]) → fields_loop false false "" rest = inr [] →
    fields_loop false false "" (join " " (word_written <$> ws) +:+ rest) = inr (word_read <$> ws)) as Hr.
  { intros rest Hw H0. induction H as [|ss ws [Hne Hss] H IH]; [by rewrite app_nil_l_s|].
    destruct ss as [|s ss]; [done|]. apply Forall_cons in Hss as [Hs Hss].
    destruct ws as [|ss' ws].
    - cbn [fmap list_fmap join]. rewrite fields_first_word by done. by rewrite app_nil_l_s, Hw.
    - cbn [fmap list_fmap] in *. rewrite join_cons, !app_assoc_s, fields_first_word by done.
      rewrite app_nil_l_s. rewrite app_cons_s, app_nil_l_s. cbn [fields_loop].
      change (ceq " " ch_dq) with false. change (ceq " " "#") with false.
      change (ceq " " " ") with true. cbn [orb negb andb]. by rewrite IH. }
  split; [rewrite <-(app_nil_r_s (join _ _))|]; by apply Hr.
Qed.
Lemma fields_written_witness :
  fields ("run refuse-kpti reason=" +:+ dq +:+ "without KPTI" +:+ dq +:+ " # why") =
  inr ["run"; "refuse-kpti"; "reason=without KPTI"].
Proof.
  refine (proj2 (fields_written
    [[Bare "run"]; [Bare "refuse-kpti"]; [Bare "reason="; Quoted "without KPTI"]] " why" _)).
  repeat constructor; discriminate.
Defined.

(** ** The two sides of an ab item *)
Lemma has_prefix_side side k :
  slen side = 1 → has_prefix k (side +:+ ".") = true → k = side +:+ "." +:+ sdrop 2 k.
Proof.
  intros Hs [r ->]%has_prefix_spec.
  replace 2 with (slen (side +:+ ".")) by (rewrite slen_app, Hs; done).
  by rewrite sdrop_app, app_assoc_s.
Qed.

Lemma variant_fold side (l : list (string * string)) (m : keys) k :
  slen side = 1 → NoDup l.*1 →
  foldl (λ m kv, if has_prefix kv.1 (side +:+ ".") then <[sdrop 2 kv.1 := kv.2]> m else m) m l !! k =
  match (list_to_map l : gmap string string) !! (side +:+ "." +:+ k) with Some v => Some v | None => m !! k end.
Proof.
  intros Hside. revert m. induction l as [|[k' v'] l IH]; intros m Hnd; [done|].
  rewrite list_to_map_cons. cbn [foldl fmap list_fmap fst snd] in *.
  apply NoDup_cons in Hnd as [Hk Hnd]. rewrite IH by done.
  destruct (decide (k' = side +:+ "." +:+ k)) as [->|Hne].
  - rewrite lookup_insert_eq.
    assert ((list_to_map l : gmap string string) !! (side +:+ "." +:+ k) = None) as -> by by apply not_elem_of_list_to_map_1.
    rewrite <-app_assoc_s, has_prefix_app.
    assert (sdrop 2 ((side +:+ ".") +:+ k) = k) as ->; [|by rewrite lookup_insert_eq].
    replace 2 with (slen (side +:+ ".")) by (rewrite slen_app, Hside; done). apply sdrop_app.
  - rewrite lookup_insert_ne by done. destruct (list_to_map l !! _) eqn:E; [done|].
    destruct (has_prefix k' (side +:+ ".")) eqn:Ep; [|done].
    rewrite lookup_insert_ne; [done|]. intros E2. apply Hne.
    apply has_prefix_side in Ep; [|done]. by rewrite Ep, E2.
Qed.

(** [Variant side] of an ab item sees, under each key, that side's own value
    when it sets one and the shared value otherwise; no a. or b. key of the item
    is left over (unless written twice prefixed), and its name and line are the
    item's. *)
Theorem Variant_lookup it side k :
  side = "a" ∨ side = "b" →
  Keys (Variant it side) !! k =
    match Keys it !! (side +:+ "." +:+ k) with
    | Some v => Some v
    | None => if is_variant k then None else Keys it !! k
    end ∧
  Kind (Variant it side) = "run" ∧ i_Name (Variant it side) = i_Name it +:+ "-" +:+ side ∧
  Line (Variant it side) = Line it.
Proof.
  intros Hs. split; [|done]. unfold Variant. cbn [Keys].
  rewrite variant_fold; [|by destruct Hs as [-> | ->]|apply NoDup_fst_map_to_list].
  rewrite list_to_map_to_list. destruct (Keys it !! _); [done|].
  destruct (is_variant k) eqn:E.
  - apply map_lookup_filter_None. right. intros v _. cbn. by rewrite E.
  - destruct (Keys it !! k) as [v|] eqn:Ek.
    + by apply map_lookup_filter_Some.
    + apply map_lookup_filter_None. by left.
Qed.
Lemma Variant_lookup_witness :
  let it := Build_Item "ab" "perf" 3 (<["a.vendor" := "intel"]> (<["vendor" := "pvm"]> ∅)) in
  Keys (Variant it "a") !! "vendor" = Some "intel" ∧ Keys (Variant it "b") !! "vendor" = Some "pvm".
Proof.
  intros it. split.
  - rewrite (proj1 (Variant_lookup it "a" "vendor" (or_introl eq_refl))). reflexivity.
  - rewrite (proj1 (Variant_lookup it "b" "vendor" (or_intror eq_refl))). reflexivity.
Defined.

(** ** What an accepted battery is *)
Definition keys_known (m : keys) : Prop := ∀ k, is_Some (m !! k) → known (base_key true k) = true.
Definition item_ok (n : nat) (it : Item) : Prop :=
  Kind it ∈ ["run"; "matrix"; "ab"] ∧ 1 ≤ Line it < n ∧ keys_known (Keys it) ∧
  (Kind it = "ab" → hasPrefix (Keys it) "a." = true ∧ hasPrefix (Keys it) "b." = true).
Definition kernel_ok (n : nat) (k : Kernel) : Prop := Git k ≠ "" ∧ Rev k ≠ "" ∧ 1 ≤ k_Line k < n.
Definition state_ok (n : nat) (st : pstate) : Prop :=
  keys_known (defaults st) ∧ Forall (item_ok n) (p_items st) ∧ Forall (kernel_ok n) (p_kernels st) ∧
  StronglySorted lt (Line <$> p_items st).

Lemma keys_known_union m1 m2 : keys_known m1 → keys_known m2 → keys_known (m1 ∪ m2).
Proof. intros H1 H2 k [v [?|[_ ?]]%lookup_union_Some_raw]; [apply H1|apply H2]; eauto. Qed.
Lemma known_variant k av : known (base_key av k) = true → known (base_key true k) = true.
Proof.
  unfold base_key. destruct av; [done|]. cbn [andb]. destruct (is_variant k) eqn:E; [|done].
  intros H. exfalso. unfold known in H. apply bool_decide_eq_true in H.
  assert (Forall (λ k, is_variant k = false) knownKeys) as Hf by (repeat constructor).
  rewrite Forall_forall in Hf. specialize (Hf k H). congruence.
Qed.
Lemma parseKeys_known fs av kv m : keys_known kv → parseKeys_go fs av kv = inr m → keys_known m.
Proof.
  revert kv. induction fs as [|f fs IH]; intros kv Hkv; cbn [parseKeys_go]; [by intros [= <-]|].
  destruct (cut f "=") as [[k v]|]; [|done].
  destruct (known (base_key av k)) eqn:E; [|done]. cbn [negb]. apply IH.
  intros k' [v' Hv]. destruct (decide (k' = k)) as [->|Hne]; [by eapply known_variant|].
  rewrite lookup_insert_ne in Hv by done. apply Hkv. eauto.
Qed.
Lemma kernelKeys_line fs k k' : kernelKeys fs k = inr k' → k_Line k' = k_Line k.
Proof.
  revert k. induction fs as [|f fs IH]; intros k; cbn [kernelKeys]; [by intros [= ->]|].
  destruct (cut f "=") as [[key v]|]; [|done]. repeat case_match; try done; intros ->%IH; done.
Qed.
Lemma item_ok_mono n it : item_ok n it → item_ok (S n) it.
Proof. unfold item_ok. intuition lia. Qed.
Lemma kernel_ok_mono n k : kernel_ok n k → kernel_ok (S n) k.
Proof. unfold kernel_ok. intuition lia. Qed.
Lemma state_ok_mono n st : state_ok n st → state_ok (S n) st.
Proof.
  intros (? & ? & ? & ?). split_and!; try done; eapply Forall_impl; eauto using item_ok_mono, kernel_ok_mono.
Qed.
Lemma StronglySorted_snoc (l : list nat) x :
  StronglySorted lt l → Forall (λ y, y < x) l → StronglySorted lt (l ++ [x]).
Proof.
  induction 1 as [|y l Hs IH Hy]; intros Hx; [repeat constructor|].
  apply Forall_cons in Hx as [? ?]. cbn. constructor; [by apply IH|].
  apply Forall_app. split; [done|]. by constructor.
Qed.

Lemma parseLine_ok getenv path n line st st' :
  1 ≤ n → state_ok n st → parseLine getenv path n line st = inr st' → state_ok (S n) st'.
Proof.
  intros Hn (Hd & Hi & Hk & Hs). pose proof (state_ok_mono n st) as Hm. unfold parseLine.
  destruct (fields _) as [e|[|kind args]]; [done|intros [= <-]; by apply Hm|].
  destruct (seqb kind "set").
  { destruct (parseKeys args true) as [e|kv] eqn:E; [done|]. intros [= <-].
    apply parseKeys_known in E; [|by intros k []%lookup_empty_is_Some].
    destruct Hm as (_ & ? & ? & ?); [done|]. split_and!; try done. by apply keys_known_union. }
  destruct (seqb kind "kernel").
  { destruct args as [|name kvs]; [done|]. destruct (kernelKeys _ _) as [e|k] eqn:E; [done|].
    apply kernelKeys_line in E. cbn in E. destruct (seqb (Git k) "" || seqb (Rev k) "") eqn:Eg; [done|].
    intros [= <-]. destruct Hm as (_ & ? & ? & ?); [done|]. split_and!; try done.
    cbn. apply Forall_app. split; [done|]. constructor; [|done].
    apply orb_false_iff in Eg as [?%seqb_false ?%seqb_false]. unfold kernel_ok. split_and!; try done; lia. }
  destruct (_ || _ || _) eqn:Ekind; [|done].
  destruct args as [|name kvs]; [done|]. destruct (parseKeys kvs _) as [e|kv] eqn:E; [done|].
  destruct (_ && _) eqn:Eab; [done|]. intros [= <-].
  apply parseKeys_known in E; [|by intros k []%lookup_empty_is_Some].
  destruct Hm as (_ & ? & ? & ?); [done|]. split_and!; try done; cbn.
  - apply Forall_app. split; [done|]. constructor; [|done]. unfold item_ok. cbn. split_and!; try lia.
    + rewrite !orb_true_iff, !seqb_true in Ekind. set_solver.
    + by apply keys_known_union.
    + intros ->. rewrite seqb_refl in Eab. cbn [andb] in Eab.
      by apply orb_false_iff in Eab as [?%negb_false_iff ?%negb_false_iff].
  - rewrite fmap_app. apply StronglySorted_snoc; [done|]. cbn.
    apply Forall_fmap. eapply Forall_impl; [exact Hi|]. by intros it (_ & [_ ?] & _).
Qed.
Lemma parseLines_ok getenv path lines n st st' :
  1 ≤ n → state_ok n st → parseLines getenv path n lines st = inr st' → state_ok (n + length lines) st'.
Proof.
  revert n st. induction lines as [|l ls IH]; intros n st Hn Hst; cbn [parseLines].
  - intros [= <-]. by rewrite Nat.add_0_r.
  - destruct (parseLine _ _ _ _ _) as [e|st1] eqn:E; [done|]. intros H.
    apply IH in H; [|lia|by eapply parseLine_ok].
    cbn [length]. by rewrite <-Nat.add_succ_comm.
Qed.

(** In a battery [ParseBattery] accepts, every item has a known kind and
    only known keys, items stand in the order of their lines, an ab item has
    both an a. and a b. key, and every kernel names a tree and a revision. *)
Theorem ParseBattery_ok getenv path raw b :
  ParseBattery getenv path raw = inr b →
  ∃ n, Forall (item_ok n) (Items b) ∧ Forall (kernel_ok n) (Kernels b) ∧
       StronglySorted lt (Line <$> Items b).
Proof.
  unfold ParseBattery. destruct raw as [e|raw]; [done|].
  destruct (scan_lines max_token raw) as [lines ok].
  destruct (parseLines _ _ _ _ _) as [e|st] eqn:E; [done|]. destruct ok; [|done]. intros [= <-].
  apply parseLines_ok in E as (_ & ? & ? & ?); [eauto|lia|].
  split_and!; cbn; try constructor. by intros k []%lookup_empty_is_Some.
Qed.
Definition demo_battery : string :=
  "set host=timing cpus=1,8 a.vendor=intel b.vendor=pvm" +:+ nl +:+
  "kernel pvm git=${KERNEL_GIT} rev=${PVM_REV:-pvm}" +:+ nl +:+ "ab perf suite=perf # both".
Lemma ParseBattery_ok_witness :
  ∃ b, ParseBattery (λ v, if seqb v "KERNEL_GIT" then "/src" else "") "x" (inr demo_battery) = inr b ∧
    length (Items b) = 1 ∧ ∃ n, Forall (item_ok n) (Items b).
Proof.
  eexists. split; [vm_compute; reflexivity|]. split; [reflexivity|].
  edestruct (ParseBattery_ok (λ v, if seqb v "KERNEL_GIT" then "/src" else "") "x" (inr demo_battery))
    as (n & H & _); [vm_compute; reflexivity|]. exists n. exact H.
Defined.
