(* ===== verification/ParseLog.v ===== *)
(** * tools/pvmtest/parse.go: what one boot's log says

    [ParseLog] is a loop over the scanner's lines whose state is the [Outcome]
    and the two maps [failed] and [seenKey]; a line that makes the code index
    out of range makes it [None].  Number parsing of metrics is Go's
    [strconv.ParseFloat], a parameter. *)
From Stdlib Require Import Ascii SpecFloat.
From S2P Require Import Prelude GoStrings Regexp.

Record Metric := { m_Name : string; Value : spec_float; Unit_ : string }.
Record Outcome := {
  Passed : list string;
  Failed : list string;
  Results : list string;
  HostPass : Z;
  HostFail : Z;
  Selftests : Z;
  KUT : Z;
  LoadFailed : bool;
  FailClosed : string;
  Metrics : list Metric;
  Complaints : list string;
  marks : gmap Z string;
  stats : gmap Z (gmap string Z);
  statsKeys : list string
}.
Definition empty_outcome : Outcome := {|
  Passed := []; Failed := []; Results := []; HostPass := 0; HostFail := 0; Selftests := 0; KUT := 0;
  LoadFailed := false; FailClosed := ""; Metrics := []; Complaints := []; marks := ∅; stats := ∅;
  statsKeys := []
|}.

(** Field updates. *)
Definition set_Passed f o := {| Passed := f (Passed o); Failed := Failed o; Results := Results o;
  HostPass := HostPass o; HostFail := HostFail o; Selftests := Selftests o; KUT := KUT o;
  LoadFailed := LoadFailed o; FailClosed := FailClosed o; Metrics := Metrics o;
  Complaints := Complaints o; marks := marks o; stats := stats o; statsKeys := statsKeys o |}.
Definition set_Failed f o := {| Passed := Passed o; Failed := f (Failed o); Results := Results o;
  HostPass := HostPass o; HostFail := HostFail o; Selftests := Selftests o; KUT := KUT o;
  LoadFailed := LoadFailed o; FailClosed := FailClosed o; Metrics := Metrics o;
  Complaints := Complaints o; marks := marks o; stats := stats o; statsKeys := statsKeys o |}.
Definition set_Results f o := {| Passed := Passed o; Failed := Failed o; Results := f (Results o);
  HostPass := HostPass o; HostFail := HostFail o; Selftests := Selftests o; KUT := KUT o;
  LoadFailed := LoadFailed o; FailClosed := FailClosed o; Metrics := Metrics o;
  Complaints := Complaints o; marks := marks o; stats := stats o; statsKeys := statsKeys o |}.
Definition set_Host (p f : Z) o := {| Passed := Passed o; Failed := Failed o; Results := Results o;
  HostPass := p; HostFail := f; Selftests := Selftests o; KUT := KUT o;
  LoadFailed := LoadFailed o; FailClosed := FailClosed o; Metrics := Metrics o;
  Complaints := Complaints o; marks := marks o; stats := stats o; statsKeys := statsKeys o |}.
Definition set_counts (s k : Z) o := {| Passed := Passed o; Failed := Failed o; Results := Results o;
  HostPass := HostPass o; HostFail := HostFail o; Selftests := s; KUT := k;
  LoadFailed := LoadFailed o; FailClosed := FailClosed o; Metrics := Metrics o;
  Complaints := Complaints o; marks := marks o; stats := stats o; statsKeys := statsKeys o |}.
Definition set_Load (l : bool) (c : string) o := {| Passed := Passed o; Failed := Failed o;
  Results := Results o; HostPass := HostPass o; HostFail := HostFail o; Selftests := Selftests o;
  KUT := KUT o; LoadFailed := l; FailClosed := c; Metrics := Metrics o;
  Complaints := Complaints o; marks := marks o; stats := stats o; statsKeys := statsKeys o |}.
Definition set_Metrics f o := {| Passed := Passed o; Failed := Failed o; Results := Results o;
  HostPass := HostPass o; HostFail := HostFail o; Selftests := Selftests o; KUT := KUT o;
  LoadFailed := LoadFailed o; FailClosed := FailClosed o; Metrics := f (Metrics o);
  Complaints := Complaints o; marks := marks o; stats := stats o; statsKeys := statsKeys o |}.
Definition set_Complaints f o := {| Passed := Passed o; Failed := Failed o; Results := Results o;
  HostPass := HostPass o; HostFail := HostFail o; Selftests := Selftests o; KUT := KUT o;
  LoadFailed := LoadFailed o; FailClosed := FailClosed o; Metrics := Metrics o;
  Complaints := f (Complaints o); marks := marks o; stats := stats o; statsKeys := statsKeys o |}.
Definition set_stats (m : gmap Z string) (s : gmap Z (gmap string Z)) ks o :=
  {| Passed := Passed o; Failed := Failed o; Results := Results o;
  HostPass := HostPass o; HostFail := HostFail o; Selftests := Selftests o; KUT := KUT o;
  LoadFailed := LoadFailed o; FailClosed := FailClosed o; Metrics := Metrics o;
  Complaints := Complaints o; marks := m; stats := s; statsKeys := ks |}.

(** ** The patterns *)
Definition prefixRe : re := must_compile "^(?:G\[[a-z0-9]+\]: |H: )".
Definition tapRe : re := must_compile "^(ok|not ok) \d+ - ([A-Za-z0-9_./+-]+)".
Definition failedRe : re := must_compile "^# failed: (.*)$".
Definition resultRe : re :=
  must_compile "PVM(?:HOST)?TEST-RESULT: (ok|fail)(?: .*pass=(\d+) fail=(\d+))?".
Definition hostResRe : re := must_compile "PVMHOSTTEST-RESULT: (?:ok|fail) pass=(\d+) fail=(\d+)".
Definition metricRe : re := must_compile "PVMTEST-METRIC: (\S+) (\S+) (\S+) #END".
Definition markRe : re := must_compile "PVMTEST-MARK: (\d+) (\S+) #END".
Definition statsRe : re := must_compile "PVMSTATS(-VM)?: mark=(\d+) (.*)$".
Definition complaintRe : re := must_compile
  "(WARNING: CPU|BUG: |Oops|general protection fault|Kernel panic|RIP: 0010|soft lockup|rcu_sched self-detected|refcount_t: )".
Lemma parse_compile_ok :
  Forall (λ p, is_Some (compile p))
    ["^(?:G\[[a-z0-9]+\]: |H: )"; "^(ok|not ok) \d+ - ([A-Za-z0-9_./+-]+)"; "^# failed: (.*)$";
     "PVM(?:HOST)?TEST-RESULT: (ok|fail)(?: .*pass=(\d+) fail=(\d+))?";
     "PVMHOSTTEST-RESULT: (?:ok|fail) pass=(\d+) fail=(\d+)";
     "PVMTEST-METRIC: (\S+) (\S+) (\S+) #END"; "PVMTEST-MARK: (\d+) (\S+) #END";
     "PVMSTATS(-VM)?: mark=(\d+) (.*)$";
     "(WARNING: CPU|BUG: |Oops|general protection fault|Kernel panic|RIP: 0010|soft lockup|rcu_sched self-detected|refcount_t: )"].
Proof. repeat constructor; vm_compute; eauto. Qed.

(** ** The loop *)

Record lstate := { out : Outcome; failed : gset string; seenKey : gset string }.
Definition upd (f : Outcome → Outcome) (st : lstate) : lstate :=
  {| out := f (out st); failed := failed st; seenKey := seenKey st |}.

(** A failed case, once. *)
Definition add_failed (name : string) (st : lstate) : lstate :=
  if decide (name ∈ failed st) then st
  else {| out := set_Failed (λ l, l ++ [name]) (out st); failed := {[name]} ∪ failed st;
          seenKey := seenKey st |}.

(** One key=value of a PVMSTATS line. *)
Definition add_stat (vm : bool) (mark : Z) (st : lstate) (kv : string) : lstate :=
  match cut kv "=" with
  | None => st
  | Some (k, v) =>
      if seqb k "vcpu" then st else
      match parse_int v with
      | None => st
      | Some n =>
          let k := if vm then "vm." +:+ k else k in
          let o := out st in
          let row := default ∅ (stats o !! mark) in
          let ks := if decide (k ∈ seenKey st) then statsKeys o else statsKeys o ++ [k] in
          {| out := set_stats (marks o)
                      (<[mark := <[k := int64 (default 0%Z (row !! k) + n)]> row]> (stats o)) ks o;
             failed := failed st; seenKey := {[k]} ∪ seenKey st |}
      end
  end.

Section ParseLog.
Context (ParseFloat : string → option spec_float).

(** The branches from [hostResRe] on. *)
Definition parse_rest (st : lstate) (line body : string) (fromL1Echo : bool) : option lstate :=
  let st :=
    match find hostResRe body with
    | Some x => upd (λ o, set_Host (int64 (HostPass o + atoi_lossy (group 1 x)))
                            (int64 (HostFail o + atoi_lossy (group 2 x))) o) st
    | None => st
    end in
  match find resultRe body, fromL1Echo with
  | Some x, false => Some (upd (set_Results (λ l, l ++ [group 1 x])) st)
  | _, _ =>
  match find metricRe body with
  | Some x =>
      match ParseFloat (group 2 x) with
      | Some v => Some (upd (set_Metrics (λ l, l ++ [Build_Metric (group 1 x) v (group 3 x)])) st)
      | None => Some st
      end
  | None =>
  match
    (if has_prefix line "FAILCLOSED: " then
       match fields line !! 1 with
       | Some w => Some (upd (λ o, set_Load (LoadFailed o) w o) st)
       | None => None (* index out of range *)
       end
     else Some st)
  with
  | None => None
  | Some st =>
      let st :=
        if contains body "L1: insmod failed" || has_prefix line "L1: insmod failed"
        then upd (λ o, set_Load true (FailClosed o) o) st else st in
      if fromL1Echo then Some st else
      match find markRe body with
      | Some x =>
          let v := atoi_lossy (group 1 x) in
          if (Z.rem v 2 =? 0)%Z then
            let name := trim_suffix (trim_suffix (group 2 x) "/before") "/after" in
            Some (upd (λ o, set_stats (<[v := name]> (marks o)) (stats o) (statsKeys o) o) st)
          else Some st
      | None =>
      match find statsRe body with
      | Some x =>
          let mark := atoi_lossy (group 2 x) in
          let vm := negb (seqb (group 1 x) "") in
          let st := upd (λ o, set_stats (marks o)
                                (<[mark := default ∅ (stats o !! mark)]> (stats o)) (statsKeys o) o) st in
          Some (foldl (add_stat vm mark) st (fields (group 3 x)))
      | None =>
          if negb (has_prefix line "G[") && is_match complaintRe line
          then Some (upd (set_Complaints (λ l, l ++ [line])) st)
          else Some st
      end
      end
  end
  end
  end.

Definition parse_line (st : lstate) (text : string) : option lstate :=
  let line := trim_right (in_set (str1 ch_cr)) text in
  let fromL1Echo := has_prefix line "L1: " in
  let body := replace_all prefixRe "" line in
  match find tapRe body with
  | Some x =>
      if seqb (group 1 x) "ok" then Some (upd (set_Passed (λ l, l ++ [group 2 x])) st)
      else Some (add_failed (group 2 x) st)
  | None =>
  match find failedRe body with
  | Some x =>
      Some (foldl (λ st name, add_failed (trim_suffix name ",") st) st (fields (group 1 x)))
  | None =>
      if has_prefix body "SELFTEST: " then
        Some (upd (λ o, set_counts (Selftests o + 1) (KUT o) o) st)
      else if has_prefix body "KUT: " then
        Some (upd (λ o, set_counts (Selftests o) (KUT o + 1) o) st)
      else parse_rest st line body fromL1Echo
  end
  end.

Fixpoint parse_lines (lines : list string) (st : lstate) : option lstate :=
  match lines with
  | [] => Some st
  | l :: ls => match parse_line st l with
               | Some st => parse_lines ls st
               | None => None
               end
  end.

(** A line of 1 MiB or more ends the scan. *)
Definition log_token : nat := Z.to_nat 1048576.
Definition init_state : lstate := {| out := empty_outcome; failed := ∅; seenKey := ∅ |}.
Definition ParseLog (text : string) : option Outcome :=
  out <$> parse_lines (scan_lines log_token text).1 init_state.
End ParseLog.
#[global] Opaque log_token.

(** ** Judging *)
Definition Unexpected (o : Outcome) (allow : list string) : list string :=
  foldl (λ out f,
    if existsb (λ a, seqb f a || ((8 <=? slen f) && has_prefix a f)) allow then out
    else out ++ [f]) [] (Failed o).

Record StatsPair := { s_Name : string; Deltas : gmap string Z }.
(** [sort.Ints]. *)
Definition sort_ints : list Z → list Z := sort_stable Z.ltb.
Definition StatsPairs (o : Outcome) : list StatsPair * list string :=
  let evens := foldl (λ l kv,
    match stats o !! kv.1, stats o !! (kv.1 + 1)%Z with
    | Some _, Some _ => l ++ [kv.1]
    | _, _ => l
    end) [] (map_to_list (marks o)) in
  let get v k := default 0%Z (default ∅ (stats o !! v) !! k) in
  let pairs := (λ v,
    {| s_Name := default "" (marks o !! v);
       Deltas := foldl (λ d k, <[k := int64 (get (v + 1)%Z k - get v k)]> d) ∅ (statsKeys o) |})
    <$> sort_ints evens in
  (pairs, statsKeys o).

(** ** The failed cases *)

(** The map [failed] holds what the list [Failed] holds, once each. *)
Definition failed_ok (st : lstate) : Prop :=
  NoDup (Failed (out st)) ∧ ∀ f, f ∈ failed st ↔ f ∈ Failed (out st).
Lemma add_failed_ok name st : failed_ok st → failed_ok (add_failed name st).
Proof.
  intros [Hn Hf]. unfold add_failed. destruct (decide _) as [|Hni]; [done|].
  split; cbn.
  - apply NoDup_app. split; [done|]. split; [|by apply NoDup_singleton].
    intros x Hx ->%list_elem_of_singleton. by apply Hni, Hf.
  - intros f. rewrite elem_of_union, elem_of_singleton, elem_of_app, list_elem_of_singleton, Hf.
    tauto.
Qed.
Lemma upd_failed_ok f st :
  (∀ o, Failed (f o) = Failed o) → failed_ok st → failed_ok (upd f st).
Proof. intros H [? ?]. split; cbn; by rewrite H. Qed.
Lemma add_stat_failed_ok vm mark st kv : failed_ok st → failed_ok (add_stat vm mark st kv).
Proof. intros [? ?]. unfold add_stat. repeat case_match; by split. Qed.
Lemma foldl_ok {A} (f : lstate → A → lstate) l st :
  (∀ st x, failed_ok st → failed_ok (f st x)) → failed_ok st → failed_ok (foldl f st l).
Proof. intros H. revert st. induction l as [|x l IH]; intros st Hst; cbn; eauto. Qed.

#[local] Hint Resolve add_failed_ok upd_failed_ok add_stat_failed_ok foldl_ok : pvm.
Lemma parse_line_ok pf st l st' : failed_ok st → parse_line pf st l = Some st' → failed_ok st'.
Proof.
  intros Hst. unfold parse_line, parse_rest.
  set (line := trim_right _ _). set (body := replace_all _ _ _). clearbody line body.
  assert (∀ st x, failed_ok st → failed_ok (foldl (λ st name, add_failed (trim_suffix name ",") st) st x)).
  { intros. apply foldl_ok; eauto with pvm. }
  assert (∀ vm mark st x, failed_ok st → failed_ok (foldl (add_stat vm mark) st x)).
  { intros. apply foldl_ok; eauto with pvm. }
  assert (∀ f (b : bool) st, (∀ o, Failed (f o) = Failed o) → failed_ok st →
    failed_ok (if b then upd f st else st)) by (intros ? []; eauto with pvm).
  destruct (find tapRe body) as [x|].
  { case_match; intros [= <-]; eauto with pvm. }
  destruct (find failedRe body) as [x|]; [intros [= <-]; eauto with pvm|].
  destruct (has_prefix body "SELFTEST: "); [intros [= <-]; eauto with pvm|].
  destruct (has_prefix body "KUT: "); [intros [= <-]; eauto with pvm|].
  assert (failed_ok match find hostResRe body with
    | Some x => upd (λ o, set_Host (int64 (HostPass o + atoi_lossy (group 1 x)))
                            (int64 (HostFail o + atoi_lossy (group 2 x))) o) st
    | None => st end) as Hst1 by (case_match; eauto with pvm).
  match type of Hst1 with failed_ok ?s => generalize dependent s end.
  clear st Hst. intros st Hst.
  destruct (has_prefix line "FAILCLOSED: "); [destruct (fields line !! 1) as [w|]|];
    repeat case_match; try done; intros [= <-]; eauto 10 with pvm.
Qed.
Lemma parse_lines_ok pf ls st st' : failed_ok st → parse_lines pf ls st = Some st' → failed_ok st'.
Proof.
  revert st. induction ls as [|l ls IH]; intros st Hst; cbn [parse_lines]; [by intros [= <-]|].
  destruct (parse_line pf st l) as [st1|] eqn:E; [|done]. eauto using parse_line_ok.
Qed.

(** A failed name is covered by an allowed one. *)
Definition allowed (allow : list string) (f : string) : Prop :=
  ∃ a, a ∈ allow ∧ (f = a ∨ 8 ≤ slen f ∧ ∃ r, a = f +:+ r).
Lemma allowed_spec allow f :
  existsb (λ a, seqb f a || ((8 <=? slen f) && has_prefix a f)) allow = true ↔ allowed allow f.
Proof.
  rewrite existsb_exists. unfold allowed.
  split; intros (a & Ha & H); exists a; rewrite list_elem_of_In in *; split; try done.
  - rewrite orb_true_iff, andb_true_iff, seqb_true, Nat.leb_le, has_prefix_spec in H. done.
  - by rewrite orb_true_iff, andb_true_iff, seqb_true, Nat.leb_le, has_prefix_spec.
Qed.
Lemma Unexpected_filter o allow : Unexpected o allow =
  filter (λ f, existsb (λ a, seqb f a || ((8 <=? slen f) && has_prefix a f)) allow = false) (Failed o).
Proof.
  unfold Unexpected. assert (∀ l out,
    foldl (λ out f, if existsb (λ a, seqb f a || ((8 <=? slen f) && has_prefix a f)) allow then out
                    else out ++ [f]) out l =
    out ++ filter (λ f, existsb (λ a, seqb f a || ((8 <=? slen f) && has_prefix a f)) allow = false) l)
    as H; [|by rewrite H].
  induction l as [|x l IH]; intros out; cbn [foldl]; [by rewrite filter_nil, app_nil_r|].
  rewrite IH, filter_cons. destruct (existsb _ allow).
  - by rewrite decide_False.
  - rewrite decide_True by done. by rewrite <-(assoc_L (++)).
Qed.

(** Whatever the log, a failed case is reported once, and [Unexpected] is
    exactly the failed cases that no allowed name covers -- equal to it, or
    starting with the at least eight bytes the console left of it. *)
Theorem ParseLog_failed pf text o allow :
  ParseLog pf text = Some o →
  NoDup (Failed o) ∧ NoDup (Unexpected o allow) ∧
  ∀ f, f ∈ Unexpected o allow ↔ f ∈ Failed o ∧ ¬ allowed allow f.
Proof.
  unfold ParseLog. intros (st & E & ->)%fmap_Some.
  apply parse_lines_ok in E as [Hn _]; [|split; [constructor|cbn; set_solver]].
  split; [done|]. rewrite Unexpected_filter. split; [by apply NoDup_filter|].
  intros f. rewrite list_elem_of_filter, <-allowed_spec.
  destruct (existsb _ allow); naive_solver.
Qed.
Definition demo_log : string :=
  "G[q35]: ok 1 - boot/up" +:+ nl +:+ "G[q35]: not ok 2 - mm/fork" +:+ nl +:+
  "G[q35]: # failed: mm/fork, time/tsc" +:+ nl +:+ "G[q35]: PVMTEST-RESULT: fail pass=1 fail=2" +:+ nl.
Lemma ParseLog_failed_witness :
  ∃ o, ParseLog (λ _, None) demo_log = Some o ∧ Passed o = ["boot/up"] ∧ Results o = ["fail"] ∧
    Failed o = ["mm/fork"; "time/tsc"] ∧ NoDup (Unexpected o ["time/tsc-monotonic"]).
Proof.
  eexists. split; [vm_compute; reflexivity|].
  do 3 (split; [reflexivity|]).
  edestruct (ParseLog_failed (λ _, None) demo_log) as (_ & H & _); [vm_compute; reflexivity|exact H].
Defined.
