(* ===== verification/Checks.v ===== *)
(** * tools/pvmtest: checks.go and kut.go, with readList of env.go

    The log checkers: [Sanitize] scans logs for kernel complaints,
    [checkExpected] holds the verdict lines of a log to an expectation file, and
    the kvm-unit-tests configuration is parsed, selected and written as the
    manifest the agent reads.  Files are texts (or the error of opening them);
    what the checkers print is returned as data. *)
From Stdlib Require Import Ascii.
From S2P Require Import Prelude GoStrings Regexp Spec.

(** [readList] of env.go: the trimmed lines that are neither blank nor comments. *)
Definition list_line (t : string) : option string :=
  let l := trim_space t in
  if seqb l "" || has_prefix l "#" then None else Some l.
Definition readList (file : string + string) : string + list string :=
  match file with
  | inl e => inl e
  | inr text =>
      let '(lines, ok) := scan_lines max_token text in
      if (ok : bool) then inr (omap list_line lines) else inl "bufio.Scanner: token too long"
  end.

(** ** Sanitize *)
Fixpoint compile_all (path : string) (ls : list string) : string + list re :=
  match ls with
  | [] => inr []
  | l :: ls =>
      match compile l with
      | None => inl (path +:+ ": " +:+ quote l +:+ ": error parsing regexp")
      | Some r => match compile_all path ls with inl e => inl e | inr rs => inr (r :: rs) end
      end
  end.
Definition loadPatterns (path : string) (file : string + string) : string + list re :=
  match readList file with
  | inl e => inl e
  | inr ls => compile_all path ls
  end.
Definition matchAny (res : list re) (s : string) : bool := existsb (λ r, is_match r s) res.

Definition guestRe : re := must_compile "^G\[[a-z0-9_.-]*\]: ".
Definition tsRe : re := must_compile "\[[0-9 ]+\.[0-9]+\] ".
Definition hex0xRe : re := must_compile "0x[0-9a-f]+".
Definition hexRe : re := must_compile "\b[0-9a-f]{8,}\b".
Definition numRe : re := must_compile "[0-9]+".
Definition spaceRe : re := must_compile "\s+".
Lemma checks_compile_ok :
  Forall (λ p, is_Some (compile p))
    ["^G\[[a-z0-9_.-]*\]: "; "\[[0-9 ]+\.[0-9]+\] "; "0x[0-9a-f]+"; "\b[0-9a-f]{8,}\b"; "[0-9]+"; "\s+";
     "^\[(.+)\]$"; "^([a-z_]+)\s*=\s*(.*)$"].
Proof. repeat constructor; vm_compute; eauto. Qed.

(** The layer tag put in place of the prefix. *)
Definition tag_line (line : string) : string :=
  if is_match guestRe line then "G" +:+ tab +:+ replace_all guestRe "" line
  else if has_prefix line "L1: " then "T" +:+ tab +:+ trim_prefix line "L1: "
  else "." +:+ tab +:+ line.

(** One log: the known complaints counted and the unknown ones. *)
Definition scan_line (fail allow : list re) (st : Z * list string) (text : string) : Z * list string :=
  let '(known, unknown) := st in
  let line := tag_line text in
  if negb (matchAny fail line) then (known, unknown)
  else if matchAny allow line then ((known + 1)%Z, unknown)
  else (known, unknown ++ [line]).
Definition one_mib : nat := Z.to_nat 1048576.
#[global] Opaque one_mib.
Definition scan_log (fail allow : list re) (text : string) : Z * list string :=
  foldl (scan_line fail allow) (0%Z, []) (scan_lines one_mib text).1.

Record group_ := { g_n : Z; g_line : string }.
Definition collapse_line (l : string) : string :=
  let l := replace_all tsRe "" l in
  let l := replace_all hex0xRe "0xX" l in
  let l := replace_all hexRe "HEX" l in
  let l := replace_all numRe "N" l in
  replace_all spaceRe " " l.
Definition group_less (a b : group_) : bool :=
  if negb (g_n a =? g_n b)%Z then (g_n b <? g_n a)%Z else str_less (g_line a) (g_line b).
Definition count_line (count : gmap string Z) (l : string) : gmap string Z :=
  let l := collapse_line l in <[l := (default 0 (count !! l) + 1)%Z]> count.
Definition collapse (lines : list string) : list group_ :=
  let count := foldl count_line ∅ lines in
  sort_stable group_less ((λ kv, Build_group_ kv.2 kv.1) <$> map_to_list count).

(** What [Sanitize] reports of a log with unknown complaints. *)
Record log_report := { r_file : string; r_known : Z; r_unknown : list string; r_groups : list group_ }.
Record scan_state := { totalHit : Z; totalKnown : Z; scanned : Z; reports : list log_report }.

(** [filepath.Base]. *)
Definition Base (path : string) : string :=
  if seqb path "" then "." else
  let b := default "" (last (split "/" (trim_right (in_set "/") path))) in
  if seqb b "" then "/" else b.

Definition sanitize_file (fail allow : list re) (read : string → option string)
    (st : scan_state) (f : string) : scan_state :=
  if contains (Base f) "qemu-debug" then st else
  match read f with
  | None => st
  | Some text =>
      let '(known, unknown) := scan_log fail allow text in
      let st := {| totalHit := totalHit st; totalKnown := (totalKnown st + known)%Z;
                   scanned := (scanned st + 1)%Z; reports := reports st |} in
      if (length unknown =? 0) then st
      else {| totalHit := (totalHit st + Z.of_nat (length unknown))%Z; totalKnown := totalKnown st;
              scanned := scanned st;
              reports := reports st ++ [Build_log_report f known unknown (collapse unknown)] |}
  end.

(** [failFile] and [allowFile] are what the two pattern files hold, [globbed]
    the logs found when none is named; [None] is no error. *)
Definition Sanitize (failPath allowPath : string) (failFile allowFile : string + string)
    (read : string → option string) (globbed files : list string) : list log_report * option string :=
  match loadPatterns failPath failFile with
  | inl e => ([], Some e)
  | inr fail =>
      match loadPatterns allowPath allowFile with
      | inl e => ([], Some e)
      | inr allow =>
          let files := if (length files =? 0) then globbed else files in
          if (length files =? 0) then ([], Some "no logs to scan -- run something first") else
          let st := foldl (sanitize_file fail allow read)
                      {| totalHit := 0; totalKnown := 0; scanned := 0; reports := [] |} files in
          (reports st,
           if (0 <? totalHit st)%Z
           then Some (itoa (totalHit st) +:+ " unexplained kernel complaints") else None)
      end
  end.

(** ** Expectations *)
Inductive note :=
  | NoExpectation (name verdict : string)
  | Changed (name want verdict : string)
  | Regressed (name want verdict : string)
  | DidNotRun (name : string).

(** The rows of the expectation file for a key: the map and its order. *)
Definition expect_row (key : string) (st : gmap string string * list string) (l : string)
    : gmap string string * list string :=
  match GoStrings.fields l with
  | n :: k :: v :: _ => if seqb k key then (<[n := v]> st.1, st.2 ++ [n]) else st
  | _ => st
  end.
Record check_state := { seen : gset string; notes : list note }.
Definition verdict_line (want : gmap string string) (prefix : string) (st : check_state) (line : string)
    : check_state :=
  if negb (has_prefix line prefix) then st else
  match GoStrings.fields (trim_prefix line prefix) with
  | name :: verdict :: _ =>
      let n := match want !! name with
               | None => [NoExpectation name verdict]
               | Some w =>
                   if negb (seqb verdict w) && (seqb w "fail" || seqb w "skip") then [Changed name w verdict]
                   else if negb (seqb verdict w) then [Regressed name w verdict]
                   else []
               end in
      {| seen := {[name]} ∪ seen st; notes := notes st ++ n |}
  | _ => st
  end.
Definition replace_cr (s : string) : string := replace_char ch_cr "" s.

(** The notes printed and the error. *)
Definition checkExpected (expectPath : string) (expectFile logFile : string + string)
    (prefix key : string) : list note * option string :=
  match readList expectFile with
  | inl e => ([], Some e)
  | inr expect =>
      let '(want, order) := foldl (expect_row key) (∅, []) expect in
      match logFile with
      | inl e => ([], Some e)
      | inr raw =>
          let st := foldl (verdict_line want prefix) {| seen := ∅; notes := [] |}
                      (split ch_nl (replace_cr raw)) in
          if decide (seen st = ∅) then
            (notes st, Some ("the log has no " +:+ trim_space prefix +:+ " lines at all"))
          else
            let ns := notes st ++
              (DidNotRun <$> filter (λ n, n ∉ seen st) order) in
            (ns, if (length ns =? 0) then None
                 else Some ("results differ from configs/" +:+ Base expectPath))
      end
  end.
Definition CheckSelftests (testbed : string) (expectFile logFile : string + string) (vendor : string) :=
  checkExpected (testbed +:+ "/configs/kvm-selftests-expect.txt") expectFile logFile "SELFTEST: " vendor.

(** ** kvm-unit-tests *)
Record kutTest := {
  t_Name : string; t_File : string; t_Smp : string; t_Timeout : string; t_Check : string;
  t_Accel : string; t_Arch : string; t_Groups : string; t_Params : string; t_Args : string
}.
Definition sectionRe : re := must_compile "^\[(.+)\]$".
Definition kvRe : re := must_compile "^([a-z_]+)\s*=\s*(.*)$".

(** The assignment of one key of a section. *)
Definition set_key (key v : string) (t : kutTest) : kutTest :=
  let mk f s tm c ac ar g p a :=
    Build_kutTest (t_Name t) f s tm c ac ar g p a in
  if seqb key "file" then mk v (t_Smp t) (t_Timeout t) (t_Check t) (t_Accel t) (t_Arch t) (t_Groups t) (t_Params t) (t_Args t)
  else if seqb key "smp" then mk (t_File t) v (t_Timeout t) (t_Check t) (t_Accel t) (t_Arch t) (t_Groups t) (t_Params t) (t_Args t)
  else if seqb key "timeout" then mk (t_File t) (t_Smp t) (trim_suffix v "s") (t_Check t) (t_Accel t) (t_Arch t) (t_Groups t) (t_Params t) (t_Args t)
  else if seqb key "check" then mk (t_File t) (t_Smp t) (t_Timeout t) v (t_Accel t) (t_Arch t) (t_Groups t) (t_Params t) (t_Args t)
  else if seqb key "accel" then mk (t_File t) (t_Smp t) (t_Timeout t) (t_Check t) v (t_Arch t) (t_Groups t) (t_Params t) (t_Args t)
  else if seqb key "arch" then mk (t_File t) (t_Smp t) (t_Timeout t) (t_Check t) (t_Accel t) v (t_Groups t) (t_Params t) (t_Args t)
  else if seqb key "groups" then mk (t_File t) (t_Smp t) (t_Timeout t) (t_Check t) (t_Accel t) (t_Arch t) v (t_Params t) (t_Args t)
  else if seqb key "qemu_params" || seqb key "extra_params" then
    mk (t_File t) (t_Smp t) (t_Timeout t) (t_Check t) (t_Accel t) (t_Arch t) (t_Groups t)
       (trim_space (t_Params t +:+ " " +:+ v)) (t_Args t)
  else if seqb key "test_args" then
    mk (t_File t) (t_Smp t) (t_Timeout t) (t_Check t) (t_Accel t) (t_Arch t) (t_Groups t) (t_Params t) v
  else t.

(** [cur] points at the last test of [out]: assignments go there. *)
Definition cfg_line (out : list kutTest) (text : string) : list kutTest :=
  let l := trim_space text in
  if seqb l "" || has_prefix l "#" then out else
  match find sectionRe l with
  | Some x => out ++ [Build_kutTest (group 1 x) "" "1" "90" "" "" "" "" "" ""]
  | None =>
      match find kvRe l, reverse out with
      | Some x, cur :: before => reverse before ++ [set_key (group 1 x) (group 2 x) cur]
      | _, _ => out
      end
  end.
Definition parseUnittestsCfg (file : string + string) : string + list kutTest :=
  match file with
  | inl e => inl e
  | inr text =>
      let '(lines, ok) := scan_lines max_token text in
      if (ok : bool) then inr (foldl cfg_line [] lines) else inl "bufio.Scanner: token too long"
  end.

Definition manifest_args (t : kutTest) : string :=
  if seqb (t_Args t) "" then t_Params t
  else trim_space (t_Params t +:+ " -append " +:+ t_Args t).
Definition manifest_line (t : kutTest) : string :=
  t_Name t +:+ tab +:+ t_File t +:+ tab +:+ t_Smp t +:+ tab +:+ t_Timeout t +:+ tab +:+
  t_Check t +:+ tab +:+ manifest_args t +:+ nl.
Definition kutManifest (tests : list kutTest) : string :=
  foldl (λ b t, b +:+ manifest_line t) "" tests.

Fixpoint selectKUT_go (byName : gmap string kutTest) (names : list string) (out : list kutTest)
    : string + list kutTest :=
  match names with
  | [] => inr out
  | n :: names =>
      match byName !! n with
      | None => inl (n +:+ ": not in x86/unittests.cfg")
      | Some t =>
          if seqb (t_Arch t) "i386" then inl (n +:+ ": i386 only")
          else if seqb (t_Accel t) "tcg" then inl (n +:+ ": tcg only")
          else if contains (t_Params t +:+ t_Args t) "`" then inl (n +:+ ": needs shell expansion")
          else selectKUT_go byName names (out ++ [t])
      end
  end.
Definition selectKUT (all : list kutTest) (names : list string) : string + list kutTest :=
  selectKUT_go (foldl (λ m t, <[t_Name t := t]> m) ∅ all) names [].

Definition kutConfig (it : Item) : string :=
  if existsb (λ m, seqb m "ept=0" || seqb m "ept=N") (default [] (List_ it "mod")) then "shadow" else "ept".
Definition CheckKUT (testbed : string) (expectFile logFile : string + string) (config : string) :=
  checkExpected (testbed +:+ "/configs/kut-expect.txt") expectFile logFile "KUT: " config.

Definition kut_count (n : gmap string Z) (l : string) : gmap string Z :=
  match GoStrings.fields l with
  | f0 :: _ :: f2 :: _ => if seqb f0 "KUT:" then <[f2 := (default 0 (n !! f2) + 1)%Z]> n else n
  | _ => n
  end.
Definition kutSummary (logText : string) : string :=
  let n := foldl kut_count ∅ (split ch_nl logText) in
  let keys := sort_strings ((map_to_list n).*1) in
  join " " ((λ k, k +:+ "=" +:+ itoa (default 0%Z (n !! k))) <$> keys).

(** ** checkExpected holds a log to the file in both directions *)

(** The (name, verdict) pairs of the log. *)
Definition verdict_pair (prefix line : string) : option (string * string) :=
  if has_prefix line prefix then
    match GoStrings.fields (trim_prefix line prefix) with
    | name :: verdict :: _ => Some (name, verdict)
    | _ => None
    end
  else None.
Definition log_verdicts (prefix raw : string) : list (string * string) :=
  omap (verdict_pair prefix) (split ch_nl (replace_cr raw)).

(** What a verdict line adds to the notes. *)
Definition verdict_notes (want : gmap string string) (name verdict : string) : list note :=
  match want !! name with
  | None => [NoExpectation name verdict]
  | Some w =>
      if negb (seqb verdict w) && (seqb w "fail" || seqb w "skip") then [Changed name w verdict]
      else if negb (seqb verdict w) then [Regressed name w verdict]
      else []
  end.
Lemma verdict_notes_nil want name verdict :
  verdict_notes want name verdict = [] ↔ want !! name = Some verdict.
Proof.
  unfold verdict_notes. destruct (want !! name) as [w|]; [|done].
  destruct (seqb verdict w) eqn:E; cbn [negb andb].
  - by apply seqb_true in E as ->.
  - apply seqb_false in E. split; [by case_match|]. by intros [= ->].
Qed.
Lemma verdict_line_pair want prefix st line :
  verdict_line want prefix st line =
  match verdict_pair prefix line with
  | Some (name, verdict) =>
      {| seen := {[name]} ∪ seen st; notes := notes st ++ verdict_notes want name verdict |}
  | None => st
  end.
Proof.
  unfold verdict_line, verdict_pair. destruct (has_prefix line prefix); [|done]. cbn [negb].
  by destruct (GoStrings.fields _) as [|name [|verdict r]].
Qed.
Lemma verdict_line_fold want prefix lines st :
  let vs := omap (verdict_pair prefix) lines in
  let st' := foldl (verdict_line want prefix) st lines in
  (∀ n, n ∈ seen st' ↔ n ∈ seen st ∨ n ∈ vs.*1) ∧
  (notes st' = [] ↔ notes st = [] ∧ Forall (λ p, want !! p.1 = Some p.2) vs).
Proof.
  revert st. induction lines as [|l lines IH]; intros st; cbn [foldl omap list_omap].
  { cbn. split; [set_solver|]. rewrite Forall_nil. tauto. }
  destruct (IH (verdict_line want prefix st l)) as [IH1 IH2]. cbn zeta.
  rewrite verdict_line_pair in *. destruct (verdict_pair prefix l) as [[name verdict]|]; [|done].
  cbn [seen notes] in *. split.
  - intros n. rewrite IH1, fmap_cons, elem_of_union, elem_of_singleton, elem_of_cons. cbn. tauto.
  - rewrite IH2, app_nil, Forall_cons, verdict_notes_nil. cbn [fst snd]. tauto.
Qed.

(** C23: a log passes [checkExpected] exactly when both files can be read, the
    log has at least one verdict line, every verdict line says what the
    expectation file records for its name, and every name recorded for the key
    has a verdict line; otherwise there is an error. *)
Theorem checkExpected_ok expectPath expectFile logFile prefix key :
  (checkExpected expectPath expectFile logFile prefix key).2 = None ↔
  ∃ expect raw,
    readList expectFile = inr expect ∧ logFile = inr raw ∧
    let want := (foldl (expect_row key) (∅, []) expect).1 in
    let order := (foldl (expect_row key) (∅, []) expect).2 in
    let vs := log_verdicts prefix raw in
    vs ≠ [] ∧ Forall (λ p, want !! p.1 = Some p.2) vs ∧ Forall (λ n, n ∈ vs.*1) order.
Proof.
  unfold checkExpected. destruct (readList expectFile) as [e|expect]; [naive_solver|].
  destruct (foldl (expect_row key) (∅, []) expect) as [want order] eqn:Ew.
  destruct logFile as [e|raw]; [naive_solver|].
  destruct (verdict_line_fold want prefix (split ch_nl (replace_cr raw)) {| seen := ∅; notes := [] |})
    as [Hs Hn]. fold (log_verdicts prefix raw) in Hs, Hn.
  set (st := foldl (verdict_line want prefix) _ _) in *.
  assert (seen st = ∅ ↔ log_verdicts prefix raw = []) as He.
  { cbn in Hs. split.
    - intros E. destruct (log_verdicts prefix raw) as [|p l]; [done|].
      assert (p.1 ∈ seen st) as Hin by (apply Hs; right; by left). rewrite E in Hin. set_solver.
    - intros E. rewrite E in Hs. set_solver. }
  destruct (decide (seen st = ∅)) as [E|E].
  - split; [done|]. intros (ex & rw & [= <-] & [= <-] & Hne & _). by apply He in E.
  - assert (notes st ++ (DidNotRun <$> filter (λ n, n ∉ seen st) order) = [] ↔
      Forall (λ p, want !! p.1 = Some p.2) (log_verdicts prefix raw) ∧
      Forall (λ n, n ∈ (log_verdicts prefix raw).*1) order) as Hb.
    { rewrite app_nil, Hn. cbn [notes].
      assert (DidNotRun <$> filter (λ n, n ∉ seen st) order = [] ↔
        Forall (λ n, n ∈ (log_verdicts prefix raw).*1) order) as ->; [|tauto].
      transitivity (filter (λ n, n ∉ seen st) order = []);
        [by destruct (filter _ _)|]. rewrite Forall_forall. split.
      - intros Hf n Hin. destruct (decide (n ∈ seen st)) as [Hi|Hi].
        + apply Hs in Hi as [Hi|Hi]; [set_solver|done].
        + assert (n ∈ filter (λ n, n ∉ seen st) order) as Hx by by apply list_elem_of_filter.
          rewrite Hf in Hx. by apply not_elem_of_nil in Hx.
      - intros Hf. destruct (filter _ _) as [|x l] eqn:Ex; [done|].
        assert (x ∈ filter (λ n, n ∉ seen st) order) as Hx by (rewrite Ex; left).
        apply list_elem_of_filter in Hx as [Hni Hin]. destruct Hni. apply Hs. right. by apply Hf. }
    destruct (length _ =? 0) eqn:El.
    + apply Nat.eqb_eq, length_zero_iff_nil in El. apply Hb in El as [H1 H2].
      split; [|done]. intros _. exists expect, raw. rewrite Ew. cbn [fst snd]. rewrite <-He. done.
    + split; [done|]. intros (ex & rw & [= <-] & [= <-] & Hne & H). rewrite Ew in H. cbn [fst snd] in H.
      apply Hb in H. rewrite H in El. done.
Qed.
Lemma checkExpected_ok_witness :
  let expect := "# name config verdict" +:+ nl +:+ "cpuid ept pass" +:+ nl +:+ "vmx ept skip" +:+ nl in
  let log := "KUT: cpuid pass rc=1" +:+ nl +:+ "KUT: vmx skip rc=77" +:+ nl in
  (checkExpected "configs/kut-expect.txt" (inr expect) (inr log) "KUT: " "ept").2 = None.
Proof.
  intros expect log. apply (proj2 (checkExpected_ok "configs/kut-expect.txt" (inr expect) (inr log) "KUT: " "ept")).
  do 2 eexists. split; [vm_compute; reflexivity|]. split; [reflexivity|].
  vm_compute. repeat split; try discriminate; repeat constructor.
Defined.

(** ** Sanitize fails on unexplained complaints *)
Definition complaint (fail allow : list re) (text : string) : Prop :=
  matchAny fail (tag_line text) = true ∧ matchAny allow (tag_line text) = false.

Lemma scan_fold fail allow ls k u :
  let st := foldl (scan_line fail allow) (k, u) ls in
  ∃ u', st.2 = u ++ u' ∧ (u' = [] ↔ Forall (λ l, ¬ complaint fail allow l) ls).
Proof.
  revert k u. induction ls as [|l ls IH]; intros k u; cbn [foldl].
  { exists []. by rewrite app_nil_r, Forall_nil. }
  unfold scan_line at 2. unfold complaint in *.
  destruct (matchAny fail (tag_line l)) eqn:Ef; cbn [negb].
  - destruct (matchAny allow (tag_line l)) eqn:Ea.
    + destruct (IH (k + 1)%Z u) as (u' & -> & Hu). exists u'. split; [done|]. rewrite Hu, Forall_cons, Ea.
      split; [intros H; split; [by intros []|done]|tauto].
    + destruct (IH k (u ++ [tag_line l])) as (u' & -> & Hu). exists (tag_line l :: u').
      rewrite <-(assoc_L (++)). split; [done|]. rewrite Forall_cons, Ef, Ea. split; [done|tauto].
  - destruct (IH k u) as (u' & -> & Hu). exists u'. split; [done|]. rewrite Hu, Forall_cons, Ef.
    split; [intros H; split; [by intros []|done]|tauto].
Qed.
Lemma scan_log_clean fail allow text :
  (scan_log fail allow text).2 = [] ↔
  Forall (λ l, ¬ complaint fail allow l) (scan_lines one_mib text).1.
Proof. unfold scan_log. destruct (scan_fold fail allow (scan_lines one_mib text).1 0 []) as (u & -> & Hu). exact Hu. Qed.

(** A log that is scanned: not qemu's own trace, and there to be read. *)
Definition file_clean (fail allow : list re) (read : string → option string) (f : string) : Prop :=
  contains (Base f) "qemu-debug" = false → ∀ text, read f = Some text →
  Forall (λ l, ¬ complaint fail allow l) (scan_lines one_mib text).1.

Lemma sanitize_fold fail allow read files st :
  (0 <= totalHit st)%Z →
  let st' := foldl (sanitize_file fail allow read) st files in
  (totalHit st <= totalHit st')%Z ∧
  (totalHit st' = totalHit st ↔ Forall (file_clean fail allow read) files).
Proof.
  revert st. induction files as [|f files IH]; intros st H0; cbn [foldl].
  { rewrite Forall_nil. split; [lia|done]. }
  set (st1 := sanitize_file fail allow read st f).
  assert ((totalHit st <= totalHit st1)%Z ∧ (totalHit st1 = totalHit st ↔ file_clean fail allow read f))
    as [Hm Hc].
  { subst st1. unfold sanitize_file, file_clean.
    destruct (contains (Base f) "qemu-debug"); [split; [lia|done]|].
    destruct (read f) as [text|] eqn:Er; [|split; [lia|done]].
    pose proof (scan_log_clean fail allow text) as Hs.
    destruct (scan_log fail allow text) as [known unknown]. cbn [snd] in Hs.
    destruct (length unknown =? 0) eqn:El; cbn [totalHit].
    - apply Nat.eqb_eq, length_zero_iff_nil in El. split; [lia|]. split; [|done].
      intros _ _ t [= <-]. by apply Hs.
    - apply Nat.eqb_neq in El. split; [lia|]. split; [lia|].
      intros Hf. destruct El. apply length_zero_iff_nil, Hs. by apply Hf. }
  destruct (IH st1) as [IH1 IH2]; [lia|]. split; [lia|]. rewrite Forall_cons, <-Hc, <-IH2. lia.
Qed.

(** When both pattern files load and there are logs, [Sanitize] passes
    exactly when no line of a scanned log, with its layer tagged, matches a
    complaint pattern without matching an allowed one. *)
Theorem Sanitize_clean failPath allowPath failFile allowFile read globbed files fail allow :
  loadPatterns failPath failFile = inr fail → loadPatterns allowPath allowFile = inr allow →
  (if decide (files = []) then globbed else files) ≠ [] →
  (Sanitize failPath allowPath failFile allowFile read globbed files).2 = None ↔
  Forall (file_clean fail allow read) (if decide (files = []) then globbed else files).
Proof.
  intros Hf Ha Hne. unfold Sanitize. rewrite Hf, Ha.
  assert ((if length files =? 0 then globbed else files) = (if decide (files = []) then globbed else files)) as ->.
  { destruct files; [by rewrite decide_True|by rewrite decide_False]. }
  set (fs := if decide (files = []) then globbed else files) in *. clearbody fs.
  destruct fs as [|f fs]; [done|]. cbn [length Nat.eqb].
  destruct (sanitize_fold fail allow read (f :: fs)
    {| totalHit := 0; totalKnown := 0; scanned := 0; reports := [] |}) as [Hm Hc]; [cbn; lia|].
  cbn [snd totalHit] in *. rewrite <-Hc.
  destruct (0 <? totalHit _)%Z eqn:E.
  - apply Z.ltb_lt in E. split; [done|]. intros E2. rewrite E2 in E. lia.
  - apply Z.ltb_ge in E. split; [|done]. intros _. lia.
Qed.
Lemma Sanitize_clean_witness :
  let patterns := "# complaints" +:+ nl +:+ "Kernel panic" +:+ nl +:+ "^.*\bBUG: " +:+ nl in
  let log := "G[q35]: ok 1 - boot/up" +:+ nl +:+ "L1: BUG: known" +:+ nl in
  (Sanitize "fail" "allow" (inr patterns) (inr "^T.*known") (λ _, Some log) ["x.log"] []).2 = None.
Proof.
  intros patterns log.
  refine (proj2 (Sanitize_clean "fail" "allow" (inr patterns) (inr "^T.*known") (λ _, Some log) ["x.log"] [] _ _ _ _ _) _).
  1, 2: vm_compute; reflexivity.
  - discriminate.
  - constructor; [|constructor]. intros _ text [= <-].
    replace (scan_lines one_mib log).1 with ["G[q35]: ok 1 - boot/up"; "L1: BUG: known"]
      by (vm_compute; reflexivity).
    repeat (constructor; [intros [H1 H2]; vm_compute in H1, H2; discriminate|]). constructor.
Defined.

(** ** collapse counts every line once *)
Definition sum_n (gs : list group_) : Z := foldr (λ g s, (g_n g + s)%Z) 0%Z gs.
#[export] Instance sum_n_proper : Proper ((≡ₚ) ==> (=)) sum_n.
Proof. intros l1 l2 H. unfold sum_n. induction H; cbn; lia. Qed.
Definition to_groups (m : gmap string Z) : list group_ := (λ kv, Build_group_ kv.2 kv.1) <$> map_to_list m.
Lemma sum_insert (m : gmap string Z) k v :
  sum_n (to_groups (<[k := v]> m)) = (sum_n (to_groups m) - default 0 (m !! k) + v)%Z.
Proof.
  unfold to_groups. destruct (m !! k) as [w|] eqn:E.
  - assert (sum_n ((λ kv, Build_group_ kv.2 kv.1) <$> map_to_list m) =
      (w + sum_n ((λ kv, Build_group_ kv.2 kv.1) <$> map_to_list (delete k m)))%Z) as ->.
    { rewrite <-(insert_delete_id m k w E) at 1.
      by rewrite map_to_list_insert by apply lookup_delete_eq. }
    rewrite <-(insert_delete_eq m k v), map_to_list_insert by apply lookup_delete_eq.
    cbn [default from_option]. unfold id.
    transitivity (v + sum_n ((λ kv, Build_group_ kv.2 kv.1) <$> map_to_list (delete k m)))%Z; [done|lia].
  - rewrite map_to_list_insert by done. cbn [default from_option]. unfold id.
    transitivity (v + sum_n ((λ kv, Build_group_ kv.2 kv.1) <$> map_to_list m))%Z; [done|lia].
Qed.
Lemma count_fold ls (m : gmap string Z) :
  sum_n (to_groups (foldl count_line m ls)) = (sum_n (to_groups m) + Z.of_nat (length ls))%Z.
Proof.
  revert m. induction ls as [|l ls IH]; intros m; cbn [foldl length]; [lia|].
  rewrite IH. unfold count_line at 1. rewrite sum_insert. lia.
Qed.
Lemma count_lookup ls (m : gmap string Z) k :
  default 0%Z (foldl count_line m ls !! k) =
  (default 0 (m !! k) + Z.of_nat (length (filter (λ l, collapse_line l = k) ls)))%Z.
Proof.
  revert m. induction ls as [|l ls IH]; intros m; cbn [foldl].
  { rewrite filter_nil. cbn. lia. }
  rewrite IH, filter_cons. unfold count_line at 1. destruct (decide (collapse_line l = k)) as [<-|Hne].
  - rewrite lookup_insert_eq. cbn [from_option id length default]. lia.
  - by rewrite lookup_insert_ne.
Qed.

#[export] Instance group_strict : StrictWeak group_less.
Proof.
  split.
  - intros a b. unfold group_less.
    destruct (Z.eqb_spec (g_n a) (g_n b)), (Z.eqb_spec (g_n b) (g_n a)); cbn [negb]; try lia.
    apply (less_asym str_less).
  - intros a b c. unfold group_less.
    destruct (Z.eqb_spec (g_n a) (g_n b)), (Z.eqb_spec (g_n b) (g_n c)), (Z.eqb_spec (g_n a) (g_n c));
      cbn [negb]; rewrite ?Z.ltb_ge; try lia. apply (less_neg_trans str_less).
Qed.
(** Not after: a larger count first, and among equal counts the byte order. *)
Definition group_before (a b : group_) : Prop :=
  (g_n b < g_n a)%Z ∨ g_n a = g_n b ∧ String.le (g_line a) (g_line b).
Lemma group_less_spec a b : group_less b a = false ↔ group_before a b.
Proof.
  unfold group_less, group_before. destruct (Z.eqb_spec (g_n b) (g_n a)) as [E|E]; cbn [negb].
  - rewrite str_less_spec. split; [by right|]. intros [?|[_ ?]]; [lia|done].
  - rewrite Z.ltb_ge. split; [left; lia|]. intros [?|[? _]]; lia.
Qed.

(** [collapse] accounts for every line exactly once: each group stands for a
    different collapsed text and carries the number of lines that collapse to
    it, the counts add up, and the groups come largest first, then by text. *)
Theorem collapse_counts lines :
  NoDup (g_line <$> collapse lines) ∧
  Forall (λ g, g_n g = Z.of_nat (length (filter (λ l, collapse_line l = g_line g) lines))) (collapse lines) ∧
  sum_n (collapse lines) = Z.of_nat (length lines) ∧
  StronglySorted group_before (collapse lines).
Proof.
  unfold collapse. fold (to_groups (foldl count_line ∅ lines)).
  pose proof (sort_stable_perm group_less (to_groups (foldl count_line ∅ lines))) as Hp.
  pose proof (sort_stable_sorted group_less (to_groups (foldl count_line ∅ lines))) as Hs.
  assert (g_line <$> to_groups (foldl count_line ∅ lines) = (map_to_list (foldl count_line ∅ lines)).*1) as Hl.
  { unfold to_groups. rewrite <-list_fmap_compose. done. }
  split_and!.
  - rewrite Hp, Hl. apply NoDup_fst_map_to_list.
  - rewrite Hp. apply Forall_forall. intros g ([k v] & -> & Hin)%list_elem_of_fmap.
    apply elem_of_map_to_list in Hin. pose proof (count_lookup lines ∅ k) as Hc.
    rewrite Hin, lookup_empty in Hc. exact Hc.
  - rewrite Hp, count_fold. done.
  - clear Hp. induction Hs as [|x k Hk IH Hall]; constructor; [done|].
    eapply Forall_impl; [exact Hall|]. intros y. apply group_less_spec.
Qed.
