(* ===== verification/Run.v ===== *)
(** * tools/pvmtest: run.go, boot.go, env.go and the run command of main.go

    What boots an item takes and in which order, the qemu command line of each,
    how a boot is judged from its log, the pool that runs boots in parallel (a
    step relation over the goroutines that hold the semaphore) and the loop of
    [cmdRun] with its exit status.  Environment variables, files and what the
    boots themselves do are arguments. *)
From Stdlib Require Import Ascii SpecFloat.
From S2P Require Import Prelude GoStrings Regexp Spec ParseLog Checks.

Record Boot := {
  b_Item : Item; Vendor : string; CPUs : Z; Rep : Z; Side : string; LogName : string
}.

(** ** env.go *)
Record Config := {
  Testbed : string; Out : string; Cache : string; KSRC : string; Jobs : Z; Qemu : string;
  c_GuestCPUs : string; c_GuestMem : string; L1CPUs : string; L1Mem : string; BootTimeout : Z
}.
Definition envOr (getenv : string → string) (k def : string) : string :=
  let v := getenv k in if seqb v "" then def else v.
Definition path_join (a b : string) : string := a +:+ "/" +:+ b.

(** [LoadConfig]: [tb] is [testbedDir()], [ncpu] is [runtime.NumCPU()]. *)
Definition positive_or (v : option Z) (def : Z) : Z :=
  match v with Some n => if (n <=? 0)%Z then def else n | None => def end.
Definition LoadConfig (getenv : string → string) (tb : string) (ncpu : Z) : Config := {|
  Testbed := tb;
  Out := envOr getenv "OUT" (path_join tb "out");
  Cache := envOr getenv "CACHE" (path_join tb "cache");
  KSRC := getenv "KSRC";
  Jobs := positive_or (atoi (getenv "JOBS")) ncpu;
  Qemu := envOr getenv "QEMU" "qemu-system-x86_64";
  c_GuestCPUs := envOr getenv "GUEST_CPUS" "2";
  c_GuestMem := envOr getenv "GUEST_MEM" "1G";
  L1CPUs := envOr getenv "L1_CPUS" "8";
  L1Mem := envOr getenv "L1_MEM" "8G";
  BootTimeout := positive_or (atoi (getenv "BOOT_TIMEOUT")) 180
|}.
Definition With (c : Config) (out ksrc : string) : Config := {|
  Testbed := Testbed c; Out := if seqb out "" then Out c else out; Cache := Cache c;
  KSRC := if seqb ksrc "" then KSRC c else ksrc; Jobs := Jobs c; Qemu := Qemu c;
  c_GuestCPUs := c_GuestCPUs c; c_GuestMem := c_GuestMem c; L1CPUs := L1CPUs c; L1Mem := L1Mem c;
  BootTimeout := BootTimeout c |}.

(** ** PinCPUList: the CPUs that share the highest frequency *)
Definition prec : Z := 53.
Definition emax : Z := 1024.
(** 0.9 as a float64. *)
Definition f0_9 : spec_float := S754_finite false 8106479329266893 (-53).
Section Pin.
Context (ParseFloat : string → option spec_float).
(** [cpus] are the directories found, with their cpuinfo_max_freq. *)
Definition pin_cpu (d : string * option string) : option (Z * spec_float) :=
  match atoi (trim_prefix (Base d.1) "cpu"), d.2 with
  | Some id, Some raw => match ParseFloat (trim_space raw) with
                         | Some khz => Some (id, khz)
                         | None => None
                         end
  | _, _ => None
  end.
Definition PinCPUList (pin : string) (dirs : list (string * option string)) : string :=
  if seqb pin "none" then "" else
  if negb (seqb pin "") then pin else
  let cpus := omap pin_cpu dirs in
  let top := foldl (λ top c, if SFltb top c.2 then c.2 else top) (S754_zero false) cpus in
  if SFeqb top (S754_zero false) then "" else
  let cpus := sort_stable (λ a b, (a.1 <? b.1)%Z) cpus in
  let fast := omap (λ c, if SFleb (SFmul prec emax top f0_9) c.2 then Some (itoa c.1) else None) cpus in
  if (length fast <=? 1) || (length cpus <=? length fast) then "" else join "," fast.
End Pin.

(** ** Boots *)
Definition vendorsOf (it : Item) : list string := default ["pvm"] (List_ it "vendor").
(** [for x := lo; x <= hi; x++]. *)
Definition upto (hi : Z) : list Z := Z.of_nat <$> seq 1 (Z.to_nat hi).

Definition boots_of (it : Item) (side : string) (rep c : Z) : list Boot :=
  (λ v, {| b_Item := it; Vendor := v; CPUs := c; Rep := rep; Side := side; LogName := "" |})
    <$> vendorsOf it.
Definition sides (rep : Z) : list string :=
  if (Z.rem rep 2 =? 0)%Z then ["b"; "a"] else ["a"; "b"].
Definition boots_at (it : Item) (rep c : Z) : list Boot :=
  if seqb (Kind it) "ab" then sides rep ≫= (λ s, boots_of (Variant it s) s rep c)
  else boots_of it "" rep c.
Definition set_log (reps : Z) (b : Boot) : Boot :=
  let name := i_Name (b_Item b) +:+ "-" +:+ Vendor b in
  let name := if (0 <? CPUs b)%Z then name +:+ "-cpu" +:+ itoa (CPUs b) else name in
  let name := if (1 <? reps)%Z then name +:+ "-r" +:+ itoa (Rep b) else name in
  {| b_Item := b_Item b; Vendor := Vendor b; CPUs := CPUs b; Rep := Rep b; Side := Side b; LogName := name |}.
Definition Boots (it : Item) : string + list Boot :=
  match Ints it "cpus" [0%Z] with
  | inl e => inl e
  | inr cpus =>
      match Ints it "reps" [1%Z] with
      | inl e => inl e
      | inr [] => inl "" (* reps[0] out of range: Ints gives at least one *)
      | inr (reps :: _) =>
          inr (set_log reps <$> (upto reps ≫= λ rep, cpus ≫= λ c, boots_at it rep c))
      end
  end.

(** ** One boot of L1 *)
Record L1Opts := {
  o_Suite : string; o_Vendor : string; Guest : list string; Mod : list string; o_CPUs : string;
  Mem : string; Profile : string; L1Args : list string; Accel : string; CPU : string;
  o_Timeout : Z; Log : string; Echo : bool; Pin : bool; QMP : string; Debug_ : string
}.
Definition second : Z := 1000000000.

Definition outFor (out : string) (it : Item) : string :=
  let k := Get it "kernel" "" in
  if seqb k "" then out else path_join (path_join out "refs") k.

(** [built] and [config] are the files, [None] when they cannot be read. *)
Definition hostVariant (built config : option string) : string :=
  let from_config :=
    match config with
    | None => "unknown"
    | Some cfg => if contains cfg (nl +:+ "CONFIG_KVM_PVM_STATS=y") then "stats" else "timing"
    end in
  match built with
  | Some raw => match GoStrings.fields raw with [_; v] => v | _ => from_config end
  | None => from_config
  end.

Definition l1Opts (getenv : string → string) (b : Boot) : string + L1Opts :=
  let it := b_Item b in
  let only := match List_ it "cases" with
              | Some cases => ["pvmtest.only=" +:+ join "|" cases]
              | None => []
              end in
  let statsmsr := if seqb (Get it "stats" "") "on" then ["pvmtest.statsmsr=0x4b564d2f"] else [] in
  let guest := only ++ statsmsr ++ default [] (List_ it "guest") in
  let pti := if seqb (Get it "pti" "") "on" then ["pti=on"] else [] in
  let l1 := Get it "l1" "kvm" in
  let tcg := seqb l1 "tcg" || seqb l1 "tcg-la57" in
  if negb (seqb l1 "kvm" || tcg) then inl ("l1=" +:+ Get it "l1" "" +:+ ": kvm, tcg or tcg-la57") else
  let accel := if tcg then "tcg" else "" in
  let cpu := if tcg then (if seqb (Get it "l1" "") "tcg-la57" then "max,la57=on" else "max") else "" in
  let l1args := pti ++ (if tcg then ["pvmtest.guest_timeout=15000"] else []) ++
                default [] (List_ it "l1append") in
  let timeout := if tcg then (20000 * second)%Z else 0%Z in
  let p := Get it "profile" "" in
  let suite := if seqb p "" then Get it "suite" "default" else "profile" in
  let mk timeout := {|
    o_Suite := suite; o_Vendor := Vendor b; Guest := guest; Mod := default [] (List_ it "mod");
    o_CPUs := if (0 <? CPUs b)%Z then itoa (CPUs b) else ""; Mem := ""; Profile := p;
    L1Args := l1args; Accel := accel; CPU := cpu; o_Timeout := timeout; Log := ""; Echo := false;
    Pin := false; QMP := getenv "L1_QMP"; Debug_ := getenv "L1_QEMU_DEBUG" |} in
  let t := Get it "timeout" "" in
  if seqb t "" then inr (mk timeout) else
  match atoi t with
  | None => inl ("timeout=" +:+ t +:+ ": seconds")
  | Some n => inr (mk (int64 (n * second)))
  end.

(** The defaults [BootL1] fills in. *)
Definition long_suites : list string := ["full"; "perf"; "all"; "profile"; "lock"; "mmu"; "kut"].
Definition BootL1_defaults (c : Config) (o : L1Opts) : L1Opts :=
  let suite := if seqb (o_Suite o) "" then "default" else o_Suite o in
  let vendor := if seqb (o_Vendor o) "" then "pvm" else o_Vendor o in
  {| o_Suite := suite; o_Vendor := vendor; Guest := Guest o; Mod := Mod o; o_CPUs := o_CPUs o;
     Mem := Mem o; Profile := Profile o; L1Args := L1Args o;
     Accel := if seqb (Accel o) "" then "kvm" else Accel o;
     CPU := if seqb (CPU o) "" then "host" else CPU o;
     o_Timeout := if (o_Timeout o =? 0)%Z
                  then (if bool_decide (suite ∈ long_suites) then 2400 * second
                        else int64 (int64 (3 * BootTimeout c) * second))%Z
                  else o_Timeout o;
     Log := if seqb (Log o) ""
            then path_join (path_join (Out c) "logs") ("l1-" +:+ suite +:+ "-" +:+ vendor +:+ ".log")
            else Log o;
     Echo := Echo o; Pin := Pin o; QMP := QMP o; Debug_ := Debug_ o |}.

(** The kernel command line of L1. *)
Definition L1Append (o : L1Opts) : list string :=
  ["root=/dev/vda"; "rw"; "console=ttyS0,115200"; "panic=-1";
   "pvmtest.suite=" +:+ o_Suite o; "pvmtest.vendor=" +:+ o_Vendor o] ++
  (if seqb (Profile o) "" then [] else ["pvmtest.profile_case=" +:+ Profile o]) ++
  (if 0 <? length (Guest o) then ["pvmtest.guest_append=" +:+ join "," (Guest o)] else []) ++
  (if 0 <? length (Mod o) then ["pvmtest.mod_args=" +:+ join "," (Mod o)] else []) ++
  (if seqb (o_CPUs o) "" then [] else ["pvmtest.guest_cpus=" +:+ o_CPUs o]) ++
  (if seqb (Mem o) "" then [] else ["pvmtest.guest_mem=" +:+ Mem o]) ++
  (if seqb (o_Vendor o) "pvm" then ["pvm_host"] else []) ++
  L1Args o ++
  ["systemd.mask=serial-getty@ttyS0.service"; "systemd.show_status=false"].

Definition L1Argv (pinList : string) (c : Config) (o : L1Opts) (payload : string) : list string :=
  let img := path_join (Out c) "images" in
  (if Pin o && seqb (Accel o) "kvm" && negb (seqb pinList "") then ["taskset"; "-c"; pinList] else []) ++
  [Qemu c;
   "-machine"; "q35,accel=" +:+ Accel o;
   "-cpu"; CPU o;
   "-smp"; L1CPUs c; "-m"; L1Mem c;
   "-kernel"; path_join img "host-bzImage";
   "-drive"; "file=" +:+ path_join img "l1-rootfs.ext4" +:+ ",if=virtio,format=raw,snapshot=on";
   "-append"; join " " (L1Append o);
   "-virtfs"; "local,path=" +:+ payload +:+ ",mount_tag=payload,security_model=none,readonly=on"] ++
  (if seqb (Debug_ o) "" then []
   else ["-d"; Debug_ o; "-D"; path_join (path_join (Out c) "logs") "l1-qemu-debug.log"]) ++
  (if seqb (QMP o) "" then [] else ["-qmp"; "unix:" +:+ QMP o +:+ ",server=on,wait=off"]) ++
  ["-nographic"; "-no-reboot"; "-display"; "none"; "-serial"; "mon:stdio"].

(** ** Judging a boot *)
Definition judge (b : Boot) (o : Outcome) (logText : string) (exitCode : Z) (checks : list string)
    : string * string :=
  let it := b_Item b in
  if seqb (Get it "expect" "pass") "refuse-load" then
    let refused := LoadFailed o || seqb (FailClosed o) "ok" in
    if negb refused then ("FAIL", "the module loaded; expected it to refuse") else
    let r := Get it "reason" "" in
    let bad_reason :=
      if seqb r "" then None else
      match compile ("(?i)" +:+ r) with
      | None => Some "reason: error parsing regexp"
      | Some re => if is_match re logText then None
                   else Some ("refused, but nothing in the log says /" +:+ r +:+ "/")
      end in
    match bad_reason with
    | Some why => ("FAIL", why)
    | None =>
        match checks with
        | c :: _ => ("FAIL", "refused, but " +:+ c)
        | [] => ("ok", "module refused to load, as expected")
        end
    end
  else if LoadFailed o then ("FAIL", "the vendor module did not load") else
  let unexpected := Unexpected o (default [] (List_ it "allow-fail")) in
  if 0 <? length unexpected then ("FAIL", "failed: " +:+ join " " unexpected) else
  if (0 <? HostFail o)%Z then ("FAIL", itoa (HostFail o) +:+ " host test(s) failed") else
  if (length (Passed o) =? 0) && (HostPass o =? 0)%Z && (Selftests o =? 0)%Z && (KUT o =? 0)%Z &&
     (length (Metrics o) =? 0)
  then ("FAIL", "no results in the log (run-l1 exit " +:+ itoa exitCode +:+ ")") else
  match checks with
  | c :: _ => ("FAIL", c)
  | [] =>
      let why := itoa (int64 (Z.of_nat (length (Passed o)) + HostPass o)) +:+ " passed" in
      let why := if (0 <? Selftests o)%Z
                 then why +:+ ", " +:+ itoa (Selftests o) +:+ " selftests as expected" else why in
      let why := if (0 <? KUT o)%Z
                 then itoa (KUT o) +:+ " kvm-unit-tests as expected (" +:+ kutConfig it +:+ ", " +:+
                      kutSummary logText +:+ ")" else why in
      let why := if 0 <? length (Failed o)
                 then why +:+ ", " +:+ itoa (Z.of_nat (length (Failed o))) +:+ " allowed failure(s): " +:+
                      join " " (Failed o) else why in
      ("ok", why)
  end.

(** The checkers' errors on a finished log, given the answer of each. *)
Definition logChecks (b : Boot) (logExists : bool) (sanitize selftests kut : option string)
    : list string :=
  if negb logExists then [] else
  (match sanitize with Some e => ["sanitize: " +:+ e] | None => [] end) ++
  (let suite := Get (b_Item b) "suite" "" in
   if seqb suite "hosttests" then
     match selftests with Some e => ["selftests: " +:+ e] | None => [] end
   else if seqb suite "kut" then
     match kut with Some e => ["kvm-unit-tests: " +:+ e] | None => [] end
   else []).

Record Status := { s_Boot : Boot; s_Outcome : Outcome; Verdict : string; Why : string }.
(** The end of [runBoot]: the judgement and the error of the boot itself. *)
Definition runBoot_end (b : Boot) (oc : Outcome) (raw : string) (checks : list string)
    (bootErr : option string) : Status :=
  let '(verdict, why) := judge b oc raw 0 checks in
  match bootErr with
  | Some e =>
      if seqb verdict "ok" then {| s_Boot := b; s_Outcome := oc; Verdict := "FAIL"; Why := e |}
      else {| s_Boot := b; s_Outcome := oc; Verdict := verdict; Why := why +:+ " (" +:+ e +:+ ")" |}
  | None => {| s_Boot := b; s_Outcome := oc; Verdict := verdict; Why := why |}
  end.

(** The counters table of a boot. *)
Definition writeStats (pairs : list StatsPair) (ks : list string) : string :=
  "counter" +:+ foldr (λ p s, tab +:+ s_Name p +:+ s) "" pairs +:+ nl +:+
  foldr (λ k s, k +:+ foldr (λ p s, tab +:+ itoa (default 0%Z (Deltas p !! k)) +:+ s) "" pairs +:+ nl +:+ s)
    "" ks.

(** ** The boots of an item *)

Lemma elem_of_upto hi x : x ∈ upto hi ↔ (1 ≤ x ≤ hi)%Z.
Proof.
  unfold upto. rewrite list_elem_of_fmap. setoid_rewrite elem_of_seq. split.
  - intros (y & -> & ?). lia.
  - intros. exists (Z.to_nat x). lia.
Qed.
Lemma upto_NoDup hi : NoDup (upto hi).
Proof. apply NoDup_fmap_2; [intros ???; lia|apply NoDup_seq]. Qed.

Lemma NoDup_bind_strong {A B} (f : A → list B) (l : list A) :
  NoDup l → (∀ x, x ∈ l → NoDup (f x)) →
  (∀ x y z, x ∈ l → y ∈ l → z ∈ f x → z ∈ f y → x = y) → NoDup (l ≫= f).
Proof.
  induction 1 as [|x l Hx _ IH]; intros Hf Hd; simpl; [constructor|].
  apply NoDup_app. split_and!.
  - apply Hf. by left.
  - intros z Hz (y & Hzy & Hy)%list_elem_of_bind.
    assert (x = y) as -> by (eapply Hd; [by left|by right|done..]). done.
  - apply IH; [intros; apply Hf; by right|]. intros y1 y2 z H1 H2. apply Hd; by right.
Qed.

(** A word without dashes, then nothing or a dash. *)
Definition dash_tail (s : string) : Prop := s = "" ∨ ∃ x, s = String "-" x.
Lemma word_dash v v' s s' :
  no_byte "-" v = true → no_byte "-" v' = true → dash_tail s → dash_tail s' →
  v +:+ s = v' +:+ s' → v = v' ∧ s = s'.
Proof.
  intros Hv Hv' Hs Hs' E.
  assert (cut (v +:+ s) (str1 "-") = cut (v' +:+ s') (str1 "-")) as Hc by (by rewrite E).
  destruct Hs as [->|[x ->]], Hs' as [->|[x' ->]];
    rewrite ?app_nil_r_s, ?cut_char, ?cut_char_none in Hc by done; simplify_eq; try done.
  by rewrite !app_nil_r_s in E.
Qed.

Lemma itoa_inj x y : (0 ≤ x)%Z → (0 ≤ y)%Z → itoa x = itoa y → x = y.
Proof.
  intros Hx Hy. unfold itoa. rewrite (proj2 (Z.ltb_ge x 0)), (proj2 (Z.ltb_ge y 0)) by done.
  intros E. apply (f_equal (unradix 10)) in E. rewrite !unradix_radix in E by lia.
  injection E. lia.
Qed.
Lemma itoa_no_dash x : (0 ≤ x)%Z → no_byte "-" (itoa x) = true.
Proof.
  intros Hx. eapply all_bytes_impl; [|by apply itoa_digits].
  intros c. destruct (ceq c "-") eqn:E; [|done]. apply ceq_true in E as ->. by vm_compute.
Qed.

Definition cpu_suffix (c : Z) : string := if (0 <? c)%Z then "-cpu" +:+ itoa c else "".
Definition rep_suffix (reps rep : Z) : string := if (1 <? reps)%Z then "-r" +:+ itoa rep else "".
Lemma set_log_name reps b :
  LogName (set_log reps b) =
  i_Name (b_Item b) +:+ "-" +:+ Vendor b +:+ cpu_suffix (CPUs b) +:+ rep_suffix reps (Rep b).
Proof.
  unfold set_log, cpu_suffix, rep_suffix. simpl.
  destruct (0 <? CPUs b)%Z, (1 <? reps)%Z; repeat rewrite ?app_nil_l_s, ?app_nil_r_s, ?app_assoc_s; done.
Qed.
Lemma rep_suffix_dash reps rep : dash_tail (rep_suffix reps rep).
Proof. unfold rep_suffix. destruct (1 <? reps)%Z; [right; by eexists|by left]. Qed.
Lemma suffix_dash reps c rep : dash_tail (cpu_suffix c +:+ rep_suffix reps rep).
Proof.
  unfold cpu_suffix. destruct (0 <? c)%Z; [right; by eexists|apply rep_suffix_dash].
Qed.

Lemma suffix_inj reps c c' r r' :
  (0 ≤ c)%Z → (0 ≤ c')%Z → (1 ≤ r ≤ reps)%Z → (1 ≤ r' ≤ reps)%Z →
  cpu_suffix c +:+ rep_suffix reps r = cpu_suffix c' +:+ rep_suffix reps r' → c = c' ∧ r = r'.
Proof.
  intros Hc Hc' Hr Hr' E.
  assert (c = c' ∧ rep_suffix reps r = rep_suffix reps r') as [-> Hs].
  { unfold cpu_suffix in E.
    destruct (Z.ltb_spec 0 c), (Z.ltb_spec 0 c'); rewrite ?app_nil_l_s, ?app_assoc_s in E.
    - apply app_inj_s in E. apply word_dash in E as [Ei ->];
        [|apply itoa_no_dash, Hc|apply itoa_no_dash, Hc'|apply rep_suffix_dash..].
      split; [by apply itoa_inj|done].
    - unfold rep_suffix in E at 2. by destruct (1 <? reps)%Z.
    - unfold rep_suffix in E at 1. by destruct (1 <? reps)%Z.
    - split; [lia|done]. }
  split; [done|]. unfold rep_suffix in Hs. destruct (Z.ltb_spec 1 reps); [|lia].
  apply app_inj_s in Hs. apply itoa_inj; [lia..|done].
Qed.

(** The items an item boots: itself, or its two variants. *)
Definition item_sides (it : Item) : list (string * Item) :=
  if seqb (Kind it) "ab" then [("a", Variant it "a"); ("b", Variant it "b")] else [("", it)].

(** The boots of an item before their log names, by what distinguishes them. *)
Definition plain_boot (it : Item) (b : Boot) : Prop :=
  LogName b = "" ∧ (Side b, b_Item b) ∈ item_sides it ∧ Vendor b ∈ vendorsOf (b_Item b).

Lemma elem_of_sides rep s : s ∈ sides rep ↔ s = "a" ∨ s = "b".
Proof.
  unfold sides. destruct (_ =? _)%Z; rewrite !elem_of_cons, elem_of_nil; tauto.
Qed.
Lemma elem_of_boots_of it side rep c b :
  b ∈ boots_of it side rep c ↔
  b_Item b = it ∧ Side b = side ∧ Rep b = rep ∧ CPUs b = c ∧ LogName b = "" ∧ Vendor b ∈ vendorsOf it.
Proof.
  unfold boots_of. rewrite list_elem_of_fmap. split.
  - by intros (v & -> & Hv).
  - destruct b; simpl. intros (-> & -> & -> & -> & -> & Hv). by eexists.
Qed.
Lemma elem_of_boots_at it rep c b :
  b ∈ boots_at it rep c ↔ plain_boot it b ∧ Rep b = rep ∧ CPUs b = c.
Proof.
  unfold boots_at, plain_boot, item_sides. destruct (seqb (Kind it) "ab").
  - rewrite list_elem_of_bind. setoid_rewrite elem_of_boots_of. setoid_rewrite elem_of_sides.
    rewrite !elem_of_cons, elem_of_nil. split.
    + intros (s & (Hi & Hs & Hr & Hc & Hl & Hv) & Hab). rewrite Hi, Hs. split_and!; try done.
      destruct Hab as [-> | ->]; [by left|right; by left].
    + intros ((Hl & Hs & Hv) & Hr & Hc). exists (Side b).
      destruct Hs as [[= Hs Hi]|[[= Hs Hi]|[]]]; rewrite Hi in Hv |- *; rewrite Hs;
        (split; [by split_and!|]); [by left|by right].
  - rewrite elem_of_boots_of, list_elem_of_singleton. split.
    + intros (Hi & Hs & Hr & Hc & Hl & Hv). rewrite Hi, Hs. by split_and!.
    + intros ((Hl & [= Hs Hi] & Hv) & Hr & Hc). rewrite Hi in Hv. by split_and!.
Qed.

Lemma boots_at_NoDup it rep c :
  Forall (λ si, NoDup (vendorsOf si.2)) (item_sides it) → NoDup (boots_at it rep c).
Proof.
  assert (∀ it s, NoDup (vendorsOf it) → NoDup (boots_of it s rep c)) as Hof.
  { intros it' s Hv. apply NoDup_fmap_2; [|done]. by intros v v' [=]. }
  unfold boots_at, item_sides. intros H. destruct (seqb (Kind it) "ab").
  - apply Forall_cons in H as [Ha [Hb _]%Forall_cons]. apply NoDup_bind_strong.
    + unfold sides. by destruct (_ =? _)%Z; apply NoDup_cons; split;
        [rewrite list_elem_of_singleton|apply NoDup_singleton|rewrite list_elem_of_singleton|apply NoDup_singleton].
    + intros s [->| ->]%elem_of_sides; by apply Hof.
    + intros s s' b _ _ (_ & <- & _)%elem_of_boots_of (_ & <- & _)%elem_of_boots_of. done.
  - apply Forall_cons in H as [H _]. by apply Hof.
Qed.

(** The log name identifies the boot. *)
Lemma log_name_inj it reps b b' :
  plain_boot it b → plain_boot it b' →
  Forall (λ si, Forall (λ v, no_byte "-" v = true) (vendorsOf si.2)) (item_sides it) →
  (0 ≤ CPUs b)%Z → (0 ≤ CPUs b')%Z → (1 ≤ Rep b ≤ reps)%Z → (1 ≤ Rep b' ≤ reps)%Z →
  LogName (set_log reps b) = LogName (set_log reps b') → b = b'.
Proof.
  intros (Hl & Hs & Hv) (Hl' & Hs' & Hv') Hd Hc Hc' Hr Hr'. rewrite !set_log_name. intros E.
  rewrite Forall_forall in Hd. pose proof (Hd _ Hs) as Hdv. pose proof (Hd _ Hs') as Hdv'.
  rewrite Forall_forall in Hdv, Hdv'. specialize (Hdv _ Hv). specialize (Hdv' _ Hv').
  assert (b_Item b = b_Item b' ∧ Side b = Side b' ∧
    Vendor b +:+ cpu_suffix (CPUs b) +:+ rep_suffix reps (Rep b) =
    Vendor b' +:+ cpu_suffix (CPUs b') +:+ rep_suffix reps (Rep b')) as (Hi & Hsd & E2).
  { unfold item_sides in Hs, Hs'. destruct (seqb (Kind it) "ab").
    - rewrite !elem_of_cons, elem_of_nil in Hs, Hs'.
      destruct Hs as [[= Hs Hi]|[[= Hs Hi]|[]]], Hs' as [[= Hs' Hi']|[[= Hs' Hi']|[]]];
        rewrite Hi, Hi' in E; simpl in E; rewrite !app_assoc_s in E;
        apply app_inj_s, app_inj_s in E; try discriminate E; apply app_inj_s, app_inj_s in E;
        split_and!; congruence.
    - apply list_elem_of_singleton in Hs, Hs'. injection Hs as Hs Hi. injection Hs' as Hs' Hi'. rewrite Hi, Hi' in E.
      apply app_inj_s, app_inj_s in E. split_and!; congruence. }
  apply word_dash in E2 as [Ev Esuf]; [|done|done|apply suffix_dash..].
  apply suffix_inj in Esuf as [Ec Er]; [|done..].
  destruct b, b'; simpl in *; congruence.
Qed.

(** C25: the boots of an item: one for each repetition, CPU count, side and
    vendor, and no two of them write the same log. *)
Theorem Boots_logs it bs cpus reps rest :
  Boots it = inr bs → Ints it "cpus" [0%Z] = inr cpus → Ints it "reps" [1%Z] = inr (reps :: rest) →
  NoDup cpus → Forall (λ c, 0 ≤ c)%Z cpus →
  Forall (λ si, NoDup (vendorsOf si.2) ∧ Forall (λ v, no_byte "-" v = true) (vendorsOf si.2))
    (item_sides it) →
  NoDup (LogName <$> bs) ∧
  ∀ b, b ∈ bs ↔ ∃ b0, b = set_log reps b0 ∧ plain_boot it b0 ∧ (1 ≤ Rep b0 ≤ reps)%Z ∧ CPUs b0 ∈ cpus.
Proof.
  intros Hb Hcpus Hreps Hnd Hpos Hv. unfold Boots in Hb. rewrite Hcpus, Hreps in Hb. simplify_eq.
  set (raw := upto reps ≫= λ rep, cpus ≫= λ c, boots_at it rep c).
  assert (∀ b, b ∈ raw ↔ plain_boot it b ∧ (1 ≤ Rep b ≤ reps)%Z ∧ CPUs b ∈ cpus) as Hraw.
  { intros b. unfold raw. rewrite list_elem_of_bind. setoid_rewrite list_elem_of_bind.
    setoid_rewrite elem_of_boots_at. setoid_rewrite elem_of_upto. naive_solver. }
  apply Forall_and in Hv as [Hv1 Hv2]. rewrite Forall_forall in Hpos.
  split.
  - rewrite <-list_fmap_compose. apply NoDup_fmap_2_strong.
    + intros b b' (Hp & Hr & Hc)%Hraw (Hp' & Hr' & Hc')%Hraw E.
      by eapply log_name_inj; eauto.
    + unfold raw. apply NoDup_bind_strong; [apply upto_NoDup| |].
      * intros rep _. apply NoDup_bind_strong; [done|by intros; apply boots_at_NoDup|].
        intros c c' b _ _ (_ & _ & <-)%elem_of_boots_at (_ & _ & <-)%elem_of_boots_at. done.
      * intros rep rep' b _ _ (c & (_ & <- & _)%elem_of_boots_at & _)%list_elem_of_bind
          (c' & (_ & <- & _)%elem_of_boots_at & _)%list_elem_of_bind. done.
  - intros b. rewrite list_elem_of_fmap. setoid_rewrite Hraw. done.
Qed.

Definition ex_matrix : Item := {| Kind := "ab"; i_Name := "cost"; Line := 1;
  Keys := {["cpus" := "1,2"; "reps" := "3"; "b.vendor" := "kvm"]} |}.
Lemma ex_matrix_sides : item_sides ex_matrix = ltac:(let x := eval vm_compute in (item_sides ex_matrix) in exact x).
Proof. vm_done. Qed.
Lemma Boots_logs_witness : ∃ bs, Boots ex_matrix = inr bs ∧ NoDup (LogName <$> bs) ∧ length bs = 12.
Proof.
  destruct (Boots ex_matrix) as [e|bs] eqn:E; [vm_compute in E; discriminate|].
  exists bs. split; [done|]. split; [|vm_compute in E; by injection E as <-].
  apply (Boots_logs ex_matrix bs [1; 2]%Z 3 [] E).
  - vm_done.
  - vm_done.
  - by apply (bool_decide_unpack _).
  - by apply (bool_decide_unpack _).
  - rewrite ex_matrix_sides. by apply (bool_decide_unpack _).
Defined.

(** ** The judgement *)

Lemma Unexpected_nil o allow : Unexpected o allow = [] ↔ Forall (allowed allow) (Failed o).
Proof.
  rewrite Unexpected_filter. induction (Failed o) as [|f l IH]; [done|].
  rewrite filter_cons, Forall_cons, <-IH, <-allowed_spec.
  destruct (existsb _ _); case_decide; try done; naive_solver.
Qed.

(** The log has some result. *)
Definition has_results (o : Outcome) : Prop :=
  Passed o ≠ [] ∨ HostPass o ≠ 0%Z ∨ Selftests o ≠ 0%Z ∨ KUT o ≠ 0%Z ∨ Metrics o ≠ [].
(** What an item asks of the log of a boot that should pass, or that should
    refuse to load. *)
Definition passes (it : Item) (o : Outcome) : Prop :=
  LoadFailed o = false ∧ Forall (allowed (default [] (List_ it "allow-fail"))) (Failed o) ∧
  (HostFail o ≤ 0)%Z ∧ has_results o.
Definition refuses (it : Item) (o : Outcome) (logText : string) : Prop :=
  (LoadFailed o = true ∨ FailClosed o = "ok") ∧
  (Get it "reason" "" = "" ∨
   ∃ re, compile ("(?i)" +:+ Get it "reason" "") = Some re ∧ is_match re logText = true).

Lemma no_results_spec o :
  (length (Passed o) =? 0) && (HostPass o =? 0)%Z && (Selftests o =? 0)%Z && (KUT o =? 0)%Z &&
    (length (Metrics o) =? 0) = false ↔ has_results o.
Proof.
  unfold has_results. rewrite !andb_false_iff, !Nat.eqb_neq, !Z.eqb_neq.
  rewrite !length_zero_iff_nil. tauto.
Qed.

Lemma judge_refuse b o logText code checks :
  Get (b_Item b) "expect" "pass" = "refuse-load" →
  (judge b o logText code checks).1 = "ok" ↔ refuses (b_Item b) o logText ∧ checks = [].
Proof.
  intros He. unfold judge, refuses. rewrite He, seqb_refl. cbv zeta.
  destruct (LoadFailed o || seqb (FailClosed o) "ok") eqn:Er; simpl.
  2: { apply orb_false_iff in Er as [E1 E2%seqb_false]. split; [done|].
       intros [[[?|?] _] _]; congruence. }
  assert (LoadFailed o = true ∨ FailClosed o = "ok") as Hr.
  { apply orb_true_iff in Er as [?|?%seqb_true]; auto. }
  destruct (seqb_spec (Get (b_Item b) "reason" "") "") as [Ereason|Ereason].
  { destruct checks; simpl; [|by split; [|intros [_ ?]]]. split; auto. }
  destruct (compile _) as [re|] eqn:Ec; simpl.
  2: { split; [done|]. intros [(_ & [?|(re & ? & _)]) _]; congruence. }
  destruct (is_match re logText) eqn:Em; simpl.
  - destruct checks; simpl; [|by split; [|intros [_ ?]]]. split; [|done]. intros _. split; [|done].
    split; [done|]. right. by exists re.
  - split; [done|]. intros [(_ & [?|(re' & ? & ?)]) _]; congruence.
Qed.

Lemma judge_pass b o logText code checks :
  Get (b_Item b) "expect" "pass" ≠ "refuse-load" →
  (judge b o logText code checks).1 = "ok" ↔ passes (b_Item b) o ∧ checks = [].
Proof.
  intros He%seqb_false. unfold judge, passes. rewrite He. cbv zeta.
  rewrite <-Unexpected_nil, <-no_results_spec.
  destruct (LoadFailed o); [by split; [|intros [[? _] _]]|].
  destruct (Unexpected o _) as [|u us]; simpl; [|by split; [|intros [(_ & ? & _) _]]].
  destruct (Z.ltb_spec 0 (HostFail o)); simpl; [split; [done|intros [(_ & _ & ? & _) _]; lia]|].
  destruct (_ && _); simpl; [by split; [|intros [(_ & _ & _ & ?) _]]|].
  destruct checks; simpl; [|by split; [|intros [_ ?]]]. split; [|done]. by intros _.
Qed.

(** C1: the verdict of a boot: [ok] exactly when the log shows what the item
    asks for -- a module that refused for the reason given, or results with
    every failure allowed and no failed host test -- and no log checker
    complained; [FAIL] otherwise. *)
Theorem judge_ok b o logText code checks :
  ((judge b o logText code checks).1 = "ok" ↔
   (if seqb (Get (b_Item b) "expect" "pass") "refuse-load"
    then refuses (b_Item b) o logText else passes (b_Item b) o) ∧ checks = []) ∧
  ((judge b o logText code checks).1 = "ok" ∨ (judge b o logText code checks).1 = "FAIL").
Proof.
  split.
  - destruct (seqb_spec (Get (b_Item b) "expect" "pass") "refuse-load");
      [by apply judge_refuse|by apply judge_pass].
  - unfold judge. repeat case_match; auto.
Qed.

Definition killed_log : string :=
  "L1: === l1test ===" +:+ nl +:+ "H: ok 1 - kvm/run-page" +:+ nl +:+ "H: 1..3" +:+ nl +:+
  "L1: l1test exited 124" +:+ nl +:+ "PVMTEST-RESULT: fail stage=hosttests" +:+ nl.
Definition hosttests_item : Item :=
  {| Kind := "run"; i_Name := "host"; Line := 1; Keys := {["suite" := "hosttests"]} |}.
(** A hosttests boot whose second program was killed by its timeout: the
    agent reports [PVMTEST-RESULT: fail], and the boot is judged [ok], because
    [judge] never looks at the result words [ParseLog] collects. *)
Theorem judge_ignores_agent_fail :
  ∃ o, ParseLog (λ _, None) killed_log = Some o ∧ Results o = ["fail"] ∧
    ∀ vendor log, (judge {| b_Item := hosttests_item; Vendor := vendor; CPUs := 0; Rep := 1; Side := "";
                           LogName := log |} o killed_log 0 []).1 = "ok".
Proof.
  eexists. split; [vm_compute; reflexivity|]. split; [reflexivity|].
  intros vendor log. apply judge_pass; [by vm_compute|]. split; [|done].
  split_and!; [done|constructor|done|by left].
Qed.

(** [runBoot]'s verdict is [ok] only when the boot itself had no error. *)
Lemma runBoot_end_ok b oc raw checks bootErr :
  Verdict (runBoot_end b oc raw checks bootErr) = "ok" →
  bootErr = None ∧ (judge b oc raw 0 checks).1 = "ok".
Proof.
  unfold runBoot_end. destruct (judge b oc raw 0 checks) as [v w].
  destruct bootErr; simpl; [|done].
  destruct (seqb_spec v "ok"); simpl; [done|]. by intros ->.
Qed.
