(* ===== verification/Boot.v ===== *)
(** * tools/pvmtest/boot.go: BootL1, BootGuest, HostSelftest and Regress

    What a boot checks before it starts qemu, the command line it starts, and
    the error it returns.  Which files exist, what [runQemu] does (start the
    process group, copy its output to the log, bound it) and the sanitizer's
    answer are arguments. *)
From Stdlib Require Import Ascii.
From S2P Require Import Prelude GoStrings Regexp Spec ParseLog Checks Run.

(** What [runQemu] leaves: whether it timed out, an error that is not qemu's
    exit status, and the log. *)
Record qemu_run := { timedOut : bool; startErr : option string; rawLog : string }.

Record GuestOpts := {
  g_Boot : string; g_Suite : string; g_Name : string; g_Kernel : string; Extra : list string;
  g_Echo : bool
}.
Definition resultRe0 : re := must_compile "(?m)^PVMTEST-RESULT: (ok|fail) .*$".
Definition upRe : re := must_compile "(?m)^PVMINIT: up".
Lemma boot_compile_ok :
  Forall (λ p, is_Some (compile p)) ["(?m)^PVMTEST-RESULT: (ok|fail) .*$"; "(?m)^PVMINIT: up"].
Proof. repeat constructor; vm_compute; eauto. Qed.

(** [time.Duration.String]. *)
Definition frac (prec : nat) (v : Z) : string :=
  let t := trim_right (ceq "0") (pad_left "0" prec (itoa (v mod 10 ^ Z.of_nat prec)%Z)) in
  if seqb t "" then "" else "." +:+ t.
Definition Duration_String (d : Z) : string :=
  let u := Z.abs d in
  let sec := (u / second)%Z in
  let s := itoa (sec mod 60)%Z +:+ frac 9 u +:+ "s" in
  let m := (sec / 60)%Z in
  (if (d <? 0)%Z then "-" else "") +:+
  (if (u =? 0)%Z then "0s" else
   if (u <? 1000)%Z then itoa u +:+ "ns" else
   if (u <? 1000000)%Z then itoa (u / 1000)%Z +:+ frac 3 u +:+ str1 "194" +:+ str1 "181" +:+ "s" else
   if (u <? second)%Z then itoa (u / 1000000)%Z +:+ frac 6 u +:+ "ms" else
   if (m =? 0)%Z then s else
   (if (m / 60 =? 0)%Z then "" else itoa (m / 60)%Z +:+ "h") +:+ itoa (m mod 60)%Z +:+ "m" +:+ s).
Example duration_examples :
  Duration_String (540 * second) = "9m0s" ∧ Duration_String (20000 * second) = "5h33m20s" ∧
  Duration_String 1500000000 = "1.5s" ∧ Duration_String 2500000 = "2.5ms" ∧ Duration_String 0 = "0s".
Proof. vm_compute. done. Qed.

Section Boot.
Context (needRun : option string) (fileExists : string → bool) (pinList : string).
Context (qemu : list string → string → Z → qemu_run).
(** [Sanitize] on one log. *)
Context (sanitize : string → option string).

Definition err_or (c : bool) (e : string) (k : option string) : option string := if c then Some e else k.

(** [BootL1]; [stage] is the staging of the payload in a new directory. *)
Definition BootL1 (c : Config) (o : L1Opts) (stage : option string) (payload : string) : string * option string :=
  match needRun with Some e => ("", Some e) | None =>
  let img := path_join (Out c) "images" in
  if negb (fileExists (path_join img "host-bzImage"))
  then ("", Some ("no host kernel in " +:+ img +:+ " -- build it first")) else
  if negb (fileExists (path_join img "l1-rootfs.ext4"))
  then ("", Some ("no L1 rootfs in " +:+ img +:+ " -- pvmtest build rootfs")) else
  match stage with Some e => ("", Some e) | None =>
  let o := BootL1_defaults c o in
  let r := qemu (L1Argv pinList c o payload) (Log o) (o_Timeout o) in
  if timedOut r then (Log o, Some ("L1 timed out after " +:+ Duration_String (o_Timeout o) +:+ " -- see " +:+ Log o)) else (Log o, startErr r)
  end end.

Definition guest_defaults (o : GuestOpts) : GuestOpts :=
  let boot := if seqb (g_Boot o) "" then "pvh" else g_Boot o in
  let suite := if seqb (g_Suite o) "" then "default" else g_Suite o in
  {| g_Boot := boot; g_Suite := suite;
     g_Name := if seqb (g_Name o) "" then "guest-" +:+ boot +:+ "-" +:+ suite else g_Name o;
     g_Kernel := g_Kernel o; Extra := Extra o; g_Echo := g_Echo o |}.
Definition guest_kernel (img : string) (o : GuestOpts) : string + string :=
  if seqb (g_Kernel o) "" then
    if seqb (g_Boot o) "pvh" then inr (path_join img "guest-vmlinux") else
    if seqb (g_Boot o) "bzimage" then inr (path_join img "guest-bzImage") else
    inl ("unknown boot mode " +:+ quote (g_Boot o))
  else inr (g_Kernel o).
Definition guest_argv (c : Config) (o : GuestOpts) (kernel initrd : string) : list string :=
  (if seqb pinList "" then [] else ["taskset"; "-c"; pinList]) ++
  [Qemu c; "-machine"; "q35,accel=kvm"; "-cpu"; "host"; "-smp"; c_GuestCPUs c; "-m"; c_GuestMem c;
   "-kernel"; kernel; "-initrd"; initrd; "-append";
   "console=ttyS0,115200 earlyprintk=serial,ttyS0,115200 panic=-1 oops=panic no_timer_check " +:+
   "pvmtest.suite=" +:+ g_Suite o +:+ " pvmtest.tag=" +:+ g_Name o;
   "-nographic"; "-no-reboot"; "-serial"; "mon:stdio"; "-display"; "none"] ++ Extra o.

(** The verdict of a finished boot. *)
Definition guest_verdict (name log raw : string) : option string :=
  let sanErr := sanitize log in
  match find resultRe0 raw with
  | Some x =>
      if seqb (group 1 x) "ok" then
        match sanErr with
        | Some _ => Some (name +:+ ": every case passed, but the kernel log did not")
        | None => None
        end
      else Some (name +:+ " failed")
  | None => Some (name +:+ ": the guest never reported a result -- see " +:+ log)
  end.
Definition BootGuest (c : Config) (o : GuestOpts) : option string :=
  match needRun with Some e => Some e | None =>
  let o := guest_defaults o in
  let img := path_join (Out c) "images" in
  match guest_kernel img o with inl e => Some e | inr kernel =>
  if negb (fileExists kernel) then Some ("no " +:+ kernel +:+ " -- build the guest kernel first") else
  let initrd := path_join img "initrd.cpio.gz" in
  if negb (fileExists initrd) then Some "no initrd -- pvmtest build initrd" else
  let log := path_join (path_join (Out c) "logs") (g_Name o +:+ ".log") in
  let r := qemu (guest_argv c o kernel initrd) log (int64 (BootTimeout c * second)) in
  if timedOut r
  then Some (g_Name o +:+ ": timed out after " +:+ itoa (BootTimeout c) +:+ "s -- see " +:+ log)
  else guest_verdict (g_Name o) log (rawLog r)
  end end.

Definition host_argv (c : Config) : list string :=
  let img := path_join (Out c) "images" in
  [Qemu c; "-machine"; "q35,accel=kvm"; "-cpu"; "host"; "-smp"; "2"; "-m"; "2G";
   "-kernel"; path_join img "host-bzImage"; "-initrd"; path_join img "initrd.cpio.gz"; "-append";
   "console=ttyS0,115200 earlyprintk=serial,ttyS0,115200 panic=-1 oops=panic " +:+
   "pvmtest.suite=smoke pvmtest.tag=host-selftest";
   "-nographic"; "-no-reboot"; "-display"; "none"; "-serial"; "mon:stdio"].
Definition HostSelftest (c : Config) : option string :=
  match needRun with Some e => Some e | None =>
  let log := path_join (path_join (Out c) "logs") "host-selftest.log" in
  let r := qemu (host_argv c) log (int64 (BootTimeout c * second)) in
  if timedOut r then Some ("host kernel timed out -- see " +:+ log) else
  if negb (is_match upRe (rawLog r))
  then Some ("the host kernel never reached user space -- see " +:+ log)
  else sanitize log
  end.

Definition regress_guest (boot suite : string) : GuestOpts :=
  {| g_Boot := boot; g_Suite := suite; g_Name := "regress-" +:+ boot +:+ "-" +:+ suite; g_Kernel := "";
     Extra := []; g_Echo := false |}.
Definition Regress (c : Config) : option string :=
  let steps := [BootGuest c (regress_guest "pvh" "smoke"); BootGuest c (regress_guest "bzimage" "smoke");
                BootGuest c (regress_guest "pvh" "default"); HostSelftest c] in
  let failed := foldl (λ n e, match e with Some _ => n + 1 | None => n end) 0 steps in
  if 0 <? failed then Some (itoa (Z.of_nat failed) +:+ " regression check(s) failed") else None.

(** ** What a success means *)

(** The log's first result line is an ok. *)
Definition reported_ok (raw : string) : Prop := ∃ x, find resultRe0 raw = Some x ∧ group 1 x = "ok".

(** A guest boot that ran the guest's command line to its end, said ok and left
    a clean kernel log. *)
Definition guest_passed (c : Config) (o : GuestOpts) : Prop :=
  ∃ kernel, let o := guest_defaults o in let img := path_join (Out c) "images" in
    let initrd := path_join img "initrd.cpio.gz" in
    let log := path_join (path_join (Out c) "logs") (g_Name o +:+ ".log") in
    let r := qemu (guest_argv c o kernel initrd) log (int64 (BootTimeout c * second)) in
    guest_kernel img o = inr kernel ∧ fileExists kernel = true ∧ fileExists initrd = true ∧
    timedOut r = false ∧ reported_ok (rawLog r) ∧ sanitize log = None.
Definition host_passed (c : Config) : Prop :=
  let log := path_join (path_join (Out c) "logs") "host-selftest.log" in
  let r := qemu (host_argv c) log (int64 (BootTimeout c * second)) in
  timedOut r = false ∧ is_match upRe (rawLog r) = true ∧ sanitize log = None.

Lemma BootGuest_none c o : BootGuest c o = None ↔ needRun = None ∧ guest_passed c o.
Proof.
  unfold BootGuest, guest_passed. destruct needRun as [e|]; [by split; [|intros [? _]]|].
  cbv zeta. destruct (guest_kernel _ _) as [e|kernel]; [by split; [|intros (_ & ? & ? & _)]|].
  destruct (fileExists kernel) eqn:Ek; simpl.
  2: { split; [done|]. intros (_ & k & [= Hk] & Hf & _). by rewrite <-Hk, Ek in Hf. }
  destruct (fileExists (path_join _ "initrd.cpio.gz")) eqn:Ei; simpl.
  2: { split; [done|]. by intros (_ & k & _ & _ & Hi & _). }
  set (log := path_join _ (_ +:+ ".log")). set (r := qemu _ _ _).
  destruct (timedOut r) eqn:Et.
  { split; [done|]. intros (_ & k & [= <-] & _ & _ & Ht & _). fold r in Ht. by rewrite Et in Ht. }
  unfold guest_verdict, reported_ok. split.
  - intros H. split; [done|]. exists kernel. fold r.
    destruct (find resultRe0 (rawLog r)) as [x|]; [|done].
    destruct (seqb_spec (group 1 x) "ok"); [|done]. destruct (sanitize log); [done|].
    split_and!; eauto.
  - intros (_ & k & [= <-] & _ & _ & _ & (x & Hx & Hg) & Hs). fold r in Hx.
    by rewrite Hx, Hg, seqb_refl, Hs.
Qed.

Lemma HostSelftest_none c : HostSelftest c = None ↔ needRun = None ∧ host_passed c.
Proof.
  unfold HostSelftest, host_passed. destruct needRun as [e|]; [by split; [|intros [? _]]|].
  cbv zeta. set (r := qemu _ _ _).
  destruct (timedOut r); [by split; [|intros (_ & ? & _)]|].
  destruct (is_match upRe (rawLog r)); simpl; [|by split; [|intros (_ & _ & ? & _)]].
  split; [auto|by intros (_ & _ & _ & ?)].
Qed.

(** [pvmtest regress] succeeds exactly when the machine can run qemu, the
    three guest boots each ended in time with an ok result and a clean kernel
    log, and the host kernel reached user space with a clean log. *)
Theorem Regress_ok c :
  Regress c = None ↔
  needRun = None ∧ guest_passed c (regress_guest "pvh" "smoke") ∧
  guest_passed c (regress_guest "bzimage" "smoke") ∧ guest_passed c (regress_guest "pvh" "default") ∧
  host_passed c.
Proof.
  assert (Regress c = None ↔ BootGuest c (regress_guest "pvh" "smoke") = None ∧
    BootGuest c (regress_guest "bzimage" "smoke") = None ∧
    BootGuest c (regress_guest "pvh" "default") = None ∧ HostSelftest c = None) as ->.
  { unfold Regress. cbv zeta. generalize (regress_guest "pvh" "smoke"), (regress_guest "bzimage" "smoke"),
      (regress_guest "pvh" "default"). intros o1 o2 o3.
    destruct (BootGuest c o1), (BootGuest c o2), (BootGuest c o3), (HostSelftest c); cbn;
      split; intros; try done; by destruct_and?. }
  rewrite !BootGuest_none, HostSelftest_none. tauto.
Qed.
End Boot.
