(* ===== verification/Pool.v ===== *)
(** * tools/pvmtest/run.go: runPool

    The pool that runs boots [jobs] at a time: the goroutine that spawns, the
    semaphore channel [sem], the mutex [mu] and the wait group, as a step
    relation over the interleavings.  What a boot ends with is a parameter. *)
From S2P Require Import Prelude GoStrings Spec ParseLog Run.

Abbreviation result := (string + Status)%type.

(** Where the goroutine of a boot is: its deferred calls run in the order
    [mu.Unlock], [<-sem], [wg.Done]. *)
Inductive phase :=
  | Booting | Ended (r : result) | Writing (r : result) | Written (r : result)
  | Unlocked (r : result) | Released (r : result) | Finished (r : result).

Record pool := {
  gor : list phase; (* the goroutines, by index of their boot *)
  sem : nat; (* tokens in the channel *)
  mu : option nat; (* the holder of the mutex *)
  results : list (option result); (* statuses and errs *)
  recorded : list nat (* calls of [e.record], in order *)
}.

Definition holds_sem (ph : phase) : bool :=
  match ph with Booting | Ended _ | Writing _ | Written _ | Unlocked _ => true | _ => false end.
Definition holds_mu (ph : phase) : bool :=
  match ph with Writing _ | Written _ => true | _ => false end.
Definition stored (ph : phase) : option result :=
  match ph with Written r | Unlocked r | Released r | Finished r => Some r | _ => None end.
Definition remaining (ph : phase) : nat :=
  match ph with
  | Booting => 6 | Ended _ => 5 | Writing _ => 4 | Written _ => 3 | Unlocked _ => 2
  | Released _ => 1 | Finished _ => 0
  end.

Definition move (p : pool) (i : nat) (ph : phase) : pool :=
  {| gor := <[i := ph]> (gor p); sem := sem p; mu := mu p; results := results p;
     recorded := recorded p |}.
Definition set_sem (p : pool) (k : nat) : pool :=
  {| gor := gor p; sem := k; mu := mu p; results := results p; recorded := recorded p |}.
Definition set_mu (p : pool) (m : option nat) : pool :=
  {| gor := gor p; sem := sem p; mu := m; results := results p; recorded := recorded p |}.

(** [if err != nil || e.DryRun { return }] before [e.record]. *)
Definition recordable (dry : bool) (r : result) : bool :=
  negb (dry || match r with inl _ => true | inr _ => false end).
Definition store (dry : bool) (p : pool) (i : nat) (r : result) : pool :=
  {| gor := gor p; sem := sem p; mu := mu p; results := <[i := Some r]> (results p);
     recorded := recorded p ++ (if recordable dry r then [i] else []) |}.

Definition pool_init (n : nat) : pool :=
  {| gor := []; sem := 0; mu := None; results := replicate n None; recorded := [] |}.

(** [if jobs < 1 { jobs = 1 }]. *)
Definition slots (jobs : Z) : nat := Z.to_nat (if (jobs <? 1)%Z then 1 else jobs).

(** [wg.Wait()] returns. *)
Definition finished (n : nat) (p : pool) : Prop :=
  length (gor p) = n ∧ Forall (λ ph, remaining ph = 0) (gor p).

(** The first error in the order of the boots, or all the statuses. *)
Fixpoint collect (rs : list (option result)) : string + list Status :=
  match rs with
  | [] => inr []
  | Some (inl e) :: _ => inl e
  | Some (inr s) :: rs => match collect rs with inr l => inr (s :: l) | inl e => inl e end
  | None :: rs => collect rs (* not reached when the pool is finished *)
  end.
Definition pool_result (p : pool) : string + list Status := collect (results p).

Section Pool.
Context (dry : bool) (n jobs : nat) (ends : nat → result → Prop).

Inductive pstep (p : pool) : pool → Prop :=
  | p_spawn : length (gor p) < n → sem p < jobs →
      pstep p {| gor := gor p ++ [Booting]; sem := S (sem p); mu := mu p; results := results p;
                 recorded := recorded p |}
  | p_boot i r : gor p !! i = Some Booting → ends i r → pstep p (move p i (Ended r))
  | p_lock i r : gor p !! i = Some (Ended r) → mu p = None →
      pstep p (set_mu (move p i (Writing r)) (Some i))
  | p_write i r : gor p !! i = Some (Writing r) →
      pstep p (store dry (move p i (Written r)) i r)
  | p_unlock i r : gor p !! i = Some (Written r) →
      pstep p (set_mu (move p i (Unlocked r)) None)
  | p_release i r k : gor p !! i = Some (Unlocked r) → sem p = S k →
      pstep p (set_sem (move p i (Released r)) k)
  | p_done i r : gor p !! i = Some (Released r) → pstep p (move p i (Finished r)).

Definition reachable (p : pool) : Prop := rtc pstep (pool_init n) p.

Definition nholds (l : list phase) : nat := length (filter (λ ph, holds_sem ph) l).
Definition is_recorded (l : list phase) (i : nat) : Prop :=
  ∃ r, (l !! i ≫= stored) = Some r ∧ recordable dry r = true.

Record pool_inv (p : pool) : Prop := {
  i_len : length (gor p) ≤ n;
  i_res_len : length (results p) = n;
  i_sem : sem p = nholds (gor p);
  i_jobs : sem p ≤ jobs;
  i_mu : ∀ i ph, gor p !! i = Some ph → holds_mu ph = true → mu p = Some i;
  i_mu_held : ∀ i, mu p = Some i → ∃ ph, gor p !! i = Some ph ∧ holds_mu ph = true;
  i_stored : ∀ i, i < n → results p !! i = Some (gor p !! i ≫= stored);
  i_nodup : NoDup (recorded p);
  i_rec : ∀ i, i ∈ recorded p ↔ is_recorded (gor p) i;
  i_one : jobs = 1 → ∀ i ph, gor p !! i = Some ph → holds_sem ph = true → S i = length (gor p);
  i_order : jobs = 1 → StronglySorted lt (recorded p);
  i_ends : ∀ i ph r, gor p !! i = Some ph →
    (stored ph = Some r ∨ ph = Ended r ∨ ph = Writing r) → ends i r
}.

Lemma nholds_insert l i ph ph' :
  l !! i = Some ph →
  nholds (<[i:=ph']> l) + (if holds_sem ph then 1 else 0) =
  nholds l + (if holds_sem ph' then 1 else 0).
Proof.
  unfold nholds. revert i. induction l as [|x l IH]; intros [|i] H; simplify_eq/=.
  - rewrite !filter_cons. repeat case_decide; simpl;
      destruct (holds_sem ph), (holds_sem ph'); simpl in *; try done; lia.
  - specialize (IH i H). rewrite !filter_cons. case_decide; simpl; lia.
Qed.

Lemma nholds_app l l' : nholds (l ++ l') = nholds l + nholds l'.
Proof. unfold nholds. by rewrite filter_app, length_app. Qed.

Lemma nholds_pos l i ph : l !! i = Some ph → holds_sem ph = true → 0 < nholds l.
Proof.
  intros H E. pose proof (nholds_insert l i ph (Finished (inl ""%string)) H) as Hc.
  rewrite E in Hc. simpl in Hc. lia.
Qed.

Lemma stored_insert (l : list phase) (i j : nat) ph ph' :
  l !! i = Some ph → stored ph' = stored ph →
  (<[i:=ph']> l !! j ≫= stored) = (l !! j ≫= stored).
Proof.
  intros H E. destruct (decide (i = j)) as [->|Hn].
  - apply lookup_lt_Some in H as Hl. rewrite list_lookup_insert_eq by done. rewrite H. done.
  - by rewrite list_lookup_insert_ne.
Qed.

Lemma pool_inv_init : pool_inv (pool_init n).
Proof.
  constructor; simpl; try done; try lia.
  - apply length_replicate.
  - intros i Hi. by rewrite lookup_replicate_2.
  - constructor.
  - intros i. split; [by intros ?%elem_of_nil|]. by intros (? & [=] & _).
  - constructor.
Qed.

Lemma spawn_inv p :
  pool_inv p → length (gor p) < n → sem p < jobs →
  pool_inv {| gor := gor p ++ [Booting]; sem := S (sem p); mu := mu p; results := results p;
              recorded := recorded p |}.
Proof.
  intros [] Hlt Hsem.
  assert (∀ i ph, (gor p ++ [Booting]) !! i = Some ph →
    gor p !! i = Some ph ∨ (i = length (gor p) ∧ ph = Booting)) as Hl.
  { intros i ph [H|(H & Hi)]%lookup_app_Some; [by left|right].
    apply list_lookup_singleton_Some in Hi as [Hi <-]. split; [lia|done]. }
  assert (∀ i, ((gor p ++ [Booting]) !! i ≫= stored) = (gor p !! i ≫= stored)) as Hst.
  { intros i. destruct (decide (i < length (gor p))) as [Hi|Hi].
    - by rewrite lookup_app_l.
    - rewrite lookup_app_r by lia. rewrite (lookup_ge_None_2 (gor p)) by lia.
      destruct (i - length (gor p)) as [|[|?]]; done. }
  constructor; simpl; try done.
  - rewrite length_app. simpl. lia.
  - rewrite nholds_app, i_sem0. change (nholds [Booting]) with 1. lia.
  - intros i ph [H|[-> ->]]%Hl E; [by eauto|done].
  - intros i (ph & H & E)%i_mu_held0. exists ph. split; [|done]. by apply lookup_app_l_Some.
  - intros i Hi. by rewrite Hst, i_stored0.
  - intros i. unfold is_recorded. rewrite Hst. apply i_rec0.
  - intros Hj i ph [H|[-> ->]]%Hl Hh; rewrite length_app; simpl; try lia.
    pose proof (nholds_pos _ _ _ H Hh). lia.
  - intros i ph r [H|[-> ->]]%Hl Hr; [by eauto|]. by destruct Hr as [|[|]].
Qed.

(** A goroutine moves on without storing its result. *)
Lemma move_inv p i ph ph' m k :
  pool_inv p → gor p !! i = Some ph → stored ph' = stored ph →
  (holds_sem ph' = true → holds_sem ph = true) →
  k + (if holds_sem ph then 1 else 0) = sem p + (if holds_sem ph' then 1 else 0) →
  (if holds_mu ph' then m = Some i ∧ (mu p = None ∨ mu p = Some i)
   else if holds_mu ph then m = None else m = mu p) →
  (∀ r, ph' = Ended r ∨ ph' = Writing r → ends i r) →
  pool_inv {| gor := <[i:=ph']> (gor p); sem := k; mu := m; results := results p;
              recorded := recorded p |}.
Proof.
  intros [] Hi Hst Hh Hk Hm He.
  pose proof (lookup_lt_Some _ _ _ Hi) as Hlen.
  pose proof (nholds_insert _ _ _ ph' Hi) as Hc.
  pose proof (stored_insert (gor p) i) as Hsi.
  constructor; simpl; try done.
  - by rewrite length_insert.
  - lia.
  - destruct (holds_sem ph), (holds_sem ph'); lia.
  - intros j ph2 [(-> & -> & _)|[Hne H]]%list_lookup_insert_Some E.
    + rewrite E in Hm. tauto.
    + specialize (i_mu0 _ _ H E) as Hj.
      destruct (holds_mu ph') eqn:E'; [destruct Hm as [-> [?|?]]; congruence|].
      destruct (holds_mu ph) eqn:E''; [|congruence].
      specialize (i_mu0 _ _ Hi E''). congruence.
  - intros j Hj. destruct (decide (i = j)) as [<-|Hne].
    + rewrite list_lookup_insert_eq by done. exists ph'. split; [done|].
      destruct (holds_mu ph') eqn:E'; [done|].
      destruct (holds_mu ph) eqn:E''; [congruence|]. subst m.
      destruct (i_mu_held0 _ Hj) as (? & ? & ?). congruence.
    + rewrite list_lookup_insert_ne by done.
      destruct (holds_mu ph') eqn:E'; [destruct Hm; congruence|].
      destruct (holds_mu ph) eqn:E''; [congruence|]. subst m. by apply i_mu_held0.
  - intros j Hj. rewrite i_stored0 by done. symmetry. f_equal. by eapply Hsi.
  - intros j. unfold is_recorded. erewrite Hsi by done. apply i_rec0.
  - intros Hj j ph2 [(-> & -> & _)|[Hne H]]%list_lookup_insert_Some E; rewrite length_insert; eauto.
  - intros j ph2 r [(-> & -> & _)|[Hne H]]%list_lookup_insert_Some Hr; [|by eauto].
    destruct Hr as [Hr|Hr]; [|by eauto]. rewrite Hst in Hr. eauto.
Qed.

Lemma Forall_filter_nil (l : list phase) :
  Forall (λ ph, ¬ holds_sem ph) l → filter (λ ph, holds_sem ph) l = [].
Proof. induction 1 as [|ph l H _ IH]; [done|]. by rewrite filter_cons_False. Qed.

Lemma sorted_snoc (l : list nat) x :
  StronglySorted lt l → (∀ y, y ∈ l → y < x) → StronglySorted lt (l ++ [x]).
Proof.
  induction 1 as [|y l Hs IH Hall]; intros Hx; simpl; [repeat constructor|].
  constructor.
  - apply IH. intros z Hz. apply Hx. by apply list_elem_of_further.
  - apply Forall_app_2; [done|]. repeat constructor. apply Hx. by apply list_elem_of_here.
Qed.

Lemma not_recorded_yet p i r :
  pool_inv p → gor p !! i = Some (Writing r) → i ∉ recorded p.
Proof. intros [] Hi (r' & H & _)%i_rec0. by rewrite Hi in H. Qed.

Lemma is_recorded_write l i j r :
  l !! i = Some (Writing r) →
  is_recorded (<[i:=Written r]> l) j ↔ is_recorded l j ∨ (j = i ∧ recordable dry r = true).
Proof.
  intros Hi. pose proof (lookup_lt_Some _ _ _ Hi). unfold is_recorded.
  destruct (decide (i = j)) as [<-|Hne].
  - rewrite list_lookup_insert_eq by done. rewrite Hi. simpl. naive_solver.
  - rewrite list_lookup_insert_ne by done. naive_solver.
Qed.

Lemma write_inv p i r :
  pool_inv p → gor p !! i = Some (Writing r) →
  pool_inv (store dry (move p i (Written r)) i r).
Proof.
  intros Hinv Hi. pose proof (not_recorded_yet _ _ _ Hinv Hi) as Hnot.
  pose proof (λ j, is_recorded_write (gor p) i j r Hi) as Hrec. destruct Hinv.
  pose proof (lookup_lt_Some _ _ _ Hi) as Hlen.
  pose proof (nholds_insert _ _ _ (Written r) Hi) as Hc. simpl in Hc.
  assert (∀ j, j ∈ recorded p ++ (if recordable dry r then [i] else []) ↔
               is_recorded (<[i:=Written r]> (gor p)) j) as Hr.
  { intros j. rewrite Hrec. rewrite elem_of_app, i_rec0.
    destruct (recordable dry r); rewrite ?list_elem_of_singleton, ?elem_of_nil; naive_solver. }
  constructor; simpl; try done.
  - by rewrite length_insert.
  - by rewrite length_insert.
  - lia.
  - intros j ph [(-> & <- & _)|[Hne H]]%list_lookup_insert_Some E; by eauto.
  - intros j Hj. destruct (decide (i = j)) as [<-|Hne].
    + rewrite list_lookup_insert_eq by done. by exists (Written r).
    + rewrite list_lookup_insert_ne by done. by apply i_mu_held0.
  - intros j Hj. destruct (decide (i = j)) as [<-|Hne].
    + rewrite !list_lookup_insert_eq by lia. done.
    + rewrite !list_lookup_insert_ne by done. by apply i_stored0.
  - destruct (recordable dry r); [|by rewrite app_nil_r].
    apply NoDup_app. split_and!; [done| |by apply NoDup_singleton].
    by intros j Hj ->%list_elem_of_singleton.
  - intros Hj j ph [(-> & <- & _)|[Hne H]]%list_lookup_insert_Some E; rewrite length_insert; eauto.
  - intros Hj. destruct (recordable dry r); [|rewrite app_nil_r; by auto].
    apply sorted_snoc; [by auto|]. intros y Hy.
    specialize (i_one0 Hj _ _ Hi eq_refl).
    assert (y ≠ i) by (by intros ->).
    apply i_rec0 in Hy as (r' & Hy & _).
    destruct (gor p !! y) eqn:E; [|done]. apply lookup_lt_Some in E. lia.
  - intros j ph r' [(-> & <- & _)|[Hne H]]%list_lookup_insert_Some Hs; [|by eauto].
    destruct Hs as [[= <-]|[|]]; [|done..]. eauto.
Qed.

Lemma step_inv p p' : pool_inv p → pstep p p' → pool_inv p'.
Proof.
  intros Hinv Hs. destruct Hs as [Hn Hj|i r Hi He|i r Hi Hm|i r Hi|i r Hi|i r k Hi Hk|i r Hi].
  - by apply spawn_inv.
  - apply (move_inv p i _ (Ended r) (mu p) (sem p) Hinv Hi); simpl; auto.
    intros r' [[= <-]|[=]]; done.
  - apply (move_inv p i _ (Writing r) (Some i) (sem p) Hinv Hi); simpl; auto.
    intros r' [[=]|[= <-]]. destruct Hinv. eauto.
  - by apply write_inv.
  - apply (move_inv p i _ (Unlocked r) None (sem p) Hinv Hi); simpl; auto. by intros r' [|].
  - apply (move_inv p i _ (Released r) (mu p) k Hinv Hi); simpl; auto; [lia|by intros r' [|]].
  - apply (move_inv p i _ (Finished r) (mu p) (sem p) Hinv Hi); simpl; auto. by intros r' [|].
Qed.

Lemma reachable_inv p : reachable p → pool_inv p.
Proof.
  intros H. unfold reachable in H. remember (pool_init n) as p0 eqn:E.
  assert (pool_inv p0) as H0 by (rewrite E; apply pool_inv_init).
  clear E. induction H; eauto using step_inv.
Qed.

(** ** Progress and termination *)
Definition pending (ph : phase) : bool := negb (remaining ph =? 0).

Lemma progress p :
  0 < jobs → (∀ i, i < n → ∃ r, ends i r) → pool_inv p → finished n p ∨ ∃ p', pstep p p'.
Proof.
  intros Hjobs Hends Hinv.
  destruct (mu p) as [h|] eqn:Emu.
  { (* the holder of the mutex can move *)
    destruct (i_mu_held _ Hinv _ Emu) as (ph & Hh & E). right.
    destruct ph; try done; eexists; first [by eapply p_write|by eapply p_unlock]. }
  destruct (decide (Forall (λ ph, remaining ph = 0) (gor p))) as [Hall|Hnot].
  - destruct (decide (length (gor p) = n)) as [|Hn]; [by left|right].
    eexists. apply p_spawn; [pose proof (i_len _ Hinv); lia|].
    rewrite (i_sem _ Hinv). replace (nholds (gor p)) with 0; [done|].
    symmetry. apply length_zero_iff_nil. apply Forall_filter_nil. eapply Forall_impl; [exact Hall|].
    intros []; simpl; (lia || by intros _ []).
  - right. apply not_Forall_Exists in Hnot; [|tc_solve].
    apply Exists_exists in Hnot as (ph & [i Hi]%list_elem_of_lookup & Hph).
    destruct ph as [|r|r|r|r|r|r]; try done.
    + destruct (Hends i) as [r Hr].
      { pose proof (i_len _ Hinv). apply lookup_lt_Some in Hi. lia. }
      eexists. by eapply p_boot.
    + eexists. by eapply p_lock.
    + eexists. by eapply p_write.
    + eexists. by eapply p_unlock.
    + pose proof (nholds_pos _ _ _ Hi eq_refl). rewrite <-(i_sem _ Hinv) in *.
      destruct (sem p) as [|k] eqn:Ek; [lia|]. eexists. by eapply p_release.
    + eexists. by eapply p_done.
    + by destruct Hph.
Qed.

(** Steps left: seven for each boot not spawned. *)
Definition steps_left (p : pool) : nat :=
  foldr (λ ph s, remaining ph + s) 0 (gor p) + 7 * (n - length (gor p)).

Lemma remaining_insert l i ph ph' :
  l !! i = Some ph →
  foldr (λ ph s, remaining ph + s) 0 (<[i:=ph']> l) + remaining ph =
  foldr (λ ph s, remaining ph + s) 0 l + remaining ph'.
Proof.
  revert i. induction l as [|x l IH]; intros [|i] H; simplify_eq/=; [lia|].
  specialize (IH i H). lia.
Qed.

Lemma step_decreases p p' : pstep p p' → steps_left p = S (steps_left p').
Proof.
  assert (∀ q k, foldr (λ ph s, remaining ph + s) k q =
                 foldr (λ ph s, remaining ph + s) 0 q + k) as Hk.
  { induction q as [|x q IH]; intros k; simpl; [done|]. rewrite IH. lia. }
  assert (∀ i ph ph' (q : pool), gor p !! i = Some ph → S (remaining ph') = remaining ph →
    gor q = <[i:=ph']> (gor p) → steps_left p = S (steps_left q)) as Hm.
  { intros i ph ph' q Hi Hr Hq. unfold steps_left. rewrite Hq, length_insert.
    pose proof (remaining_insert _ _ _ ph' Hi). lia. }
  intros [Hn Hj|i r Hi He|i r Hi Hm'|i r Hi|i r Hi|i r k Hi Hk'|i r Hi];
    try by eapply (Hm i); [exact Hi| |reflexivity].
  unfold steps_left. simpl. rewrite foldr_app, length_app. simpl. rewrite (Hk _ 6). lia.
Qed.

Lemma nsteps_decrease k p p' : nsteps pstep k p p' → steps_left p = k + steps_left p'.
Proof. induction 1 as [|k p1 p2 p3 H%step_decreases _ IH]; [done|]. lia. Qed.

Lemma steps_left_bound p : length (gor p) ≤ n → steps_left p ≤ 7 * n.
Proof.
  intros Hl. unfold steps_left.
  assert (foldr (λ ph s, remaining ph + s) 0 (gor p) ≤ 7 * length (gor p)) as ?; [|lia].
  clear Hl. induction (gor p) as [|ph l IH]; simpl; [lia|]. destruct ph; simpl; lia.
Qed.
End Pool.

(** [runPool], as the relation between the boots and the answers it may give,
    with the boots it records in order. *)
Section RunPool.
Context (dry : bool) (runBoot : Boot → result → Prop).

Definition boot_ends (boots : list Boot) (i : nat) (r : result) : Prop :=
  ∃ b, boots !! i = Some b ∧ runBoot b r.
Definition pool_reach (boots : list Boot) (jobs : Z) (p : pool) : Prop :=
  reachable dry (length boots) (slots jobs) (boot_ends boots) p.
Definition runPool (boots : list Boot) (jobs : Z) (ans : string + list Status) (log : list nat) : Prop :=
  ∃ p, pool_reach boots jobs p ∧ finished (length boots) p ∧ pool_result p = ans ∧ recorded p = log.

(** What the recorded boots should be. *)
Definition to_record (rs : list result) : list nat :=
  filter (λ i, is_true (from_option (recordable dry) false (rs !! i))) (seq 0 (length rs)).

Lemma slots_pos jobs : 0 < slots jobs.
Proof. unfold slots. destruct (Z.ltb_spec jobs 1); lia. Qed.

Lemma finished_results n jobs ends p :
  pool_inv dry n jobs ends p → finished n p →
  ∃ rs, gor p = Finished <$> rs ∧ results p = Some <$> rs ∧ length rs = n.
Proof.
  intros Hinv [Hn Hall].
  assert (∃ rs, gor p = Finished <$> rs) as [rs Hrs].
  { clear Hn Hinv. induction Hall as [|ph l Hph _ [rs ->]]; [by exists []|].
    destruct ph as [| | | | | |r]; try done. by exists (r :: rs). }
  assert (length rs = n) as Hlen by (rewrite <-Hn, Hrs, length_fmap; done).
  exists rs. split_and!; [done| |done].
  apply list_eq. intros i. destruct (decide (i < n)) as [Hi|Hi].
  - rewrite (i_stored _ _ _ _ _ Hinv i Hi), Hrs, !list_lookup_fmap.
    destruct (lookup_lt_is_Some_2 rs i) as [r Hr]; [lia|]. by rewrite Hr.
  - rewrite !lookup_ge_None_2; [done|rewrite length_fmap; lia|].
    rewrite (i_res_len _ _ _ _ _ Hinv). lia.
Qed.

Lemma sorted_lt_unique (l1 l2 : list nat) :
  StronglySorted lt l1 → StronglySorted lt l2 → l1 ≡ₚ l2 → l1 = l2.
Proof.
  intros H1 H2. apply StronglySorted_unique_strong with lt; [|done|done].
  intros x1 x2 _ _ L1 L2. exfalso. lia.
Qed.

Lemma seq_sorted i n : StronglySorted lt (seq i n).
Proof.
  revert i. induction n as [|n IH]; intros i; simpl; constructor; [done|].
  apply Forall_forall. intros x Hx%elem_of_seq. lia.
Qed.

Lemma filter_sorted (P : nat → Prop) `{!∀ x, Decision (P x)} (l : list nat) :
  StronglySorted lt l → StronglySorted lt (filter P l).
Proof.
  induction 1 as [|x l Hs IH Hall]; [constructor|].
  rewrite filter_cons. case_decide; [|done]. constructor; [done|].
  apply Forall_forall. intros y [_ Hy]%list_elem_of_filter.
  rewrite Forall_forall in Hall. by apply Hall.
Qed.
Lemma recorded_spec n jobs ends p rs :
  pool_inv dry n jobs ends p → gor p = Finished <$> rs →
  recorded p ≡ₚ to_record rs.
Proof.
  intros Hinv Hrs. apply NoDup_Permutation; [apply (i_nodup _ _ _ _ _ Hinv)| |].
  { apply NoDup_filter, NoDup_seq. }
  intros i. rewrite (i_rec _ _ _ _ _ Hinv). unfold is_recorded, to_record.
  rewrite Hrs, list_lookup_fmap, list_elem_of_filter, elem_of_seq.
  destruct (rs !! i) as [r|] eqn:E; simpl; [|by split; [intros (? & [=] & _)|intros [H _]]].
  apply lookup_lt_Some in E. split; [|intros [H _]; exists r; split; [done|]; by destruct (recordable dry r)].
  intros (r' & [= <-] & ->). split; [done|lia].
Qed.

(** The statuses that come back are those of the boots, in their order. *)
Lemma runPool_results boots jobs ans log :
  runPool boots jobs ans log → ∃ rs, Forall2 runBoot boots rs ∧ ans = collect (Some <$> rs).
Proof.
  intros (p & Hr & Hf & <- & _).
  pose proof (reachable_inv _ _ _ _ _ Hr) as Hinv.
  destruct (finished_results _ _ _ _ Hinv Hf) as (rs & Hg & Hres & Hlen).
  exists rs. split; [|unfold pool_result; by rewrite Hres].
  apply Forall2_same_length_lookup_2; [done|]. intros i b r Hb Hi.
  destruct (i_ends _ _ _ _ _ Hinv i (Finished r) r) as (b' & Hb' & Hrun); [|by left|].
  - by rewrite Hg, list_lookup_fmap, Hi.
  - congruence.
Qed.
Lemma collect_statuses boots rs l :
  Forall2 runBoot boots rs → collect (Some <$> rs) = inr l → Forall2 (λ b s, runBoot b (inr s)) boots l.
Proof.
  intros H. revert l. induction H as [|b r boots rs Hb _ IH]; intros l; cbn.
  { intros [= <-]. constructor. }
  destruct r as [e|s]; [done|]. destruct (collect _) as [e|l'] eqn:E; [done|]. intros [= <-]. constructor; [done|]. by apply IH.
Qed.

(** C8: whatever the interleaving of the goroutines, [runPool] gives the
    statuses of its boots in the order of the boots (or the error of the first
    boot that has one), and records exactly the boots that ended without an
    error, each once; with one job it records them in order. *)
Theorem runPool_answer boots jobs ans log :
  runPool boots jobs ans log →
  ∃ rs, Forall2 runBoot boots rs ∧ ans = collect (Some <$> rs) ∧ log ≡ₚ to_record rs ∧
    ((jobs ≤ 1)%Z → log = to_record rs).
Proof.
  intros (p & Hr & Hf & <- & <-).
  pose proof (reachable_inv _ _ _ _ _ Hr) as Hinv.
  destruct (finished_results _ _ _ _ Hinv Hf) as (rs & Hg & Hres & Hlen).
  pose proof (recorded_spec _ _ _ _ _ Hinv Hg) as Hrec.
  exists rs. split_and!.
  - apply Forall2_same_length_lookup_2; [done|]. intros i b r Hb Hi.
    destruct (i_ends _ _ _ _ _ Hinv i (Finished r) r) as (b' & Hb' & Hrun); [|by left|].
    + by rewrite Hg, list_lookup_fmap, Hi.
    + congruence.
  - unfold pool_result. by rewrite Hres.
  - done.
  - intros Hj. apply sorted_lt_unique; [| |done].
    + apply (i_order _ _ _ _ _ Hinv). unfold slots. destruct (Z.ltb_spec jobs 1); lia.
    + apply filter_sorted, seq_sorted.
Qed.

(** At most [jobs] boots run at once, at most one goroutine is in the
    locked part, the pool never blocks before [wg.Wait] returns, and every
    interleaving ends within seven steps a boot. *)
Theorem runPool_bounded boots jobs p :
  (∀ b, ∃ r, runBoot b r) → pool_reach boots jobs p →
  nholds (gor p) ≤ slots jobs ∧
  (∀ i j ph ph', gor p !! i = Some ph → gor p !! j = Some ph' →
     holds_mu ph = true → holds_mu ph' = true → i = j) ∧
  (finished (length boots) p ∨
   ∃ p', pstep dry (length boots) (slots jobs) (boot_ends boots) p p') ∧
  (∀ k p', nsteps (pstep dry (length boots) (slots jobs) (boot_ends boots)) k p p' →
     k ≤ 7 * length boots).
Proof.
  intros Hruns Hr. pose proof (reachable_inv _ _ _ _ _ Hr) as Hinv. split_and!.
  - rewrite <-(i_sem _ _ _ _ _ Hinv). apply (i_jobs _ _ _ _ _ Hinv).
  - intros i j ph ph' Hi Hj Ei Ej. pose proof (i_mu _ _ _ _ _ Hinv _ _ Hi Ei).
    pose proof (i_mu _ _ _ _ _ Hinv _ _ Hj Ej). congruence.
  - apply progress; [apply slots_pos| |done]. intros i Hi.
    destruct (lookup_lt_is_Some_2 boots i Hi) as [b Hb]. destruct (Hruns b) as [r Hrun].
    by exists r, b.
  - intros k p' Hk. pose proof (nsteps_decrease _ _ _ _ _ _ _ Hk).
    pose proof (steps_left_bound (length boots) p (i_len _ _ _ _ _ Hinv)). lia.
Qed.
End RunPool.

(** ** Two boots at once, the second done first *)
Definition ex_item : Item :=
  {| Kind := "run"; i_Name := "x"; Keys := ∅; Line := 1 |}.
Definition ex_status (v : string) (b : Boot) : Status :=
  {| s_Boot := b; s_Outcome := empty_outcome; Verdict := v; Why := "" |}.
Definition ex_runBoot (b : Boot) (r : result) : Prop := r = inr (ex_status "ok" b).
Definition ex_boot (rep : Z) : Boot :=
  {| b_Item := ex_item; Vendor := "pvm"; CPUs := 0; Rep := rep; Side := ""; LogName := "" |}.

Ltac pool_step := eapply rtc_l; [|cbn].
Lemma ex_runs :
  runPool false ex_runBoot [ex_boot 1; ex_boot 2] 2
    (inr [ex_status "ok" (ex_boot 1); ex_status "ok" (ex_boot 2)]) [1; 0].
Proof.
  unfold runPool, pool_reach, reachable.
  assert (∀ i b, [ex_boot 1; ex_boot 2] !! i = Some b →
    boot_ends ex_runBoot [ex_boot 1; ex_boot 2] i (inr (ex_status "ok" b))) as He.
  { intros i b Hb. by exists b. }
  eexists. split.
  - pool_step; [apply p_spawn; apply Nat.ltb_lt; reflexivity|]. pool_step; [apply p_spawn; apply Nat.ltb_lt; reflexivity|].
    pool_step; [by eapply (p_boot _ _ _ _ _ 1), He|].
    pool_step; [by eapply (p_lock _ _ _ _ _ 1)|]. pool_step; [by eapply (p_write _ _ _ _ _ 1)|].
    pool_step; [by eapply (p_boot _ _ _ _ _ 0), He|].
    pool_step; [by eapply (p_unlock _ _ _ _ _ 1)|].
    pool_step; [by eapply (p_lock _ _ _ _ _ 0)|]. pool_step; [by eapply (p_release _ _ _ _ _ 1)|].
    pool_step; [by eapply (p_write _ _ _ _ _ 0)|]. pool_step; [by eapply (p_done _ _ _ _ _ 1)|].
    pool_step; [by eapply (p_unlock _ _ _ _ _ 0)|]. pool_step; [by eapply (p_release _ _ _ _ _ 0)|].
    pool_step; [by eapply (p_done _ _ _ _ _ 0)|]. apply rtc_refl.
  - split_and!; [split; [done|by repeat constructor]|done|done].
Qed.

(** A pool of one boot. *)
Lemma runPool_one runBoot b jobs s : runBoot b (inr s) → runPool false runBoot [b] jobs (inr [s]) [0].
Proof.
  intros Hb. assert (boot_ends runBoot [b] 0 (inr s)) as He by (by exists b).
  unfold runPool, pool_reach, reachable. pose proof (slots_pos jobs) as Hs. eexists. split.
  - pool_step; [apply p_spawn; [cbn; lia|exact Hs]|]. pool_step; [by eapply (p_boot _ _ _ _ _ 0), He|].
    pool_step; [by eapply (p_lock _ _ _ _ _ 0)|]. pool_step; [by eapply (p_write _ _ _ _ _ 0)|].
    pool_step; [by eapply (p_unlock _ _ _ _ _ 0)|]. pool_step; [by eapply (p_release _ _ _ _ _ 0)|].
    pool_step; [by eapply (p_done _ _ _ _ _ 0)|]. apply rtc_refl.
  - split_and!; [split; [done|by repeat constructor]|done|done].
Qed.

Lemma runPool_answer_witness :
  ∃ rs, Forall2 ex_runBoot [ex_boot 1; ex_boot 2] rs ∧ [1; 0] ≡ₚ to_record false rs.
Proof.
  destruct (runPool_answer false ex_runBoot _ _ _ _ ex_runs) as (rs & H1 & _ & H2 & _). by exists rs.
Defined.

Lemma runPool_bounded_witness :
  nholds (gor (pool_init 2)) ≤ 2 ∧
  ∃ p', pstep false 2 2 (boot_ends ex_runBoot [ex_boot 1; ex_boot 2]) (pool_init 2) p'.
Proof.
  destruct (runPool_bounded false ex_runBoot [ex_boot 1; ex_boot 2] 2 (pool_init 2))
    as (H1 & _ & [H|H] & _).
  - intros b. by eexists.
  - apply rtc_refl.
  - by destruct H.
  - by split.
Defined.
