(* ===== verification/Cmd.v ===== *)
(** * tools/pvmtest/main.go: cmdRun

    The run and list commands: which items are selected, the checks before
    anything boots, the grouping of boots into pools and the exit status.  What
    a pool answers, what a kernel build answers and what CompareMatrix finds are
    arguments.  [RunCmd] has the same command as a program, with what it reads,
    prints and writes. *)
From Stdlib Require Import Ascii.
From S2P Require Import Prelude GoStrings Regexp Spec ParseLog Checks Run Pool.

(** A pool the command ran: for the run items gathered so far ([None]) or for
    one matrix or ab item. *)
Record call := {
  c_item : option Item; c_boots : list Boot; c_jobs : Z; c_ans : string + list Status
}.
Record lstate := { bad : nat; pend : list Boot; calls : list call }.

Definition selected (only : string) (items : list Item) : list Item :=
  let want := filter (λ n, n ≠ ""%string) (split "," only) in
  filter (λ it, want = [] ∨ i_Name it ∈ want) items.

Section CmdRun.
Context (dry : bool) (jobs : Z).
(** [env.hostVariant] of an out directory, and the directory of [env.Out]. *)
Context (hostOf : string → string) (out : string).
Context (BuildRef : Kernel → option string).
(** The [k]th pool's answer. *)
Context (pool : nat → list Boot → Z → string + list Status).
Context (regressed : Item → list Status → bool).

(** *** Before anything boots *)
Definition checked_items (items : list Item) : list Item :=
  items ≫= λ it, if seqb (Kind it) "ab" then [Variant it "a"; Variant it "b"] else [it].
Definition item_ok (bat : Battery) (it : Item) : bool :=
  let host := hostOf (outFor out it) in
  let need := Get it "host" "" in
  if negb (seqb need "") && negb (seqb need host) && negb dry then false else
  let k := Get it "kernel" "" in
  if negb (seqb k "") && negb dry && negb (existsb (λ kk, seqb (k_Name kk) k) (Kernels bat)) then false else
  negb (seqb (Get it "stats" "") "on" && negb (seqb host "stats") && negb dry).
Definition kernels_ok (bat : Battery) : bool :=
  dry || forallb (λ k, bool_decide (BuildRef k = None)) (Kernels bat).

(** *** The loop over the items *)
Definition run_pool (st : lstate) (item : option Item) (boots : list Boot) (j : Z)
    : (string + list Status) * lstate :=
  let ans := pool (length (calls st)) boots j in
  (ans, {| bad := bad st; pend := pend st;
           calls := calls st ++ [{| c_item := item; c_boots := boots; c_jobs := j; c_ans := ans |}] |}).
Definition unexpected_verdict (s : Status) : bool :=
  negb (seqb (Verdict s) "ok") && negb (seqb (Verdict s) "dry").
Definition count_unexpected (l : list Status) : nat := length (filter (λ s, unexpected_verdict s) l).
Definition add_bad (st : lstate) (k : nat) : lstate :=
  {| bad := bad st + k; pend := pend st; calls := calls st |}.
Definition set_pend (st : lstate) (l : list Boot) : lstate :=
  {| bad := bad st; pend := l; calls := calls st |}.

(** [flush], with the addition to [bad] its callers make; [None] is -1. *)
Definition flush (st : lstate) : option nat * lstate :=
  match pend st with
  | [] => (Some 0, st)
  | boots =>
      let '(ans, st) := run_pool st None boots jobs in
      let st := set_pend st [] in
      match ans with
      | inl _ => (None, st)
      | inr statuses => (Some (count_unexpected statuses), st)
      end
  end.

Definition measured (it : Item) (st : lstate) (boots : list Boot) : option Z * lstate :=
  match flush st with
  | (None, st) => (Some 2%Z, st)
  | (Some k, st) =>
      let st := add_bad st k in
      let '(ans, st) := run_pool st (Some it) boots 1 in
      match ans with
      | inl _ => (Some 2%Z, st)
      | inr statuses =>
          if dry then (None, st) else
          if seqb (Kind it) "matrix" && regressed it statuses then (None, add_bad st 1) else (None, st)
      end
  end.

(** An early [return 2], or the state after the items. *)
Fixpoint loop (items : list Item) (st : lstate) : option Z * lstate :=
  match items with
  | [] => (None, st)
  | it :: items =>
      match Boots it with
      | inl _ => (Some 2%Z, st)
      | inr boots =>
          if seqb (Kind it) "run" then loop items (set_pend st (pend st ++ boots)) else
          match measured it st boots with
          | (Some code, st) => (Some code, st)
          | (None, st) => loop items st
          end
      end
  end.

Definition lstate0 : lstate := {| bad := 0; pend := []; calls := [] |}.
Definition cmdRun_items (items : list Item) : Z * lstate :=
  match loop items lstate0 with
  | (Some code, st) => (code, st)
  | (None, st) =>
      match flush st with
      | (None, st) => (2%Z, st)
      | (Some k, st) =>
          let st := add_bad st k in
          (if negb dry && (0 <? bad st) then 1%Z else 0%Z, st)
      end
  end.

(** [bat] is [ParseBattery]'s answer, [mkdir] whether the results directory
    could be made. *)
Definition cmdRun (bat : string + Battery) (only : string) (mkdir : bool) : Z * lstate :=
  match bat with
  | inl _ => (2%Z, lstate0)
  | inr bat =>
      let items := selected only (Items bat) in
      if negb (kernels_ok bat) then (2%Z, lstate0) else
      if negb (forallb (item_ok bat) (checked_items items)) then (2%Z, lstate0) else
      if negb dry && negb mkdir then (2%Z, lstate0) else
      cmdRun_items items
  end.
End CmdRun.

(** ** The check and stats commands *)

(** [cmdCheck]: the log judged as a run item would, without the log checkers. *)
Definition check_item (path : string) (allow : option string) : Item :=
  {| Kind := "run"; i_Name := Base path; Line := 0;
     Keys := match allow with Some a => {["allow-fail" := a]} | None => ∅ end |}.
Definition cmdCheck_verdict (path : string) (allow : option string) (o : Outcome) (raw : string) :=
  judge {| b_Item := check_item path allow; Vendor := ""; CPUs := 0; Rep := 0; Side := ""; LogName := "" |}
    o raw 0 [].
Definition cmdCheck_code (path : string) (allow : option string) (o : Outcome) (raw : string) : Z :=
  if seqb (cmdCheck_verdict path allow o raw).1 "ok" then 0%Z else 1%Z.

(** The counters [cmdStats] selects. *)
Definition cmdStats_sel (re : re) (ks : list string) : list string := filter (is_match re) ks.

(** ** What the loop does *)
Section CmdRunSpec.
Context (dry : bool) (jobs : Z) (hostOf : string → string) (out : string)
  (BuildRef : Kernel → option string) (pool : nat → list Boot → Z → string + list Status)
  (regressed : Item → list Status → bool).

(** What a pool adds to [bad]. *)
Definition call_bad (c : call) : nat :=
  match c_ans c, c_item c with
  | inl _, _ => 0
  | inr l, None => count_unexpected l
  | inr l, Some it => if negb dry && seqb (Kind it) "matrix" && regressed it l then 1 else 0
  end.
Definition all_bad (cs : list call) : nat := foldr (λ c k, call_bad c + k) 0 cs.
Definition pools_boots (cs : list call) : list Boot := cs ≫= c_boots.

(** A boot of a run item. *)
Definition of_run (items : list Item) (b : Boot) : Prop :=
  ∃ it bs, it ∈ items ∧ Kind it = "run"%string ∧ Boots it = inr bs ∧ b ∈ bs.
(** How a pool is made. *)
Definition call_wf (items : list Item) (c : call) : Prop :=
  match c_item c with
  | None => c_jobs c = jobs ∧ c_boots c ≠ [] ∧ Forall (of_run items) (c_boots c)
  | Some it => it ∈ items ∧ Kind it ≠ "run"%string ∧ c_jobs c = 1%Z ∧ Boots it = inr (c_boots c)
  end.
Definition answered (c : call) : Prop := ∃ l, c_ans c = inr l.

Record loop_inv (items : list Item) (done : list Boot) (st : lstate) : Prop := {
  l_bad : bad st = all_bad (calls st);
  l_boots : pools_boots (calls st) ++ pend st = done;
  l_pend : Forall (of_run items) (pend st);
  l_wf : Forall (call_wf items) (calls st);
  l_ans : Forall answered (calls st)
}.

Lemma all_bad_snoc cs c : all_bad (cs ++ [c]) = all_bad cs + call_bad c.
Proof. induction cs as [|c' cs IH]; simpl; [lia|]. rewrite IH. lia. Qed.

Lemma pools_boots_snoc cs c : pools_boots (cs ++ [c]) = pools_boots cs ++ c_boots c.
Proof. unfold pools_boots. rewrite bind_app. simpl. by rewrite app_nil_r. Qed.

Lemma flush_inv items done st k st' :
  loop_inv items done st → flush jobs pool st = (Some k, st') →
  loop_inv items done (add_bad st' k) ∧ pend st' = [].
Proof.
  intros [] H. unfold flush in H.
  destruct (pend st) as [|b bs] eqn:E.
  { simplify_eq/=. split; [|done]. constructor; simpl; [lia|by rewrite E|by rewrite E|done..]. }
  simpl in H. destruct (pool _ _ _) as [e|l] eqn:Ea; simplify_eq/=. split; [|done].
  constructor; simpl.
  - rewrite all_bad_snoc. unfold call_bad. simpl. lia.
  - by rewrite pools_boots_snoc, app_nil_r.
  - constructor.
  - apply Forall_app_2; [done|]. by apply Forall_singleton.
  - apply Forall_app_2; [done|]. apply Forall_singleton. by exists l.
Qed.

Lemma measured_inv items done it bs st st' :
  it ∈ items → Kind it ≠ "run"%string → Boots it = inr bs →
  loop_inv items done st → measured dry jobs pool regressed it st bs = (None, st') →
  loop_inv items (done ++ bs) st'.
Proof.
  intros Hit Hk Hb Hinv H. unfold measured in H.
  destruct (flush jobs pool st) as [[k|] st1] eqn:Ef; [|done].
  destruct (flush_inv _ _ _ _ _ Hinv Ef) as [[] Hp]. simpl in *.
  destruct (pool _ _ _) as [e|l] eqn:Ea; [done|].
  set (c := {| c_item := Some it |}) in *.
  assert (Forall (call_wf items) (calls st1 ++ [c])) as Hwf.
  { apply Forall_app_2; [done|]. by apply Forall_singleton. }
  assert (Forall answered (calls st1 ++ [c])) as Hans.
  { apply Forall_app_2; [done|]. apply Forall_singleton. by exists l. }
  assert (pools_boots (calls st1 ++ [c]) ++ pend st1 = done ++ bs) as Hbs.
  { rewrite pools_boots_snoc, <-l_boots0, Hp, !app_nil_r. done. }
  assert (Forall (of_run items) (pend st1)) as Hpend by (by rewrite Hp).
  assert (all_bad (calls st1 ++ [c]) = bad st1 + k +
    (if negb dry && seqb (Kind it) "matrix" && regressed it l then 1 else 0)) as Hbad.
  { rewrite all_bad_snoc, <-l_bad0. done. }
  destruct dry; simpl in *; [|destruct (_ && _)]; simplify_eq/=; constructor; simpl; auto; lia.
Qed.

Lemma loop_ok items0 items done st st' :
  (∀ it, it ∈ items → it ∈ items0) →
  loop_inv items0 done st → loop dry jobs pool regressed items st = (None, st') →
  ∃ bss, Forall2 (λ it bs, Boots it = inr bs) items bss ∧ loop_inv items0 (done ++ concat bss) st'.
Proof.
  revert done st. induction items as [|it items IH]; intros done st Hin Hinv H; simpl in H.
  { simplify_eq/=. exists []. rewrite app_nil_r. by split. }
  destruct (Boots it) as [e|bs] eqn:Eb; [done|].
  assert (∃ st1, loop_inv items0 (done ++ bs) st1 ∧ loop dry jobs pool regressed items st1 = (None, st')) as (st1 & H1 & H2).
  { destruct (seqb (Kind it) "run") eqn:Ek.
    - eexists. split; [|exact H]. destruct Hinv. constructor; simpl; [done| | |done..].
      + by rewrite app_assoc, l_boots0.
      + apply Forall_app_2; [done|]. apply Forall_forall. intros b Hbin.
        exists it, bs. split_and!; [apply Hin; by left|by destruct (seqb_spec (Kind it) "run")|done..].
    - destruct (measured _ _ _ _ _ _ _) as [[code|] st1] eqn:Em; [done|].
      exists st1. split; [|done]. eapply measured_inv; eauto.
      + apply Hin. by left.
      + intros Hk. by rewrite Hk in Ek. }
  destruct (IH _ _ (λ i Hi, Hin i (list_elem_of_further _ _ _ Hi)) H1 H2) as (bss & Hb & Hi).
  exists (bs :: bss). split; [by constructor|]. simpl. by rewrite app_assoc.
Qed.

Lemma loop_inv_0 items : loop_inv items [] lstate0.
Proof. by repeat constructor. Qed.

(** The loop and the last flush: every boot of the items is in one pool, in
    the order of the battery. *)
Lemma items_done items code st :
  cmdRun_items dry jobs pool regressed items = (code, st) → code ≠ 2%Z →
  ∃ bss, Forall2 (λ it bs, Boots it = inr bs) items bss ∧
    loop_inv items (concat bss) st ∧ pend st = [] ∧
    code = (if negb dry && (0 <? all_bad (calls st)) then 1%Z else 0%Z).
Proof.
  unfold cmdRun_items. intros H Hc.
  destruct (loop _ _ _ _ _ _) as [[c|] st1] eqn:El.
  { simplify_eq/=. exfalso. revert El Hc. generalize lstate0. clear.
    induction items as [|it items IH]; intros s H Hc; simpl in H; [done|].
    destruct (Boots it) as [e|bs]; [congruence|]. destruct (seqb _ _); [by eapply IH|].
    destruct (measured _ _ _ _ _ _ _) as [[c'|] st'] eqn:Em; [|by eapply IH].
    unfold measured in Em. repeat (case_match; simplify_eq/=); done. }
  destruct (loop_ok items items [] lstate0 st1 (λ _ x, x) (loop_inv_0 items) El) as (bss & Hb & Hi).
  destruct (flush jobs pool st1) as [[k|] st2] eqn:Ef; [|congruence].
  destruct (flush_inv _ _ _ _ _ Hi Ef) as [Hi2 Hp]. simplify_eq/=.
  exists bss. split_and!; [done..|]. pose proof (l_bad _ _ _ Hi2) as E. simpl in E. by rewrite E.
Qed.

(** A pool without anything unexpected. *)
Definition call_fine (c : call) : Prop :=
  ∃ l, c_ans c = inr l ∧
    match c_item c with
    | None => Forall (λ s, Verdict s = "ok"%string ∨ Verdict s = "dry"%string) l
    | Some it => Kind it = "matrix"%string → regressed it l = false
    end.

Lemma count_unexpected_0 l :
  count_unexpected l = 0 ↔ Forall (λ s, Verdict s = "ok"%string ∨ Verdict s = "dry"%string) l.
Proof.
  unfold count_unexpected. induction l as [|s l IH]; [done|].
  rewrite Forall_cons, <-IH. clear IH.
  assert (unexpected_verdict s = false ↔ Verdict s = "ok"%string ∨ Verdict s = "dry"%string) as Hs.
  { unfold unexpected_verdict. rewrite andb_false_iff, !negb_false_iff, !seqb_true. done. }
  destruct (unexpected_verdict s) eqn:E.
  - rewrite filter_cons_True by (simpl; by rewrite E). simpl. split; [lia|]. by intros [?%Hs _].
  - rewrite filter_cons_False by (simpl; rewrite E; by intros []). split; [|by intros [_ ?]]. split; [|done]. by apply Hs.
Qed.

Lemma call_fine_bad c : dry = false → answered c → call_fine c ↔ call_bad c = 0.
Proof.
  intros Hd [l Hl]. unfold call_fine, call_bad. rewrite Hl, Hd.
  destruct (c_item c) as [it|].
  - split.
    + intros (l' & [= <-] & H). destruct (seqb_spec (Kind it) "matrix"); [by rewrite H|done].
    + intros H. exists l. split; [done|]. intros Hk. rewrite Hk in H. by destruct (regressed it l).
  - rewrite count_unexpected_0. split; [by intros (? & [= <-] & ?)|by exists l].
Qed.

Lemma all_bad_0 cs :
  dry = false → Forall answered cs → all_bad cs = 0 ↔ Forall call_fine cs.
Proof.
  intros Hd. induction 1 as [|c cs Hc _ IH]; [done|].
  rewrite Forall_cons, <-IH, call_fine_bad by done. simpl. lia.
Qed.

Lemma cmdRun_items_of bat only mkdir code st :
  cmdRun dry jobs hostOf out BuildRef pool regressed (inr bat) only mkdir = (code, st) → code ≠ 2%Z →
  cmdRun_items dry jobs pool regressed (selected only (Items bat)) = (code, st) ∧
  kernels_ok dry BuildRef bat = true ∧
  forallb (item_ok dry hostOf out bat) (checked_items (selected only (Items bat))) = true.
Proof.
  unfold cmdRun. intros H Hc.
  destruct (kernels_ok _ _ _); simpl in H; [|congruence].
  destruct (forallb _ _); simpl in H; [|congruence].
  destruct (negb dry && negb mkdir); [congruence|]. done.
Qed.

(** The exit status of [pvmtest run]: 2 for a battery that cannot be run,
    and otherwise 0 exactly when nothing unexpected was counted: every boot of
    a run item is ok, and no matrix regressed. *)
Theorem cmdRun_exit bat only mkdir code st :
  dry = false →
  cmdRun dry jobs hostOf out BuildRef pool regressed (inr bat) only mkdir = (code, st) →
  code = 2%Z ∨ (code = 0%Z ∧ Forall call_fine (calls st)) ∨
  (code = 1%Z ∧ ¬ Forall call_fine (calls st)).
Proof.
  intros Hd H. destruct (decide (code = 2%Z)) as [|Hc]; [by left|right].
  destruct (cmdRun_items_of _ _ _ _ _ H Hc) as (Hi & _ & _).
  destruct (items_done _ _ _ Hi Hc) as (bss & _ & [] & _ & ->).
  rewrite <-all_bad_0 by done. rewrite Hd. simpl.
  destruct (Nat.ltb_spec 0 (all_bad (calls st))); [right|left]; split; try done; lia.
Qed.

(** The pools of a run that is not refused: every boot of the selected
    items is in exactly one pool and in the order of the battery; a measured
    item's boots are alone in a pool of one job; only run items share a pool
    of [jobs]. *)
Theorem cmdRun_pools bat only mkdir code st :
  cmdRun dry jobs hostOf out BuildRef pool regressed (inr bat) only mkdir = (code, st) → code ≠ 2%Z →
  ∃ bss, Forall2 (λ it bs, Boots it = inr bs) (selected only (Items bat)) bss ∧
    pools_boots (calls st) = concat bss ∧
    Forall (call_wf (selected only (Items bat))) (calls st).
Proof.
  intros H Hc. destruct (cmdRun_items_of _ _ _ _ _ H Hc) as (Hi & _ & _).
  destruct (items_done _ _ _ Hi Hc) as (bss & Hb & [] & Hp & _).
  exists bss. split_and!; [done| |done]. by rewrite Hp, app_nil_r in l_boots0.
Qed.

(** No verdict of an ab item's boots makes the command fail: a battery of
    ab items exits 0 or 2, whatever its boots answer. *)
Theorem cmdRun_ab_never_1 bat only mkdir :
  Forall (λ it, Kind it = "ab"%string) (Items bat) →
  (cmdRun dry jobs hostOf out BuildRef pool regressed (inr bat) only mkdir).1 ≠ 1%Z.
Proof.
  intros Hab. destruct (cmdRun _ _ _ _ _ _ _ _ _ _) as [code st] eqn:H. simpl. intros ->.
  destruct (cmdRun_items_of _ _ _ _ _ H) as (Hi & _ & _); [done|].
  destruct (items_done _ _ _ Hi) as (bss & Hb & [] & Hp & Hcode); [done|].
  assert (all_bad (calls st) = 0) as H0; [|by rewrite H0, andb_false_r in Hcode].
  clear -l_wf0 l_ans0 Hab. induction l_wf0 as [|c cs Hc _ IH]; [done|].
  apply Forall_cons in l_ans0 as [[l Hl] Ha]. simpl. rewrite IH by done.
  assert (∀ it, it ∈ selected only (Items bat) → Kind it = "ab"%string) as Hk.
  { rewrite Forall_forall in Hab. intros it [_ Hit]%list_elem_of_filter. by apply Hab. }
  unfold call_bad. rewrite Hl. unfold call_wf in Hc. destruct (c_item c) as [it|].
  - destruct Hc as (Hit & _). rewrite (Hk _ Hit). by destruct dry.
  - destruct Hc as (_ & Hne & Hrun). destruct (c_boots c) as [|b bs]; [done|].
    apply Forall_cons in Hrun as [(it & ? & Hit & E & _) _]. by rewrite (Hk _ Hit) in E.
Qed.
End CmdRunSpec.

(** ** Two concrete batteries *)
Definition ex_ab : Item := {| Kind := "ab"; i_Name := "cost"; Keys := ∅; Line := 2 |}.
Definition ex_bat (items : list Item) : Battery :=
  {| Path := "batteries/x"; Text := ""; Items := items; Kernels := [] |}.
Definition ex_pool (v : string) (_ : nat) (bs : list Boot) (_ : Z) : string + list Status :=
  inr (ex_status v <$> bs).
Definition ex_cmdRun (v : string) (items : list Item) : Z * lstate :=
  cmdRun false 4 (λ _, "timing"%string) "out" (λ _, None) (ex_pool v) (λ _ _, false) (inr (ex_bat items)) "" true.

Lemma cmdRun_exit_witness :
  ((ex_cmdRun "FAIL" [ex_item; ex_ab]).1 = 1%Z) ∧
  ¬ Forall (call_fine (λ _ _, false)) (calls (ex_cmdRun "FAIL" [ex_item; ex_ab]).2).
Proof.
  assert ((ex_cmdRun "FAIL" [ex_item; ex_ab]).1 = 1%Z) as H by vm_done. split; [done|].
  destruct (cmdRun_exit false 4 (λ _, "timing"%string) "out" (λ _, None) (ex_pool "FAIL") (λ _ _, false)
    (ex_bat [ex_item; ex_ab]) "" true _ _ eq_refl (surjective_pairing _)) as [E|[[E _]|[_ E]]];
    [vm_compute in E; discriminate..|exact E].
Defined.

Lemma cmdRun_pools_witness :
  ∃ bss, Forall2 (λ it bs, Boots it = inr bs) (selected "" [ex_ab; ex_item]) bss ∧
    pools_boots (calls (ex_cmdRun "ok" [ex_ab; ex_item]).2) = concat bss.
Proof.
  destruct (cmdRun_pools false 4 (λ _, "timing"%string) "out" (λ _, None) (ex_pool "ok") (λ _ _, false)
    (ex_bat [ex_ab; ex_item]) "" true _ _ (surjective_pairing _)) as (bss & H1 & H2 & _).
  - vm_compute. discriminate.
  - by exists bss.
Defined.

Lemma cmdRun_ab_never_1_witness :
  (ex_cmdRun "FAIL" [ex_ab]).1 ≠ 1%Z ∧
  Forall (λ c, match c_ans c with inr l => Forall (λ s, Verdict s = "FAIL"%string) l ∧ l ≠ [] | _ => False end)
    (calls (ex_cmdRun "FAIL" [ex_ab]).2).
Proof.
  split; [|vm_compute; repeat constructor; done].
  apply (cmdRun_ab_never_1 false 4 (λ _, "timing"%string) "out" (λ _, None) (ex_pool "FAIL") (λ _ _, false)
    (ex_bat [ex_ab]) "" true). by repeat constructor.
Defined.
