(* ===== verification/EndToEnd.v ===== *)
(** * The harness and the agent agree

    The two programs talk through text: [L1Argv] writes the kernel command line
    the agent's [ParseCmdline] reads, [kutManifest] writes the file the agent's
    [ParseKUTManifest] reads, and the agent prefixes the lines [ParseLog]
    reads. *)
From Stdlib Require Import Ascii.
From S2P Require Import Prelude GoStrings Regexp Text Params Spec ParseLog Checks Run.

(** ** Occurrences of a key in a line of words *)

Definition occurs (key s : string) : Prop := ∃ a b, s = a +:+ key +:+ b.

(** Two ways to cut a string. *)
Lemma app_eq_app_s a b c d :
  a +:+ b = c +:+ d → ∃ k, (a = c +:+ k ∧ d = k +:+ b) ∨ (c = a +:+ k ∧ b = k +:+ d).
Proof.
  revert c. induction a as [|x a IH]; intros c E.
  { exists c. right. by rewrite app_nil_l_s in *. }
  destruct c as [|y c].
  { exists (String x a). left. by rewrite app_nil_l_s in *. }
  rewrite !app_cons_s in E. injection E as -> E.
  destruct (IH c E) as (k & [[-> ->]|[-> ->]]); exists k; [left|right]; by rewrite !app_cons_s.
Qed.

Lemma occurs_sep c key a b :
  no_byte c key = true → key ≠ "" → occurs key (a +:+ String c b) → occurs key a ∨ occurs key b.
Proof.
  intros Hk Hne (x & y & E). change (String c b) with (str1 c +:+ b) in E.
  apply app_eq_app_s in E as (k & [[-> E]|[-> E]]).
  - (* the key starts in [a] *)
    apply eq_sym, app_eq_app_s in E as (j & [[-> E]|[-> E]]).
    + left. by exists x, j.
    + destruct j as [|d j].
      { left. exists x, "". by rewrite !app_nil_r_s. }
      rewrite app_cons_s in E. injection E as <- E.
      unfold no_byte in Hk. rewrite all_bytes_app, all_bytes_cons, ceq_refl in Hk.
      by rewrite andb_comm in Hk.
  - destruct k as [|d k].
    + (* the key starts at the separator *)
      rewrite app_nil_l_s in E. destruct key as [|d key]; [done|].
      rewrite app_cons_s in E. injection E as <- E.
      unfold no_byte in Hk. by rewrite all_bytes_cons, ceq_refl in Hk.
    + rewrite app_cons_s in E. injection E as <- E. rewrite app_nil_l_s in E.
      right. exists k, y. done.
Qed.

Lemma occurs_join key ws :
  no_byte " " key = true → key ≠ "" → occurs key (join " " ws) → Exists (occurs key) ws.
Proof.
  intros Hk Hne. induction ws as [|w ws IH]; intros H.
  { destruct H as (a & b & E). destruct a; [|done]. by destruct key. }
  destruct ws as [|w' ws]; [by left|].
  rewrite join_cons in H. apply occurs_sep in H as [H|H]; [by left|right; by apply IH|done..].
Qed.

Lemma snoc_inj_s a b c d : a +:+ str1 c = b +:+ str1 d → a = b ∧ c = d.
Proof.
  intros E. apply (f_equal bytes) in E. rewrite !bytes_app in E. simpl in E.
  apply app_inj_tail in E as [E ->]. split; [|done].
  by rewrite <-(unbytes_bytes a), E, unbytes_bytes.
Qed.

(** A key that ends in its only [=] does not overlap itself. *)
Lemma key_no_overlap k v x y :
  no_byte "=" k = true → ¬ occurs (k +:+ "=") v →
  (k +:+ "=") +:+ v = x +:+ (k +:+ "=") +:+ y → x = "".
Proof.
  intros Hk Hv E. apply app_eq_app_s in E as (z & [[E1 E2]|[-> E2]]).
  2: { exfalso. apply Hv. by exists z, y. }
  destruct z as [|z d _] using string_rev_ind.
  { exfalso. apply Hv. exists "", y. by rewrite app_nil_l_s in *. }
  rewrite <-app_assoc_s in E1. apply (snoc_inj_s _ _ "=") in E1 as [-> <-].
  unfold no_byte in Hk. rewrite all_bytes_app in Hk. apply andb_prop in Hk as [Hx Hz].
  apply (f_equal (λ s, cut s (str1 "="))) in E2.
  rewrite !app_assoc_s in E2. change (str1 "=" +:+ v) with (String "=" v) in E2.
  change ("=" +:+ y) with (String "=" y) in E2.
  rewrite <-app_assoc_s, !cut_char in E2; [|done|by unfold no_byte; rewrite all_bytes_app, Hx].
  injection E2 as E2 _. apply (f_equal slen) in E2. rewrite slen_app in E2.
  destruct x; [done|]. rewrite slen_cons in E2. lia.
Qed.

(** ** The command line of L1 *)

(** The keys [L1Append] writes. *)
Definition l1_keys : list string :=
  ["suite"; "vendor"; "profile_case"; "guest_append"; "mod_args"; "guest_cpus"; "guest_mem"].
Definition key_of (k : string) : string := ("pvmtest." +:+ k) +:+ "=".

Definition clean (w : string) : Prop := no_byte " " w = true ∧ no_byte ch_nl w = true.
Definition word_ok (k w : string) : Prop :=
  no_byte " " w = true ∧ no_byte ch_nl w = true ∧ ¬ occurs (key_of k) w.

Lemma join_mid sep pre w post :
  join sep (pre ++ w :: post) =
  (match pre with [] => "" | _ => join sep pre +:+ sep end) +:+ w +:+
  (match post with [] => "" | _ => sep +:+ join sep post end).
Proof.
  induction pre as [|p pre IH].
  - rewrite app_nil_l_s. destruct post; [by rewrite app_nil_r_s|]. apply join_cons.
  - destruct pre as [|p' pre].
    + simpl app. rewrite join_cons. simpl app in IH. rewrite IH. by rewrite app_nil_l_s, app_assoc_s.
    + simpl app. rewrite join_cons. simpl app in IH. rewrite IH, join_cons.
      by rewrite !app_assoc_s.
Qed.
Lemma all_bytes_join p sep ws :
  all_bytes p sep = true → Forall (λ w, all_bytes p w = true) ws → all_bytes p (join sep ws) = true.
Proof.
  intros Hs. induction 1 as [|w ws Hw Hws IH]; [done|].
  destruct ws; [done|]. by rewrite join_cons, !all_bytes_app, Hw, Hs, IH.
Qed.
Lemma word_ok_clean k ws : Forall (word_ok k) ws → Forall clean ws.
Proof. intros H. eapply Forall_impl; [exact H|]. by intros w (? & ? & _). Qed.
Lemma join_clean ws : Forall clean ws → no_byte ch_nl (join " " ws) = true.
Proof.
  intros Hws. apply all_bytes_join; [done|]. eapply Forall_impl; [exact Hws|]. by intros w [_ ?].
Qed.
Lemma l1_key_class k :
  k ∈ l1_keys → (k, word_class, CClass true [(" ", " ")%char]) ∈ cmdline_keys ∧
    no_byte " " (key_of k) = true ∧ no_byte ch_nl (key_of k) = true ∧
    no_byte "=" ("pvmtest." +:+ k) = true.
Proof.
  assert (Forall (λ k, (k, word_class, CClass true [(" ", " ")%char]) ∈ cmdline_keys ∧
    no_byte " " (key_of k) = true ∧ no_byte ch_nl (key_of k) = true ∧
    no_byte "=" ("pvmtest." +:+ k) = true) l1_keys) as H.
  { repeat constructor; try vm_done; unfold cmdline_keys; cbv zeta;
      rewrite !elem_of_cons; tauto. }
  rewrite Forall_forall in H. apply H.
Qed.

Lemma in_word c : in_class (CClass true [(" ", " ")%char]) c = negb (ceq c " ").
Proof. by rewrite <-in_class_lit. Qed.

(** The words of a line, one of which sets the key, and nothing else mentions
    it: what the agent reads. *)
Lemma read_word k pre v post :
  k ∈ l1_keys → Forall clean pre → word_ok k v → Forall (word_ok k) post →
  cmdlineValue (join " " (pre ++ (key_of k +:+ v) :: post) +:+ nl) k word_class = v.
Proof.
  intros Hk Hpre (Hv1 & Hv2 & Hv3) Hpost.
  destruct (l1_key_class k Hk) as (Hin & Hk1 & Hk2 & Hk3).
  pose proof join_clean as Hjoin.
  pose proof (word_ok_clean _ _ Hpost) as Hcpost.
  assert (no_byte ch_nl (join " " (pre ++ (key_of k +:+ v) :: post)) = true) as Hl.
  { rewrite join_mid. unfold no_byte. rewrite !all_bytes_app. fold (no_byte ch_nl).
    change (all_bytes _ (key_of k)) with (no_byte ch_nl (key_of k)).
    change (all_bytes _ v) with (no_byte ch_nl v). rewrite Hk2, Hv2.
    destruct pre, post; rewrite ?all_bytes_app; try done;
      repeat match goal with |- context [all_bytes _ (join " " ?ws)] =>
        change (all_bytes _ (join " " ws)) with (no_byte ch_nl (join " " ws)); rewrite (Hjoin ws) by done end;
      done. }
  rewrite (proj2 (cmdlineValue_eq _ _ _ _ Hin Hl)).
  rewrite join_mid, app_assoc_s. change ("pvmtest." +:+ k +:+ "=") with ("pvmtest." +:+ (k +:+ "=")).
  rewrite <-app_assoc_s. fold (key_of k). set (s := v +:+ _).
  assert (¬ occurs (key_of k) s) as Hs.
  { subst s. destruct post as [|w post]; [by rewrite app_nil_r_s|].
    change (" " +:+ join " " (w :: post)) with (String " " (join " " (w :: post))).
    intros [H|H]%occurs_sep; [done| |done|by destruct k].
    apply occurs_join in H; [|done|by destruct k].
    apply Exists_exists in H as (w' & Hw' & H). rewrite Forall_forall in Hpost.
    by destruct (Hpost w' Hw') as (_ & _ & ?). }
  rewrite last_value_at; [|by destruct k|by intros x y; apply key_no_overlap].
  cbn [default]. subst s. rewrite span_run; [done| |].
  - eapply all_bytes_impl; [|exact Hv1]. intros c Hc. cbn beta in Hc.
    by rewrite in_word.
  - intros c s' E. destruct post; [done|]. unfold String.app in E. by injection E as <- _.
Qed.
Lemma read_none k ws :
  k ∈ l1_keys → Forall (word_ok k) ws → cmdlineValue (join " " ws +:+ nl) k word_class = "".
Proof.
  intros Hk Hws. destruct (l1_key_class k Hk) as (Hin & Hk1 & _ & _).
  rewrite (proj2 (cmdlineValue_eq _ _ _ (join " " ws) Hin ltac:(by eapply join_clean, word_ok_clean))).
  rewrite last_value_none; [done|]. apply not_true_iff_false. rewrite contains_spec.
  intros H%occurs_join; [|done|by destruct k]. apply Exists_exists in H as (w & Hw & H).
  rewrite Forall_forall in Hws. by destruct (Hws w Hw) as (_ & _ & ?).
Qed.

(** A word of another key. *)
Lemma occurs_keyed k k' v :
  no_byte "=" k = true → no_byte "=" k' = true → occurs (k +:+ "=") ((k' +:+ "=") +:+ v) →
  occurs (k +:+ "=") v ∨ has_suffix k' k = true.
Proof.
  intros Hk Hk' (x & y & E). apply app_eq_app_s in E as (z & [[E1 E2]|[-> E2]]).
  2: { left. by exists z, y. }
  destruct z as [|z d _] using string_rev_ind.
  { left. exists "", y. by rewrite app_nil_l_s in *. }
  rewrite <-app_assoc_s in E1. apply (snoc_inj_s _ _ "=") in E1 as [-> <-].
  unfold no_byte in Hk'. rewrite all_bytes_app in Hk'. apply andb_prop in Hk' as [_ Hz].
  right. apply has_suffix_spec. exists x.
  apply (f_equal (λ s, cut s (str1 "="))) in E2. rewrite !app_assoc_s in E2.
  change (str1 "=" +:+ v) with (String "=" v) in E2. change ("=" +:+ y) with (String "=" y) in E2.
  rewrite !cut_char in E2 by done. by injection E2 as ->.
Qed.

(** The words of L1's command line: [pvmtest.<key>=<value>], or any other. *)
Inductive entry := Keyed (k v : string) | Plain (w : string).
Definition text (e : entry) : string := match e with Keyed k v => key_of k +:+ v | Plain w => w end.
Definition value_ok (w : string) : Prop := ∀ k, k ∈ l1_keys → word_ok k w.
Definition entry_ok (e : entry) : Prop :=
  match e with Keyed k v => k ∈ l1_keys ∧ value_ok v | Plain w => value_ok w end.
Definition sets (k : string) (e : entry) : Prop := ∃ v, e = Keyed k v.
(** The last value of a key. *)
Definition last_set (k : string) (es : list entry) : string :=
  foldl (λ acc e, match e with Keyed k' v => if seqb k k' then v else acc | Plain _ => acc end) "" es.

Lemma keyed_ok k k' v : k ∈ l1_keys → k' ∈ l1_keys → k ≠ k' → value_ok v → word_ok k (key_of k' +:+ v).
Proof.
  intros Hk Hk' Hne Hv. destruct (Hv k Hk) as (H1 & H2 & H3).
  destruct (l1_key_class k Hk) as (_ & _ & _ & K3).
  destruct (l1_key_class k' Hk') as (_ & K1' & K2' & K3').
  split_and!.
  - unfold no_byte in *. by rewrite all_bytes_app, K1', H1.
  - unfold no_byte in *. by rewrite all_bytes_app, K2', H2.
  - unfold key_of. intros [H|H]%occurs_keyed; [done| |done..].
    assert (Forall (λ k, Forall (λ k', has_suffix ("pvmtest." +:+ k') ("pvmtest." +:+ k) = seqb k k') l1_keys)
      l1_keys) as Hall by (repeat constructor).
    rewrite Forall_forall in Hall. specialize (Hall k Hk). cbn beta in Hall.
    rewrite Forall_forall in Hall. specialize (Hall k' Hk'). cbn beta in Hall.
    rewrite Hall, seqb_true in H. done.
Qed.
Lemma entry_word_ok k e : k ∈ l1_keys → entry_ok e → ¬ sets k e → word_ok k (text e).
Proof.
  intros Hk He Hs. destruct e as [k' v|w]; [|by apply He]. destruct He as [Hk' Hv].
  apply keyed_ok; try done. intros <-. apply Hs. by exists v.
Qed.
Lemma entry_clean e : entry_ok e → clean (text e).
Proof.
  destruct e as [k v|w]; simpl.
  - intros [Hk Hv]. destruct (Hv k Hk) as (H1 & H2 & _). destruct (l1_key_class k Hk) as (_ & K1 & K2 & _).
    unfold clean, no_byte in *. by rewrite !all_bytes_app, K1, K2, H1, H2.
  - intros Hv. destruct (Hv "suite" ltac:(by left)) as (? & ? & _). done.
Qed.

Lemma last_entry k es :
  (Forall (λ e, ¬ sets k e) es ∧ last_set k es = "") ∨
  ∃ pre v post, es = pre ++ Keyed k v :: post ∧ Forall (λ e, ¬ sets k e) post ∧ last_set k es = v.
Proof.
  induction es as [|e es IH] using rev_ind; [by left|].
  assert (sets k e ∨ ¬ sets k e) as [[v ->]|Hn].
  { destruct e as [k' v|w]; [|right; by intros [? ?]].
    destruct (decide (k = k')) as [->|Hne]; [left; by exists v|right; intros [? [= ? ?]]; congruence]. }
  { right. exists es, v, []. unfold last_set. by rewrite foldl_app; simpl; rewrite seqb_refl. }
  assert (last_set k (es ++ [e]) = last_set k es) as Hl.
  { unfold last_set. rewrite foldl_app. destruct e as [k' v|w]; [|done]. cbn [foldl].
    destruct (seqb_spec k k') as [->|]; [|done]. exfalso. apply Hn. by exists v. }
  rewrite Hl. destruct IH as [[Hall H]|(pre & v & post & -> & Hp & H)]; [left|right].
  - split; [|done]. apply Forall_app_2; [done|]. by apply Forall_singleton.
  - exists pre, v, (post ++ [e]). rewrite <-app_assoc, app_comm_cons. split_and!; [done| |done].
    apply Forall_app_2; [done|]. by apply Forall_singleton.
Qed.

Lemma read_entries k es :
  k ∈ l1_keys → Forall entry_ok es →
  cmdlineValue (join " " (text <$> es) +:+ nl) k word_class = last_set k es.
Proof.
  intros Hk Hes.
  assert (∀ l, Forall entry_ok l → Forall (λ e, ¬ sets k e) l → Forall (word_ok k) (text <$> l)) as Hw.
  { intros l H1 H2. apply Forall_fmap, Forall_forall. intros e He. rewrite Forall_forall in H1, H2.
    apply entry_word_ok; auto. }
  destruct (last_entry k es) as [[Hall ->]|(pre & v & post & -> & Hp & ->)].
  - apply read_none; auto.
  - apply Forall_app in Hes as [Hpre [[_ Hv] Hpost]%Forall_cons]. rewrite fmap_app, fmap_cons.
    apply read_word; auto. apply Forall_fmap. eapply Forall_impl; [exact Hpre|]. apply entry_clean.
Qed.

(** The command line of L1 as entries. *)
Definition l1_entries (o : L1Opts) : list entry :=
  [Plain "root=/dev/vda"; Plain "rw"; Plain "console=ttyS0,115200"; Plain "panic=-1";
   Keyed "suite" (o_Suite o); Keyed "vendor" (o_Vendor o)] ++
  (if seqb (Profile o) "" then [] else [Keyed "profile_case" (Profile o)]) ++
  (if 0 <? length (Guest o) then [Keyed "guest_append" (join "," (Guest o))] else []) ++
  (if 0 <? length (Mod o) then [Keyed "mod_args" (join "," (Mod o))] else []) ++
  (if seqb (o_CPUs o) "" then [] else [Keyed "guest_cpus" (o_CPUs o)]) ++
  (if seqb (Mem o) "" then [] else [Keyed "guest_mem" (Mem o)]) ++
  (if seqb (o_Vendor o) "pvm" then [Plain "pvm_host"] else []) ++
  (Plain <$> L1Args o) ++
  [Plain "systemd.mask=serial-getty@ttyS0.service"; Plain "systemd.show_status=false"].
Lemma l1_entries_text o : text <$> l1_entries o = L1Append o.
Proof.
  unfold l1_entries, L1Append. rewrite !fmap_app. repeat f_equal;
    try (match goal with |- context [if ?c then _ else _] => destruct c end; reflexivity).
  rewrite <-list_fmap_compose. apply list_fmap_id.
Qed.

(** The values of a boot: no spaces, no newlines, and none of the keys inside. *)
Definition opts_ok (o : L1Opts) : Prop :=
  Forall value_ok ([o_Suite o; o_Vendor o; Profile o; join "," (Guest o); join "," (Mod o); o_CPUs o; Mem o]
                   ++ L1Args o).

Definition value_okb (w : string) : bool :=
  no_byte " " w && no_byte ch_nl w && forallb (λ k, negb (contains w (key_of k))) l1_keys.
Lemma value_okb_ok w : value_okb w = true → value_ok w.
Proof.
  unfold value_okb. intros [[H1 H2]%andb_prop H3]%andb_prop k Hk. split_and!; [done..|].
  rewrite forallb_forall in H3. specialize (H3 k). rewrite <-list_elem_of_In in H3. specialize (H3 Hk).
  intros H%contains_spec. by rewrite H in H3.
Qed.

Lemma l1_entries_ok o : opts_ok o → Forall entry_ok (l1_entries o).
Proof.
  unfold opts_ok, l1_entries. rewrite Forall_app, !Forall_cons.
  intros [(H1 & H2 & H3 & H4 & H5 & H6 & H7 & _) HL].
  assert (∀ k v, bool_decide (k ∈ l1_keys) = true → value_ok v → entry_ok (Keyed k v)) as HK.
  { intros k v Hk%bool_decide_eq_true Hv. by split. }
  assert (∀ w, value_okb w = true → entry_ok (Plain w)) as HP by (intros; by apply value_okb_ok).
  assert (∀ (c : bool) e, entry_ok e → Forall entry_ok (if c then [e] else [])) as Hif.
  { intros [] e He; [by apply Forall_singleton|done]. }
  assert (∀ (c : bool) e, entry_ok e → Forall entry_ok (if c then [] else [e])) as Hif'.
  { intros [] e He; [done|by apply Forall_singleton]. }
  rewrite !Forall_app. split_and!.
  - do 4 (apply Forall_cons; split; [apply HP; vm_done|]).
    do 2 (apply Forall_cons; split; [by apply HK|]). done.
  - apply Hif'. by apply HK.
  - apply Hif. by apply HK.
  - apply Hif. by apply HK.
  - apply Hif'. by apply HK.
  - apply Hif'. by apply HK.
  - apply Hif, HP. vm_done.
  - apply Forall_fmap. exact HL.
  - do 2 (apply Forall_cons; split; [apply HP; vm_done|]). done.
Qed.

Lemma last_set_app k es es' :
  last_set k (es ++ es') =
  foldl (λ acc e, match e with Keyed k' v => if seqb k k' then v else acc | Plain _ => acc end)
    (last_set k es) es'.
Proof. unfold last_set. by rewrite foldl_app. Qed.
Lemma foldl_plain k acc ws :
  foldl (λ acc e, match e with Keyed k' v => if seqb k k' then v else acc | Plain _ => acc end)
    acc (Plain <$> ws) = acc.
Proof. by induction ws. Qed.
Lemma last_set_l1 o :
  (λ k, last_set k (l1_entries o)) <$> l1_keys =
  [o_Suite o; o_Vendor o; Profile o; join "," (Guest o); join "," (Mod o); o_CPUs o; Mem o].
Proof.
  unfold l1_entries, l1_keys. cbn [fmap list_fmap]. rewrite !last_set_app.
  rewrite !foldl_app. cbn [foldl].
  destruct (seqb_spec (Profile o) "") as [->|]; destruct (Guest o) as [|g gs]; destruct (Mod o) as [|mo ms];
  destruct (seqb_spec (o_CPUs o) "") as [->|]; destruct (seqb_spec (Mem o) "") as [->|];
  destruct (seqb (o_Vendor o) "pvm"); cbn [foldl length Nat.ltb Nat.leb]; rewrite !foldl_plain; reflexivity.
Qed.

(** What the agent's [cmdlineValue] gives for each key. *)
Lemma l1_values o :
  opts_ok o →
  Forall2 (λ k v, cmdlineValue (join " " (L1Append o) +:+ nl) k word_class = v) l1_keys
    [o_Suite o; o_Vendor o; Profile o; join "," (Guest o); join "," (Mod o); o_CPUs o; Mem o].
Proof.
  intros Ho. rewrite <-last_set_l1, Forall2_fmap_r. apply Forall_Forall2_diag, Forall_forall.
  intros k Hk. rewrite <-l1_entries_text. apply read_entries; [done|by apply l1_entries_ok].
Qed.

(** C20: the agent inside L1 reads from its kernel command line exactly what
    the harness put on it: suite, vendor, profiled case, the guest's and the
    module's arguments, the guest's CPUs and memory, with the agent's defaults
    for what was left out. *)
Theorem L1Append_ParseCmdline o :
  opts_ok o →
  let p := ParseCmdline (join " " (L1Append o) +:+ nl) in
  Suite p = orDefault (o_Suite o) "default" ∧ Params.Vendor p = orDefault (o_Vendor o) "pvm" ∧
  GuestCPUs p = orDefault (o_CPUs o) "2" ∧ GuestMem p = orDefault (Mem o) "1G" ∧
  ProfileCase p = Profile o ∧ ModArgs p = replace_char "," " " (join "," (Mod o)) ∧
  p_GuestAppend p = join "," (Guest o).
Proof.
  intros Ho p. pose proof (l1_values o Ho) as Hl. unfold l1_keys in Hl. rewrite !Forall2_cons in Hl.
  destruct Hl as (E1 & E2 & E3 & E4 & E5 & E6 & E7 & _). unfold p, ParseCmdline.
  cbn [Suite Params.Vendor GuestCPUs GuestMem ProfileCase ModArgs p_GuestAppend]. rewrite E1, E2, E3, E4, E5, E6, E7. done.
Qed.
Definition ex_opts : L1Opts := {|
  o_Suite := "kut"; o_Vendor := "pvm"; Guest := ["pvmtest.only=mm/fork|mm/mmap"; "quiet"]; Mod := ["ept=0"];
  o_CPUs := "4"; Mem := ""; Profile := ""; L1Args := ["pti=on"; "pvmtest.guest_timeout=15000"]; Accel := "kvm";
  CPU := "host"; o_Timeout := 0; Log := ""; Echo := false; Pin := false; QMP := ""; Debug_ := "" |}.
Lemma L1Append_ParseCmdline_witness :
  Suite (ParseCmdline (join " " (L1Append ex_opts) +:+ nl)) = "kut" ∧
  p_GuestAppend (ParseCmdline (join " " (L1Append ex_opts) +:+ nl)) = "pvmtest.only=mm/fork|mm/mmap,quiet".
Proof.
  destruct (L1Append_ParseCmdline ex_opts) as (H1 & _ & _ & _ & _ & _ & H2); [|by split].
  unfold opts_ok. repeat (apply Forall_cons; split; [apply value_okb_ok; vm_done|]). done.
Defined.

(** ** The kvm-unit-tests manifest *)

(** What the agent should get of a test. *)
Definition to_agent (t : kutTest) : KUTTest :=
  Build_KUTTest (t_Name t) (t_File t) (t_Smp t) (t_Timeout t) (t_Check t) (SplitQuoted (manifest_args t)).
Definition manifest_ok (t : kutTest) : Prop :=
  has_prefix (t_Name t) "#" = false ∧
  Forall (λ f, no_byte ch_tab f = true ∧ no_byte ch_nl f = true)
    [t_Name t; t_File t; t_Smp t; t_Timeout t; t_Check t] ∧
  no_byte ch_nl (manifest_args t) = true.
Definition manifest_body (t : kutTest) : string :=
  t_Name t +:+ tab +:+ t_File t +:+ tab +:+ t_Smp t +:+ tab +:+ t_Timeout t +:+ tab +:+
  t_Check t +:+ tab +:+ manifest_args t.

Lemma kutManifest_cons t ts : kutManifest (t :: ts) = manifest_body t +:+ String ch_nl (kutManifest ts).
Proof.
  unfold kutManifest. assert (∀ ts b, foldl (λ b t, b +:+ manifest_line t) b ts =
    b +:+ foldl (λ b t, b +:+ manifest_line t) "" ts) as H.
  { clear. induction ts as [|t ts IH]; intros b; cbn [foldl]; [by rewrite app_nil_r_s|].
    rewrite IH, (IH ("" +:+ _)), app_nil_l_s. apply app_assoc_s. }
  cbn [foldl]. rewrite H, app_nil_l_s. unfold manifest_line, manifest_body. by rewrite !app_assoc_s.
Qed.

Lemma split_n_cons n c a s :
  no_byte c a = true → split_n (S (S n)) c (a +:+ String c s) = a :: split_n (S n) c s.
Proof. intros H. cbn [split_n]. by rewrite cut_char. Qed.

Lemma body_fields t :
  manifest_ok t →
  split_n 6 ch_tab (manifest_body t) =
  [t_Name t; t_File t; t_Smp t; t_Timeout t; t_Check t; manifest_args t].
Proof.
  intros (_ & Hf & _). rewrite !Forall_cons in Hf. destruct Hf as ([H1 _] & [H2 _] & [H3 _] & [H4 _] & [H5 _] & _).
  unfold manifest_body, tab, str1. rewrite !app_cons_s, !app_nil_l_s.
  by rewrite !split_n_cons.
Qed.
Lemma body_line t :
  manifest_ok t → no_byte ch_nl (manifest_body t) = true ∧
  seqb (manifest_body t) "" || has_prefix (manifest_body t) "#" = false.
Proof.
  intros (Hn & Hf & Ha). rewrite !Forall_cons in Hf. destruct Hf as ([_ H1] & [_ H2] & [_ H3] & [_ H4] & [_ H5] & _).
  unfold manifest_body, tab, no_byte in *. split.
  - rewrite !all_bytes_app, H1, H2, H3, H4, H5, Ha. done.
  - destruct (t_Name t) as [|c n]; [done|]. rewrite app_cons_s. apply orb_false_iff. split; [done|].
    unfold has_prefix in *. cbn [cut_prefix] in *. by destruct (ceq "#" c).
Qed.

Lemma manifest_read tests acc : Forall manifest_ok tests →
  foldl (λ out l,
    if seqb l "" || has_prefix l "#" then out
    else match split_n 6 ch_tab l with
         | [n; f; s; t; c; a] => out ++ [Build_KUTTest n f s t c (SplitQuoted a)]
         | _ => out
         end) acc (split ch_nl (kutManifest tests)) = acc ++ (to_agent <$> tests).
Proof.
  intros H. match goal with |- foldl ?f _ _ = _ => set (F := f) end. revert acc.
  induction H as [|t ts Ht _ IH]; intros acc.
  { rewrite app_nil_r. reflexivity. }
  destruct (body_line t Ht) as [Hnl Hskip].
  rewrite kutManifest_cons, split_app_sep by done. cbn [foldl]. rewrite IH. unfold F.
  rewrite Hskip, body_fields by done. by rewrite fmap_cons, <-(assoc_L (++)).
Qed.
(** The comment the build puts first is skipped. *)
Lemma manifest_comment_read tests x : Forall manifest_ok tests → no_byte ch_nl x = true →
  ParseKUTManifest (String "#" x +:+ nl +:+ kutManifest tests) = to_agent <$> tests.
Proof.
  intros H Hx. unfold ParseKUTManifest, nl, str1. rewrite (app_cons_s ch_nl), app_nil_l_s, split_app_sep by done.
  cbn [foldl]. by rewrite manifest_read.
Qed.

(** The agent runs the tests the harness selected: the manifest it reads
    gives back every test of the manifest written, in order, with its fields
    and its arguments split as a shell would. *)
Theorem kutManifest_ParseKUTManifest tests :
  Forall manifest_ok tests → ParseKUTManifest (kutManifest tests) = to_agent <$> tests.
Proof. apply (manifest_read tests []). Qed.
Definition ex_test : kutTest :=
  {| t_Name := "apic"; t_File := "apic.flat"; t_Smp := "2"; t_Timeout := "30"; t_Check := ""; t_Accel := "";
     t_Arch := "x86_64"; t_Groups := "apic"; t_Params := "-cpu qemu64,+x2apic"; t_Args := "'a b' c" |}.
Lemma kutManifest_ParseKUTManifest_witness :
  ParseKUTManifest (kutManifest [ex_test]) = [to_agent ex_test] ∧
  Args (to_agent ex_test) = ["-cpu"; "qemu64,+x2apic"; "-append"; "a b"; "c"].
Proof.
  split; [|vm_done]. apply (kutManifest_ParseKUTManifest [ex_test]). apply Forall_singleton.
  split_and!; [vm_done|repeat (apply Forall_cons; split; [split; vm_done|]); done|vm_done].
Defined.

(** ** The verdict lines *)

(** What the agent prints of a selftest, and of a kvm-unit-test; the serial
    console ends its lines with CR LF. *)
Definition selftest_line (name : string) (rc : Z) : string :=
  "SELFTEST: " +:+ name +:+ " " +:+ SelftestVerdict rc +:+ " rc=" +:+ itoa rc.
Definition kut_line (name : string) (rc : Z) (summary : string) : string :=
  "KUT: " +:+ name +:+ " " +:+ KUTVerdict rc +:+ " rc=" +:+ itoa rc +:+ summary.
Definition console (ls : list string) : string := foldr (λ l s, l +:+ String ch_cr (String ch_nl s)) "" ls.

Definition word (w : string) : Prop := all_bytes (λ c, negb (is_space c)) w = true ∧ w ≠ "".
Lemma fields_two a b rest : word a → word b →
  ∃ l, GoStrings.fields (a +:+ " " +:+ b +:+ " " +:+ rest) = a :: b :: l.
Proof.
  intros [Ha Ha'] [Hb Hb']. unfold GoStrings.fields, fields_func.
  rewrite fields_go_run by done. rewrite !app_cons_s, !app_nil_l_s. cbn [fields_go].
  change (is_space " ") with true. cbv iota. rewrite (proj2 (seqb_false a "")) by done.
  rewrite fields_go_run by done. rewrite !app_nil_l_s. cbn [fields_go].
  change (is_space " ") with true. cbv iota. rewrite (proj2 (seqb_false b "")) by done. by eexists.
Qed.
Lemma pair_of prefix name v rest : word name → word v →
  verdict_pair prefix (prefix +:+ name +:+ " " +:+ v +:+ " " +:+ rest) = Some (name, v).
Proof.
  intros Hn Hv. unfold verdict_pair. rewrite has_prefix_app, trim_prefix_app.
  by destruct (fields_two name v rest Hn Hv) as [l ->].
Qed.
Lemma SelftestVerdict_word rc : word (SelftestVerdict rc).
Proof. unfold SelftestVerdict, word. repeat case_match; by split. Qed.
Lemma KUTVerdict_word rc : word (KUTVerdict rc).
Proof. unfold KUTVerdict, word. repeat case_match; by split. Qed.

(** A clean line of the console, read back without its CR. *)
Definition plain_line (l : string) : Prop := no_byte ch_cr l = true ∧ no_byte ch_nl l = true.
Lemma replace_cr_app a b : no_byte ch_cr a = true → replace_cr (a +:+ b) = a +:+ replace_cr b.
Proof.
  intros H. induction a as [|c a IH]; [by rewrite !app_nil_l_s|].
  unfold no_byte in H. rewrite all_bytes_cons in H. apply andb_prop in H as [Hc%negb_true_iff Ha].
  rewrite !app_cons_s. unfold replace_cr in *. cbn [replace_char]. rewrite Hc, IH by done. done.
Qed.
Lemma console_lines ls :
  Forall plain_line ls → split ch_nl (replace_cr (console ls)) = ls ++ [""].
Proof.
  induction 1 as [|l ls [Hcr Hnl] _ IH]; [done|].
  cbn [console foldr]. rewrite replace_cr_app by done.
  change (foldr _ "" ls) with (console ls).
  assert (replace_cr (String ch_cr (String ch_nl (console ls))) = String ch_nl (replace_cr (console ls))) as ->
    by done.
  by rewrite split_app_sep, IH.
Qed.

Lemma word_plain w : word w → plain_line w.
Proof.
  intros [H _]. split; (eapply all_bytes_impl; [|exact H]; intros c;
    destruct (ceq c _) eqn:E; [apply ceq_true in E as ->|]; done).
Qed.
Lemma plain_app a b : plain_line a → plain_line b → plain_line (a +:+ b).
Proof. intros [A1 A2] [B1 B2]. unfold plain_line, no_byte in *. by rewrite !all_bytes_app, A1, A2, B1, B2. Qed.
Lemma itoa_plain z : (0 ≤ z)%Z → plain_line (itoa z).
Proof.
  intros Hz. pose proof (itoa_digits z Hz) as H.
  split; (eapply all_bytes_impl; [|exact H]; intros c;
    destruct (ceq c _) eqn:E; [apply ceq_true in E as ->|]; done).
Qed.

(** What the agent reports, between other lines of the console. *)
Inductive report := Selftest (name : string) (rc : Z) | Kut (name : string) (rc : Z) (summary : string)
  | Other (l : string).
Definition report_line (r : report) : string :=
  match r with
  | Selftest n rc => selftest_line n rc | Kut n rc s => kut_line n rc s | Other l => l
  end.
Definition report_ok (r : report) : Prop :=
  match r with
  | Selftest n rc => word n ∧ (0 ≤ rc)%Z
  | Kut n rc s => word n ∧ (0 ≤ rc)%Z ∧ plain_line s
  | Other l => plain_line l ∧ has_prefix l "SELFTEST: " = false ∧ has_prefix l "KUT: " = false
  end.
Definition selftest_verdict (r : report) : option (string * string) :=
  match r with Selftest n rc => Some (n, SelftestVerdict rc) | _ => None end.
Definition kut_verdict (r : report) : option (string * string) :=
  match r with Kut n rc _ => Some (n, KUTVerdict rc) | _ => None end.

Lemma report_plain r : report_ok r → plain_line (report_line r).
Proof.
  destruct r as [n rc|n rc s|l]; simpl.
  - intros [Hn Hrc]. unfold selftest_line.
    repeat (apply plain_app; [first [by apply word_plain; auto using SelftestVerdict_word|by split]|]).
    by apply itoa_plain.
  - intros (Hn & Hrc & Hs). unfold kut_line.
    repeat (apply plain_app; [first [by apply word_plain; auto using KUTVerdict_word|by split|by apply itoa_plain]|]).
    done.
  - by intros [? _].
Qed.
Lemma report_pairs r : report_ok r →
  verdict_pair "SELFTEST: " (report_line r) = selftest_verdict r ∧
  verdict_pair "KUT: " (report_line r) = kut_verdict r.
Proof.
  destruct r as [n rc|n rc s|l]; simpl.
  - intros [Hn _]. split; [|done].
    exact (pair_of "SELFTEST: " n _ ("rc=" +:+ itoa rc) Hn (SelftestVerdict_word rc)).
  - intros (Hn & _). split; [done|].
    exact (pair_of "KUT: " n _ ("rc=" +:+ itoa rc +:+ s) Hn (KUTVerdict_word rc)).
  - intros (_ & H1 & H2). unfold verdict_pair. by rewrite H1, H2.
Qed.

(** The verdicts the checkers judge are the ones the agent reported: from
    the console's text (CR LF line ends, other lines in between) they read each
    selftest and each kvm-unit-test with the verdict of its exit status, in
    order and with nothing added. *)
Theorem verdicts_read rs :
  Forall report_ok rs →
  log_verdicts "SELFTEST: " (console (report_line <$> rs)) = omap selftest_verdict rs ∧
  log_verdicts "KUT: " (console (report_line <$> rs)) = omap kut_verdict rs.
Proof.
  intros H. unfold log_verdicts. rewrite console_lines.
  2: { apply Forall_fmap. eapply Forall_impl; [exact H|]. apply report_plain. }
  rewrite !omap_app. simpl. rewrite !app_nil_r.
  induction H as [|r rs Hr _ IH]; [done|]. destruct (report_pairs r Hr) as [E1 E2].
  cbn. rewrite E1, E2. destruct IH as [-> ->]. done.
Qed.
Lemma verdicts_read_witness :
  log_verdicts "SELFTEST: " (console (report_line <$>
    [Other "L1: hello"; Selftest "x86/cpuid" 0; Kut "apic" 3 " tests=2"; Selftest "x86/smm" 124])) =
  [("x86/cpuid", "pass"); ("x86/smm", "timeout")].
Proof.
  refine (proj1 (verdicts_read [Other "L1: hello"; Selftest "x86/cpuid" 0; Kut "apic" 3 " tests=2";
    Selftest "x86/smm" 124] _)).
  repeat (apply Forall_cons; split); try done; by repeat split.
Defined.
