(* ===== verification/Harness.v ===== *)
(** * initrd/internal/harness/harness.go: the guest's test harness

    The cases a boot selects, the order they run in, what is printed of each
    and the report.  A case itself is a function of the guest: what the harness
    receives from it, the notes it leaves, the lines it prints and the time it
    takes are arguments.  Output is a list of lines, each of them printed with
    its newline. *)
From Stdlib Require Import Ascii.
From S2P Require Import Prelude GoStrings.

Definition Smoke : string := "smoke".
Definition Core : string := "default".
Definition Full : string := "full".
Definition Perf : string := "perf".
Definition Security : string := "security".
Definition Scaling : string := "scaling".

(** A case; its function is known through what it answers (below). *)
Record Case := { Name : string; Suites : list string; Timeout : Z }.

(** What the select of [runOne] receives: the function's error, a recovered
    panic with its stack, or the timer. *)
Inductive received := R_err (e : option string) | R_panic (text : string) | R_timeout.
(** One execution of a case: what is received, the notes it logged, the lines
    it printed itself, and the time it took, rounded and printed. *)
Record ran := { recv : received; notes : list string; during : list string; took : string }.

Record Harness := {
  suite : string; tag : string; only : string; cases : list Case;
  pass : Z; fail : Z; skip : Z; failed : list string;
  (** the open MSR device: what a write of a mark answers *)
  markDev : option (Z → option string)
}.
Definition New (suite tag : string) : Harness := {|
  suite := suite; tag := tag; only := ""; cases := []; pass := 0; fail := 0; skip := 0; failed := [];
  markDev := None |}.

Definition default_timeout : Z := 30 * 1000000000.
Definition set_cases (h : Harness) (l : list Case) : Harness := {|
  suite := suite h; tag := tag h; only := only h; cases := l; pass := pass h; fail := fail h;
  skip := skip h; failed := failed h; markDev := markDev h |}.
Definition Add (h : Harness) (c : Case) : Harness :=
  let c := if (Timeout c =? 0)%Z
           then {| Name := Name c; Suites := Suites c; Timeout := default_timeout |} else c in
  set_cases h (cases h ++ [c]).
Definition Only (h : Harness) (sub : string) : Harness := {|
  suite := suite h; tag := tag h; only := sub; cases := cases h; pass := pass h; fail := fail h;
  skip := skip h; failed := failed h; markDev := markDev h |}.

(** [SetScale] and [N]. *)
Definition SetScale (scale n : Z) : Z := if (0 <? n)%Z then n else scale.
Definition N (scale n : Z) : Z := int64 (n * scale)%Z.

(** ** Selection *)
Definition rank (s : string) : option Z :=
  if seqb s Smoke then Some 0%Z else if seqb s Core then Some 1%Z else
  if seqb s Full then Some 2%Z else if seqb s Perf then Some 3%Z else None.
Definition selected (h : Harness) (c : Case) : bool :=
  if contains (only h) "|" then existsb (seqb (Name c)) (split "|" (only h)) else
  if negb (seqb (only h) "") && negb (contains (Name c) (only h)) then false else
  if negb (seqb (only h) "") && seqb (Name c) (only h) then true else
  if seqb (suite h) "all" then true else
  if existsb (λ s, seqb s (suite h)) (Suites c) then true else
  match rank (suite h) with
  | None => false
  | Some want =>
      if (want =? 3)%Z then false else
      existsb (λ s, match rank s with Some r => (r <=? want)%Z && negb (r =? 3)%Z | None => false end) (Suites c)
  end.

(** ** Running *)
Definition mark (h : Harness) (v : Z) (name : string) : list string :=
  match markDev h with
  | None => []
  | Some write =>
      ("PVMTEST-MARK: " +:+ itoa v +:+ " " +:+ name +:+ " #END") ::
      match write v with
      | Some e => ["PVMINIT: mark " +:+ itoa v +:+ " failed: " +:+ e]
      | None => []
      end
  end.

Section Run.
(** [time.Duration.String], and what running a case gives. *)
Context (durString : Z → string) (exec : Case → ran).

Definition err_of (c : Case) (r : received) : option string :=
  match r with
  | R_err e => e
  | R_panic t => Some ("panic: " +:+ t)
  | R_timeout => Some ("timed out after " +:+ durString (Timeout c))
  end.
Definition note_line (n : string) : string := "#   " +:+ n.
Definition count_pass (h : Harness) : Harness := {|
  suite := suite h; tag := tag h; only := only h; cases := cases h; pass := pass h + 1; fail := fail h;
  skip := skip h; failed := failed h; markDev := markDev h |}.
Definition count_fail (h : Harness) (name : string) : Harness := {|
  suite := suite h; tag := tag h; only := only h; cases := cases h; pass := pass h; fail := fail h + 1;
  skip := skip h; failed := failed h ++ [name]; markDev := markDev h |}.
Definition count_skip (h : Harness) : Harness := {|
  suite := suite h; tag := tag h; only := only h; cases := cases h; pass := pass h; fail := fail h;
  skip := skip h + 1; failed := failed h; markDev := markDev h |}.

Definition runOne (h : Harness) (n : Z) (c : Case) : Harness * list string :=
  let r := exec c in
  let line := itoa n +:+ " - " +:+ Name c +:+ " (" +:+ took r +:+ ")" in
  let notes := note_line <$> notes r in
  match err_of c (recv r) with
  | Some e =>
      (count_fail h (Name c),
       during r ++ ["not ok " +:+ line] ++ (note_line <$> split ch_nl e) ++ notes)
  | None => (count_pass h, during r ++ ["ok " +:+ line] ++ notes)
  end.
Fixpoint run_loop (h : Harness) (i : Z) (run : list Case) : Harness * list string :=
  match run with
  | [] => (h, [])
  | c :: run =>
      let before := mark h (2 * (i + 1)) (Name c +:+ "/before") in
      let '(h, l) := runOne h (i + 1) c in
      let after := mark h (2 * (i + 1) + 1) (Name c +:+ "/after") in
      let '(h, ls) := run_loop h (i + 1) run in
      (h, before ++ l ++ after ++ ls)
  end.
Definition select_step (st : Harness * list Case) (c : Case) : Harness * list Case :=
  let '(h, run) := st in if selected h c then (h, run ++ [c]) else (count_skip h, run).
Definition Run (h : Harness) : Harness * list string :=
  let h := set_cases h (sort_stable (λ a b, str_less (Name a) (Name b)) (cases h)) in
  let '(h, run) := foldl select_step (h, []) (cases h) in
  let '(h, ls) := run_loop h 0 run in
  (h, ("1.." +:+ itoa (Z.of_nat (length run))) :: ls).

Definition status (h : Harness) : string :=
  if (0 <? fail h)%Z || (pass h =? 0)%Z then "fail" else "ok".
Definition Report (h : Harness) (elapsed : string) : list string :=
  ["";
   "# ran " +:+ itoa (pass h + fail h) +:+ ", passed " +:+ itoa (pass h) +:+ ", failed " +:+ itoa (fail h) +:+
   ", not selected " +:+ itoa (skip h) +:+ ", in " +:+ elapsed] ++
  (if 0 <? length (failed h) then ["# failed: " +:+ join " " (failed h)] else []) ++
  ["PVMTEST-RESULT: " +:+ status h +:+ " tag=" +:+ tag h +:+ " suite=" +:+ suite h +:+
   " pass=" +:+ itoa (pass h) +:+ " fail=" +:+ itoa (fail h)].
End Run.

(** ** initrd/internal/sysinit: the kernel command line, and main *)
Definition cmdline_token (m : gmap string string) (tok : string) : gmap string string :=
  match cut tok "=" with
  | Some (k, v) => <[k := v]> m
  | None => <[tok := ""]> m
  end.
Definition Cmdline (text : string) : gmap string string := foldl cmdline_token ∅ (fields text).
Definition Get (m : gmap string string) (key def : string) : string :=
  match m !! key with Some v => if negb (seqb v "") then v else def | None => def end.
(** The harness [main] makes of the command line; [cs] are the cases it
    registers and [dev] the MSR device when one was asked for and opened. *)
Definition guest_harness (cmdline : string) (cs : list Case) (dev : option (Z → option string)) : Harness :=
  let m := Cmdline cmdline in
  let h := New (Get m "pvmtest.suite" "default") (Get m "pvmtest.tag" "guest") in
  let h := {| suite := suite h; tag := tag h; only := only h; cases := cases h; pass := pass h;
              fail := fail h; skip := skip h; failed := failed h; markDev := dev |} in
  let o := Get m "pvmtest.only" "" in
  let h := if seqb o "" then h else Only h o in
  foldl Add h cs.

(** ** What is selected *)

(** A suite that contains another: full contains default, which contains
    smoke. *)
Definition contains_suite (big small : string) : Prop :=
  big = Core ∧ small = Smoke ∨ big = Full ∧ (small = Smoke ∨ small = Core).

Lemma rank_some s r : rank s = Some r ↔
  s = Smoke ∧ r = 0%Z ∨ s = Core ∧ r = 1%Z ∨ s = Full ∧ r = 2%Z ∨ s = Perf ∧ r = 3%Z.
Proof.
  unfold rank. destruct (seqb_spec s Smoke) as [->|]; [naive_solver|].
  destruct (seqb_spec s Core) as [->|]; [naive_solver|].
  destruct (seqb_spec s Full) as [->|]; [naive_solver|].
  destruct (seqb_spec s Perf) as [->|]; naive_solver.
Qed.

Lemma rank_below big small w :
  rank big = Some w → w ≠ 3%Z →
  (match rank small with Some r => (r <=? w)%Z && negb (r =? 3)%Z | None => false end = true ↔
   small = big ∨ contains_suite big small).
Proof.
  intros Hw Hne. apply rank_some in Hw. unfold contains_suite. split.
  - destruct (rank small) as [r|] eqn:E; [|done]. apply rank_some in E.
    rewrite andb_true_iff, Z.leb_le, negb_true_iff, Z.eqb_neq. intros [? ?].
    destruct Hw as [[-> ->]|[[-> ->]|[[-> ->]|[-> ->]]]], E as [[-> ->]|[[-> ->]|[[-> ->]|[-> ->]]]];
      try lia; auto.
  - intros H. destruct Hw as [[-> ->]|[[-> ->]|[[-> ->]|[-> ->]]]]; try done;
      destruct H as [->|[[H ->]|[H [->| ->]]]]; done.
Qed.

(** A boot without a filter selects exactly the cases that list its suite
    or a suite it contains (full contains default, default contains smoke), or
    every case for the suite all: perf, security and scaling are never dragged
    in. *)
Theorem selected_by_suite h c :
  only h = "" →
  selected h c = true ↔
  suite h = "all" ∨ ∃ s, s ∈ Suites c ∧ (s = suite h ∨ contains_suite (suite h) s).
Proof.
  intros Ho. unfold selected. rewrite Ho. cbn [negb seqb]. change (contains "" "|") with false.
  change (seqb "" "") with true. cbn [negb andb].
  destruct (seqb_spec (suite h) "all") as [->|Hall]; [by split; [left|]|].
  assert (∀ P : string → bool, existsb P (Suites c) = true ↔ ∃ s, s ∈ Suites c ∧ P s = true) as Hex.
  { intros P. rewrite existsb_exists. by setoid_rewrite list_elem_of_In. }
  destruct (existsb _ (Suites c)) eqn:E.
  { split; [|done]. intros _. right. apply Hex in E as (s & Hs & ->%seqb_true). eauto. }
  assert (∀ s, s ∈ Suites c → s ≠ suite h) as Hn.
  { intros s Hs ->. apply not_true_iff_false in E. apply E, Hex. exists (suite h).
    by rewrite seqb_refl. }
  destruct (rank (suite h)) as [w|] eqn:Er.
  2: { split; [done|]. intros [?|(s & Hs & [?|Hc])]; [done|by eapply Hn in Hs|].
       unfold contains_suite in Hc. destruct Hc as [[Hc _]|[Hc _]]; by rewrite Hc in Er. }
  destruct (Z.eqb_spec w 3) as [->|Hw].
  { split; [done|]. intros [?|(s & Hs & [?|Hc])]; [done|by eapply Hn in Hs|].
    unfold contains_suite in Hc. destruct Hc as [[Hc _]|[Hc _]]; by rewrite Hc in Er. }
  rewrite Hex. split.
  - intros (s & Hs & H). right. exists s. split; [done|]. by apply (rank_below _ _ w).
  - intros [?|(s & Hs & H)]; [done|]. exists s. split; [done|]. by apply (rank_below (suite h) s w).
Qed.
Definition perf_case : Case := {| Name := "perf/fault-scaling"; Suites := [Scaling]; Timeout := 0 |}.
Lemma selected_by_suite_witness :
  only (New "full" "t") = "" ∧ selected (New "full" "t") perf_case = false ∧
  selected (New "full" "t") {| Name := "mm/fork"; Suites := [Smoke]; Timeout := 0 |} = true.
Proof.
  split; [done|]. split; [vm_done|].
  apply (selected_by_suite (New "full" "t") {| Name := "mm/fork"; Suites := [Smoke]; Timeout := 0 |} eq_refl).
  right. exists Smoke. split; [by left|]. right. right. auto.
Defined.

Lemma selected_by_names h c l :
  only h = join "|" l → 2 ≤ length l → Forall (λ x, no_byte "|" x = true) l →
  selected h c = true ↔ Name c ∈ l.
Proof.
  intros Ho Hl Hc. unfold selected. rewrite Ho.
  assert (contains (join "|" l) "|" = true) as ->.
  { destruct l as [|a [|b l]]; simpl in Hl; [lia..|]. rewrite join_cons. apply contains_spec.
    by exists a, (join "|" (b :: l)). }
  change "|" with (str1 "|"). rewrite split_join by (try done; intros ->; simpl in Hl; lia).
  rewrite existsb_exists. setoid_rewrite <-list_elem_of_In. setoid_rewrite seqb_true.
  split; [by intros (x & ? & ->)|eauto].
Qed.

(** ** What a run counts and reports *)
Section RunSpec.
Context (durString : Z → string) (exec : Case → ran).
Definition errs (c : Case) : bool := match err_of durString c (recv (exec c)) with Some _ => true | None => false end.

(** The same harness apart from its counters. *)
Definition same_selection (h h' : Harness) : Prop :=
  suite h' = suite h ∧ tag h' = tag h ∧ only h' = only h ∧ cases h' = cases h.
Lemma same_selected h h' c : same_selection h h' → selected h' c = selected h c.
Proof. intros (E1 & _ & E2 & _). unfold selected. by rewrite E1, E2. Qed.

Lemma select_loop h run cs :
  ∃ h', foldl select_step (h, run) cs = (h', run ++ filter (λ c, selected h c = true) cs) ∧
    same_selection h h' ∧ pass h' = pass h ∧ fail h' = fail h ∧ failed h' = failed h ∧
    skip h' = (skip h + Z.of_nat (length (filter (λ c, selected h c = false) cs)))%Z.
Proof.
  revert h run. induction cs as [|c cs IH]; intros h run; cbn [foldl].
  { exists h. rewrite filter_nil, app_nil_r. split_and!; try done. simpl. lia. }
  cbn [select_step]. rewrite !filter_cons.
  destruct (selected h c) eqn:E.
  - rewrite decide_True by done. rewrite decide_False by done.
    destruct (IH h (run ++ [c])) as (h' & -> & H). exists h'. by rewrite <-app_assoc.
  - rewrite decide_False by done. rewrite decide_True by done.
    destruct (IH (count_skip h) run) as (h' & -> & Hs & Hp & Hf & Hn & Hk). exists h'. split_and!; try done.
    transitivity (skip h + 1 + Z.of_nat (length (filter (λ c, selected h c = false) cs)))%Z;
      [exact Hk|cbn [length]; lia].
Qed.

Lemma run_loop_counts h i run :
  let h' := (run_loop durString exec h i run).1 in
  same_selection h h' ∧ skip h' = skip h ∧
  pass h' = (pass h + Z.of_nat (length (filter (λ c, errs c = false) run)))%Z ∧
  fail h' = (fail h + Z.of_nat (length (filter (λ c, errs c = true) run)))%Z ∧
  failed h' = failed h ++ (Name <$> filter (λ c, errs c = true) run).
Proof.
  revert h i. induction run as [|c run IH]; intros h i; cbn [run_loop fst].
  { rewrite !filter_nil. cbn. rewrite app_nil_r. split_and!; try done; lia. }
  unfold runOne. destruct (err_of durString c (recv (exec c))) as [e|] eqn:E.
  - assert (errs c = true) as Ec by (unfold errs; by rewrite E).
    specialize (IH (count_fail h (Name c)) (i + 1)%Z).
    destruct (run_loop _ _ _ _ run) as [h' ls]. cbn [fst] in *.
    rewrite (filter_cons_True (λ c, errs c = true)), (filter_cons_False (λ c, errs c = false)) by congruence.
    destruct IH as (Hs & Hk & Hp & Hf & Hn). cbn [count_fail skip pass fail failed] in *.
    split_and!; try done; [rewrite Hf; cbn [length]; lia|]. by rewrite Hn, <-app_assoc.
  - assert (errs c = false) as Ec by (unfold errs; by rewrite E).
    specialize (IH (count_pass h) (i + 1)%Z).
    destruct (run_loop _ _ _ _ run) as [h' ls]. cbn [fst] in *.
    rewrite (filter_cons_False (λ c, errs c = true)), (filter_cons_True (λ c, errs c = false)) by congruence.
    destruct IH as (Hs & Hk & Hp & Hf & Hn). cbn [count_pass skip pass fail failed] in *.
    split_and!; try done. rewrite Hp; cbn [length]; lia.
Qed.

(** The cases of a run, in the order they run in. *)
Definition to_run (h : Harness) : list Case :=
  filter (λ c, selected h c = true) (sort_stable (λ a b, str_less (Name a) (Name b)) (cases h)).
Definition fresh (h : Harness) : Prop :=
  pass h = 0%Z ∧ fail h = 0%Z ∧ skip h = 0%Z ∧ failed h = [].

(** A run is the loop over what is selected, after the counting of the rest. *)
Lemma Run_loop h :
  fresh h →
  ∃ h1, Run durString exec h =
    (let '(h', ls) := run_loop durString exec h1 0 (to_run h) in
     (h', ("1.." +:+ itoa (Z.of_nat (length (to_run h)))) :: ls)) ∧
    pass h1 = 0%Z ∧ fail h1 = 0%Z ∧ failed h1 = [] ∧
    skip h1 = Z.of_nat (length (cases h) - length (to_run h)).
Proof.
  intros (Hp0 & Hf0 & Hk0 & Hn0). unfold Run.
  set (sorted := sort_stable _ (cases h)). set (h0 := set_cases h sorted).
  destruct (select_loop h0 [] (cases h0)) as (h1 & -> & _ & Hp1 & Hf1 & Hn1 & Hk1). exists h1.
  change (filter (λ c, selected h0 c = true) (cases h0)) with (to_run h). split_and!.
  - done.
  - by rewrite Hp1.
  - by rewrite Hf1.
  - by rewrite Hn1.
  - rewrite Hk1. cbn [h0 set_cases skip cases]. rewrite Hk0.
    pose proof (filter_bool_length (selected h) sorted) as Hl.
    assert (length sorted = length (cases h)) as Hs by (unfold sorted; by rewrite sort_stable_perm).
    change (filter (λ c, selected h c = true) sorted) with (to_run h) in Hl.
    transitivity (0 + Z.of_nat (length (filter (λ c, selected h c = false) sorted)))%Z; [done|lia].
Qed.
Lemma to_run_length h : length (to_run h) ≤ length (cases h).
Proof.
  rewrite <-(sort_stable_perm (λ a b, str_less (Name a) (Name b)) (cases h)). apply length_filter.
Qed.

(** The report of a run tells what happened: passed and failed are the
    numbers of selected cases without and with an error, every failing case is
    named in the order they ran, the cases not selected are counted, and the
    status is ok exactly when something ran and nothing failed. *)
Theorem Run_report h :
  fresh h →
  let h' := (Run durString exec h).1 in
  pass h' = Z.of_nat (length (filter (λ c, errs c = false) (to_run h))) ∧
  fail h' = Z.of_nat (length (filter (λ c, errs c = true) (to_run h))) ∧
  failed h' = Name <$> filter (λ c, errs c = true) (to_run h) ∧
  (pass h' + fail h' + skip h' = Z.of_nat (length (cases h)))%Z ∧
  (status h' = "ok" ↔ to_run h ≠ [] ∧ Forall (λ c, errs c = false) (to_run h)).
Proof.
  intros Hfr. destruct (Run_loop h Hfr) as (h1 & -> & Hp1 & Hf1 & Hn1 & Hk1).
  pose proof (run_loop_counts h1 0 (to_run h)) as (_ & Hk2 & Hp2 & Hf2 & Hn2).
  destruct (run_loop _ _ _ _ _) as [h2 ls]. cbn [fst] in *. rewrite Hp1, Hf1, Hn1, Hk1 in *.
  pose proof (to_run_length h) as Hlen.
  pose proof (filter_bool_length errs (to_run h)) as Hlen2.
  split_and!; [lia|lia|done|lia|].
  unfold status. rewrite Hp2, Hf2, <-filter_bool_none.
  assert (to_run h ≠ [] ↔ length (to_run h) ≠ 0) as -> by (by destruct (to_run h)).
  destruct (_ || _) eqn:E; [|apply orb_false_iff in E as [?%Z.ltb_ge ?%Z.eqb_neq]; split; [lia|done]].
  apply orb_true_iff in E as [?%Z.ltb_lt|?%Z.eqb_eq]; (split; [done|]); lia.
Qed.
End RunSpec.

Definition ex_exec (c : Case) : ran :=
  {| recv := if seqb (Name c) "mm/fork" then R_timeout else R_err None; notes := ["rss 12"]; during := [];
     took := "3ms" |}.
Definition ex_harness : Harness :=
  foldl Add (New "default" "g") [{| Name := "mm/fork"; Suites := [Core]; Timeout := 0 |};
    {| Name := "boot/alive"; Suites := [Smoke]; Timeout := 5 |}; perf_case].
Lemma Run_report_witness :
  failed (Run (λ _, "30s") ex_exec ex_harness).1 = ["mm/fork"] ∧
  status (Run (λ _, "30s") ex_exec ex_harness).1 = "fail".
Proof.
  destruct (Run_report (λ _, "30s") ex_exec ex_harness) as (_ & _ & H & _); [by repeat split|].
  split; [rewrite H; vm_done|vm_done].
Defined.
