(* ===== verification/GuestLog.v ===== *)
(** * From the guest's harness to the verdicts of the log

    What the guest's harness prints goes through the guest's serial file, the
    agent's prefix and L1's console before [ParseLog] reads it.  The patterns of
    [ParseLog] are evaluated here on symbolic lines, and the file ends with the
    theorem that the cases passed and failed survive the way. *)
From Stdlib Require Import Ascii.
From S2P Require Import Prelude GoStrings Regexp Text ParseLog EndToEnd Harness.

(** ** Patterns anchored at the start of a line *)

Lemma anchored_later r c before s : find_from (RCat RBegin r) (Some c) before s = None.
Proof. revert c before. induction s as [|d s IH]; intros c before; cbn; [done|apply IH]. Qed.
Lemma find_anchored r s :
  find (RCat RBegin r) s =
  match m r (Mst None s []) Some with
  | Some st => Some (Mres "" (between (Mst None s []) st) st)
  | None => None
  end.
Proof.
  unfold find. destruct s as [|c s]; cbn [find_from]; unfold m_at; rewrite m_cat;
    change (m RBegin ?st ?k) with (k st); cbv beta; destruct (m r _ _); try done; apply anchored_later.
Qed.

Lemma m_lit {R} c p s caps (k : mst → option R) :
  m (RClass (CClass false [(c, c)])) (Mst p s caps) k =
  match cut_prefix (str1 c) s with Some s' => k (Mst (Some c) s' caps) | None => None end.
Proof.
  cbn [m m_rest m_caps]. destruct s as [|d s]; [done|]. rewrite in_class_lit. unfold str1. cbn [cut_prefix].
  destruct (ceq d c) eqn:E.
  - apply ceq_true in E as ->. by rewrite ceq_refl.
  - apply ceq_false in E. by rewrite (proj2 (ceq_false c d)) by done.
Qed.

(** One or more bytes of a class, then something else. *)
Lemma m_plus {R} cl p w rest caps (k : mst → option R) x :
  w ≠ "" → all_bytes (in_class cl) w = true → (∀ c s, rest = String c s → in_class cl c = false) →
  k (Mst (prev_of p w) rest caps) = Some x →
  m (RCat (RClass cl) (RStar (RClass cl))) (Mst p (w +:+ rest) caps) k = Some x.
Proof.
  intros Hne Hw Hr Hk. destruct w as [|c w]; [done|]. rewrite all_bytes_cons in Hw.
  apply andb_prop in Hw as [Hc Hw]. rewrite m_cat, app_cons_s. cbn [m m_rest m_caps]. rewrite Hc.
  change (star_loop ?b ?n ?st ?k) with (m (RStar (RClass cl)) st k).
  rewrite m_star_class. apply greedy_run. rewrite span_run by done. cbn [fst snd].
  by rewrite (prev_of_cons p).
Qed.

Lemma between_app p p' w s caps caps' : between (Mst p (w +:+ s) caps) (Mst p' s caps') = w.
Proof.
  unfold between. cbn [m_rest]. rewrite slen_app. replace (_ + _ - _) with (slen w) by lia. apply stake_app.
Qed.

(** ** The three patterns *)
Definition digits_cl : cclass := CClass false [("0", "9")%char].
Definition tag_cl : cclass := CClass false [("a", "z"); ("0", "9")]%char.
Definition name_cl : cclass :=
  CClass false [("A", "Z"); ("a", "z"); ("0", "9"); ("_", "_"); (".", "."); ("/", "/"); ("+", "+"); ("-", "-")]%char.
Definition plus (cl : cclass) : re := RCat (RClass cl) (RStar (RClass cl)).
Definition one (c : ascii) : re := RClass (CClass false [(c, c)]).

Lemma prefixRe_shape : prefixRe =
  RCat RBegin (RAlt (lits "G[" (RCat (plus tag_cl) (lits "]:" (one " ")))) (lits "H:" (one " "))).
Proof. vm_done. Qed.
Lemma tapRe_shape : tapRe =
  RCat RBegin (RCat (RGroup 1 (RAlt (lits "o" (one "k")) (lits "not o" (one "k"))))
    (lits " " (RCat (plus digits_cl) (lits " - " (RGroup 2 (plus name_cl)))))).
Proof. vm_done. Qed.
Lemma failedRe_shape : failedRe =
  RCat RBegin (lits "# failed: " (RCat (RGroup 1 (RStar (RClass (CClass true [(ch_nl, ch_nl)])))) REnd)).
Proof. vm_done. Qed.

(** A name, a number: what the class matches to the end of the run. *)
Definition run_of (cl : cclass) (w : string) : Prop := w ≠ "" ∧ all_bytes (in_class cl) w = true.
Definition stops (cl : cclass) (rest : string) : Prop := ∀ c s, rest = String c s → in_class cl c = false.

Lemma cut_prefix_here p s : cut_prefix p (p +:+ s) = Some s.
Proof. apply cut_prefix_app. Qed.

Lemma m_plus_run {R} cl p w rest caps (k : mst → option R) x :
  run_of cl w → stops cl rest → k (Mst (prev_of p w) rest caps) = Some x →
  m (plus cl) (Mst p (w +:+ rest) caps) k = Some x.
Proof. intros [? ?] ? ?. by apply m_plus. Qed.

Lemma strip_prefix mach l :
  run_of tag_cl mach → replace_all prefixRe "" ("G[" +:+ mach +:+ "]: " +:+ l) = l.
Proof.
  intros Hm. unfold replace_all, replace_func. set (s := "G[" +:+ _).
  assert (∃ x, find_from prefixRe None "" s = Some x ∧ r_before x = "" ∧ r_text x = "G[" +:+ mach +:+ "]: " ∧
    m_rest (r_end x) = l ∧ m_prev (r_end x) = Some " "%char) as (x & Hx & Hb & Ht & Hr & Hp).
  { change (find_from prefixRe None "" s) with (find prefixRe s). rewrite prefixRe_shape, find_anchored.
    assert (m (RAlt (lits "G[" (RCat (plus tag_cl) (lits "]:" (one " ")))) (lits "H:" (one " ")))
      (Mst None s []) Some = Some (Mst (Some " "%char) l [])) as ->.
    { rewrite m_alt, m_lits. unfold s. rewrite cut_prefix_here, m_cat.
      erewrite m_plus_run; [done|done|by intros c t [= <- _]|].
      cbv beta. rewrite m_lits. change ("]: " +:+ l) with ("]:" +:+ String " " l).
      rewrite cut_prefix_here. unfold one. by rewrite m_lit. }
    eexists. split; [done|]. cbn [r_before r_text r_end m_rest m_prev]. split_and!; try done.
    unfold s. rewrite <-!app_assoc_s. by rewrite between_app. }
  cbn [replace_go]. rewrite Hx, Hb, Ht, Hr, Hp.
  assert (seqb ("G[" +:+ mach +:+ "]: ") "" = false) as -> by done.
  rewrite !app_nil_l_s. destruct (slen s) as [|f]; [done|]. cbn [replace_go].
  by rewrite prefixRe_shape, anchored_later.
Qed.

Lemma find_tap v n name rest :
  v = "ok" ∨ v = "not ok" → run_of digits_cl n → run_of name_cl name → stops name_cl rest →
  ∃ x, find tapRe (v +:+ " " +:+ n +:+ " - " +:+ name +:+ rest) = Some x ∧ group 1 x = v ∧ group 2 x = name.
Proof.
  intros Hv Hn Hname Hrest. set (tail := " " +:+ n +:+ _).
  assert (∀ p caps, m (lits " " (RCat (plus digits_cl) (lits " - " (RGroup 2 (plus name_cl)))))
    (Mst p tail caps) Some = Some (Mst (prev_of (prev_of (prev_of (prev_of p " ") n) " - ") name) rest
      ((2, name) :: caps))) as Htail.
  { intros p caps. unfold tail. rewrite m_lits, cut_prefix_here, m_cat.
    eapply m_plus_run; [done|by intros c t [= <- _]|]. rewrite m_lits, cut_prefix_here, m_group.
    eapply m_plus_run; [done|done|]. unfold set_cap. cbn [m_prev m_rest m_caps]. by rewrite between_app. }
  rewrite tapRe_shape, find_anchored.
  assert (∃ st, m (RCat (RGroup 1 (RAlt (lits "o" (one "k")) (lits "not o" (one "k"))))
    (lits " " (RCat (plus digits_cl) (lits " - " (RGroup 2 (plus name_cl))))))
    (Mst None (v +:+ tail) []) Some = Some st ∧ m_caps st = [(2, name); (1, v)]) as (st & -> & Hc).
  { rewrite m_cat, m_group, m_alt, m_lits. destruct Hv as [-> | ->].
    - change ("ok" +:+ tail) with ("o" +:+ (str1 "k" +:+ tail)).
      rewrite cut_prefix_here. unfold one. rewrite m_lit, cut_prefix_here.
      unfold set_cap. cbn [m_prev m_rest m_caps]. rewrite Htail. eexists. split; [reflexivity|].
      change ("o" +:+ str1 "k" +:+ tail) with ("ok" +:+ tail). by rewrite between_app.
    - change (cut_prefix "o" ("not ok" +:+ tail)) with (@None string). rewrite m_lits.
      change ("not ok" +:+ tail) with ("not o" +:+ (str1 "k" +:+ tail)).
      rewrite cut_prefix_here. unfold one. rewrite m_lit, cut_prefix_here.
      unfold set_cap. cbn [m_prev m_rest m_caps]. rewrite Htail. eexists. split; [reflexivity|].
      change ("not o" +:+ str1 "k" +:+ tail) with ("not ok" +:+ tail). by rewrite between_app. }
  eexists. split; [done|]. unfold group. cbn [r_end]. by rewrite Hc.
Qed.

(** Lines no verdict starts. *)
Lemma find_tap_none s : cut_prefix "o" s = None → cut_prefix "not o" s = None → find tapRe s = None.
Proof.
  intros H1 H2. rewrite tapRe_shape, find_anchored, m_cat, m_group, m_alt, m_lits, H1, m_lits, H2. done.
Qed.
Lemma find_failed_none s : cut_prefix "# failed: " s = None → find failedRe s = None.
Proof. intros H. by rewrite failedRe_shape, find_anchored, m_lits, H. Qed.
Lemma find_failed names :
  no_byte ch_nl names = true →
  ∃ x, find failedRe ("# failed: " +:+ names) = Some x ∧ group 1 x = names.
Proof.
  intros Hn. rewrite failedRe_shape, find_anchored, m_lits, cut_prefix_here, m_cat, m_group, m_star_class.
  assert (span (in_class (CClass true [(ch_nl, ch_nl)])) names = (names, "")) as Hs.
  { rewrite <-(app_nil_r_s names) at 1. apply span_run; [|done].
    eapply all_bytes_impl; [|exact Hn]. intros c Hc. cbn beta in Hc. by rewrite <-in_class_lit in Hc. }
  erewrite greedy_run; [|rewrite Hs; reflexivity].
  eexists. split; [done|].
  pose proof (between_app (prev_of None "# failed: ") (prev_of (prev_of None "# failed: ") names) names "" [] []) as H.
  rewrite app_nil_r_s in H. exact H.
Qed.

(** ** What a line does to the passed and failed cases *)
Definition same_cases (st st' : lstate) : Prop :=
  Passed (out st') = Passed (out st) ∧ Failed (out st') = Failed (out st) ∧ ParseLog.failed st' = ParseLog.failed st.
Lemma same_cases_refl st : same_cases st st.
Proof. done. Qed.
Lemma same_cases_trans st1 st2 st3 : same_cases st1 st2 → same_cases st2 st3 → same_cases st1 st3.
Proof. intros (? & ? & ?) (? & ? & ?). split_and!; congruence. Qed.
Lemma upd_same f st :
  (∀ o, Passed (f o) = Passed o ∧ Failed (f o) = Failed o) → same_cases st (upd f st).
Proof. intros H. destruct (H (out st)). by split_and!. Qed.
Lemma add_stat_same vm mk st kv : same_cases st (add_stat vm mk st kv).
Proof. unfold add_stat. repeat case_match; by split_and!. Qed.
Lemma add_stats_same vm mk l st : same_cases st (foldl (add_stat vm mk) st l).
Proof.
  revert st. induction l as [|kv l IH]; intros st; [done|].
  eapply same_cases_trans; [apply add_stat_same|apply IH].
Qed.
Lemma upd_same_if f (b : bool) st st' :
  (∀ o, Passed (f o) = Passed o ∧ Failed (f o) = Failed o) → same_cases st st' →
  same_cases st (if b then upd f st' else st').
Proof. intros H Hs. destruct b; [|done]. eapply same_cases_trans; [exact Hs|by apply upd_same]. Qed.

Lemma parse_rest_same pf st line body e :
  has_prefix line "FAILCLOSED: " = false →
  ∃ st', parse_rest pf st line body e = Some st' ∧ same_cases st st'.
Proof.
  intros Hf. unfold parse_rest. rewrite Hf.
  assert (∀ f st2, same_cases st st2 → (∀ o, Passed (f o) = Passed o ∧ Failed (f o) = Failed o) →
    same_cases st (upd f st2)) as Hu.
  { intros f st2 H2 Hff. eapply same_cases_trans; [exact H2|by apply upd_same]. }
  repeat match goal with
  | |- context [match ?x with _ => _ end] => destruct x
  end; (eexists; split; [reflexivity|]);
  repeat first [apply same_cases_refl | apply Hu; [|done] | eapply same_cases_trans; [|apply add_stats_same]].
Qed.

(** ** The lines of the guest, as the log has them *)
Definition guest_prefix (mach : string) : string := "G[" +:+ mach +:+ "]: ".
Definition dirty (l : string) : string := l +:+ String ch_cr (str1 ch_cr).

Lemma trim_right_none p s : all_bytes (λ c, negb (p c)) s = true → trim_right p s = s.
Proof.
  induction s as [|c s IH]; [done|]. rewrite all_bytes_cons. intros [Hc Hs]%andb_prop.
  cbn [trim_right]. rewrite IH by done. destruct s; [|done]. apply negb_true_iff in Hc. by rewrite Hc.
Qed.
Lemma trim_crs l : no_byte ch_cr l = true → trim_right (in_set (str1 ch_cr)) (l +:+ str1 ch_cr) = l.
Proof.
  intros H. rewrite trim_right_all by done. apply trim_right_none.
  eapply all_bytes_impl; [|exact H]. intros c. cbn beta. unfold in_set. cbn. by rewrite orb_false_r.
Qed.

Section Lines.
Context (pf : string → option SpecFloat.spec_float) (mach : string).
Hypothesis (Hmach : run_of tag_cl mach).

Lemma mach_clean : plain_line (guest_prefix mach).
Proof.
  destruct Hmach as [_ Hm]. apply plain_app; [by split|]. apply plain_app; [|by split].
  split; (eapply all_bytes_impl; [|exact Hm]; intros c;
    destruct (ceq c _) eqn:E; [apply ceq_true in E as ->|]; done).
Qed.

(** The text [parse_line] works on. *)
Lemma parse_body st l :
  no_byte ch_cr l = true →
  parse_line pf st (guest_prefix mach +:+ l +:+ str1 ch_cr) =
  match find tapRe l with
  | Some x =>
      if seqb (group 1 x) "ok" then Some (upd (set_Passed (λ p, p ++ [group 2 x])) st)
      else Some (add_failed (group 2 x) st)
  | None =>
  match find failedRe l with
  | Some x =>
      Some (foldl (λ st name, add_failed (trim_suffix name ",") st) st (GoStrings.fields (group 1 x)))
  | None =>
      if has_prefix l "SELFTEST: " then
        Some (upd (λ o, set_counts (Selftests o + 1) (KUT o) o) st)
      else if has_prefix l "KUT: " then
        Some (upd (λ o, set_counts (Selftests o) (KUT o + 1) o) st)
      else parse_rest pf st (guest_prefix mach +:+ l) l false
  end
  end.
Proof.
  intros Hl. unfold parse_line. rewrite <-app_assoc_s.
  rewrite trim_crs.
  2: { destruct mach_clean as [Hc _]. unfold no_byte in *. by rewrite all_bytes_app, Hc, Hl. }
  assert (replace_all prefixRe "" (guest_prefix mach +:+ l) = l) as ->.
  { unfold guest_prefix. rewrite !app_assoc_s. by apply strip_prefix. }
  done.
Qed.

Lemma parse_verdict st v n name rest :
  v = "ok" ∨ v = "not ok" → run_of digits_cl n → run_of name_cl name → stops name_cl rest →
  no_byte ch_cr (v +:+ " " +:+ n +:+ " - " +:+ name +:+ rest) = true →
  parse_line pf st (guest_prefix mach +:+ (v +:+ " " +:+ n +:+ " - " +:+ name +:+ rest) +:+ str1 ch_cr) =
  if seqb v "ok" then Some (upd (set_Passed (λ p, p ++ [name])) st) else Some (add_failed name st).
Proof.
  intros Hv Hn Hname Hrest Hcr. rewrite parse_body by done.
  by destruct (find_tap v n name rest Hv Hn Hname Hrest) as (x & -> & -> & ->).
Qed.

(** A line that is neither a verdict nor the list of failures. *)
Definition quiet_line (l : string) : Prop :=
  cut_prefix "o" l = None ∧ cut_prefix "not o" l = None ∧ cut_prefix "# failed: " l = None.
Lemma parse_quiet st l :
  no_byte ch_cr l = true → quiet_line l →
  ∃ st', parse_line pf st (guest_prefix mach +:+ l +:+ str1 ch_cr) = Some st' ∧ same_cases st st'.
Proof.
  intros Hl (H1 & H2 & H3). rewrite parse_body by done.
  rewrite find_tap_none, find_failed_none by done.
  destruct (has_prefix l "SELFTEST: "); [eexists; split; [done|by apply upd_same]|].
  destruct (has_prefix l "KUT: "); [eexists; split; [done|by apply upd_same]|].
  by apply parse_rest_same.
Qed.

Lemma add_failed_known names st :
  Forall (λ n, trim_suffix n "," = n ∧ n ∈ ParseLog.failed st) names →
  foldl (λ st name, add_failed (trim_suffix name ",") st) st names = st.
Proof.
  induction 1 as [|n names [Hn Hin] _ IH]; [done|]. cbn [foldl]. rewrite Hn.
  unfold add_failed at 2. by rewrite decide_True.
Qed.
Lemma name_plain name : run_of name_cl name → word name ∧ plain_line name ∧ trim_suffix name "," = name.
Proof.
  intros [Hne Hall]. assert (word name) as Hw.
  { split; [|done]. eapply all_bytes_impl; [|exact Hall]. intros c Hc.
    destruct (is_space c) eqn:E; [|done]. exfalso.
    destruct c as [b0 b1 b2 b3 b4 b5 b6 b7]. revert Hc E. clear.
    by destruct b0, b1, b2, b3, b4, b5, b6, b7. }
  split; [done|]. split; [by apply word_plain|].
  unfold trim_suffix. destruct (has_suffix name ",") eqn:E; [|done].
  exfalso. apply has_suffix_spec in E as [r ->].
  rewrite all_bytes_app in Hall. by apply andb_prop in Hall as [_ ?].
Qed.
Lemma parse_failures st names :
  Forall (λ n, run_of name_cl n ∧ n ∈ ParseLog.failed st) names →
  parse_line pf st (guest_prefix mach +:+ ("# failed: " +:+ join " " names) +:+ str1 ch_cr) = Some st.
Proof.
  intros H.
  assert (plain_line (join " " names)) as Hpl.
  { split; (apply all_bytes_join; [done|]; eapply Forall_impl; [exact H|]; intros n [Hn _];
      apply name_plain in Hn as (_ & [? ?] & _); done). }
  rewrite parse_body.
  2: { destruct Hpl as [Hc _]. unfold no_byte in *. by rewrite all_bytes_app, Hc. }
  rewrite find_tap_none by done.
  destruct (find_failed (join " " names)) as (x & -> & ->); [apply Hpl|].
  unfold GoStrings.fields. change (join " " names) with (join (str1 " ") names). rewrite fields_join.
  - rewrite add_failed_known; [done|]. eapply Forall_impl; [exact H|]. intros n [Hn ?].
    apply name_plain in Hn as (_ & _ & ?). done.
  - done.
  - eapply Forall_impl; [exact H|]. intros n [Hn _]. by apply name_plain in Hn as [[? ?] _].
Qed.
End Lines.

(** ** The way of the text

    The guest's serial console ends lines with CR LF, the agent puts its prefix
    before each line of that file, and L1's console adds another CR. *)
Definition onlcr (s : string) : string := replace_char ch_nl (String ch_cr nl) s.
Definition guest_text (mach : string) (ls : list string) : string :=
  onlcr (prefixStream (guest_prefix mach) (console ls) (-1)).

Lemma onlcr_app a b : onlcr (a +:+ b) = onlcr a +:+ onlcr b.
Proof.
  unfold onlcr. induction a as [|c a IH]; [done|]. rewrite !app_cons_s. cbn [replace_char].
  by rewrite IH, app_assoc_s.
Qed.
Lemma onlcr_line l : no_byte ch_nl l = true → onlcr l = l.
Proof.
  unfold onlcr, no_byte. induction l as [|c l IH]; [done|]. rewrite all_bytes_cons.
  intros [Hc%negb_true_iff Hl]%andb_prop. cbn [replace_char]. rewrite Hc, IH by done.
  unfold str1. by rewrite app_cons_s, app_nil_l_s.
Qed.

Lemma guest_text_cons mach l ls :
  run_of tag_cl mach → plain_line l → Forall plain_line ls →
  guest_text mach (l :: ls) =
  (guest_prefix mach +:+ l +:+ dirty "") +:+ String ch_nl (guest_text mach ls).
Proof.
  intros Hm [Hcr Hnl] Hls. unfold guest_text. rewrite !prefixStream_lines. change (-1 <? 0)%Z with true. cbv iota.
  assert (console (l :: ls) = (l +:+ str1 ch_cr) +:+ nl +:+ console ls) as ->.
  { cbn [console foldr]. rewrite app_assoc_s. done. }
  rewrite lines_of_app_line.
  2: { unfold no_byte in *. by rewrite all_bytes_app, Hnl. }
  unfold prefix_lines. cbn [foldr]. fold (prefix_lines (guest_prefix mach) (lines_of (console ls))).
  destruct (mach_clean mach Hm) as [_ Hp].
  rewrite !onlcr_app, (onlcr_line (guest_prefix mach)), (onlcr_line l), !app_assoc_s by done.
  unfold dirty. by rewrite !app_nil_l_s.
Qed.

Lemma split_text mach ls :
  run_of tag_cl mach → Forall plain_line ls →
  split ch_nl (guest_text mach ls) = ((λ l, guest_prefix mach +:+ l +:+ dirty "") <$> ls) ++ [""].
Proof.
  intros Hm. induction 1 as [|l ls Hl Hls IH]; [done|].
  rewrite guest_text_cons, split_app_sep, IH; try done.
  destruct (mach_clean mach Hm) as [_ Hp], Hl as [_ Hnl]. unfold no_byte in *.
  by rewrite !all_bytes_app, Hp, Hnl.
Qed.

(** The lines [bufio.Scanner] gives, none of them too long. *)
Definition fits (mach l : string) : Prop := slen (guest_prefix mach) + slen l + 2 < log_token.
Lemma scan_text mach ls :
  run_of tag_cl mach → Forall plain_line ls → Forall (fits mach) ls →
  (scan_lines log_token (guest_text mach ls)).1 = (λ l, guest_prefix mach +:+ l +:+ str1 ch_cr) <$> ls.
Proof.
  intros Hm Hls Hf. unfold scan_lines, text_lines. rewrite split_text by done.
  rewrite last_snoc. rewrite length_app. cbn [length]. rewrite Nat.add_sub, take_app_length.
  clear Hls. induction Hf as [|l ls Hl _ IH]; [done|]. rewrite !fmap_cons. cbn [scan_lines_go].
  assert (slen (guest_prefix mach +:+ l +:+ dirty "") = slen (guest_prefix mach) + slen l + 2) as ->.
  { rewrite !slen_app. change (slen (dirty "")) with 2. lia. }
  rewrite (proj2 (Nat.leb_gt _ _)) by exact Hl.
  destruct (scan_lines_go _ _) as [r ok]. cbn [fst] in *. rewrite IH. f_equal.
  unfold drop_cr. change (dirty "") with (str1 ch_cr +:+ str1 ch_cr).
  rewrite <-!app_assoc_s. apply trim_suffix_app.
Qed.

(** ** The cases of the whole log *)
Section Parsed.
Context (pf : string → option SpecFloat.spec_float) (mach : string).
Context (Hmach : run_of tag_cl mach).
Context (durString : Z → string) (exec : Case → ran).

Definition parses (ls : list string) (st : lstate) : option lstate :=
  parse_lines pf ((λ l, guest_prefix mach +:+ l +:+ str1 ch_cr) <$> ls) st.
Lemma parses_app ls ls' st : parses (ls ++ ls') st = parses ls st ≫= parses ls'.
Proof.
  unfold parses. revert st. induction ls as [|l ls IH]; intros st; [done|].
  rewrite <-app_comm_cons, !fmap_cons. cbn [parse_lines]. destruct (parse_line _ _ _); [apply IH|done].
Qed.

(** [ps] more cases passed, [fs] more failed. *)
Definition adds (st st' : lstate) (ps fs : list string) : Prop :=
  Passed (out st') = Passed (out st) ++ ps ∧ Failed (out st') = Failed (out st) ++ fs ∧
  ∀ n, n ∈ ParseLog.failed st' ↔ n ∈ ParseLog.failed st ∨ n ∈ fs.
Lemma adds_same st st' : same_cases st st' → adds st st' [] [].
Proof. intros (H1 & H2 & H3). unfold adds. rewrite H1, H2, H3, !app_nil_r. set_solver. Qed.
Lemma adds_trans st1 st2 st3 p1 f1 p2 f2 :
  adds st1 st2 p1 f1 → adds st2 st3 p2 f2 → adds st1 st3 (p1 ++ p2) (f1 ++ f2).
Proof.
  intros (A1 & A2 & A3) (B1 & B2 & B3). unfold adds. rewrite B1, B2, A1, A2, !app_assoc.
  split_and!; [done..|]. intros n. rewrite B3, A3, elem_of_app. tauto.
Qed.
Definition gives (ls : list string) (st : lstate) (ps fs : list string) : Prop :=
  ∃ st', parses ls st = Some st' ∧ adds st st' ps fs.
Lemma gives_app ls ls' st ps fs ps' fs' :
  gives ls st ps fs → (∀ st', adds st st' ps fs → gives ls' st' ps' fs') →
  gives (ls ++ ls') st (ps ++ ps') (fs ++ fs').
Proof.
  intros (st1 & E & H1) H2. destruct (H2 st1 H1) as (st2 & E2 & H3). exists st2. split.
  - rewrite parses_app, E. exact E2.
  - by eapply adds_trans.
Qed.
Lemma gives_nil st : gives [] st [] [].
Proof. exists st. split; [done|]. by apply adds_same. Qed.

Lemma gives_quiet ls st :
  Forall plain_line ls → Forall quiet_line ls → gives ls st [] [].
Proof.
  intros Hp Hq. revert st. induction Hq as [|l ls Hl _ IH]; intros st; [apply gives_nil|].
  apply Forall_cons in Hp as [[Hcr _] Hp].
  destruct (parse_quiet pf mach Hmach st l Hcr Hl) as (st1 & E & Hs).
  destruct (IH Hp st1) as (st2 & E2 & Ha). exists st2. split.
  - unfold parses. cbn [fmap list_fmap parse_lines]. by rewrite E.
  - exact (adds_trans st st1 st2 [] [] [] [] (adds_same _ _ Hs) Ha).
Qed.

Lemma itoa_digits_run n : (0 ≤ n)%Z → run_of digits_cl (itoa n).
Proof.
  intros Hn. split; [apply itoa_ne|]. eapply all_bytes_impl; [|by apply itoa_digits].
  intros c Hc. unfold digits_cl, in_class. cbn. by rewrite orb_false_r.
Qed.
Definition verdict_of (c : Case) (n : Z) : string :=
  itoa n +:+ " - " +:+ Harness.Name c +:+ " (" +:+ took (exec c) +:+ ")".
Lemma gives_verdict (err : bool) c n st :
  (0 ≤ n)%Z → run_of name_cl (Harness.Name c) → Harness.Name c ∉ ParseLog.failed st →
  plain_line ((if err then "not ok " else "ok ") +:+ verdict_of c n) →
  gives [(if err then "not ok " else "ok ") +:+ verdict_of c n] st
    (if err then [] else [Harness.Name c]) (if err then [Harness.Name c] else []).
Proof.
  intros Hn Hname Hnot [Hcr _]. unfold gives, parses. cbn [fmap list_fmap parse_lines].
  assert ((if err then "not ok " else "ok ") +:+ verdict_of c n =
    (if err then "not ok" else "ok") +:+ " " +:+ itoa n +:+ " - " +:+ Harness.Name c +:+
    (" (" +:+ took (exec c) +:+ ")")) as E by (by destruct err).
  rewrite E in *. rewrite parse_verdict; [|done|by destruct err; auto|by apply itoa_digits_run|done| |done].
  2: { by intros x s [= <- _]. }
  destruct err; (eexists; split; [done|]).
  - change (seqb "not ok" "ok") with false. cbv iota. unfold add_failed. rewrite decide_False by done.
    split_and!; cbn; [by rewrite app_nil_r|done|set_solver].
  - split_and!; cbn; [done|by rewrite app_nil_r|set_solver].
Qed.

Lemma note_quiet n : quiet_line (note_line n).
Proof. by split_and!. Qed.
Lemma mark_quiet h v name : Forall quiet_line (mark h v name).
Proof.
  unfold mark. destruct (markDev h) as [w|]; [|constructor].
  apply Forall_cons_2; [by split_and!|]. destruct (w v); [|done]. apply Forall_singleton. by split_and!.
Qed.

Lemma gives_one h n c st :
  (0 ≤ n)%Z → run_of name_cl (Harness.Name c) → Harness.Name c ∉ ParseLog.failed st →
  Forall quiet_line (during (exec c)) → Forall plain_line (runOne durString exec h n c).2 →
  gives (runOne durString exec h n c).2 st
    (if errs durString exec c then [] else [Harness.Name c])
    (if errs durString exec c then [Harness.Name c] else []).
Proof.
  intros Hn Hname Hnot Hq. unfold runOne, errs. fold (verdict_of c n).
  assert (∀ l, Forall quiet_line (note_line <$> l)) as Hnotes.
  { intros l. apply Forall_fmap, Forall_true. apply note_quiet. }
  assert (∀ (err : bool) tail, Forall quiet_line tail →
    Forall plain_line (during (exec c) ++ [(if err then "not ok " else "ok ") +:+ verdict_of c n] ++ tail) →
    gives (during (exec c) ++ [(if err then "not ok " else "ok ") +:+ verdict_of c n] ++ tail) st
      (if err then [] else [Harness.Name c]) (if err then [Harness.Name c] else [])) as Hgen.
  { intros err tail Htail [Hp1 [Hp2 Hp3]%Forall_app]%Forall_app.
    apply Forall_cons in Hp2 as [Hp2 _].
    apply (gives_app _ _ _ [] []); [by apply gives_quiet|]. intros st1 (_ & _ & H1).
    rewrite <-(app_nil_r (if err then [] else [Harness.Name c])), <-(app_nil_r (if err then [Harness.Name c] else [])).
    apply gives_app.
    { apply gives_verdict; [done|done| |exact Hp2]. intros Hin%H1. set_solver. }
    intros st2 _. by apply gives_quiet. }
  destruct (err_of durString c (recv (exec c))) as [e|]; cbn [snd].
  - apply (Hgen true). by apply Forall_app_2.
  - by apply (Hgen false).
Qed.

Definition case_ok (c : Case) : Prop :=
  run_of name_cl (Harness.Name c) ∧ Forall quiet_line (during (exec c)).
(** The names of the cases without and with an error. *)
Definition ok_names (l : list Case) : list string :=
  Harness.Name <$> filter (λ c, errs durString exec c = false) l.
Definition bad_names (l : list Case) : list string :=
  Harness.Name <$> filter (λ c, errs durString exec c = true) l.
Lemma names_cons c l :
  ok_names (c :: l) = (if errs durString exec c then [] else [Harness.Name c]) ++ ok_names l ∧
  bad_names (c :: l) = (if errs durString exec c then [Harness.Name c] else []) ++ bad_names l.
Proof.
  unfold ok_names, bad_names. destruct (errs durString exec c) eqn:E.
  - rewrite filter_cons_False, filter_cons_True by congruence. done.
  - rewrite filter_cons_True, filter_cons_False by congruence. done.
Qed.

Lemma gives_loop run h i st :
  (0 ≤ i)%Z → Forall case_ok run → NoDup (Harness.Name <$> run) →
  (∀ c, c ∈ run → Harness.Name c ∉ ParseLog.failed st) →
  Forall plain_line (run_loop durString exec h i run).2 →
  gives (run_loop durString exec h i run).2 st (ok_names run) (bad_names run).
Proof.
  intros Hi Hok. revert h i st Hi. induction Hok as [|c run [Hname Hq] Hok IH]; intros h i st Hi Hnd Hnot Hpl.
  { apply gives_nil. }
  rewrite fmap_cons in Hnd. apply NoDup_cons in Hnd as [Hc Hnd]. cbn [run_loop] in Hpl |- *.
  pose proof (gives_one h (i + 1) c) as Hone.
  destruct (runOne durString exec h (i + 1) c) as [h1 l]. cbn [snd] in Hone.
  specialize (IH h1 (i + 1)%Z).
  destruct (run_loop durString exec h1 (i + 1) run) as [h2 ls]. cbn [snd] in *.
  apply Forall_app in Hpl as [P1 [P2 [P3 P4]%Forall_app]%Forall_app].
  apply (gives_app _ _ _ [] [] (ok_names (c :: run)) (bad_names (c :: run)));
    [apply gives_quiet; [done|apply mark_quiet]|]. intros st1 (_ & _ & H1).
  assert (Harness.Name c ∉ ParseLog.failed st1) as Hn1.
  { intros Hin%H1. assert (Harness.Name c ∉ ParseLog.failed st) by (apply Hnot; by left). set_solver. }
  destruct (names_cons c run) as [-> ->].
  apply gives_app; [apply Hone; try done; lia|]. intros st2 (_ & _ & H2).
  apply (gives_app _ _ _ [] [] (ok_names run) (bad_names run));
    [apply gives_quiet; [done|apply mark_quiet]|]. intros st3 (_ & _ & H3).
  apply IH; [lia|done| |done]. intros c' Hc' Hin.
  assert (Harness.Name c' ∉ ParseLog.failed st) as Hn by (apply Hnot; by right).
  assert (Harness.Name c' ≠ Harness.Name c) as Hne.
  { intros E. apply Hc. rewrite <-E. by apply list_elem_of_fmap_2. }
  apply H3 in Hin as [Hin|[]%elem_of_nil]. apply H2 in Hin as [Hin|Hin].
  - apply H1 in Hin as [Hin|[]%elem_of_nil]. done.
  - destruct (errs durString exec c); [|by apply elem_of_nil in Hin].
    apply Hne. by apply list_elem_of_singleton in Hin.
Qed.

Lemma to_run_ok h :
  NoDup (Harness.Name <$> cases h) → Forall case_ok (cases h) →
  Forall case_ok (to_run h) ∧ NoDup (Harness.Name <$> to_run h).
Proof.
  intros Hnd Hok. unfold to_run.
  rewrite <-(sort_stable_perm (λ a b, str_less (Harness.Name a) (Harness.Name b)) (cases h)) in Hnd, Hok.
  split.
  - apply Forall_forall. intros c [_ Hc]%list_elem_of_filter. rewrite Forall_forall in Hok. by apply Hok.
  - eapply sublist_NoDup; [exact Hnd|]. apply fmap_sublist, sublist_filter.
Qed.
Lemma gives_failures names st :
  Forall (λ n, run_of name_cl n ∧ n ∈ ParseLog.failed st) names →
  gives ["# failed: " +:+ join " " names] st [] [].
Proof.
  intros H. exists st. split; [|by apply adds_same]. unfold parses. cbn [fmap list_fmap parse_lines].
  by rewrite parse_failures.
Qed.

(** The report's lines change nothing. *)
Lemma gives_report h elapsed st :
  Forall (λ n, run_of name_cl n ∧ n ∈ ParseLog.failed st) (Harness.failed h) →
  Forall plain_line (Report h elapsed) → gives (Report h elapsed) st [] [].
Proof.
  intros Hn. unfold Report. intros [P1 [P2 P3]%Forall_app]%Forall_app.
  apply (gives_app _ _ _ [] [] [] []).
  { apply gives_quiet; [done|]. repeat (apply Forall_cons_2; [by split_and!|]). done. }
  intros st1 (_ & _ & H1). apply (gives_app _ _ _ [] [] [] []).
  - destruct (0 <? length (Harness.failed h)); [|apply gives_nil]. apply gives_failures.
    eapply Forall_impl; [exact Hn|]. intros n [? ?]. split; [done|]. apply H1. by left.
  - intros st2 _. apply gives_quiet; [done|]. apply Forall_singleton. by split_and!.
Qed.

(** C36: the log tells what the guest did: from the text of a guest boot (CR LF
    console, the agent's prefix, L1's console), [ParseLog] reads as passed and
    failed exactly the selected cases that passed and failed, in the order they
    ran, whatever notes, errors and other lines they print in between. *)
Theorem ParseLog_guest h elapsed :
  fresh h → NoDup (Harness.Name <$> cases h) → Forall case_ok (cases h) →
  let r := Run durString exec h in
  let ls := r.2 ++ Report r.1 elapsed in
  Forall plain_line ls → Forall (fits mach) ls →
  ∃ o, ParseLog pf (guest_text mach ls) = Some o ∧
    Passed o = ok_names (to_run h) ∧ Failed o = bad_names (to_run h).
Proof.
  intros Hfr Hnd Hok r ls Hpl Hfit.
  destruct (to_run_ok h Hnd Hok) as [Hrun Hndr].
  assert (gives ls init_state (ok_names (to_run h)) (bad_names (to_run h))) as (st & E & Ha).
  { subst ls r. destruct (Run_loop durString exec h Hfr) as (h1 & Hr & _ & _ & Hf1 & _).
    rewrite Hr in *. pose proof (run_loop_counts durString exec h1 0 (to_run h)) as (_ & _ & _ & _ & Hn2).
    pose proof (gives_loop (to_run h) h1 0) as Hg.
    destruct (run_loop durString exec h1 0 (to_run h)) as [h2 lines]. cbn [fst snd] in *.
    rewrite Hf1 in Hn2. fold (bad_names (to_run h)) in Hn2. cbn [app] in Hn2.
    rewrite <-app_comm_cons in *. apply Forall_cons in Hpl as [P1 [P2 P3]%Forall_app].
    apply (gives_app [_] _ _ [] [] (ok_names (to_run h)) (bad_names (to_run h))).
    { apply gives_quiet; by apply Forall_singleton. }
    intros st1 Ha1. rewrite <-(app_nil_r (ok_names _)), <-(app_nil_r (bad_names _)).
    apply gives_app.
    - apply Hg; try done. intros c _ Hin%Ha1. cbn in Hin. set_solver.
    - intros st2 (_ & _ & H2). apply gives_report; [|done]. rewrite Hn2. apply Forall_forall.
      intros n Hin. split; [|apply H2; by right].
      unfold bad_names in Hin. apply list_elem_of_fmap in Hin as (c & -> & [_ Hc]%list_elem_of_filter).
      rewrite Forall_forall in Hrun. by apply Hrun. }
  unfold ParseLog. rewrite scan_text by done.
  fold (parses ls init_state). rewrite E. destruct Ha as (H1 & H2 & _).
  exists (out st). split; [done|]. by rewrite H1, H2.
Qed.
End Parsed.

Lemma fits_short mach l : slen (guest_prefix mach) + slen l < 1000 → fits mach l.
Proof.
  intros H. unfold fits. assert (1002 < log_token); [|lia]. Transparent log_token. unfold log_token.
  change 1002 with (Z.to_nat 1002). apply Z2Nat.inj_lt; lia.
Qed.
#[global] Opaque log_token.
Definition ex_lines : list string :=
  let r := Run (λ _, "30s") ex_exec ex_harness in r.2 ++ Report r.1 "31s".
Lemma ParseLog_guest_witness :
  ∃ o, ParseLog (λ _, None) (guest_text "q35" ex_lines) = Some o ∧
    Passed o = ["boot/alive"] ∧ Failed o = ["mm/fork"].
Proof.
  destruct (ParseLog_guest (λ _, None) "q35" ltac:(by split) (λ _, "30s") ex_exec ex_harness "31s")
    as (o & H1 & H2 & H3).
  - by repeat split.
  - by apply (bool_decide_unpack _).
  - repeat (apply Forall_cons; split); try done; by repeat split.
  - apply Forall_forall. intros l Hl.
    assert (forallb (λ l, no_byte ch_cr l && no_byte ch_nl l) ex_lines = true) as Hb by vm_done.
    rewrite forallb_forall in Hb. specialize (Hb l). rewrite <-list_elem_of_In in Hb.
    by apply andb_prop, Hb.
  - apply Forall_forall. intros l Hl. apply fits_short.
    assert (forallb (λ l, slen (guest_prefix "q35") + slen l <? 1000) ex_lines = true) as Hb by vm_done.
    rewrite forallb_forall in Hb. specialize (Hb l). rewrite <-list_elem_of_In in Hb.
    by apply Nat.ltb_lt, Hb.
  - exists o. split; [exact H1|]. rewrite H2, H3. by split; vm_compute.
Defined.
