(* ===== verification/CasesReach.v ===== *)
(** * The cases of a battery reach the guest

    [cases=a,b] of an item becomes a guest argument in [l1Opts], a word of L1's
    command line, a part of the guest's command line in the agent's
    [GuestAppend], and the filter of the guest's harness.  The theorem follows
    it through the four programs. *)
From Stdlib Require Import Ascii.
From S2P Require Import Prelude GoStrings Regexp Text Params Spec ParseLog Checks Run EndToEnd Harness.

(** The key of a word of a kernel command line, and its value. *)
Definition tok_key (w : string) : string := match cut w "=" with Some (k, _) => k | None => w end.
Definition tok_val (w : string) : string := match cut w "=" with Some (_, v) => v | None => "" end.
Lemma cmdline_token_eq m w : cmdline_token m w = <[tok_key w := tok_val w]> m.
Proof. unfold cmdline_token, tok_key, tok_val. by destruct (cut w "=") as [[k v]|]. Qed.
Lemma tok_of k v : no_byte "=" k = true → tok_key (k +:+ String "=" v) = k ∧ tok_val (k +:+ String "=" v) = v.
Proof. intros H. unfold tok_key, tok_val. change "=" with (str1 "="). by rewrite !cut_char. Qed.

Lemma Cmdline_last k v pre post :
  no_byte "=" k = true → Forall (λ w, tok_key w ≠ k) post →
  foldl cmdline_token ∅ (pre ++ (k +:+ String "=" v) :: post) !! k = Some v.
Proof.
  intros Hk Hpost. rewrite foldl_app. cbn [foldl]. generalize (foldl cmdline_token ∅ pre) as m. intros m.
  assert (cmdline_token m (k +:+ String "=" v) !! k = Some v) as H0.
  { rewrite cmdline_token_eq. destruct (tok_of k v Hk) as [-> ->]. apply lookup_insert_eq. }
  revert H0. generalize (cmdline_token m (k +:+ String "=" v)) as m'.
  induction Hpost as [|w post Hw _ IH]; intros m' H0; [done|]. cbn [foldl]. apply IH.
  rewrite cmdline_token_eq, lookup_insert_ne by done. done.
Qed.

Lemma replace_join ws :
  Forall (λ w, no_byte "," w = true) ws → replace_char "," " " (join "," ws) = join " " ws.
Proof.
  assert (∀ w s, no_byte "," w = true → replace_char "," " " (w +:+ s) = w +:+ replace_char "," " " s) as Hw.
  { intros w s. unfold no_byte. induction w as [|c w IH]; [by rewrite !app_nil_l_s|].
    rewrite all_bytes_cons. intros [Hc%negb_true_iff Hw]%andb_prop. rewrite !app_cons_s.
    cbn [replace_char]. rewrite Hc, IH by done. done. }
  induction 1 as [|w ws H Hws IH]; [done|]. destruct ws as [|w' ws].
  - cbn [join]. rewrite <-(app_nil_r_s w) at 1. rewrite Hw by done. cbn. apply app_nil_r_s.
  - rewrite !join_cons, Hw by done. rewrite <-IH. done.
Qed.

(** The words the agent gives a guest in run mode. *)
Definition guest_words (p : Params) (s : string) (guest : list string) : list string :=
  ["console=ttyS0,115200"; "panic=-1"; "oops=panic"; "pvmtest.suite=" +:+ s;
   "pvmtest.tag=" +:+ Params.Vendor p +:+ "-guest"] ++
  (if seqb s "perf" then ["quiet"; "loglevel=0"] else ["earlyprintk=serial,ttyS0,115200"]) ++
  guest ++ (if seqb (Params.Vendor p) "pvm" then ["pvmtest.expect=pvm"] else []).

Lemma GuestAppend_words p s g guest :
  p_GuestAppend p = join "," (g :: guest) → Forall (λ w, no_byte "," w = true) (g :: guest) →
  (∀ t, g ≠ String "-" t) → g ≠ "" →
  GuestAppend p modeRun s = join " " (guest_words p s (g :: guest)).
Proof.
  intros Hp Hc Hdash Hne. unfold GuestAppend, guest_words.
  assert (echoTr (p_GuestAppend p) = join " " (g :: guest)) as He.
  { unfold echoTr. rewrite Hp. destruct g as [|c g]; [done|].
    assert (bool_decide (bytes (join "," (String c g :: guest)) !! 0 = Some "-"%char) = false) as ->.
    { apply bool_decide_eq_false. destruct guest; rewrite ?join_cons, ?app_cons_s; cbn; intros [= ->];
        by eapply Hdash. }
    rewrite andb_false_r. cbn [andb]. by apply replace_join. }
  rewrite He. assert (seqb (p_GuestAppend p) "" = false) as ->.
  { rewrite Hp. destruct g; [done|]. destruct guest; rewrite ?join_cons, ?app_cons_s; done. }
  rewrite !(decide_False (P := modeRun = _)) by done.
  assert (∀ l l', l ≠ [] → l' ≠ [] → join " " (l ++ l') = join " " l +:+ " " +:+ join " " l') as Hj.
  { clear. intros l l' Hl Hl'. induction l as [|x l IH]; [done|]. destruct l as [|y l].
    - destruct l' as [|z l']; [done|]. cbn [app]. by rewrite join_cons.
    - cbn [app] in *. rewrite !join_cons, IH by done. by rewrite !app_assoc_s. }
  set (G := join " " (g :: guest)).
  destruct (seqb s "perf"), (seqb (Params.Vendor p) "pvm"); rewrite ?app_nil_r, !Hj by done; fold G;
    cbn [join]; rewrite !app_assoc_s; reflexivity.
Qed.

(** A guest argument that does not set what the harness reads. *)
Definition plain_arg (w : string) : Prop :=
  word w ∧ no_byte "," w = true ∧ tok_key w ≠ "pvmtest.only" ∧ tok_key w ≠ "pvmtest.suite".

Lemma Get_some (m : gmap string string) k v d : m !! k = Some v → v ≠ "" → Harness.Get m k d = v.
Proof. intros H Hv. unfold Harness.Get. rewrite H. by rewrite (proj2 (seqb_false v "")). Qed.

Lemma word_app k v : word k → word v → word (k +:+ v).
Proof. intros [Hk Hne] [Hv _]. split; [by rewrite all_bytes_app, Hk, Hv|]. by destruct k. Qed.
Lemma names_word cs :
  cs ≠ [] → Forall (λ c, word c ∧ no_byte "," c = true ∧ no_byte "|" c = true) cs →
  word (join "|" cs) ∧ no_byte "," (join "|" cs) = true.
Proof.
  intros Hne H. split; [split|].
  - apply all_bytes_join; [done|]. eapply Forall_impl; [exact H|]. by intros c [[? _] _].
  - destruct H as [|c cs [[_ Hc] _] _]; [done|]. destruct c; [done|]. by destruct cs.
  - apply all_bytes_join; [done|]. eapply Forall_impl; [exact H|]. by intros c (_ & ? & _).
Qed.

Lemma guest_words_ok p s guest :
  word s → word (Params.Vendor p) → Forall word guest → Forall word (guest_words p s guest).
Proof.
  intros Hs Hv Hg. unfold guest_words. rewrite !Forall_app. split_and!; [| |done|].
  - repeat (apply Forall_cons; split); try done; [by split..| |].
    + by apply (word_app "pvmtest.suite=").
    + apply (word_app "pvmtest.tag="); [done|]. by apply word_app.
  - destruct (seqb s "perf"); repeat (apply Forall_cons; split); done.
  - destruct (seqb _ "pvm"); [|done]. by apply Forall_singleton.
Qed.

(** The suite and the filter the guest reads. *)
Lemma guest_words_set p s names rest :
  Forall (λ w, tok_key w ≠ "pvmtest.only" ∧ tok_key w ≠ "pvmtest.suite") rest →
  let m := foldl cmdline_token ∅ (guest_words p s (("pvmtest.only=" +:+ names) :: rest)) in
  m !! "pvmtest.suite" = Some s ∧ m !! "pvmtest.only" = Some names.
Proof.
  intros Hrest m.
  set (perf := if seqb s "perf" then ["quiet"; "loglevel=0"] else ["earlyprintk=serial,ttyS0,115200"]).
  set (tag := "pvmtest.tag=" +:+ Params.Vendor p +:+ "-guest").
  set (tail := if seqb (Params.Vendor p) "pvm" then ["pvmtest.expect=pvm"] else []).
  assert (tok_key tag = "pvmtest.tag" ∧ tok_key ("pvmtest.only=" +:+ names) = "pvmtest.only") as [Htag Honly].
  { split.
    - apply (tok_of "pvmtest.tag" (Params.Vendor p +:+ "-guest")). done.
    - by apply (tok_of "pvmtest.only" names). }
  assert (Forall (λ w, tok_key w ≠ "pvmtest.only" ∧ tok_key w ≠ "pvmtest.suite") (perf ++ tail)) as Hlits.
  { apply Forall_app. unfold perf, tail.
    split; case_match; repeat (apply Forall_cons; split); done. }
  apply Forall_app in Hlits as [Hperf Htail]. split.
  - apply (Cmdline_last "pvmtest.suite" s ["console=ttyS0,115200"; "panic=-1"; "oops=panic"]
      (tag :: perf ++ (("pvmtest.only=" +:+ names) :: rest) ++ tail)); [done|].
    apply Forall_cons. rewrite Htag. split; [done|]. rewrite !Forall_app, Forall_cons, Honly.
    split_and!; [|done| |]; (eapply Forall_impl; [eassumption|]; by intros w [_ ?]).
  - replace m with (foldl cmdline_token ∅ ((["console=ttyS0,115200"; "panic=-1"; "oops=panic";
      "pvmtest.suite=" +:+ s; tag] ++ perf) ++ ("pvmtest.only" +:+ String "=" names) :: (rest ++ tail))).
    + apply Cmdline_last; [done|]. apply Forall_app.
      split; (eapply Forall_impl; [eassumption|]; by intros w [? _]).
    + unfold m, guest_words. fold tag perf tail. by rewrite <-!app_assoc.
Qed.

(** One name: the case so named, and of the suite every case whose name contains
    it. *)
Lemma selected_by_one h c n :
  only h = n → n ≠ "" → no_byte "|" n = true →
  selected h c = true ↔ Harness.Name c = n ∨ contains (Harness.Name c) n = true ∧ selected (New (suite h) "") c = true.
Proof.
  intros Ho Hn Hb. unfold selected at 1. rewrite Ho. change "|" with (str1 "|"). rewrite contains_char, Hb.
  rewrite (proj2 (seqb_false n "") Hn). cbn [negb andb]. change (selected (New (suite h) "") c) with
    (if seqb (suite h) "all" then true else if existsb (λ s, seqb s (suite h)) (Suites c) then true else
     match rank (suite h) with
     | None => false
     | Some want => if (want =? 3)%Z then false else
         existsb (λ s, match rank s with Some r => (r <=? want)%Z && negb (r =? 3)%Z | None => false end) (Suites c)
     end).
  destruct (contains (Harness.Name c) n) eqn:Ec; cbn [negb].
  - destruct (seqb (Harness.Name c) n) eqn:En.
    + apply seqb_true in En. split; [by left|done].
    + apply seqb_false in En. split; [by right|]. by intros [?|[_ ?]].
  - split; [done|]. intros [<-|[? _]]; [|done]. rewrite <-Ec. apply contains_spec.
    exists "", "". by rewrite app_nil_r_s, app_nil_l_s.
Qed.


Definition reach_item (cases : string) (suite : string) : Item :=
  {| Kind := "run"; i_Name := "faults"; Line := 1; Keys := {["suite" := suite; "cases" := cases; "guest" := "quiet"]} |}.
Definition reach_boot (it : Item) : Boot :=
  {| b_Item := it; Run.Vendor := "pvm"; CPUs := 0; Rep := 1; Side := ""; LogName := "" |}.
Definition reach_opts (it : Item) : L1Opts :=
  match l1Opts (λ _, "") (reach_boot it) with inr o => o | inl _ => ex_opts end.
Definition reach_guest (it : Item) (cs : list Case) : Harness :=
  let o := reach_opts it in
  let p := ParseCmdline (join " " (L1Append o) +:+ nl) in
  guest_harness (GuestAppend p (ResolveMode (Params.Suite p)).1 (ResolveMode (Params.Suite p)).2) cs None.

(** One name is a substring filter within the suite: the battery's documentation
    says exact case names, but an item that names syscall/getcpu also runs
    syscall/getcpu-affinity. *)
Definition getcpu_affinity : Case :=
  {| Harness.Name := "syscall/getcpu-affinity"; Suites := [Core]; Harness.Timeout := 0 |}.
Theorem one_case_selects_more :
  List_ (reach_item "syscall/getcpu" "default") "cases" = Some ["syscall/getcpu"] ∧
  selected (reach_guest (reach_item "syscall/getcpu" "default") []) getcpu_affinity = true.
Proof. split; vm_done. Qed.
