(* ===== verification/Bits.v ===== *)
(** * Machine words and bytes

    Unsigned machine words as [Z] with their wrap-around, the disjoint bit
    fields the kernel interfaces are made of, and encoding/binary's
    little-endian byte order. *)
From Stdlib Require Import Bool.
From S2P Require Import Prelude.

#[local] Open Scope Z_scope.

(** ** Words *)
Definition u64 (z : Z) : Z := z mod 2 ^ 64.
Definition u32 (z : Z) : Z := z mod 2 ^ 32.
Definition u16 (z : Z) : Z := z mod 2 ^ 16.
Definition u8 (z : Z) : Z := z mod 2 ^ 8.
(** [x << n] and [x >> n] on a uint64. *)
Definition shl64 (x n : Z) : Z := u64 (Z.shiftl x n).
Definition shr64 (x n : Z) : Z := Z.shiftr x n.
(** The int64 a word stands for. *)
Definition i64 (z : Z) : Z := (z + 2 ^ 63) mod 2 ^ 64 - 2 ^ 63.

Lemma testbit_high z n i : 0 <= z < 2 ^ n → 0 <= n <= i → Z.testbit z i = false.
Proof. intros. rewrite <- (Z.mod_small z (2 ^ n)) by lia. by apply Z.mod_pow2_bits_high; lia. Qed.

(** Two fields that do not overlap: or is addition. *)
Lemma lor_shiftl a b n : 0 <= n → 0 <= a < 2 ^ n → Z.lor a (Z.shiftl b n) = a + b * 2 ^ n.
Proof.
  intros Hn Ha. rewrite <- Z.shiftl_mul_pow2, <- Z.add_lor_land by done.
  enough (Z.land a (Z.shiftl b n) = 0) by lia.
  apply Z.bits_inj'. intros i Hi. rewrite Z.land_spec, Z.shiftl_spec, Z.bits_0 by done.
  destruct (Z.lt_ge_cases i n).
  - by rewrite (Z.testbit_neg_r b), andb_false_r by lia.
  - by rewrite (testbit_high a n) by lia.
Qed.

(** ** Little-endian bytes (encoding/binary) *)
Fixpoint le (n : nat) (v : Z) : list Z :=
  match n with O => [] | S n => v mod 256 :: le n (v / 256) end.
Fixpoint unle (l : list Z) : Z :=
  match l with [] => 0 | b :: l => b + 256 * unle l end.

Lemma le_length n v : length (le n v) = n.
Proof. revert v. induction n; intros; cbn; auto. Qed.
Lemma unle_le n v : 0 <= v < 2 ^ (8 * Z.of_nat n) → unle (le n v) = v.
Proof.
  revert v. induction n as [|n IH]; intros v Hv; [cbn in *; lia|].
  cbn [le unle]. rewrite IH.
  - rewrite (Z.div_mod v 256) at 3 by lia. lia.
  - replace (8 * Z.of_nat (S n)) with (8 + 8 * Z.of_nat n) in Hv by lia.
    rewrite Z.pow_add_r in Hv by lia. change (2 ^ 8) with 256 in Hv.
    split; [apply Z.div_pos; lia|apply Z.div_lt_upper_bound; lia].
Qed.
Definition is_byte (b : Z) : Prop := 0 <= b < 256.
Lemma le_bytes n v : Forall is_byte (le n v).
Proof. revert v. induction n; intros; cbn; constructor; [apply Z.mod_pos_bound; lia|auto]. Qed.
Lemma unle_bound l : Forall is_byte l → 0 <= unle l < 2 ^ (8 * Z.of_nat (length l)).
Proof.
  induction 1 as [|b l Hb _ IH]; [cbn; lia|]. unfold is_byte in Hb. cbn [unle length].
  replace (8 * Z.of_nat (S (length l))) with (8 + 8 * Z.of_nat (length l)) by lia.
  rewrite Z.pow_add_r by lia. change (2 ^ 8) with 256. lia.
Qed.
Lemma le_unle l : Forall is_byte l → le (length l) (unle l) = l.
Proof.
  induction 1 as [|b l Hb Hl IH]; [done|]. unfold is_byte in Hb. cbn [unle length le].
  rewrite (Z.mul_comm 256), Z.mod_add, Z.div_add, Z.mod_small, Z.div_small by lia.
  by rewrite Z.add_0_l, IH.
Qed.
