(* ===== verification/Abi.v ===== *)
(** * The numbers and layouts of the host tests

    tools/hosttests/internal/kvm/uapi.go and tools/hosttests/internal/pvm/para.go:
    the ioctl encoding, the ioctl numbers, the structures that are handed to
    the kernel and the constants of the PVM interface.  A structure is the
    list of its fields with Go's layout rules for amd64 written out: a field
    starts at the next multiple of its alignment, and the size is rounded up
    to the largest alignment. *)
From Stdlib Require Import Bool Ascii Btauto.
From S2P Require Import Prelude GoStrings Bits.

#[local] Open Scope Z_scope.

(** ** Sizes and offsets *)
Inductive gotype :=
| Int (bytes : Z)
| Array (n : Z) (t : gotype)
| Struct (fields : list (string * gotype)).

Definition uint64 := Int 8.
Definition uint32 := Int 4.
Definition uint16 := Int 2.
Definition int16 := Int 2.
Definition uint8 := Int 1.

Definition align_up (off a : Z) : Z := (off + a - 1) / a * a.

Fixpoint alignof (t : gotype) : Z :=
  match t with
  | Int b => b
  | Array _ t => alignof t
  | Struct fs => foldr (λ f a, Z.max (alignof f.2) a) 1 fs
  end.
Fixpoint sizeof (t : gotype) : Z :=
  match t with
  | Int b => b
  | Array n t => n * sizeof t
  | Struct fs =>
      align_up (foldl (λ off f, align_up off (alignof f.2) + sizeof f.2) 0 fs) (alignof (Struct fs))
  end.

(** Where each field starts and how long it is. *)
Record placed := Placed { p_name : string; p_start : Z; p_size : Z; p_align : Z }.
Definition p_end (p : placed) : Z := p_start p + p_size p.
Fixpoint place (off : Z) (fs : list (string * gotype)) : list placed :=
  match fs with
  | [] => []
  | (n, t) :: fs =>
      let o := align_up off (alignof t) in
      Placed n o (sizeof t) (alignof t) :: place (o + sizeof t) fs
  end.
Definition fields_of (t : gotype) : list placed :=
  match t with Struct fs => place 0 fs | _ => [] end.
Definition Offsetof (t : gotype) (n : string) : Z :=
  default (-1) (p_start <$> List.find (λ p, bool_decide (p_name p = n)) (fields_of t)).

(** ** internal/kvm/uapi.go: the ioctl encoding *)
Definition iocNRBits : Z := 8.
Definition iocTypeBits : Z := 8.
Definition iocSizeBits : Z := 14.
(** The two bits left for the direction in a 32-bit number. *)
Definition iocDirBits : Z := 2.
Definition iocNRShift : Z := 0.
Definition iocTypeShift : Z := iocNRShift + iocNRBits.
Definition iocSizeShift : Z := iocTypeShift + iocTypeBits.
Definition iocDirShift : Z := iocSizeShift + iocSizeBits.
Definition iocNone : Z := 0.
Definition iocWrite : Z := 1.
Definition iocRead : Z := 2.

Definition ioc (dir typ nr size : Z) : Z :=
  Z.lor (Z.lor (Z.lor (shl64 dir iocDirShift) (shl64 typ iocTypeShift)) (shl64 nr iocNRShift))
        (shl64 size iocSizeShift).
Definition IO (typ nr : Z) : Z := ioc iocNone typ nr 0.
Definition IOR (typ nr size : Z) : Z := ioc iocRead typ nr size.
Definition IOW (typ nr size : Z) : Z := ioc iocWrite typ nr size.
Definition IOWR (typ nr size : Z) : Z := ioc (Z.lor iocRead iocWrite) typ nr size.
Definition KVMIO : Z := 0xAE.

(** ** The structures of <linux/kvm.h> *)
Definition same (t : gotype) (ns : list string) : list (string * gotype) := (λ n, (n, t)) <$> ns.

Definition Regs := Struct (same uint64
  ["RAX"; "RBX"; "RCX"; "RDX"; "RSI"; "RDI"; "RSP"; "RBP"; "R8"; "R9"; "R10"; "R11";
   "R12"; "R13"; "R14"; "R15"; "RIP"; "RFLAGS"]).
Definition Segment := Struct (
  [("Base", uint64); ("Limit", uint32); ("Selector", uint16)] ++
  same uint8 ["Type"; "Present"; "DPL"; "DB"; "S"; "L"; "G"; "AVL"; "Unusable"; "Padding"]).
Definition DTable := Struct [("Base", uint64); ("Limit", uint16); ("Padding", Array 3 uint16)].
Definition NR_INTERRUPTS : Z := 256.
Definition Sregs := Struct (
  same Segment ["CS"; "DS"; "ES"; "FS"; "GS"; "SS"; "TR"; "LDT"] ++ same DTable ["GDT"; "IDT"] ++
  same uint64 ["CR0"; "CR2"; "CR3"; "CR4"; "CR8"; "EFER"; "APICBase"] ++
  [("InterruptBitmap", Array ((NR_INTERRUPTS + 63) / 64) uint64)]).
Definition MSRs := Struct (same uint32 ["NMSRs"; "Pad"]).
Definition MSREntry := Struct [("Index", uint32); ("Reserved", uint32); ("Data", uint64)].
Definition UserspaceMemoryRegion := Struct (
  same uint32 ["Slot"; "Flags"] ++ same uint64 ["GuestPhysAddr"; "MemorySize"; "UserspaceAddr"]).
Definition CPUID2 := Struct (same uint32 ["Nent"; "Padding"]).
Definition CPUIDEntry2 := Struct (
  same uint32 ["Function"; "Index"; "Flags"; "EAX"; "EBX"; "ECX"; "EDX"] ++ [("Padding", Array 3 uint32)]).
Definition CPUID_FLAG_SIGNIFCANT_INDEX : Z := Z.shiftl 1 0.
Definition XSave := Struct [("Region", Array 1024 uint32)].
Definition StatsHeader := Struct (same uint32
  ["Flags"; "NameSize"; "NumDesc"; "IDOffset"; "DescOffset"; "DataOffset"]).
Definition StatsDesc := Struct [("Flags", uint32); ("Exponent", int16); ("Size", uint16);
  ("Offset", uint32); ("BucketSize", uint32)].
Definition Run := Struct [("RequestInterruptWindow", uint8); ("ImmediateExit", uint8); ("_", Array 6 uint8);
  ("ExitReason", uint32); ("ReadyForInterruptInjection", uint8); ("IFFlag", uint8); ("Flags", uint16);
  ("CR8", uint64); ("APICBase", uint64); ("exit", Array 256 uint8)].
Definition RunMMIO := Struct [("PhysAddr", uint64); ("Data", Array 8 uint8); ("Len", uint32); ("IsWrite", uint8)].
Definition RunInternal := Struct (same uint32 ["Suberror"; "NData"]).

Definition EXIT_UNKNOWN : Z := 0.
Definition EXIT_EXCEPTION : Z := 1.
Definition EXIT_IO : Z := 2.
Definition EXIT_HLT : Z := 5.
Definition EXIT_MMIO : Z := 6.
Definition EXIT_SHUTDOWN : Z := 8.
Definition EXIT_FAIL_ENTRY : Z := 9.
Definition EXIT_INTR : Z := 10.
Definition EXIT_INTERNAL_ERROR : Z := 17.
Definition CAP_MAX_VCPUS : Z := 66.

Definition sizeofCPUID2 : Z := 8.
Definition sizeofMemRegion : Z := 32.
Definition sizeofRegs : Z := 144.
Definition sizeofSregs : Z := 312.
Definition sizeofMSRs : Z := 8.
Definition sizeofXSave : Z := 4096.

Definition CREATE_VM : Z := IO KVMIO 0x01.
Definition CHECK_EXTENSION : Z := IO KVMIO 0x03.
Definition GET_VCPU_MMAP_SIZE : Z := IO KVMIO 0x04.
Definition GET_SUPPORTED_CPUID : Z := IOWR KVMIO 0x05 sizeofCPUID2.
Definition CREATE_VCPU : Z := IO KVMIO 0x41.
Definition SET_USER_MEMORY_REGION : Z := IOW KVMIO 0x46 sizeofMemRegion.
Definition RUN : Z := IO KVMIO 0x80.
Definition GET_REGS : Z := IOR KVMIO 0x81 sizeofRegs.
Definition SET_REGS : Z := IOW KVMIO 0x82 sizeofRegs.
Definition GET_SREGS : Z := IOR KVMIO 0x83 sizeofSregs.
Definition SET_SREGS : Z := IOW KVMIO 0x84 sizeofSregs.
Definition GET_MSRS : Z := IOWR KVMIO 0x88 sizeofMSRs.
Definition SET_MSRS : Z := IOW KVMIO 0x89 sizeofMSRs.
Definition SET_CPUID2 : Z := IOW KVMIO 0x90 sizeofCPUID2.
Definition GET_XSAVE : Z := IOR KVMIO 0xa4 sizeofXSave.
Definition GET_STATS_FD : Z := IO KVMIO 0xce.

(** ** internal/pvm/para.go: the PVM interface *)
Definition PVM_SYNTHETIC_CPUID : list Z := [0x0f; 0x01; 0x3c; 0x25; 0x50; 0x56; 0x4d; 0xff; 0x0f; 0xa2].
Definition PVM_SYNTHETIC_CPUID_ADDRESS : Z := 0xffffffffff4d5650.
Definition PVM_CPUID_SIGNATURE : Z := 0x40000200.
Definition PVM_SIGNATURE : string := "PVMPVMPVM" +:+ String "000"%char (String "000"%char (String "000"%char "")).
Definition PVM_CPUID_FEATURES : Z := 0x40000201.
Definition PVM_CPUID_MAX : Z := PVM_CPUID_FEATURES.
Definition PVM_ABI_VERSION : Z := 1.
Definition PVM_FEATURE_DIRECT_PF_BIT : Z := 0.
Definition PVM_FEATURE_DIRECT_PF : Z := Z.shiftl 1 PVM_FEATURE_DIRECT_PF_BIT.
Definition PVM_VIRTUAL_MSR_BASE : Z := 0x4b564d20.
Definition MSR_PVM_VCPU_STRUCT : Z := PVM_VIRTUAL_MSR_BASE + 0.
Definition MSR_PVM_EVENT_ENTRY : Z := PVM_VIRTUAL_MSR_BASE + 1.
Definition PVM_EVENT_ENTRY_SUPERVISOR_OFFSET : Z := 512.
Definition MSR_PVM_RETU_RIP : Z := PVM_VIRTUAL_MSR_BASE + 2.
Definition MSR_PVM_FEATURES_ENABLED : Z := PVM_VIRTUAL_MSR_BASE + 3.
Definition PVM_HC_SPECIAL_BASE : Z := 0x17088200.
Definition PVM_HC_LOAD_PGTBL : Z := PVM_HC_SPECIAL_BASE + 0.
Definition PVM_HC_IRQ_WIN : Z := PVM_HC_SPECIAL_BASE + 1.
Definition PVM_HC_IRQ_HLT : Z := PVM_HC_SPECIAL_BASE + 2.
Definition PVM_HC_TLB_FLUSH : Z := PVM_HC_SPECIAL_BASE + 3.
Definition PVM_HC_TLB_FLUSH_CURRENT : Z := PVM_HC_SPECIAL_BASE + 4.
Definition PVM_HC_TLB_INVLPG : Z := PVM_HC_SPECIAL_BASE + 5.
Definition PVM_HC_LOAD_GS : Z := PVM_HC_SPECIAL_BASE + 6.
Definition PVM_HC_RDMSR : Z := PVM_HC_SPECIAL_BASE + 7.
Definition PVM_HC_WRMSR : Z := PVM_HC_SPECIAL_BASE + 8.
Definition PVM_HC_LOAD_TLS : Z := PVM_HC_SPECIAL_BASE + 9.
Definition PVM_EVENT_FLAGS_IP_BIT : Z := 32.
Definition PVM_EVENT_FLAGS_IP : Z := Z.shiftl 1 PVM_EVENT_FLAGS_IP_BIT.
Definition PVM_EVENT_FLAGS_IF_BIT : Z := 9.
Definition PVM_EVENT_FLAGS_IF : Z := Z.shiftl 1 PVM_EVENT_FLAGS_IF_BIT.
Definition PVM_PVCS_EVENT_VECTOR_STD_BIT : Z := 8.
Definition PVM_PVCS_EVENT_VECTOR_STD : Z := Z.shiftl 1 PVM_PVCS_EVENT_VECTOR_STD_BIT.
Definition PVM_PVCS_EVENT_VECTOR_NMI_BIT : Z := 9.
Definition PVM_PVCS_EVENT_VECTOR_NMI : Z := Z.shiftl 1 PVM_PVCS_EVENT_VECTOR_NMI_BIT.
Definition PVM_PVCS_EVENT_VECTOR_MCE_BIT : Z := 10.
Definition PVM_PVCS_EVENT_VECTOR_MCE : Z := Z.shiftl 1 PVM_PVCS_EVENT_VECTOR_MCE_BIT.
Definition PVM_LOAD_PGTBL_FLAGS_TLB : Z := Z.shiftl 1 0.
Definition PVM_LOAD_PGTBL_FLAGS_LA57 : Z := Z.shiftl 1 1.

(** The PVCS. *)
Definition VcpuStruct := Struct (
  same uint64 ["EventFlags"; "CR2"] ++ [("Reserved0", Array 6 uint64)] ++
  same uint16 ["UserCS"; "UserSS"; "EventErrcode"; "EventVector"] ++ [("UserGSBase", uint64)] ++
  same uint32 ["EFlags"; "PKRU"] ++ same uint64 ["RIP"; "RCX"; "R11"] ++ [("Reserved1", Array 2 uint64)]).
Definition PVCS_EVENT_FLAGS : Z := Offsetof VcpuStruct "EventFlags".
Definition PVCS_CR2 : Z := Offsetof VcpuStruct "CR2".
Definition PVCS_USER_CS : Z := Offsetof VcpuStruct "UserCS".
Definition PVCS_USER_SS : Z := Offsetof VcpuStruct "UserSS".
Definition PVCS_EVENT_ERRCODE : Z := Offsetof VcpuStruct "EventErrcode".
Definition PVCS_EVENT_VECTOR : Z := Offsetof VcpuStruct "EventVector".
Definition PVCS_USER_GSBASE : Z := Offsetof VcpuStruct "UserGSBase".
Definition PVCS_EFLAGS : Z := Offsetof VcpuStruct "EFlags".
Definition PVCS_PKRU : Z := Offsetof VcpuStruct "PKRU".
Definition PVCS_RIP : Z := Offsetof VcpuStruct "RIP".
Definition PVCS_RCX : Z := Offsetof VcpuStruct "RCX".
Definition PVCS_R11 : Z := Offsetof VcpuStruct "R11".
Definition PVCS_SIZE : Z := sizeof VcpuStruct.

(** ** The layout rules *)

(** Types whose integers are 1, 2, 4 or 8 bytes long. *)
Fixpoint wf_type (t : gotype) : bool :=
  match t with
  | Int b => bool_decide (b ∈ [1; 2; 4; 8])
  | Array n t => (0 <=? n) && wf_type t
  | Struct fs => foldr (λ f b, wf_type f.2 && b) true fs
  end.

(** The integers a value is made of: where each starts and how long it is. *)
Fixpoint leaves (off : Z) (t : gotype) : list (Z * Z) :=
  match t with
  | Int b => [(off, b)]
  | Array n t => i ← seq 0 (Z.to_nat n); leaves (off + Z.of_nat i * sizeof t) t
  | Struct fs =>
      (fix go o fs :=
         match fs with
         | [] => []
         | f :: fs =>
             let s := align_up o (alignof f.2) in
             leaves (off + s) f.2 ++ go (s + sizeof f.2) fs
         end) 0 fs
  end.
Fixpoint struct_leaves (off o : Z) (fs : list (string * gotype)) : list (Z * Z) :=
  match fs with
  | [] => []
  | f :: fs => let s := align_up o (alignof f.2) in
               leaves (off + s) f.2 ++ struct_leaves off (s + sizeof f.2) fs
  end.
Lemma leaves_struct off fs : leaves off (Struct fs) = struct_leaves off 0 fs.
Proof.
  cbn [leaves]. generalize 0. induction fs as [|f fs IH]; intros o; [done|].
  cbn [struct_leaves]. by rewrite IH.
Qed.

(** Integers at the addresses from [lo] up to [hi], in order, apart from one
    another, each at a multiple of its size. *)
Inductive laid : Z → list (Z * Z) → Z → Prop :=
| laid_nil lo hi : lo <= hi → laid lo [] hi
| laid_cons lo s b l hi :
    lo <= s → 0 < b → (b | s) → laid (s + b) l hi → laid lo ((s, b) :: l) hi.

Lemma laid_weaken lo lo' l hi hi' : laid lo l hi → lo' <= lo → hi <= hi' → laid lo' l hi'.
Proof.
  intros H. revert lo'. induction H as [|lo s b l hi Hlo Hb Hd Hl IH]; intros lo' Hlo' ?.
  - apply laid_nil. lia.
  - apply laid_cons; [lia|done|done|]. by apply IH.
Qed.
Lemma laid_app lo l mid l' hi : laid lo l mid → laid mid l' hi → laid lo (l ++ l') hi.
Proof.
  induction 1; intros Hl; simpl.
  - by eapply laid_weaken.
  - apply laid_cons; auto.
Qed.

Lemma align_up_spec off a : 0 < a → off <= align_up off a < off + a ∧ (a | align_up off a).
Proof.
  intros Ha. unfold align_up. split; [|apply Z.divide_factor_r].
  pose proof (Z.div_mod (off + a - 1) a). pose proof (Z.mod_pos_bound (off + a - 1) a). nia.
Qed.

Section TypeInd.
Context (P : gotype → Prop) (HInt : ∀ b, P (Int b)) (HArr : ∀ n t, P t → P (Array n t))
        (HStruct : ∀ fs, Forall (λ f, P f.2) fs → P (Struct fs)).
Fixpoint gotype_ind' (t : gotype) : P t :=
  match t with
  | Int b => HInt b
  | Array n t => HArr n t (gotype_ind' t)
  | Struct fs => HStruct fs ((fix go fs : Forall (λ f, P f.2) fs :=
      match fs with [] => Forall_nil_2 _ | f :: fs => Forall_cons_2 _ _ _ (gotype_ind' f.2) (go fs) end) fs)
  end.
End TypeInd.

(** The alignments: 1, 2, 4 or 8, so that of two the smaller divides the
    larger. *)
Definition pow_align (a : Z) : Prop := a ∈ [1; 2; 4; 8].
Lemma pow_align_pos a : pow_align a → 0 < a.
Proof. unfold pow_align. set_solver by lia. Qed.
Lemma pow_align_max a b : pow_align a → pow_align b →
  pow_align (Z.max a b) ∧ (a | Z.max a b) ∧ (b | Z.max a b).
Proof.
  intros Ha Hb.
  assert (b = a ∨ (a | b) ∧ a <= b ∨ (b | a) ∧ b <= a) as Hc.
  { unfold pow_align in *. rewrite !elem_of_cons, elem_of_nil in Ha, Hb.
    destruct Ha as [->|[->|[->|[->|[]]]]]; destruct Hb as [->|[->|[->|[->|[]]]]];
      first [by left | right; left; split; [by apply Z.mod_divide|lia]
            | right; right; split; [by apply Z.mod_divide|lia]]. }
  destruct Hc as [->|[[? ?]|[? ?]]].
  - by rewrite Z.max_id.
  - by rewrite Z.max_r.
  - by rewrite Z.max_l.
Qed.

Lemma struct_align fs :
  Forall (λ f, pow_align (alignof f.2)) fs →
  pow_align (alignof (Struct fs)) ∧ Forall (λ f, (alignof f.2 | alignof (Struct fs))) fs.
Proof.
  induction 1 as [|f fs Hf _ [IHp IHd]]; [split; [simpl; unfold pow_align; set_solver|done]|].
  change (alignof (Struct (f :: fs))) with (Z.max (alignof f.2) (alignof (Struct fs))).
  destruct (pow_align_max _ _ Hf IHp) as (?&?&Hd). split; [done|]. constructor; [done|].
  eapply Forall_impl; [exact IHd|]. intros x ?. by apply (Z.divide_trans _ (alignof (Struct fs))).
Qed.

Lemma Forall_mp {A} (P Q : A → Prop) l : Forall (λ x, P x → Q x) l → Forall P l → Forall Q l.
Proof. rewrite !Forall_forall. auto. Qed.

Definition struct_end (o : Z) (fs : list (string * gotype)) : Z :=
  foldl (λ off f, align_up off (alignof f.2) + sizeof f.2) o fs.

Lemma struct_end_le o fs :
  Forall (λ f, 0 < alignof f.2 ∧ 0 <= sizeof f.2) fs → o <= struct_end o fs.
Proof.
  intros H. revert o. induction H as [|f fs [Ha Hs] _ IH]; intros o; cbn; [lia|].
  etrans; [|apply IH]. pose proof (align_up_spec o _ Ha). lia.
Qed.

Lemma wf_fields fs : wf_type (Struct fs) = true ↔ Forall (λ f, wf_type f.2 = true) fs.
Proof.
  induction fs as [|f fs IH]; cbn; [done|]. rewrite andb_true_iff, Forall_cons. by rewrite <-IH.
Qed.

Lemma wf_size t : wf_type t = true → pow_align (alignof t) ∧ 0 <= sizeof t ∧ (alignof t | sizeof t).
Proof.
  induction t as [b|n t IH|fs IH] using gotype_ind'; intros Hwf.
  - cbn in *. bool_prop. split; [done|]. split; [apply pow_align_pos in Hwf; lia|done].
  - cbn in *. bool_prop. destruct IH as (?&?&?); [done|]. split; [done|]. split; [nia|].
    by apply Z.divide_mul_r.
  - rewrite wf_fields in Hwf.
    assert (Forall (λ f, pow_align (alignof f.2) ∧ 0 <= sizeof f.2) fs) as HF.
    { eapply Forall_mp; [|exact Hwf]. eapply Forall_impl; [exact IH|]. naive_solver. }
    assert (Forall (λ f, pow_align (alignof f.2)) fs) as HA by (eapply Forall_impl; [exact HF|naive_solver]).
    destruct (struct_align fs HA) as [Hp _]. split; [done|].
    pose proof (pow_align_pos _ Hp) as Hpos.
    change (sizeof (Struct fs)) with (align_up (struct_end 0 fs) (alignof (Struct fs))).
    destruct (align_up_spec (struct_end 0 fs) _ Hpos) as [Hle Hd]. split; [|done].
    enough (0 <= struct_end 0 fs) by lia. apply struct_end_le.
    eapply Forall_impl; [exact HF|]. intros f [? ?]. split; [by apply pow_align_pos|done].
Qed.

Lemma laid_repeat f (n : nat) (sz off : Z) : 0 <= sz →
  (∀ i : nat, laid (off + Z.of_nat i * sz) (f i) (off + Z.of_nat i * sz + sz)) →
  ∀ k, laid (off + Z.of_nat k * sz) (i ← seq k n; f i) (off + Z.of_nat (k + n) * sz).
Proof.
  intros Hsz Hf. induction n as [|n IH]; intros k; cbn.
  - constructor. replace (k + 0)%nat with k by lia. lia.
  - eapply laid_app; [apply Hf|]. eapply laid_weaken; [apply IH| |]; nia.
Qed.

Lemma laid_fields off al fs o : (al | off) →
  Forall (λ f, wf_type f.2 = true) fs →
  Forall (λ f, (alignof f.2 | al)) fs →
  Forall (λ f, ∀ off, (alignof f.2 | off) → laid off (leaves off f.2) (off + sizeof f.2)) fs →
  laid (off + o) (struct_leaves off o fs) (off + struct_end o fs).
Proof.
  intros Hoff Hwf Hal Hl. revert o. induction fs as [|f fs IH]; intros o; cbn.
  { constructor. cbn. lia. }
  apply Forall_cons in Hwf as [Hf Hwf]. apply Forall_cons in Hal as [Ha Hal].
  apply Forall_cons in Hl as [Hl Hls].
  destruct (wf_size _ Hf) as (Hp&?&?).
  destruct (align_up_spec o _ (pow_align_pos _ Hp)) as [Hle Hd].
  eapply laid_app.
  - eapply laid_weaken; [apply Hl| |].
    + apply Z.divide_add_r; [by apply (Z.divide_trans _ al)|done].
    + lia.
    + reflexivity.
  - eapply laid_weaken; [by apply (IH Hwf Hal Hls (align_up o (alignof f.2) + sizeof f.2))|lia|].
    unfold struct_end. cbn. lia.
Qed.

(** The structures are laid out so that their integers are in order, apart
    from one another, aligned to their own size and inside the structure: a
    field written at its [Offsetof] reaches no other field, and the structure
    handed to the kernel is as long as [Sizeof] says. *)
Theorem layout_sound t off :
  wf_type t = true → (alignof t | off) → laid off (leaves off t) (off + sizeof t).
Proof.
  revert off. induction t as [b|n t IH|fs IH] using gotype_ind'; intros off Hwf Hoff.
  - cbn in *. bool_prop. apply pow_align_pos in Hwf. constructor; [lia|done|done|constructor; lia].
  - cbn [wf_type] in Hwf. bool_prop. cbn [leaves sizeof alignof] in *. destruct (wf_size t) as (?&?&?); [done|].
    eapply laid_weaken; [apply (laid_repeat _ _ (sizeof t) off) with (k := 0%nat); [done|]| |]; [|lia|].
    + intros i. apply IH; [done|]. apply Z.divide_add_r; [done|]. by apply Z.divide_mul_r.
    + rewrite Nat.add_0_l, Z2Nat.id by done. lia.
  - rewrite wf_fields in Hwf.
    assert (Forall (λ f, pow_align (alignof f.2)) fs) as HA.
    { eapply Forall_impl; [exact Hwf|]. intros f Hf. apply (wf_size _ Hf). }
    destruct (struct_align fs HA) as [Hp Hdiv].
    rewrite leaves_struct.
    change (sizeof (Struct fs)) with (align_up (struct_end 0 fs) (alignof (Struct fs))).
    destruct (align_up_spec (struct_end 0 fs) _ (pow_align_pos _ Hp)) as [Hle _].
    eapply laid_weaken; [apply (laid_fields off (alignof (Struct fs)) fs 0); try done| |]; [|lia|lia].
    eapply Forall_mp; [|exact Hwf]. eapply Forall_impl; [exact IH|]. naive_solver.
Qed.
Lemma layout_sound_witness : laid 0 (leaves 0 Sregs) 312.
Proof. exact (layout_sound Sregs 0 eq_refl (Z.divide_0_r _)). Defined.

(** ** The ioctl numbers *)

Lemma shl64_small x n k : 0 <= n → 0 <= x < 2 ^ k → 0 <= k → n + k <= 64 → shl64 x n = x * 2 ^ n.
Proof.
  intros. unfold shl64, u64. rewrite Z.shiftl_mul_pow2 by done. apply Z.mod_small.
  split; [nia|]. apply Z.lt_le_trans with (2 ^ k * 2 ^ n); [nia|].
  rewrite <- Z.pow_add_r by lia. apply Z.pow_le_mono_r; lia.
Qed.

Lemma digit_split a n b : 0 <= a < n → (a + n * b) mod n = a ∧ (a + n * b) / n = b.
Proof.
  intros. rewrite Z.mul_comm, Z.mod_add, Z.div_add, Z.mod_small, Z.div_small by lia. split; lia.
Qed.

(** In range, the number is the sum of its four fields. *)
Lemma ioc_sum dir typ nr size :
  0 <= dir < 2 ^ 2 → 0 <= typ < 2 ^ 8 → 0 <= nr < 2 ^ 8 → 0 <= size < 2 ^ 14 →
  ioc dir typ nr size = nr + typ * 2 ^ 8 + size * 2 ^ 16 + dir * 2 ^ 30.
Proof.
  intros Hd Ht Hn Hs. unfold ioc.
  change iocDirShift with 30. change iocTypeShift with 8. change iocNRShift with 0. change iocSizeShift with 16.
  rewrite (shl64_small dir 30 2), (shl64_small typ 8 8), (shl64_small nr 0 8), (shl64_small size 16 14) by lia.
  rewrite <- !(Z.shiftl_mul_pow2 _) by lia. rewrite Z.shiftl_0_r.
  transitivity (Z.lor (Z.lor (Z.lor nr (Z.shiftl typ 8)) (Z.shiftl size 16)) (Z.shiftl dir 30)).
  { apply Z.bits_inj'. intros. rewrite !Z.lor_spec. btauto. }
  rewrite (lor_shiftl nr) by lia. rewrite (lor_shiftl _ size) by lia. rewrite lor_shiftl by lia. by rewrite !Z.shiftl_mul_pow2 by lia.
Qed.

(** An ioctl number is 32 bits wide and carries its four fields apart: the
    direction, the size, the type and the number are read back from it, as the
    kernel does. *)
Theorem ioc_fields dir typ nr size :
  0 <= dir < 2 ^ iocDirBits → 0 <= typ < 2 ^ iocTypeBits → 0 <= nr < 2 ^ iocNRBits → 0 <= size < 2 ^ iocSizeBits →
  let v := ioc dir typ nr size in
  0 <= v < 2 ^ 32 ∧ nr = v mod 2 ^ iocNRBits ∧ typ = Z.shiftr v iocTypeShift mod 2 ^ iocTypeBits ∧
  size = Z.shiftr v iocSizeShift mod 2 ^ iocSizeBits ∧ dir = Z.shiftr v iocDirShift.
Proof.
  intros Hd Ht Hn Hs v. subst v. rewrite ioc_sum by done.
  change iocDirShift with (8 + 8 + 14). change iocTypeShift with 8. change iocSizeShift with (8 + 8).
  change iocNRBits with 8 in *. change iocTypeBits with 8 in *. change iocSizeBits with 14 in *.
  change iocDirBits with 2 in *.
  rewrite <- !Z.shiftr_shiftr, !(Z.shiftr_div_pow2 _ 8), !(Z.shiftr_div_pow2 _ 14) by lia.
  replace (nr + typ * 2 ^ 8 + size * 2 ^ 16 + dir * 2 ^ 30)
    with (nr + 2 ^ 8 * (typ + 2 ^ 8 * (size + 2 ^ 14 * dir))) by lia.
  destruct (digit_split nr (2 ^ 8) (typ + 2 ^ 8 * (size + 2 ^ 14 * dir))) as [-> ->]; [lia|].
  destruct (digit_split typ (2 ^ 8) (size + 2 ^ 14 * dir)) as [-> ->]; [lia|].
  destruct (digit_split size (2 ^ 14) dir) as [-> ->]; [lia|].
  split; [lia|done].
Qed.
Lemma ioc_fields_witness : 0 <= 0x8138ae83 < 2 ^ 32 ∧ Z.shiftr GET_SREGS iocSizeShift mod 2 ^ iocSizeBits = sizeof Sregs.
Proof.
  destruct (ioc_fields iocRead KVMIO 0x83 sizeofSregs) as (H1&_&_&H2&_);
    [vm_compute; intuition congruence..|].
  split; [exact H1|]. transitivity sizeofSregs; [symmetry; exact H2|reflexivity].
Defined.

(** Each ioctl with its number in <linux/kvm.h> and the structure whose size
    the number carries. *)
Definition ioctl_table : list (Z * Z * option gotype) := [
  (CREATE_VM, 0xae01, None); (CHECK_EXTENSION, 0xae03, None); (GET_VCPU_MMAP_SIZE, 0xae04, None);
  (GET_SUPPORTED_CPUID, 0xc008ae05, Some CPUID2); (CREATE_VCPU, 0xae41, None);
  (SET_USER_MEMORY_REGION, 0x4020ae46, Some UserspaceMemoryRegion); (RUN, 0xae80, None);
  (GET_REGS, 0x8090ae81, Some Regs); (SET_REGS, 0x4090ae82, Some Regs);
  (GET_SREGS, 0x8138ae83, Some Sregs); (SET_SREGS, 0x4138ae84, Some Sregs);
  (GET_MSRS, 0xc008ae88, Some MSRs); (SET_MSRS, 0x4008ae89, Some MSRs);
  (SET_CPUID2, 0x4008ae90, Some CPUID2); (GET_XSAVE, 0x9000aea4, Some XSave); (GET_STATS_FD, 0xaece, None)].
Lemma ioctl_numbers :
  Forall (λ e, e.1.1 = e.1.2 ∧
    Z.shiftr e.1.1 iocSizeShift mod 2 ^ iocSizeBits = default 0 (sizeof <$> e.2)) ioctl_table
  ∧ NoDup (e ← ioctl_table; [e.1.1]).
Proof. apply (bool_decide_unpack _). by vm_compute. Qed.

(** The structures are those of the C header: their sizes, and no hole the C
    compiler would fill differently. *)
Lemma struct_sizes :
  (sizeof <$> [Regs; Segment; DTable; Sregs; MSRs; MSREntry; UserspaceMemoryRegion; CPUID2;
               CPUIDEntry2; XSave; StatsHeader; StatsDesc; Run; RunMMIO; RunInternal; VcpuStruct])
  = [144; 24; 16; 312; 8; 16; 32; 8; 40; 4096; 24; 16; 288; 24; 8; 128].
Proof. reflexivity. Qed.

(** Every PVCS field the guest code reaches with an 8-bit displacement is
    below 128, so the displacement is not negative. *)
Lemma pvcs_disp8 :
  Forall (λ o, 0 <= o < 128)
    [PVCS_EVENT_FLAGS; PVCS_CR2; PVCS_USER_CS; PVCS_USER_SS; PVCS_EVENT_ERRCODE; PVCS_EVENT_VECTOR;
     PVCS_USER_GSBASE; PVCS_EFLAGS; PVCS_PKRU; PVCS_RIP; PVCS_RCX; PVCS_R11].
Proof. apply (bool_decide_unpack _). by vm_compute. Qed.
