(* ===== verification/Guest.v ===== *)
(** * The guest the switcher test builds in memory

    tools/hosttests/cmd/pvm_switcher_test/guest.go (and the layout constants
    of tools/hosttests/internal/harness/vm.go): a byte slice with Go's bounds
    checks, the assembler that writes code into it, the routines of the guest
    and its page tables.  A Go panic (an index past the end of the slice, the
    assembler out of room) is [None].  The [asmbuf] of the source is a slice
    of the guest's memory; here it is the offset it starts at, next to the
    memory itself. *)
From stdpp Require Import zmap.
From S2P Require Import Prelude GoStrings Bits Abi.

#[local] Open Scope Z_scope.

(** ** Byte slices *)
Record mem := Mem { m_len : Z; m_data : Zmap Z }.
Definition byte_at (m : mem) (a : Z) : Z := default 0 (m_data m !! a).
Fixpoint store_bytes (d : Zmap Z) (a : Z) (l : list Z) : Zmap Z :=
  match l with [] => d | b :: l => store_bytes (<[a := b]> d) (a + 1) l end.
Definition fits (m : mem) (off : Z) (n : nat) : bool :=
  (0 <=? off) && (off + Z.of_nat n <=? m_len m).
(** Writing [l] at [off:], and reading [n] bytes from there. *)
Definition put (off : Z) (l : list Z) (m : mem) : option mem :=
  if fits m off (length l) then Some (Mem (m_len m) (store_bytes (m_data m) off l)) else None.
Definition bytes_at (m : mem) (off : Z) (n : nat) : list Z :=
  (λ i : nat, byte_at m (off + Z.of_nat i)) <$> seq 0 n.
Definition get (n : nat) (off : Z) (m : mem) : option Z :=
  if fits m off n then Some (unle (bytes_at m off n)) else None.
Definition clear (m : mem) : mem := Mem (m_len m) ∅.

(** ** Layout *)
Definition GUEST_PHYS_BASE : Z := 0x100000.
Definition GUEST_MEM_SIZE : Z := Z.shiftl 8 20.
Definition PVCS_GPA : Z := GUEST_PHYS_BASE + 0x2000.

Definition HOST_USER_CS : Z := 0x33.
Definition HOST_USER_DS : Z := 0x2b.
Definition GOOD_SEL : Z := Z.lor (u32 (Z.shiftl HOST_USER_DS 16)) HOST_USER_CS.

Definition O_PML4 : Z := 0x0000.
Definition O_PDP_K : Z := 0x1000.
Definition O_PD_K : Z := 0x2000.
Definition O_PT_K : Z := 0x3000.
Definition O_PDP_U : Z := 0x4000.
Definition O_PD_U : Z := 0x5000.
Definition O_PT_U : Z := 0x6000.
Definition O_PVCS : Z := 0x7000.
Definition O_CTRL : Z := 0x8000.
Definition O_SCODE : Z := 0x9000.
Definition O_EVENT : Z := 0xa000.
Definition O_UCODE : Z := 0xb000.
Definition O_USTACK : Z := 0xc000.
Definition O_MAPPED_PAGES : nat := 13.
Definition O_PML4_ALT : Z := 0xd000.
Definition O_PVCS2 : Z := 0xe000.

Definition MMIO_REPORT : Z := 0xd0000000.
Definition MMIO_EVENT : Z := 0xd0001000.

Definition UVA_BASE : Z := 0x40000000.
Definition UVA_CODE : Z := UVA_BASE + 0x0000.
Definition UVA_STACK_TOP : Z := UVA_BASE + 0x2000.
Definition UVA_MMIO : Z := UVA_BASE + 0x2000.

Definition CTRL_RIP : Z := 0x00.
Definition CTRL_EFLAGS : Z := 0x08.
Definition CTRL_SEL : Z := 0x0c.
Definition CTRL_PGD1 : Z := 0x10.
Definition CTRL_PGD2 : Z := 0x18.
Definition CTRL_PVCS : Z := 0x20.

Definition PTE_P : Z := Z.shiftl 1 0.
Definition PTE_RW : Z := Z.shiftl 1 1.
Definition PTE_US : Z := Z.shiftl 1 2.

Definition MARK_USER_EVENT : Z := 0xe7000000.
Definition MARK_SUPERVISOR_EVENT : Z := 0xe8000000.

Record guest := Guest {
  g_mem : mem; kva : Z; smodEntry : Z; retuRIP : Z; eventEntry : Z; pgtblVariant : bool }.
Definition set_mem (g : guest) (m : mem) : guest :=
  Guest m (kva g) (smodEntry g) (retuRIP g) (eventEntry g) (pgtblVariant g).
Definition set_entries (g : guest) (smod retu : Z) : guest :=
  Guest (g_mem g) (kva g) smod retu (eventEntry g) (pgtblVariant g).

(** ** The assembler *)
Record asmbuf := Asm { a_mem : mem; a_p : Z; a_va : Z }.

Definition emit (b : list Z) (a : asmbuf) : option asmbuf :=
  m ← put (a_p a) b (a_mem a);
  Some (Asm m (a_p a + Z.of_nat (length b)) (u64 (a_va a + Z.of_nat (length b)))).
Definition emitMovabs (reg imm : Z) (a : asmbuf) : option asmbuf :=
  emit ([0x48; u8 (0xb8 + reg)] ++ le 8 imm) a.

Definition GPR_RAX : Z := 0.
Definition GPR_RDX : Z := 2.
Definition GPR_RSP : Z := 4.
Definition GPR_RSI : Z := 6.
Definition GPR_RDI : Z := 7.

(** A routine at an offset of the guest's memory. *)
Definition asm_at (g : guest) (off va : Z) : asmbuf := Asm (g_mem g) off (u64 va).

(** ** The guest's routines *)
(** The copy of the control page into the PVCS, shared by both supervisor
    routines. *)
Definition emit_copy (a : asmbuf) : option asmbuf :=
  a ← emit [0x48; 0x8b; 0x46; CTRL_RIP] a;
  a ← emit [0x48; 0x89; 0x47; u8 PVCS_RIP] a;
  a ← emit [0x8b; 0x46; CTRL_EFLAGS] a;
  a ← emit [0x89; 0x47; u8 PVCS_EFLAGS] a;
  a ← emit [0x8b; 0x46; CTRL_SEL] a;
  emit [0x89; 0x47; u8 PVCS_USER_CS] a.

Definition buildSmodCode (g : guest) : option guest :=
  let a := asm_at g O_SCODE (kva g + O_SCODE) in
  let ctrl := u64 (kva g + O_CTRL) in
  let smod := a_va a in
  a ← emitMovabs GPR_RSP UVA_STACK_TOP a;
  a ← emitMovabs GPR_RSI ctrl a;
  a ← emit [0x48; 0x8b; 0x7e; CTRL_PVCS] a;
  a ← emit_copy a;
  let retu := a_va a in
  a ← emit [0x0f; 0x05] a;
  a ← emit [0x0f; 0x0b] a;
  Some (set_entries (set_mem g (a_mem a)) smod retu).

Definition emitLoadPgtbl (ctrl ctrlOff : Z) (a : asmbuf) : option asmbuf :=
  a ← emitMovabs GPR_RSI ctrl a;
  a ← emitMovabs GPR_RAX PVM_HC_LOAD_PGTBL a;
  a ← emit [0x31; 0xdb] a;
  a ← emit [0x4c; 0x8b; 0x56; ctrlOff] a;
  emit [0x0f; 0x05] a.

Definition buildPgtblSmodCode (g : guest) : option guest :=
  let a := asm_at g (O_SCODE + 0x200) (kva g + O_SCODE + 0x200) in
  let pvcs := u64 (kva g + O_PVCS) in
  let ctrl := u64 (kva g + O_CTRL) in
  let smod := a_va a in
  a ← emitLoadPgtbl ctrl CTRL_PGD1 a;
  a ← emitLoadPgtbl ctrl CTRL_PGD2 a;
  a ← emitMovabs GPR_RSP UVA_STACK_TOP a;
  a ← emitMovabs GPR_RDI pvcs a;
  a ← emitMovabs GPR_RSI ctrl a;
  a ← emit_copy a;
  let retu := a_va a in
  a ← emit [0x0f; 0x05] a;
  a ← emit [0x0f; 0x0b] a;
  Some (set_entries (set_mem g (a_mem a)) smod retu).

Definition buildUmodCode (g : guest) : option guest :=
  let a := asm_at g O_UCODE UVA_CODE in
  a ← emit [0x9c] a;
  a ← emit [0x58] a;
  a ← emitMovabs GPR_RDX UVA_MMIO a;
  a ← emit [0x89; 0x02] a;
  a ← emit [0x0f; 0x05] a;
  a ← emit [0x0f; 0x0b] a;
  Some (set_mem g (a_mem a)).

Definition UCODE_FAULT : Z := 0x100.
Definition FAULT_VA : Z := UVA_BASE + 0x3000.
Definition buildUmodFaultCode (g : guest) : option guest :=
  let a := asm_at g (O_UCODE + UCODE_FAULT) (UVA_CODE + UCODE_FAULT) in
  a ← emitMovabs GPR_RDX (FAULT_VA + 0x123) a;
  a ← emit [0x8a; 0x02] a;
  a ← emit [0x0f; 0x0b] a;
  Some (set_mem g (a_mem a)).

Definition UCODE_PATTERN : Z := 0x200.
Definition PATTERN_OFF : Z := 0x100.
Definition PATTERN_UVA : Z := UVA_BASE + 0x1000 + PATTERN_OFF.
Definition PATTERN_MAX : Z := 12.
Definition buildUmodPatternCode (g : guest) : option guest :=
  let a := asm_at g (O_UCODE + UCODE_PATTERN) (UVA_CODE + UCODE_PATTERN) in
  a ← emitMovabs GPR_RSI PATTERN_UVA a;
  a ← emit [0x48; 0x8b; 0x0e] a;
  a ← emit [0x48; 0x3b; 0x4e; PATTERN_MAX * 8 + 8] a;
  a ← emit [0x73; 0x0c] a;
  a ← emit [0x48; 0xff; 0x06] a;
  a ← emit [0x48; 0x8b; 0x54; 0xce; 0x08] a;
  a ← emit [0x8a; 0x02] a;
  a ← emit [0x0f; 0x0b] a;
  a ← emitMovabs GPR_RDX UVA_MMIO a;
  a ← emit [0x89; 0x0a] a;
  a ← emit [0x0f; 0x05] a;
  a ← emit [0x0f; 0x0b] a;
  Some (set_mem g (a_mem a)).

Definition CR2_PROBE : Z := 0x00007f0012345678.
(** The probe's entry point with the guest that has it. *)
Definition buildSmodProbeCode (g : guest) : option (Z * guest) :=
  let a := asm_at g (O_SCODE + 0x600) (kva g + O_SCODE + 0x600) in
  let entry := a_va a in
  a ← emit (0xb8 :: le 4 PVM_CPUID_FEATURES) a;
  a ← emit [0x31; 0xc9] a;
  a ← emit PVM_SYNTHETIC_CPUID a;
  a ← emitMovabs GPR_RDI (u64 (kva g + O_PVCS)) a;
  a ← emitMovabs GPR_RAX CR2_PROBE a;
  a ← emit [0x48; 0x89; 0x47; u8 PVCS_CR2] a;
  a ← emitMovabs GPR_RDX (u64 (kva g + 0x10000)) a;
  a ← emit [0x89; 0x1a] a;
  a ← emit [0xeb; 0xfe] a;
  Some (entry, set_mem g (a_mem a)).

Definition buildEventCode (off marker : Z) (g : guest) : option guest :=
  let a := asm_at g (O_EVENT + off) (kva g + O_EVENT + off) in
  a ← emitMovabs GPR_RDI (u64 (kva g + O_PVCS)) a;
  a ← emit [0x0f; 0xb7; 0x47; u8 PVCS_EVENT_VECTOR] a;
  a ← emit (0x0d :: le 4 marker) a;
  a ← emitMovabs GPR_RDX (u64 (kva g + 0x10000)) a;
  a ← emit [0x89; 0x02] a;
  a ← emit [0xeb; 0xfe] a;
  Some (set_mem g (a_mem a)).

(** ** The page tables *)
Definition putPTE (table index v : Z) (m : mem) : option mem := put (u64 (table + u64 (index * 8))) (le 8 v) m.
Definition ptIndex (va level : Z) : Z := Z.land (shr64 va (12 + 9 * (level - 1))) 0x1ff.

(** The kernel's 13 mapped pages. *)
Fixpoint map_pages (kva i : Z) (n : nat) (m : mem) : option mem :=
  match n with
  | O => Some m
  | S n =>
      m ← putPTE O_PT_K (u64 (ptIndex kva 1 + i))
            (Z.lor (Z.lor (u64 (GUEST_PHYS_BASE + u64 (i * 0x1000))) PTE_P) PTE_RW) m;
      map_pages kva (i + 1) n m
  end.
Definition table_pte (base_off : Z) (user : bool) : Z :=
  let v := Z.lor (Z.lor (GUEST_PHYS_BASE + base_off) PTE_P) PTE_RW in if user then Z.lor v PTE_US else v.
Definition buildPageTables (g : guest) : option guest :=
  let m := g_mem g in
  m ← putPTE O_PML4 (ptIndex (kva g) 4) (table_pte O_PDP_K false) m;
  m ← putPTE O_PDP_K (ptIndex (kva g) 3) (table_pte O_PD_K false) m;
  m ← putPTE O_PD_K (ptIndex (kva g) 2) (table_pte O_PT_K false) m;
  m ← map_pages (kva g) 0 O_MAPPED_PAGES m;
  m ← putPTE O_PT_K (ptIndex (u64 (kva g + O_PVCS2)) 1) (table_pte O_PVCS2 false) m;
  m ← putPTE O_PT_K (ptIndex (u64 (kva g + 0x10000)) 1) (Z.lor (Z.lor MMIO_EVENT PTE_P) PTE_RW) m;
  m ← putPTE O_PML4 (ptIndex UVA_BASE 4) (table_pte O_PDP_U true) m;
  m ← putPTE O_PDP_U (ptIndex UVA_BASE 3) (table_pte O_PD_U true) m;
  m ← putPTE O_PD_U (ptIndex UVA_BASE 2) (table_pte O_PT_U true) m;
  m ← putPTE O_PT_U (ptIndex UVA_CODE 1) (table_pte O_UCODE true) m;
  m ← putPTE O_PT_U (ptIndex (UVA_BASE + 0x1000) 1) (table_pte O_USTACK true) m;
  m ← putPTE O_PT_U (ptIndex UVA_MMIO 1) (Z.lor (Z.lor (Z.lor MMIO_REPORT PTE_P) PTE_RW) PTE_US) m;
  m ← putPTE O_PML4_ALT (ptIndex (kva g) 4) (table_pte O_PDP_K false) m;
  Some (set_mem g m).

(** ** The whole guest *)
Definition KVA_BASE : Z := Z.shiftl 1 46.
Definition MSR_LSTAR : Z := 0xc0000082.
Definition MSR_SYSCALL_MASK : Z := 0xc0000084.

Definition buildGuest (m : mem) (g : guest) : option guest :=
  let g := Guest (clear m) KVA_BASE (smodEntry g) (retuRIP g) (u64 (KVA_BASE + O_EVENT)) (pgtblVariant g) in
  g ← buildSmodCode g;
  g ← (if pgtblVariant g then buildPgtblSmodCode g else Some g);
  g ← buildUmodCode g;
  g ← buildUmodFaultCode g;
  g ← buildUmodPatternCode g;
  g ← buildEventCode 0 MARK_USER_EVENT g;
  g ← buildEventCode 512 MARK_SUPERVISOR_EVENT g;
  g ← buildPageTables g;
  m ← put (O_CTRL + CTRL_PVCS) (le 8 (u64 (kva g + O_PVCS))) (g_mem g);
  Some (set_mem g m).

(** ** The control page *)
Definition ctrlSet (rip eflags sel : Z) (g : guest) : option guest :=
  m ← put (O_CTRL + CTRL_RIP) (le 8 rip) (g_mem g);
  m ← put (O_CTRL + CTRL_EFLAGS) (le 4 eflags) m;
  m ← put (O_CTRL + CTRL_SEL) (le 4 sel) m;
  Some (set_mem g m).
Definition ctrlSetPgds (pgd1 pgd2 : Z) (g : guest) : option guest :=
  m ← put (O_CTRL + CTRL_PGD1) (le 8 pgd1) (g_mem g);
  m ← put (O_CTRL + CTRL_PGD2) (le 8 pgd2) m;
  Some (set_mem g m).

(** The fresh guest of a [var g guest], and the memory of a test VM. *)
Definition guest0 (pgtbl : bool) : guest := Guest (Mem 0 ∅) 0 0 0 0 pgtbl.
Definition vm_mem : mem := Mem GUEST_MEM_SIZE ∅.
Example built_entries :
  ((λ g, (smodEntry g, retuRIP g, eventEntry g)) <$> buildGuest vm_mem (guest0 false))
  = Some (0x400000009000, 0x40000000902c, 0x40000000a000)
  ∧ ((λ g, (smodEntry g, retuRIP g)) <$> buildGuest vm_mem (guest0 true)) = Some (0x400000009200, 0x40000000926a).
Proof. vm_compute. done. Qed.
