(* ===== verification/X86.v ===== *)
(** * The processor the guest code runs on

    No code of the repository: the part of the x86-64 architecture that gives
    the guest's bytes and page tables their meaning, so that theorems can say
    what the code of [Guest] does and not only which bytes it is.  Four-level
    address translation (accessed and dirty bits left out), the encodings the
    guest uses and their effect.  Everything else is [None]: a theorem that
    the code runs shows that it uses nothing else.  System calls, the
    synthetic CPUID and accesses to addresses without memory end a run of
    instructions: they leave the guest. *)
From stdpp Require Import zmap.
From S2P Require Import Prelude GoStrings Bits Abi Guest.

#[local] Open Scope Z_scope.

(** ** Address translation *)

(** A translation: physical address, and whether user mode may use it and
    whether it may be written. *)
Record translation := Tr { t_pa : Z; t_user : bool; t_write : bool }.

(** The 8-byte entry at a physical address; the guest's memory starts at
    [GUEST_PHYS_BASE]. *)
Definition entry_at (m : mem) (pa : Z) : Z := unle (bytes_at m (pa - GUEST_PHYS_BASE) 8).
Definition pte_addr (e : Z) : Z := e / 4096 mod 2 ^ 40 * 4096.
Definition va_index (va : Z) (level : nat) : Z := va / 2 ^ (12 + 9 * (Z.of_nat level - 1)) mod 512.

Fixpoint walk_level (level : nat) (m : mem) (table va : Z) : option translation :=
  match level with
  | O => Some (Tr (table + va mod 4096) true true)
  | S level' =>
      let e := entry_at m (table + 8 * va_index va level) in
      if negb (Z.testbit e 0) then None else
      t ← walk_level level' m (pte_addr e) va;
      Some (Tr (t_pa t) (t_user t && Z.testbit e 2) (t_write t && Z.testbit e 1))
  end.
Definition walk (m : mem) (cr3 va : Z) : option translation :=
  if (0 <=? va) && (va <? 2 ^ 48) then walk_level 4 m (pte_addr cr3) va else None.

(** ** Machine state *)
Record cpu := Cpu {
  regs : list Z;      (* rax rcx rdx rbx rsp rbp rsi rdi r8 .. r15 *)
  rip : Z;
  rflags : Z;
  user : bool;        (* user mode: only translations user mode may use *)
  cr3 : Z;
  cmem : mem }.

Inductive stop :=
| Syscall | Ud2 | Cpuid
| Mmio (pa : Z) (value : list Z)   (* a write to an address with no memory *)
| PageFault (va : Z).

(** What an instruction does: go on, or leave the guest (the state is that of
    the exit; for [Mmio] the instruction is done). *)
Inductive result := Next (c : cpu) | Stop (why : stop) (c : cpu).

Definition reg (c : cpu) (r : nat) : Z := default 0 (regs c !! r).
Definition set_reg (r : nat) (v : Z) (c : cpu) : cpu :=
  Cpu (<[r := v]> (regs c)) (rip c) (rflags c) (user c) (cr3 c) (cmem c).
Definition set_rip (v : Z) (c : cpu) : cpu := Cpu (regs c) v (rflags c) (user c) (cr3 c) (cmem c).
Definition set_rflags (v : Z) (c : cpu) : cpu := Cpu (regs c) (rip c) v (user c) (cr3 c) (cmem c).
Definition set_cmem (m : mem) (c : cpu) : cpu := Cpu (regs c) (rip c) (rflags c) (user c) (cr3 c) m.

(** The physical address an access goes to. *)
Definition translate (c : cpu) (va : Z) : option Z :=
  t ← walk (cmem c) (cr3 c) va; if user c && negb (t_user t) then None else Some (t_pa t).
Definition in_ram (m : mem) (pa : Z) (n : nat) : bool := fits m (pa - GUEST_PHYS_BASE) n.
(** Accesses stay inside a page. *)
Definition in_page (va : Z) (n : nat) : bool := va mod 4096 + Z.of_nat n <=? 4096.

Definition load (c : cpu) (va : Z) (n : nat) : option Z :=
  pa ← translate c va;
  if in_ram (cmem c) pa n && in_page va n then get n (pa - GUEST_PHYS_BASE) (cmem c) else None.
Definition store (c : cpu) (va : Z) (l : list Z) : option result :=
  match translate c va with
  | None => Some (Stop (PageFault va) c)
  | Some pa =>
      if negb (in_page va (length l)) then None else
      match put (pa - GUEST_PHYS_BASE) l (cmem c) with
      | Some m => Some (Next (set_cmem m c))
      | None => Some (Stop (Mmio pa l) c)
      end
  end.

(** ** Instructions *)
Record address := Addr { a_base : option nat; a_index : option (nat * Z); a_disp : Z }.
Inductive instr :=
| MovImm (r : nat) (v : Z)                    (* mov $v,%r: 64 bits are written *)
| Load (n : nat) (r : nat) (a : address)      (* mov mem,%r; 4 bytes clear the upper half *)
| LoadByte (r : nat) (a : address)            (* mov mem,%al and the like *)
| LoadZero16 (r : nat) (a : address)          (* movzwl *)
| Store (n : nat) (a : address) (r : nat)
| CmpMem (r : nat) (a : address)              (* cmp mem,%r, 64 bits *)
| IncMem (a : address)                        (* incq *)
| XorReg (r r' : nat)                         (* 32 bits *)
| OrEax (v : Z)
| Jae (d : Z) | Jmp (d : Z)
| Pushfq | Pop (r : nat)
| Invlpg (a : address)
| ISyscall | IUd2 | ICpuid.

Definition s8 (b : Z) : Z := if b <? 128 then b else b - 256.
Definition s32 (v : Z) : Z := if v <? 2 ^ 31 then v else v - 2 ^ 32.

(** ModRM and SIB: the register field and the memory operand, with the bytes
    left.  [rr], [rx], [rb] are 8 when the REX prefix extends the field. *)
Definition memory_operand (rx rb : Z) (l : list Z) : option (Z * address * list Z) :=
  match l with
  | [] => None
  | modrm :: l =>
      let mod_ := modrm / 64 in let r := modrm / 8 mod 8 in let rm := modrm mod 8 in
      if mod_ =? 3 then None else
      '(base, index, l) ← (if rm =? 4 then
          match l with
          | [] => None
          | sib :: l =>
              let sc := sib / 64 in let ix := sib / 8 mod 8 + rx in let b := sib mod 8 in
              let index := if ix =? 4 then None else Some (Z.to_nat ix, 2 ^ sc) in
              Some (if (mod_ =? 0) && (b =? 5) then None else Some (Z.to_nat (b + rb)), index, l)
          end
        else if (mod_ =? 0) && (rm =? 5) then None
        else Some (Some (Z.to_nat (rm + rb)), None, l));
      if mod_ =? 0 then
        match base, l with
        | Some _, _ => Some (r, Addr base index 0, l)
        | None, d0 :: d1 :: d2 :: d3 :: l => Some (r, Addr None index (s32 (unle [d0; d1; d2; d3])), l)
        | None, _ => None
        end
      else if mod_ =? 1 then
        match l with d :: l => Some (r, Addr base index (s8 d), l) | [] => None end
      else None
  end.

(** The instruction at the head of the bytes, and the bytes after it. *)
Definition decode_op (rexw : bool) (rr rx rb : Z) (l : list Z) : option (instr * list Z) :=
  match l with
  | 0x0f :: 0x05 :: l => Some (ISyscall, l)
  | 0x0f :: 0x0b :: l => Some (IUd2, l)
  | 0x0f :: 0xa2 :: l => Some (ICpuid, l)
  | 0x0f :: 0x01 :: l =>
      '(r, a, l) ← memory_operand rx rb l; if r =? 7 then Some (Invlpg a, l) else None
  | 0x0f :: 0xb7 :: l => '(r, a, l) ← memory_operand rx rb l; Some (LoadZero16 (Z.to_nat (r + rr)) a, l)
  | 0x0d :: b0 :: b1 :: b2 :: b3 :: l => if rexw then None else Some (OrEax (unle [b0; b1; b2; b3]), l)
  | 0x31 :: modrm :: l =>
      if (modrm / 64 =? 3) && negb rexw then
        Some (XorReg (Z.to_nat (modrm mod 8 + rb)) (Z.to_nat (modrm / 8 mod 8 + rr)), l)
      else None
  | 0x3b :: l =>
      '(r, a, l) ← memory_operand rx rb l; if rexw then Some (CmpMem (Z.to_nat (r + rr)) a, l) else None
  | 0x73 :: d :: l => Some (Jae (s8 d), l)
  | 0xeb :: d :: l => Some (Jmp (s8 d), l)
  | 0x89 :: l =>
      '(r, a, l) ← memory_operand rx rb l; Some (Store (if rexw then 8 else 4) a (Z.to_nat (r + rr)), l)
  | 0x8a :: l =>
      '(r, a, l) ← memory_operand rx rb l;
      if (r + rr <? 4) && negb rexw then Some (LoadByte (Z.to_nat (r + rr)) a, l) else None
  | 0x8b :: l =>
      '(r, a, l) ← memory_operand rx rb l; Some (Load (if rexw then 8 else 4) (Z.to_nat (r + rr)) a, l)
  | 0x9c :: l => Some (Pushfq, l)
  | 0xff :: l =>
      '(r, a, l) ← memory_operand rx rb l; if rexw && (r =? 0) then Some (IncMem a, l) else None
  | op :: l =>
      if (0x58 <=? op) && (op <=? 0x5f) then Some (Pop (Z.to_nat (op - 0x58 + rb)), l) else
      if (0xb8 <=? op) && (op <=? 0xbf) then
        let n := if rexw then 8%nat else 4%nat in
        if (n <=? length l)%nat then Some (MovImm (Z.to_nat (op - 0xb8 + rb)) (unle (take n l)), drop n l) else None
      else None
  | [] => None
  end.
Definition decode (l : list Z) : option (instr * list Z) :=
  match l with
  | p :: l' =>
      if (0x40 <=? p) && (p <=? 0x4f) then
        decode_op (Z.testbit p 3) (if Z.testbit p 2 then 8 else 0) (if Z.testbit p 1 then 8 else 0)
          (if Z.testbit p 0 then 8 else 0) l'
      else decode_op false 0 0 0 l
  | [] => None
  end.

(** ** Execution *)
Definition effective (c : cpu) (a : address) : Z :=
  u64 (match a_base a with Some r => reg c r | None => 0 end +
       match a_index a with Some (r, s) => reg c r * s | None => 0 end + a_disp a).

(** The status flags of RFLAGS: CF 0, PF 2, AF 4, ZF 6, SF 7, OF 11. *)
Fixpoint ones (n : nat) (v : Z) : Z := match n with O => 0 | S n => v mod 2 + ones n (v / 2) end.
Definition status_flags (w : Z) (cf af ov : bool) (res old : Z) : Z :=
  Z.lor (Z.land old (Z.lnot 0x8d5))
    (Z.b2z cf + 4 * Z.b2z (ones 8 res mod 2 =? 0) + 16 * Z.b2z af + 64 * Z.b2z (res =? 0)
     + 128 * Z.b2z (Z.testbit res (w - 1)) + 2048 * Z.b2z ov).
Definition CF (rf : Z) : bool := Z.testbit rf 0.
Definition signed64 (v : Z) : Z := i64 v.

Definition exec (i : instr) (c : cpu) : option result :=
  match i with
  | MovImm r v => Some (Next (set_reg r v c))
  | Load n r a =>
      match load c (effective c a) n with
      | Some v => Some (Next (set_reg r v c))
      | None => match translate c (effective c a) with None => Some (Stop (PageFault (effective c a)) c) | _ => None end
      end
  | LoadByte r a =>
      match load c (effective c a) 1 with
      | Some v => Some (Next (set_reg r (reg c r / 256 * 256 + v) c))
      | None => match translate c (effective c a) with None => Some (Stop (PageFault (effective c a)) c) | _ => None end
      end
  | LoadZero16 r a =>
      match load c (effective c a) 2 with
      | Some v => Some (Next (set_reg r v c))
      | None => match translate c (effective c a) with None => Some (Stop (PageFault (effective c a)) c) | _ => None end
      end
  | Store n a r => store c (effective c a) (le n (reg c r))
  | CmpMem r a =>
      v ← load c (effective c a) 8;
      let x := reg c r in
      let d := u64 (x - v) in
      Some (Next (set_rflags (status_flags 64 (x <? v) (x mod 16 <? v mod 16)
        (negb (signed64 x - signed64 v =? signed64 d)) d (rflags c)) c))
  | IncMem a =>
      v ← load c (effective c a) 8;
      let d := u64 (v + 1) in
      r ← store c (effective c a) (le 8 d);
      match r with
      | Next c => Some (Next (set_rflags (status_flags 64 (CF (rflags c)) (v mod 16 =? 15)
          (v =? 2 ^ 63 - 1) d (rflags c)) c))
      | r => Some r
      end
  | XorReg r r' =>
      let d := u32 (Z.lxor (reg c r) (reg c r')) in
      Some (Next (set_rflags (status_flags 32 false false false d (rflags c)) (set_reg r d c)))
  | OrEax v =>
      let d := u32 (Z.lor (reg c 0) v) in
      Some (Next (set_rflags (status_flags 32 false false false d (rflags c)) (set_reg 0 d c)))
  | Jae d => Some (Next (if CF (rflags c) then c else set_rip (u64 (rip c + d)) c))
  | Jmp d => Some (Next (set_rip (u64 (rip c + d)) c))
  | Pushfq =>
      let sp := u64 (reg c 4 - 8) in
      r ← store c sp (le 8 (Z.land (rflags c) 0xfcffff));
      match r with Next c => Some (Next (set_reg 4 sp c)) | r => Some r end
  | Pop r =>
      v ← load c (reg c 4) 8;
      Some (Next (set_reg r v (set_reg 4 (u64 (reg c 4 + 8)) c)))
  | Invlpg _ => Some (Next c)
  | ISyscall => Some (Stop Syscall c)
  | IUd2 => Some (Stop Ud2 c)
  | ICpuid => Some (Stop Cpuid c)
  end.

(** The bytes at [rip]: up to 15, as far as the page goes. *)
Definition fetch (c : cpu) : option (list Z) :=
  pa ← translate c (rip c);
  let n := Z.to_nat (Z.min 15 (4096 - rip c mod 4096)) in
  if in_ram (cmem c) pa n then Some (bytes_at (cmem c) (pa - GUEST_PHYS_BASE) n) else None.
(** One instruction; [rip] is already past it when it takes effect.  An
    instruction that faults leaves [rip] where it was. *)
Definition step (c : cpu) : option result :=
  l ← fetch c;
  '(i, rest) ← decode l;
  let next := set_rip (u64 (rip c + Z.of_nat (length l - length rest))) c in
  r ← exec i next;
  match r with
  | Stop (PageFault va) c' => Some (Stop (PageFault va) (set_rip (rip c) c'))
  | r => Some r
  end.

(** Instructions until the guest is left. *)
Fixpoint run (fuel : nat) (c : cpu) : option (stop * cpu) :=
  match fuel with
  | O => None
  | S fuel =>
      match step c with
      | None => None
      | Some (Stop w c) => Some (w, c)
      | Some (Next c) => run fuel c
      end
  end.
