(* ===== verification/GuestMaps.v ===== *)
(** * The guest's memory and page tables

    Building the guest takes the same bytes whatever the length of the memory,
    as long as they fit; the page tables map exactly the pages the guest is
    meant to have, the kernel's without and the user's with the user bit. *)
From stdpp Require Import zmap.
From S2P Require Import Prelude GoStrings Bits Abi Guest X86.

#[local] Open Scope Z_scope.

(** ** More memory changes nothing *)

(** States that hold the guest's memory. *)
Class Sized (S : Type) := { len_of : S → Z; grow_to : Z → S → S }.
#[export] Instance mem_sized : Sized mem := {| len_of := m_len; grow_to l m := Mem l (m_data m) |}.
#[export] Instance asm_sized : Sized asmbuf :=
  {| len_of a := len_of (a_mem a); grow_to l a := Asm (grow_to l (a_mem a)) (a_p a) (a_va a) |}.
#[export] Instance guest_sized : Sized guest :=
  {| len_of g := len_of (g_mem g); grow_to l g := set_mem g (grow_to l (g_mem g)) |}.

(** A step that keeps the length and does the same in a longer memory. *)
Definition grows {S} `{Sized S} (f : S → option S) : Prop := ∀ l s s',
  f s = Some s' → len_of s <= l → f (grow_to l s) = Some (grow_to l s') ∧ len_of s' = len_of s.
Create HintDb grow.

Lemma put_some off b m m' :
  put off b m = Some m' ↔
  0 <= off ∧ off + Z.of_nat (length b) <= m_len m ∧ m' = Mem (m_len m) (store_bytes (m_data m) off b).
Proof.
  unfold put, fits. split.
  - case_match; [|done]. bool_prop. naive_solver.
  - intros (?&?&->). rewrite (proj2 (Z.leb_le _ _)), (proj2 (Z.leb_le _ _)) by done. done.
Qed.
Lemma put_grows off b : grows (put off b).
Proof. intros l m m'. rewrite !put_some. cbn. intros (?&?&->) ?. split_and!; done || lia. Qed.

Lemma bind_step {A B} (o : option A) x (k : A → option B) r (P : Prop) :
  o = Some x → k x = r ∧ P → o ≫= k = r ∧ P.
Proof. by intros ->. Qed.

(** Take the first step of a chain, and replay it with memory of length [l]. *)
Ltac replay l :=
  match goal with
  | H : (?f ?s ≫= _) = Some _ |- _ =>
      let x := fresh "s" in let E := fresh "E" in let L := fresh "L" in
      let G := fresh "G" in
      assert (G : grows f) by eauto with grow;
      apply bind_Some in H as (x & E & H);
      destruct (G l _ _ E ltac:(cbn in *; lia)) as [? L]; clear G;
      eapply bind_step; [eassumption|]; clear E; cbv beta in H |- *
  end.
Ltac grows_tac f :=
  let l := fresh "l" in let s := fresh "s" in let s' := fresh "s'" in
  let H := fresh "H" in let Hl := fresh "Hl" in
  intros l s s' H Hl; unfold f in *; repeat replay l;
  first [injection H as <-; cbn in *; split; [reflexivity|lia]
        |match type of H with ?f ?x = Some _ =>
           let G := fresh "G" in assert (G : grows f) by eauto with grow;
           destruct (G l _ _ H ltac:(cbn in *; lia)); split; [assumption|cbn in *; lia] end].

Lemma emit_grows b : grows (emit b).
Proof.
  intros l a a' H Hl. unfold emit in *. apply bind_Some in H as (m&Hp&[= <-]).
  destruct (put_grows _ _ l _ _ Hp Hl) as [Hg Hlen]. cbn in *. by rewrite Hg.
Qed.
#[export] Hint Resolve put_grows emit_grows : grow.
Lemma emitMovabs_grows r v : grows (emitMovabs r v).
Proof. apply emit_grows. Qed.
Lemma putPTE_grows t i v : grows (putPTE t i v).
Proof. apply put_grows. Qed.
#[export] Hint Resolve emitMovabs_grows putPTE_grows : grow.
Lemma emit_copy_grows : grows emit_copy.
Proof. grows_tac emit_copy. Qed.

#[export] Hint Resolve emit_copy_grows : grow.
Lemma emitLoadPgtbl_grows ctrl o : grows (emitLoadPgtbl ctrl o).
Proof. grows_tac emitLoadPgtbl. Qed.
#[export] Hint Resolve emitLoadPgtbl_grows : grow.
Lemma buildSmodCode_grows : grows buildSmodCode.
Proof. grows_tac buildSmodCode. Qed.
Lemma buildPgtblSmodCode_grows : grows buildPgtblSmodCode.
Proof. grows_tac buildPgtblSmodCode. Qed.
Lemma buildUmodCode_grows : grows buildUmodCode.
Proof. grows_tac buildUmodCode. Qed.
Lemma buildUmodFaultCode_grows : grows buildUmodFaultCode.
Proof. grows_tac buildUmodFaultCode. Qed.
Lemma buildUmodPatternCode_grows : grows buildUmodPatternCode.
Proof. grows_tac buildUmodPatternCode. Qed.
Lemma buildEventCode_grows off marker : grows (buildEventCode off marker).
Proof. grows_tac buildEventCode. Qed.
Lemma map_pages_grows k i n : grows (map_pages k i n).
Proof.
  revert i. induction n as [|n IH]; intros i; [intros l s s' [= <-] Hl; done|].
  assert (grows (λ m, putPTE O_PT_K (u64 (ptIndex k 1 + i))
     (Z.lor (Z.lor (u64 (GUEST_PHYS_BASE + u64 (i * 0x1000))) PTE_P) PTE_RW) m ≫= map_pages k (i + 1) n)); [|done].
  specialize (IH (i + 1)). intros l s s' H Hl. replay l.
  destruct (IH l _ _ H ltac:(cbn in *; lia)). split; [done|cbn in *; lia].
Qed.
#[export] Hint Resolve map_pages_grows : grow.
Lemma buildPageTables_grows : grows buildPageTables.
Proof. grows_tac buildPageTables. Qed.
Lemma set_ctrl_grows : grows (λ g, m ← put (O_CTRL + CTRL_PVCS) (le 8 (u64 (kva g + O_PVCS))) (g_mem g); Some (set_mem g m)).
Proof.
  intros l g g' H Hl. cbv beta in *. replay l. injection H as <-. cbn in *. split; [done|lia].
Qed.
#[export] Hint Resolve buildSmodCode_grows buildUmodCode_grows buildUmodFaultCode_grows
  buildUmodPatternCode_grows buildEventCode_grows buildPageTables_grows : grow.

(** [buildGuest] as a chain of steps on the guest. *)
Definition variant_step (g : guest) : option guest :=
  if pgtblVariant g then buildPgtblSmodCode g else Some g.
Definition start_guest (m : mem) (g : guest) : guest :=
  Guest (clear m) KVA_BASE (smodEntry g) (retuRIP g) (u64 (KVA_BASE + O_EVENT)) (pgtblVariant g).
Definition build_steps (g : guest) : option guest :=
  g ← buildSmodCode g; g ← variant_step g; g ← buildUmodCode g; g ← buildUmodFaultCode g;
  g ← buildUmodPatternCode g; g ← buildEventCode 0 MARK_USER_EVENT g;
  g ← buildEventCode 512 MARK_SUPERVISOR_EVENT g; g ← buildPageTables g;
  (λ g, m ← put (O_CTRL + CTRL_PVCS) (le 8 (u64 (kva g + O_PVCS))) (g_mem g); Some (set_mem g m)) g.
Lemma buildGuest_steps m g : buildGuest m g = build_steps (start_guest m g).
Proof. reflexivity. Qed.
Lemma variant_grows : grows variant_step.
Proof.
  intros l s s' H Hl. unfold variant_step in *. cbn in *. destruct (pgtblVariant s); [by apply buildPgtblSmodCode_grows|].
  by injection H as <-.
Qed.
#[export] Hint Resolve variant_grows set_ctrl_grows : grow.
Lemma build_grows : grows build_steps.
Proof. grows_tac build_steps. Qed.

(** ** What is built, and for which memories *)
Definition guest_end : Z := 0xd408.
Definition image (pv : bool) : Zmap Z :=
  match buildGuest (Mem guest_end ∅) (guest0 pv) with Some g => m_data (g_mem g) | None => ∅ end.
Definition built (len : Z) (pv : bool) : guest :=
  Guest (Mem len (image pv)) KVA_BASE (KVA_BASE + O_SCODE + if pv then 0x200 else 0)
    (KVA_BASE + O_SCODE + if pv then 0x26a else 0x2c) (KVA_BASE + O_EVENT) pv.

Lemma build_exact d g : buildGuest (Mem guest_end d) g = Some (built guest_end (pgtblVariant g)).
Proof. destruct g as [m k se re ev []]; vm_compute; reflexivity. Qed.
Lemma build_short d g : buildGuest (Mem (guest_end - 1) d) g = None.
Proof. destruct g as [m k se re ev []]; vm_compute; reflexivity. Qed.

Lemma buildGuest_eq m g :
  buildGuest m g = if guest_end <=? m_len m then Some (built (m_len m) (pgtblVariant g)) else None.
Proof.
  rewrite buildGuest_steps. destruct (Z.leb_spec guest_end (m_len m)) as [Hl|Hl].
  - pose proof (build_exact (m_data m) g) as H. rewrite buildGuest_steps in H.
    destruct (build_grows (m_len m) _ _ H Hl) as [H' _]. destruct m. exact H'.
  - destruct (build_steps (start_guest m g)) as [g'|] eqn:H; [|done]. exfalso.
    destruct (build_grows (guest_end - 1) _ _ H) as [H' _]; [cbn; lia|].
    pose proof (build_short (m_data m) g) as H2. rewrite buildGuest_steps in H2.
    destruct m. pose proof (eq_trans (eq_sym H') H2). done.
Qed.

(** C40: building the guest stays inside its memory: with 0xd408 bytes or more
    it succeeds and gives the same code, tables and entry points whatever the
    length, what was in the memory and what the guest held before; with fewer
    it panics. *)
Theorem buildGuest_bounds m g :
  buildGuest m g = if guest_end <=? m_len m then Some (built (m_len m) (pgtblVariant g)) else None.
Proof. apply buildGuest_eq. Qed.
Lemma buildGuest_bounds_witness :
  guest_end <= GUEST_MEM_SIZE ∧ buildGuest vm_mem (guest0 true) = Some (built GUEST_MEM_SIZE true)
  ∧ buildGuest (Mem 0xd400 ∅) (guest0 false) = None.
Proof.
  split; [done|split]; [exact (buildGuest_bounds vm_mem (guest0 true))|exact (buildGuest_bounds (Mem 0xd400 ∅) (guest0 false))].
Defined.

(** ** The page tables *)

(** Memory in which the eight page tables are as built: what the guest and the
    harness may do to the other pages does not matter. *)
Definition table_byte (a : Z) : Prop := 0 <= a < 0x7000 ∨ 0xd000 <= a < 0xe000.
Definition byte_of (d : Zmap Z) (a : Z) : Z := default 0 (d !! a).
Definition tables_of (m : mem) : Prop := ∀ a, table_byte a → byte_at m a = byte_of (image false) a.

Definition table_offsets : list Z := [O_PML4; O_PDP_K; O_PD_K; O_PT_K; O_PDP_U; O_PD_U; O_PT_U; O_PML4_ALT].
(** The entries that are set: a table, an index and the entry. *)
Definition entries_set : list (Z * Z * Z) :=
  [(O_PML4, 0, 0x104007); (O_PML4, 128, 0x101003); (O_PDP_K, 0, 0x102003); (O_PD_K, 0, 0x103003)] ++
  ((λ i : nat, (O_PT_K, Z.of_nat i, 0x100003 + Z.of_nat i * 0x1000)) <$> seq 0 13) ++
  [(O_PT_K, 14, 0x10e003); (O_PT_K, 16, 0xd0001003); (O_PDP_U, 1, 0x105007); (O_PD_U, 0, 0x106007);
   (O_PT_U, 0, 0x10b007); (O_PT_U, 1, 0x10c007); (O_PT_U, 2, 0xd0000007); (O_PML4_ALT, 128, 0x101003)].
Definition spec_entry (t i : Z) : Z :=
  match List.find (λ e, (e.1.1 =? t) && (e.1.2 =? i)) entries_set with Some e => e.2 | None => 0 end.

Definition entry_of (d : Zmap Z) (t i : Z) : Z :=
  unle ((λ j : nat, byte_of d (t + 8 * i + Z.of_nat j)) <$> seq 0 8).
Fixpoint zseq (a : Z) (n : nat) : list Z := match n with O => [] | S n => a :: zseq (a + 1) n end.
Lemma elem_of_zseq x a n : x ∈ zseq a n ↔ a <= x < a + Z.of_nat n.
Proof.
  revert a. induction n as [|n IH]; intros a; cbn [zseq].
  - rewrite elem_of_nil. lia.
  - rewrite elem_of_cons, IH. lia.
Qed.
Lemma forallb_zseq (f : Z → bool) a n x :
  forallb f (zseq a n) = true → a <= x < a + Z.of_nat n → f x = true.
Proof.
  intros H Hx. rewrite List.forallb_forall in H. apply H. by rewrite <- list_elem_of_In, elem_of_zseq.
Qed.

Lemma entries_built :
  (let d := image false in
   forallb (λ t, forallb (λ i, entry_of d t i =? spec_entry t i) (zseq 0 512)) table_offsets) = true.
Proof. vm_compute. reflexivity. Qed.
Lemma tables_same :
  (let d := image true in let d' := image false in
   forallb (λ a, byte_of d a =? byte_of d' a) (zseq 0 (Z.to_nat 0x7000))
   && forallb (λ a, byte_of d a =? byte_of d' a) (zseq 0xd000 (Z.to_nat 0x1000))) = true.
Proof. vm_compute. reflexivity. Qed.

Lemma built_tables len pv : tables_of (g_mem (built len pv)).
Proof.
  intros a Ha. unfold byte_at. cbn. destruct pv; [|done].
  pose proof tables_same as H. cbv zeta in H. apply andb_prop in H as [H1 H2].
  apply Z.eqb_eq. destruct Ha as [Ha|Ha].
  - apply (forallb_zseq _ _ _ a H1). lia.
  - apply (forallb_zseq _ _ _ a H2). lia.
Qed.

Lemma entry_spec m t i : tables_of m → t ∈ table_offsets → 0 <= i < 512 →
  entry_at m (GUEST_PHYS_BASE + t + 8 * i) = spec_entry t i.
Proof.
  intros Hm Ht Hi. pose proof entries_built as H. cbv zeta in H.
  rewrite List.forallb_forall in H. specialize (H t). rewrite <- list_elem_of_In in H.
  pose proof (forallb_zseq _ _ _ i (H Ht)) as Hb. cbv beta in Hb. rewrite Z.eqb_eq in Hb. rewrite <- Hb by lia.
  unfold entry_at, entry_of, bytes_at. f_equal. apply list_fmap_ext. intros j x Hj.
  apply lookup_seq in Hj as [-> Hj].
  replace (GUEST_PHYS_BASE + t + 8 * i - GUEST_PHYS_BASE) with (t + 8 * i) by lia.
  apply Hm. unfold table_byte. clear -Ht Hi Hj. unfold table_offsets in Ht.
  rewrite !elem_of_cons, elem_of_nil in Ht.
  unfold O_PML4, O_PDP_K, O_PD_K, O_PT_K, O_PDP_U, O_PD_U, O_PT_U, O_PML4_ALT in Ht. lia.
Qed.

(** The entries of each table, for any index. *)
Definition pt_k (i : Z) : Z :=
  if (0 <=? i) && (i <? 13) then 0x100003 + i * 4096 else
  if i =? 14 then 0x10e003 else if i =? 16 then 0xd0001003 else 0.
Definition pml4 (i : Z) : Z := if i =? 0 then 0x104007 else if i =? 128 then 0x101003 else 0.
Definition pml4_alt (i : Z) : Z := if i =? 128 then 0x101003 else 0.
Definition one_entry (k e i : Z) : Z := if i =? k then e else 0.
Definition pt_u (i : Z) : Z :=
  if i =? 0 then 0x10b007 else if i =? 1 then 0x10c007 else if i =? 2 then 0xd0000007 else 0.
Definition entry_funs : list (Z * (Z → Z)) :=
  [(O_PML4, pml4); (O_PDP_K, one_entry 0 0x102003); (O_PD_K, one_entry 0 0x103003); (O_PT_K, pt_k);
   (O_PDP_U, one_entry 1 0x105007); (O_PD_U, one_entry 0 0x106007); (O_PT_U, pt_u); (O_PML4_ALT, pml4_alt)].
Lemma table_entry m t f i : tables_of m → (t, f) ∈ entry_funs → 0 <= i < 512 →
  entry_at m (GUEST_PHYS_BASE + t + 8 * i) = f i.
Proof.
  intros Hm Ht Hi. rewrite entry_spec; [|done| |done].
  - assert (forallb (λ tf, forallb (λ i, spec_entry tf.1 i =? tf.2 i) (zseq 0 512)) entry_funs = true) as H
      by (vm_compute; reflexivity).
    rewrite List.forallb_forall in H. apply Z.eqb_eq.
    apply (forallb_zseq (λ i, spec_entry t i =? f i) 0 512); [|lia]. apply (H (t, f)).
    by apply list_elem_of_In.
  - apply (list_elem_of_fmap_2 fst) in Ht. exact Ht.
Qed.

(** ** What the tables map *)
Definition kernel_map (va : Z) : option translation :=
  let k := va / 4096 - KVA_BASE / 4096 in
  let to pa := Some (Tr (pa + va mod 4096) false true) in
  if (0 <=? k) && (k <? 13) then to (GUEST_PHYS_BASE + k * 4096) else
  if k =? 14 then to (GUEST_PHYS_BASE + O_PVCS2) else
  if k =? 16 then to MMIO_EVENT else None.
Definition user_map (va : Z) : option translation :=
  let u := va / 4096 - UVA_BASE / 4096 in
  let to pa := Some (Tr (pa + va mod 4096) true true) in
  if u =? 0 then to (GUEST_PHYS_BASE + O_UCODE) else
  if u =? 1 then to (GUEST_PHYS_BASE + O_USTACK) else
  if u =? 2 then to MMIO_REPORT else None.
Definition guest_map (va : Z) : option translation :=
  match kernel_map va with Some t => Some t | None => user_map va end.

Lemma va_split va : 0 <= va < 2 ^ 48 →
  va / 4096 = va_index va 1 + 512 * (va_index va 2 + 512 * (va_index va 3 + 512 * va_index va 4)) ∧
  ∀ l, 0 <= va_index va l < 512.
Proof.
  intros Hva. split; [|intros; unfold va_index; apply Z.mod_pos_bound; lia].
  unfold va_index.
  change (2 ^ (12 + 9 * (Z.of_nat 1 - 1))) with 4096. change (2 ^ (12 + 9 * (Z.of_nat 2 - 1))) with (4096 * 512).
  change (2 ^ (12 + 9 * (Z.of_nat 3 - 1))) with (4096 * 512 * 512).
  change (2 ^ (12 + 9 * (Z.of_nat 4 - 1))) with (4096 * 512 * 512 * 512). change (2 ^ 48) with (4096 * 512 * 512 * 512 * 512) in Hva.
  rewrite <- !Z.div_div by lia.
  set (p := va / 4096). assert (0 <= p < 512 * 512 * 512 * 512) by (subst p; Z.div_mod_to_equations; lia).
  set (q := p / 512). set (r := q / 512). set (s := r / 512).
  assert (0 <= s < 512) by (subst s r q; Z.div_mod_to_equations; lia).
  rewrite (Z.mod_small s) by lia.
  pose proof (Z.div_mod p 512). pose proof (Z.div_mod q 512). pose proof (Z.div_mod r 512). lia.
Qed.

(** One level of the walk, at a table of the guest. *)
Lemma walk_step m t f l va : tables_of m → (t, f) ∈ entry_funs → 0 <= va_index va (S l) < 512 →
  walk_level (S l) m (GUEST_PHYS_BASE + t) va =
    (let e := f (va_index va (S l)) in
     if negb (Z.testbit e 0) then None else
     r ← walk_level l m (pte_addr e) va;
     Some (Tr (t_pa r) (t_user r && Z.testbit e 2) (t_write r && Z.testbit e 1))).
Proof. intros Hm Ht Hi. cbn [walk_level]. by rewrite (table_entry m t f). Qed.

Ltac in_tables := unfold entry_funs; set_solver.

(** The last level: what an entry of a page table stands for. *)
Definition leaf (e : Z) : option (Z * bool * bool) :=
  if Z.testbit e 0 then Some (pte_addr e, Z.testbit e 2, Z.testbit e 1) else None.
Definition leaf_tr (va : Z) (x : Z * bool * bool) : translation := Tr (x.1.1 + va mod 4096) x.1.2 x.2.
Lemma walk_leaf m t f va : tables_of m → (t, f) ∈ entry_funs → 0 <= va_index va 1 < 512 →
  walk_level 1 m (GUEST_PHYS_BASE + t) va = leaf_tr va <$> leaf (f (va_index va 1)).
Proof.
  intros Hm Ht Hi. rewrite (walk_step m t f 0 va) by assumption. cbv zeta. unfold leaf.
  destruct (Z.testbit (f (va_index va 1)) 0); done.
Qed.
Definition leaf_k (i : Z) : option (Z * bool * bool) :=
  if (0 <=? i) && (i <? 13) then Some (GUEST_PHYS_BASE + i * 4096, false, true) else
  if i =? 14 then Some (GUEST_PHYS_BASE + O_PVCS2, false, true) else
  if i =? 16 then Some (MMIO_EVENT, false, true) else None.
Definition leaf_u (i : Z) : option (Z * bool * bool) :=
  if i =? 0 then Some (GUEST_PHYS_BASE + O_UCODE, true, true) else
  if i =? 1 then Some (GUEST_PHYS_BASE + O_USTACK, true, true) else
  if i =? 2 then Some (MMIO_REPORT, true, true) else None.
Lemma leaf_pt_k i : 0 <= i < 512 → leaf (pt_k i) = leaf_k i.
Proof.
  intros Hi. eapply bool_decide_eq_true_1.
  refine (forallb_zseq (λ i, bool_decide (leaf (pt_k i) = leaf_k i)) 0 512 i _ _); [vm_compute; reflexivity|lia].
Qed.
Lemma leaf_pt_u i : leaf (pt_u i) = leaf_u i.
Proof.
  unfold pt_u, leaf_u. destruct (i =? 0); [done|]. destruct (i =? 1); [done|]. by destruct (i =? 2).
Qed.

(** The levels above leave what the last one allows: every entry of a table
    has the write bit, those on the user's way the user bit. *)
Lemma through_k va i b :
  (t ← leaf_tr va <$> leaf_k i; Some (Tr (t_pa t) (t_user t && b) (t_write t && true))) = leaf_tr va <$> leaf_k i.
Proof.
  unfold leaf_k. destruct ((0 <=? i) && (i <? 13)); [done|].
  destruct (i =? 14); [done|]. by destruct (i =? 16).
Qed.
Lemma through_u va i :
  (t ← leaf_tr va <$> leaf_u i; Some (Tr (t_pa t) (t_user t && true) (t_write t && true))) = leaf_tr va <$> leaf_u i.
Proof.
  unfold leaf_u. destruct (i =? 0); [done|]. destruct (i =? 1); [done|]. by destruct (i =? 2).
Qed.

(** Three levels with one entry each. *)
Ltac level t f :=
  rewrite (walk_step _ t f) by (assumption || solve [auto] || in_tables); cbv zeta; unfold one_entry, pml4, pml4_alt.

Lemma walk_kernel m va : tables_of m → (∀ l, 0 <= va_index va l < 512) →
  walk_level 3 m (GUEST_PHYS_BASE + O_PDP_K) va =
    if (va_index va 3 =? 0) && (va_index va 2 =? 0) then leaf_tr va <$> leaf_k (va_index va 1) else None.
Proof.
  intros Hm Hi. level O_PDP_K (one_entry 0 0x102003).
  destruct (Z.eqb_spec (va_index va 3) 0) as [_|_]; [|done].
  change (pte_addr 0x102003) with (GUEST_PHYS_BASE + O_PD_K). level O_PD_K (one_entry 0 0x103003).
  destruct (Z.eqb_spec (va_index va 2) 0) as [_|_]; [|done].
  change (pte_addr 0x103003) with (GUEST_PHYS_BASE + O_PT_K).
  rewrite (walk_leaf _ O_PT_K pt_k) by (assumption || solve [auto] || in_tables). rewrite leaf_pt_k by auto.
  cbn -[leaf_k]. by rewrite !through_k.
Qed.
Lemma walk_user m va : tables_of m → (∀ l, 0 <= va_index va l < 512) →
  walk_level 3 m (GUEST_PHYS_BASE + O_PDP_U) va =
    if (va_index va 3 =? 1) && (va_index va 2 =? 0) then leaf_tr va <$> leaf_u (va_index va 1) else None.
Proof.
  intros Hm Hi. level O_PDP_U (one_entry 1 0x105007).
  destruct (Z.eqb_spec (va_index va 3) 1) as [_|_]; [|done].
  change (pte_addr 0x105007) with (GUEST_PHYS_BASE + O_PD_U). level O_PD_U (one_entry 0 0x106007).
  destruct (Z.eqb_spec (va_index va 2) 0) as [_|_]; [|done].
  change (pte_addr 0x106007) with (GUEST_PHYS_BASE + O_PT_U).
  rewrite (walk_leaf _ O_PT_U pt_u) by (assumption || solve [auto] || in_tables). rewrite leaf_pt_u.
  cbn -[leaf_u]. by rewrite !through_u.
Qed.

(** The kernel's and the user's pages in terms of the indices. *)
Lemma kernel_map_index va : 0 <= va < 2 ^ 48 →
  kernel_map va = if (va_index va 4 =? 128) && (va_index va 3 =? 0) && (va_index va 2 =? 0)
                  then leaf_tr va <$> leaf_k (va_index va 1) else None.
Proof.
  intros Hva. destruct (va_split va Hva) as [Hp Hi]. unfold kernel_map, leaf_k, leaf_tr. rewrite Hp.
  pose proof (Hi 1%nat). pose proof (Hi 2%nat). pose proof (Hi 3%nat). pose proof (Hi 4%nat).
  change (KVA_BASE / 4096) with (512 * (512 * (512 * 128))).
  repeat case_match; bool_prop; simplify_eq/=; try done; try (exfalso; lia); repeat f_equal; lia.
Qed.
Lemma user_map_index va : 0 <= va < 2 ^ 48 →
  user_map va = if (va_index va 4 =? 0) && (va_index va 3 =? 1) && (va_index va 2 =? 0)
                then leaf_tr va <$> leaf_u (va_index va 1) else None.
Proof.
  intros Hva. destruct (va_split va Hva) as [Hp Hi]. unfold user_map, leaf_u, leaf_tr. rewrite Hp.
  pose proof (Hi 1%nat). pose proof (Hi 2%nat). pose proof (Hi 3%nat). pose proof (Hi 4%nat).
  change (UVA_BASE / 4096) with (512 * (512 * 1)).
  repeat case_match; bool_prop; simplify_eq/=; try done; exfalso; lia.
Qed.

Lemma page_tables m va : tables_of m →
  walk m (GUEST_PHYS_BASE + O_PML4) va = guest_map va ∧
  walk m (GUEST_PHYS_BASE + O_PML4_ALT) va = kernel_map va.
Proof.
  intros Hm. unfold walk, guest_map.
  destruct ((0 <=? va) && (va <? 2 ^ 48)) eqn:Hr.
  2: { assert (kernel_map va = None ∧ user_map va = None) as [-> ->]; [|done].
    unfold kernel_map, user_map.
    change (KVA_BASE / 4096) with (2 ^ 34). change (UVA_BASE / 4096) with (2 ^ 18).
    assert (va / 4096 < 0 ∨ 2 ^ 36 <= va / 4096) as Hp.
    { apply andb_false_iff in Hr as [Hr|Hr]; bool_prop; Z.div_mod_to_equations; lia. }
    split; repeat case_match; bool_prop; try done; lia. }
  bool_prop. destruct (va_split va ltac:(lia)) as [_ Hi].
  rewrite kernel_map_index, user_map_index by lia.
  change (pte_addr (GUEST_PHYS_BASE + O_PML4)) with (GUEST_PHYS_BASE + O_PML4).
  change (pte_addr (GUEST_PHYS_BASE + O_PML4_ALT)) with (GUEST_PHYS_BASE + O_PML4_ALT).
  split.
  - level O_PML4 pml4. destruct (Z.eqb_spec (va_index va 4) 0) as [->|Hn].
    + change (pte_addr 0x104007) with (GUEST_PHYS_BASE + O_PDP_U). rewrite walk_user by done. cbn -[leaf_u].
      destruct ((va_index va 3 =? 1) && (va_index va 2 =? 0)); [|done]. by rewrite through_u.
    + destruct (Z.eqb_spec (va_index va 4) 128) as [_|_]; [|done].
      change (pte_addr 0x101003) with (GUEST_PHYS_BASE + O_PDP_K). rewrite walk_kernel by done. cbn -[leaf_k].
      destruct ((va_index va 3 =? 0) && (va_index va 2 =? 0)); [|done]. rewrite through_k.
      by destruct (leaf_k (va_index va 1)).
  - level O_PML4_ALT pml4_alt. destruct (Z.eqb_spec (va_index va 4) 128) as [_|_]; [|done].
    change (pte_addr 0x101003) with (GUEST_PHYS_BASE + O_PDP_K). rewrite walk_kernel by done. cbn -[leaf_k].
    destruct ((va_index va 3 =? 0) && (va_index va 2 =? 0)); [|done]. by rewrite through_k.
Qed.

(** C21: the page tables of a built guest map exactly what they are meant to.
    In memory whose table pages are still as built, the main address space
    takes the kernel's pages to the guest's memory and to the event page
    without the user bit, the user's code, stack and report pages with it,
    and no other address at all; the alternate address space has the kernel's
    pages and none of the user's. *)
Theorem buildPageTables_maps m g g' m' va :
  buildGuest m g = Some g' →
  (∀ a, table_byte a → byte_at m' a = byte_at (g_mem g') a) →
  walk m' (GUEST_PHYS_BASE + O_PML4) va = guest_map va ∧
  walk m' (GUEST_PHYS_BASE + O_PML4_ALT) va = kernel_map va.
Proof.
  rewrite buildGuest_eq. case_match; [|done]. intros [= <-] Hm. apply page_tables.
  intros a Ha. rewrite Hm by done. by apply built_tables.
Qed.
Lemma buildPageTables_maps_witness :
  walk (g_mem (built GUEST_MEM_SIZE false)) (GUEST_PHYS_BASE + O_PML4) (KVA_BASE + 0x9123) = Some (Tr 0x109123 false true)
  ∧ walk (g_mem (built GUEST_MEM_SIZE false)) (GUEST_PHYS_BASE + O_PML4_ALT) UVA_CODE = None.
Proof.
  split.
  - exact (proj1 (buildPageTables_maps vm_mem (guest0 false) _ _ (KVA_BASE + 0x9123)
      (buildGuest_eq vm_mem (guest0 false)) (λ a _, eq_refl))).
  - exact (proj2 (buildPageTables_maps vm_mem (guest0 false) _ _ UVA_CODE
      (buildGuest_eq vm_mem (guest0 false)) (λ a _, eq_refl))).
Defined.
