(* ===== verification/GuestRuns.v ===== *)
(** * What the guest's code does

    The routines of [Guest] run on the processor of [X86]: the supervisor
    code copies the control page into the PVCS and issues the return to user
    mode, the user code reports its RFLAGS, and the pattern routine reads the
    addresses of its list one at a time and then reports how many it read.
    The harness and the guest write other pages meanwhile, so everything is
    stated for any memory whose tables and code are as built. *)
From Stdlib Require Import Ascii.
From stdpp Require Import zmap.
From S2P Require Import Prelude GoStrings Bits Abi Guest X86 GuestMaps.

#[local] Open Scope Z_scope.

(** ** Memory reads and writes *)
Lemma store_bytes_lookup d off l a :
  byte_of (store_bytes d off l) a =
  if (off <=? a) && (a <? off + Z.of_nat (length l)) then nth (Z.to_nat (a - off)) l 0 else byte_of d a.
Proof.
  revert d off. induction l as [|b l IH]; intros d off.
  - cbn. destruct (_ && _) eqn:E; [bool_prop; lia|done].
  - cbn [store_bytes length]. rewrite IH. unfold byte_of.
    destruct ((off + 1 <=? a) && (a <? off + 1 + Z.of_nat (length l))) eqn:E1.
    + bool_prop. rewrite (proj2 (Z.leb_le off a)), (proj2 (Z.ltb_lt a _)) by lia. cbn [andb].
      replace (Z.to_nat (a - off)) with (S (Z.to_nat (a - (off + 1)))) by lia. done.
    + destruct (Z.eq_dec off a) as [->|Hne].
      * rewrite lookup_insert_eq, Z.leb_refl, (proj2 (Z.ltb_lt _ _)) by lia. by rewrite Z.sub_diag.
      * rewrite lookup_insert_ne by done.
        destruct ((off <=? a) && (a <? off + Z.of_nat (S (length l)))) eqn:E2; [|done].
        apply andb_false_iff in E1. bool_prop. destruct E1; bool_prop; lia.
Qed.
Lemma byte_at_put off l m m' a : put off l m = Some m' →
  byte_at m' a = if (off <=? a) && (a <? off + Z.of_nat (length l)) then nth (Z.to_nat (a - off)) l 0 else byte_at m a.
Proof. rewrite put_some. intros (?&?&->). apply store_bytes_lookup. Qed.
Lemma byte_at_other off l m m' a : put off l m = Some m' →
  a < off ∨ off + Z.of_nat (length l) <= a → byte_at m' a = byte_at m a.
Proof.
  intros Hp Ha. rewrite (byte_at_put _ _ _ _ _ Hp).
  destruct (_ && _) eqn:E; [bool_prop; lia|done].
Qed.
Lemma put_len off l m m' : put off l m = Some m' → m_len m' = m_len m.
Proof. rewrite put_some. by intros (?&?&->). Qed.
Lemma put_fits off l m : 0 <= off → off + Z.of_nat (length l) <= m_len m → ∃ m', put off l m = Some m'.
Proof. intros. eexists. rewrite put_some. done. Qed.

Lemma bytes_at_other off l m m' o n : put off l m = Some m' →
  o + Z.of_nat n <= off ∨ off + Z.of_nat (length l) <= o → bytes_at m' o n = bytes_at m o n.
Proof.
  intros Hp Ho. unfold bytes_at. apply list_fmap_ext. intros i x Hi. apply lookup_seq in Hi as [-> Hi].
  apply (byte_at_other _ _ _ _ _ Hp). lia.
Qed.
Lemma get_other off l m m' o n : put off l m = Some m' →
  o + Z.of_nat n <= off ∨ off + Z.of_nat (length l) <= o → get n o m' = get n o m.
Proof.
  intros Hp Ho. unfold get, fits. rewrite (put_len _ _ _ _ Hp). by rewrite (bytes_at_other _ _ _ _ _ _ Hp Ho).
Qed.
Lemma bytes_at_same off l m m' : put off l m = Some m' → bytes_at m' off (length l) = l.
Proof.
  intros Hp. unfold bytes_at. apply list_eq. intros i. rewrite list_lookup_fmap.
  destruct (decide (i < length l)%nat) as [Hi|Hi].
  - rewrite lookup_seq_lt by done. cbn. rewrite (byte_at_put _ _ _ _ _ Hp).
    rewrite (proj2 (Z.leb_le _ _)), (proj2 (Z.ltb_lt _ _)) by lia. cbn.
    replace (Z.to_nat (off + Z.of_nat i - off)) with i by lia.
    destruct (lookup_lt_is_Some_2 l i Hi) as [x Hx]. by rewrite Hx, (nth_lookup_Some _ _ _ _ Hx).
  - rewrite lookup_seq_ge by lia. symmetry. apply lookup_ge_None. lia.
Qed.
Lemma get_same off n v m m' : put off (le n v) m = Some m' → 0 <= v < 2 ^ (8 * Z.of_nat n) → get n off m' = Some v.
Proof.
  intros Hp Hv. unfold get. pose proof Hp as Hf. rewrite put_some, le_length in Hf. destruct Hf as (?&?&Heq).
  unfold fits. rewrite (put_len _ _ _ _ Hp), (proj2 (Z.leb_le _ _)), (proj2 (Z.leb_le _ _)) by done. cbn.
  pose proof (bytes_at_same _ _ _ _ Hp) as Hb. rewrite le_length in Hb. rewrite Hb. by rewrite unle_le.
Qed.

(** ** Fetching the built code *)
Definition code_byte (a : Z) : Prop := 0 <= a < 0x7000 ∨ 0x9000 <= a < 0xc000 ∨ 0xd000 <= a < 0xe000.
Definition code_of (pv : bool) (m : mem) : Prop :=
  0xf000 <= m_len m ∧ ∀ a, code_byte a → byte_at m a = byte_of (image pv) a.
Lemma built_byte len pv a : byte_at (g_mem (built len pv)) a = byte_of (image pv) a.
Proof. unfold byte_at, byte_of, built. reflexivity. Qed.
Definition main_cr3 : Z := GUEST_PHYS_BASE + O_PML4.

Lemma code_tables pv m : code_of pv m → tables_of m.
Proof.
  intros [_ Hm] a Ha. rewrite Hm by (unfold table_byte, code_byte in *; lia).
  exact (built_tables 0 pv a Ha).
Qed.
(** The pages the guest and the harness write: PVCS, control, stack and the
    second PVCS page. *)
Definition data_off (off : Z) (n : nat) : Prop :=
  ∃ p, p ∈ [O_PVCS; O_CTRL; O_USTACK; O_PVCS2] ∧ p <= off ∧ off + Z.of_nat n <= p + 0x1000.
Lemma data_off_page p off n : p ∈ [O_PVCS; O_CTRL; O_USTACK; O_PVCS2] →
  p <= off → off + Z.of_nat n <= p + 0x1000 → data_off off n.
Proof. intros. by exists p. Qed.
Lemma stack_off off n : O_USTACK <= off → off + Z.of_nat n <= O_USTACK + 0x1000 → data_off off n.
Proof. apply data_off_page. set_solver. Qed.
Lemma ctrl_off off n : O_CTRL <= off → off + Z.of_nat n <= O_CTRL + 0x1000 → data_off off n.
Proof. apply data_off_page. set_solver. Qed.
Lemma code_put pv m m' off l : code_of pv m → put off l m = Some m' → data_off off (length l) → code_of pv m'.
Proof.
  intros [Hl Hm] Hp (p&Hin&?&?). split; [by rewrite (put_len _ _ _ _ Hp)|].
  intros a Ha. rewrite (byte_at_other _ _ _ _ _ Hp); [by apply Hm|].
  rewrite !elem_of_cons, elem_of_nil in Hin. unfold O_PVCS, O_CTRL, O_USTACK, O_PVCS2, code_byte in *. lia.
Qed.

Definition instr_at (pv u : bool) (va : Z) : option (instr * Z) :=
  t ← guest_map va;
  let off := t_pa t - GUEST_PHYS_BASE in
  let n := Z.to_nat (Z.min 15 (4096 - va mod 4096)) in
  if (u && negb (t_user t)) || negb ((0x9000 <=? off) && (off + Z.of_nat n <=? 0xc000)) then None else
  '(i, rest) ← decode ((λ j : nat, byte_of (image pv) (off + Z.of_nat j)) <$> seq 0 n);
  Some (i, u64 (va + Z.of_nat (n - length rest))).

Lemma translate_main pv c va : code_of pv (cmem c) → cr3 c = main_cr3 →
  translate c va = (t ← guest_map va; if user c && negb (t_user t) then None else Some (t_pa t)).
Proof.
  intros Hm Hc. unfold translate. rewrite Hc. unfold main_cr3.
  by rewrite (proj1 (page_tables _ va (code_tables _ _ Hm))).
Qed.

Definition settle (c : cpu) (r : option result) : option result :=
  match r with
  | Some (Stop (PageFault va) c') => Some (Stop (PageFault va) (set_rip (rip c) c'))
  | r => r
  end.
Lemma step_instr pv c i next :
  code_of pv (cmem c) → cr3 c = main_cr3 → instr_at pv (user c) (rip c) = Some (i, next) →
  step c = settle c (exec i (set_rip next c)).
Proof.
  intros Hm Hc Hi. unfold instr_at in Hi. apply bind_Some in Hi as (t&Ht&Hi).
  set (n := Z.to_nat (Z.min 15 (4096 - rip c mod 4096))) in *.
  case_match eqn:E; [done|]. apply orb_false_iff in E as [Hu Hr]. bool_prop.
  apply bind_Some in Hi as ([i' rest]&Hd&[= -> <-]).
  assert (bytes_at (cmem c) (t_pa t - GUEST_PHYS_BASE) n =
          ((λ j : nat, byte_of (image pv) (t_pa t - GUEST_PHYS_BASE + Z.of_nat j)) <$> seq 0 n)) as Hb.
  { unfold bytes_at. apply list_fmap_ext. intros j x Hj. apply lookup_seq in Hj as [-> Hj].
    apply Hm. unfold code_byte. lia. }
  assert (fetch c = Some (bytes_at (cmem c) (t_pa t - GUEST_PHYS_BASE) n)) as Hf.
  { unfold fetch. rewrite (translate_main pv) by done. rewrite Ht. cbn [mbind option_bind]. rewrite Hu.
    cbn [mbind option_bind]. fold n. unfold in_ram, fits. destruct Hm as [Hlen _].
    by rewrite (proj2 (Z.leb_le _ _)), (proj2 (Z.leb_le _ _)) by lia. }
  unfold step. rewrite Hf. cbn [mbind option_bind]. rewrite Hb, Hd. cbn [mbind option_bind].
  rewrite length_fmap, length_seq. unfold settle.
  by destruct (exec i _) as [[|[] ]|].
Qed.

(** Loads and stores at addresses the tables map to memory. *)
Lemma load_main pv c va n t :
  code_of pv (cmem c) → cr3 c = main_cr3 → guest_map va = Some t → user c && negb (t_user t) = false →
  in_page va n = true → load c va n = get n (t_pa t - GUEST_PHYS_BASE) (cmem c).
Proof.
  intros Hm Hc Ht Hu Hp. unfold load. rewrite (translate_main pv) by done. rewrite Ht. cbn [mbind option_bind].
  rewrite Hu. cbn [mbind option_bind]. rewrite Hp, andb_true_r. unfold in_ram, get.
  by destruct (fits _ _ _).
Qed.
Lemma store_main pv c va l t :
  code_of pv (cmem c) → cr3 c = main_cr3 → guest_map va = Some t → user c && negb (t_user t) = false →
  in_page va (length l) = true →
  store c va l = Some (match put (t_pa t - GUEST_PHYS_BASE) l (cmem c) with
                       | Some m => Next (set_cmem m c) | None => Stop (Mmio (t_pa t) l) c end).
Proof.
  intros Hm Hc Ht Hu Hp. unfold store. rewrite (translate_main pv) by done. rewrite Ht. cbn [mbind option_bind].
  rewrite Hu. rewrite Hp. cbn. by destruct (put _ _ _).
Qed.

(** The routines, disassembled. *)
Fixpoint disasm (pv u : bool) (n : nat) (va : Z) : list (Z * instr) :=
  match n with
  | O => []
  | S n => match instr_at pv u va with Some (i, next) => (va, i) :: disasm pv u n next | None => [] end
  end.
Definition mo (r : nat) (d : Z) : address := Addr (Some r) None d.
Example smod_listing : disasm false false 11 (KVA_BASE + O_SCODE) = [
  (0x400000009000, MovImm 4 UVA_STACK_TOP); (0x40000000900a, MovImm 6 (KVA_BASE + O_CTRL));
  (0x400000009014, Load 8 7 (mo 6 CTRL_PVCS));
  (0x400000009018, Load 8 0 (mo 6 CTRL_RIP)); (0x40000000901c, Store 8 (mo 7 PVCS_RIP) 0);
  (0x400000009020, Load 4 0 (mo 6 CTRL_EFLAGS)); (0x400000009023, Store 4 (mo 7 PVCS_EFLAGS) 0);
  (0x400000009026, Load 4 0 (mo 6 CTRL_SEL)); (0x400000009029, Store 4 (mo 7 PVCS_USER_CS) 0);
  (0x40000000902c, ISyscall); (0x40000000902e, IUd2)].
Proof. vm_compute. reflexivity. Qed.
Example pattern_listing : disasm false true 14 (UVA_CODE + UCODE_PATTERN) = [
  (0x40000200, MovImm 6 PATTERN_UVA); (0x4000020a, Load 8 1 (mo 6 0)); (0x4000020d, CmpMem 1 (mo 6 104));
  (0x40000211, Jae 12); (0x40000213, IncMem (mo 6 0)); (0x40000216, Load 8 2 (Addr (Some 6%nat) (Some (1%nat, 8)) 8));
  (0x4000021b, LoadByte 0 (mo 2 0)); (0x4000021d, IUd2); (0x4000021f, MovImm 2 UVA_MMIO);
  (0x40000229, Store 4 (mo 2 0) 1); (0x4000022b, ISyscall); (0x4000022d, IUd2)].
Proof. vm_compute. reflexivity. Qed.

(** ** One rule per instruction *)
Section Rules.
Context (pv : bool) (c : cpu) (next : Z) (fuel : nat).
Context (Hm : code_of pv (cmem c)) (Hc : cr3 c = main_cr3).
Abbreviation at_ i := (instr_at pv (user c) (rip c) = Some (i, next)).
Abbreviation past := (set_rip next c).
Abbreviation allowed t := (user c && negb (t_user t) = false).

Lemma run_instr i c' : at_ i → exec i past = Some (Next c') → run (S fuel) c = run fuel c'.
Proof. intros Hi He. cbn [run]. rewrite (step_instr pv c i next) by done. rewrite He. done. Qed.
Lemma run_stop i w c' : at_ i → exec i past = Some (Stop w c') →
  run (S fuel) c = Some (w, match w with PageFault _ => set_rip (rip c) c' | _ => c' end).
Proof. intros Hi He. cbn [run]. rewrite (step_instr pv c i next) by done. rewrite He. by destruct w. Qed.

Lemma run_movimm r v : at_ (MovImm r v) → run (S fuel) c = run fuel (set_reg r v past).
Proof. intros. by eapply run_instr. Qed.

(** Loads of the three kinds, at an address the tables map to memory. *)
Lemma run_load n r a k t v : at_ (Load n r a) → effective past a = k → guest_map k = Some t → allowed t →
  in_page k n = true → get n (t_pa t - GUEST_PHYS_BASE) (cmem c) = Some v →
  run (S fuel) c = run fuel (set_reg r v past).
Proof.
  intros Hi <- Ht Hu Hp Hg. eapply run_instr; [exact Hi|]. cbn [exec].
  rewrite (load_main pv past _ n t) by done. cbn [cmem set_rip]. by rewrite Hg.
Qed.
Lemma run_cmp r a k t v : at_ (CmpMem r a) → effective past a = k → guest_map k = Some t → allowed t →
  in_page k 8 = true → get 8 (t_pa t - GUEST_PHYS_BASE) (cmem c) = Some v →
  ∃ rf, CF rf = (reg c r <? v) ∧ run (S fuel) c = run fuel (set_rflags rf past).
Proof.
  intros Hi <- Ht Hu Hp Hg. eexists. split; [|eapply run_instr; [exact Hi|]; cbn [exec];
    rewrite (load_main pv past _ 8 t) by done; cbn [cmem set_rip]; rewrite Hg; reflexivity].
  unfold CF, status_flags. rewrite Z.lor_spec, Z.land_spec.
  replace (Z.testbit (Z.lnot 0x8d5) 0) with false by done. rewrite andb_false_r, orb_false_l.
  change (reg past r) with (reg c r). rewrite Z.bit0_odd, !Z.odd_add.
  rewrite !Z.odd_mul. cbn. rewrite !orb_false_r || idtac. destruct (reg c r <? v); cbn; by rewrite ?xorb_false_r.
Qed.
Lemma run_jae d : at_ (Jae d) →
  run (S fuel) c = run fuel (if CF (rflags c) then past else set_rip (u64 (next + d)) past).
Proof. intros. by eapply run_instr. Qed.

(** Stores at an address the tables map to memory, and to a device. *)
Lemma run_store n a r k t m' : at_ (Store n a r) → effective past a = k → guest_map k = Some t → allowed t →
  in_page k (length (le n (reg c r))) = true →
  put (t_pa t - GUEST_PHYS_BASE) (le n (reg c r)) (cmem c) = Some m' →
  run (S fuel) c = run fuel (set_cmem m' past).
Proof.
  intros Hi <- Ht Hu Hp Hg. eapply run_instr; [exact Hi|]. cbn [exec].
  rewrite (store_main pv past _ _ t) by done. cbn [cmem set_rip]. change (reg past r) with (reg c r). by rewrite Hg.
Qed.
Lemma run_mmio n a r k t : at_ (Store n a r) → effective past a = k → guest_map k = Some t → allowed t →
  in_page k (length (le n (reg c r))) = true →
  put (t_pa t - GUEST_PHYS_BASE) (le n (reg c r)) (cmem c) = None →
  run (S fuel) c = Some (Mmio (t_pa t) (le n (reg c r)), past).
Proof.
  intros Hi <- Ht Hu Hp Hg. erewrite run_stop; [|exact Hi|].
  2: { cbn [exec]. rewrite (store_main pv past _ _ t) by done. cbn [cmem set_rip].
       change (reg past r) with (reg c r). by rewrite Hg. }
  done.
Qed.
Lemma run_inc a k t v m' : at_ (IncMem a) → effective past a = k → guest_map k = Some t → allowed t →
  in_page k 8 = true → get 8 (t_pa t - GUEST_PHYS_BASE) (cmem c) = Some v →
  put (t_pa t - GUEST_PHYS_BASE) (le 8 (u64 (v + 1))) (cmem c) = Some m' →
  ∃ rf, run (S fuel) c = run fuel (set_rflags rf (set_cmem m' past)).
Proof.
  intros Hi <- Ht Hu Hp Hg Hput. eexists. eapply run_instr; [exact Hi|]. cbn [exec].
  rewrite (load_main pv past _ 8 t) by done. cbn [cmem set_rip]. rewrite Hg. cbn [mbind option_bind].
  rewrite (store_main pv past _ _ t) by (done || by rewrite le_length). cbn [cmem set_rip]. rewrite Hput. reflexivity.
Qed.
(** A byte read where the mode has no translation. *)
Lemma run_fault r a k : at_ (LoadByte r a) → effective past a = k →
  match guest_map k with Some t => user c && negb (t_user t) = true | None => True end →
  run (S fuel) c = Some (PageFault k, set_rip (rip c) past).
Proof.
  intros Hi <- Hk. assert (translate past (effective past a) = None) as Ht.
  { rewrite (translate_main pv) by done. destruct (guest_map (effective past a)) as [t|]; [|done].
    cbn [mbind option_bind]. change (user past) with (user c). by rewrite Hk. }
  erewrite run_stop; [|exact Hi|].
  2: { cbn [exec]. unfold load. rewrite Ht. reflexivity. }
  done.
Qed.
Lemma run_syscall : at_ ISyscall → run (S fuel) c = Some (Syscall, past).
Proof. intros. erewrite run_stop; [|done..]. done. Qed.
End Rules.

(** ** The supervisor's round *)
Ltac regs16 regs H :=
  do 16 (destruct regs as [|? regs]; [discriminate H|]); destruct regs; [clear H|discriminate H].
(** Apply a rule to the run in the goal; its side conditions are closed facts
    of the built guest, the memory reads and writes are given. *)
Ltac settle_state :=
  cbv [set_reg set_rip set_cmem set_rflags regs rip rflags user cr3 cmem insert list_insert].
Ltac closed := vm_compute; reflexivity.
Ltac go rule code :=
  (eapply eq_trans; [eapply rule; [exact code|reflexivity|closed]|]); settle_state.
Ltac go_mem rule code mem_fact :=
  (eapply eq_trans; [eapply rule; [exact code|reflexivity|closed|closed|closed|reflexivity|closed|exact mem_fact]|]);
  settle_state.

Ltac go_end rule code :=
  etrans; [eapply rule; [exact code|reflexivity|closed]|]; settle_state; reflexivity.

Lemma pvcs_page p : p ∈ [O_PVCS; O_PVCS2] →
  0 <= p ∧ p + 0x1000 <= 0xf000 ∧
  (∀ o n, 0 <= o → o + Z.of_nat n <= 0x1000 → data_off (p + o) n) ∧
  (p + 0x1000 <= O_CTRL ∨ O_CTRL + 0x1000 <= p).
Proof.
  rewrite !elem_of_cons, elem_of_nil. intros [->|[->|[]]]; unfold O_PVCS, O_PVCS2, O_CTRL;
    (split_and!; [lia|lia| |lia]); intros o n ??; unfold data_off.
  - exists O_PVCS. unfold O_PVCS. split_and!; [set_solver|lia..].
  - exists O_PVCS2. unfold O_PVCS2. split_and!; [set_solver|lia..].
Qed.
Lemma smod_run regs rf m p rv ev sv :
  length regs = 16%nat → code_of false m → p ∈ [O_PVCS; O_PVCS2] →
  get 8 (O_CTRL + CTRL_PVCS) m = Some (KVA_BASE + p) →
  get 8 (O_CTRL + CTRL_RIP) m = Some rv → get 4 (O_CTRL + CTRL_EFLAGS) m = Some ev →
  get 4 (O_CTRL + CTRL_SEL) m = Some sv →
  ∃ m1 m2 m3 regs',
    put (p + PVCS_RIP) (le 8 rv) m = Some m1 ∧ put (p + PVCS_EFLAGS) (le 4 ev) m1 = Some m2 ∧
    put (p + PVCS_USER_CS) (le 4 sv) m2 = Some m3 ∧ regs' !! 4%nat = Some UVA_STACK_TOP ∧
    run 10 (Cpu regs (KVA_BASE + O_SCODE) rf false main_cr3 m) =
      Some (Syscall, Cpu regs' (KVA_BASE + O_SCODE + 0x2e) rf false main_cr3 m3).
Proof.
  intros Hr Hm Hp Hpv Hrv Hev Hsv.
  destruct (pvcs_page p Hp) as (Hp0&Hp1&Hd&Hpc).
  pose proof (proj1 Hm) as Hlen.
  destruct (put_fits (p + PVCS_RIP) (le 8 rv) m) as [m1 E1];
    [change PVCS_RIP with 88; lia|rewrite le_length; change PVCS_RIP with 88; lia|].
  assert (code_of false m1) as Hm1 by (eapply code_put; [exact Hm|exact E1|by apply Hd]).
  destruct (put_fits (p + PVCS_EFLAGS) (le 4 ev) m1) as [m2 E2];
    [change PVCS_EFLAGS with 80; lia|rewrite le_length; destruct Hm1; change PVCS_EFLAGS with 80; lia|].
  assert (code_of false m2) as Hm2 by (eapply code_put; [exact Hm1|exact E2|by apply Hd]).
  destruct (put_fits (p + PVCS_USER_CS) (le 4 sv) m2) as [m3 E3];
    [change PVCS_USER_CS with 64; lia|rewrite le_length; destruct Hm2; change PVCS_USER_CS with 64; lia|].
  assert (get 4 (O_CTRL + CTRL_EFLAGS) m1 = Some ev) as Hev1.
  { rewrite (get_other _ _ _ _ _ _ E1); [done|]. rewrite le_length. unfold O_CTRL, CTRL_EFLAGS in *.
    change PVCS_RIP with 88. lia. }
  assert (get 4 (O_CTRL + CTRL_SEL) m2 = Some sv) as Hsv2.
  { rewrite (get_other _ _ _ _ _ _ E2), (get_other _ _ _ _ _ _ E1); [done|..]; rewrite le_length;
      unfold O_CTRL, CTRL_SEL in *; change PVCS_RIP with 88; change PVCS_EFLAGS with 80; lia. }
  exists m1, m2, m3. regs16 regs Hr.
  rewrite !elem_of_cons, elem_of_nil in Hp. destruct Hp as [->|[->|[]]].
  all: eexists; split_and!; [exact E1|exact E2|exact E3|cycle 1|].
  all: try (go (run_movimm false) Hm; go (run_movimm false) Hm; go_mem (run_load false) Hm Hpv;
    go_mem (run_load false) Hm Hrv; go_mem (run_store false) Hm E1;
    go_mem (run_load false) Hm1 Hev1; go_mem (run_store false) Hm1 E2;
    go_mem (run_load false) Hm2 Hsv2; go_mem (run_store false) Hm2 E3;
    assert (code_of false m3) as Hm3 by (eapply code_put; [exact Hm2|exact E3|by apply Hd]);
    go_end (run_syscall false) Hm3).
  all: reflexivity.
Qed.

(** Side conditions of [get_other] and its like: ranges of constant offsets. *)
Ltac apart := first [assumption | reflexivity
  | rewrite ?le_length; unfold O_CTRL, CTRL_RIP, CTRL_EFLAGS, CTRL_SEL, CTRL_PVCS in *; lia].
(** What the control page holds once it has been set. *)
Lemma ctrlSet_gets rv ev sv g g' pv v : ctrlSet rv ev sv g = Some g' →
  0 <= rv < 2 ^ 64 → 0 <= ev < 2 ^ 32 → 0 <= sv < 2 ^ 32 → code_of pv (g_mem g) →
  get 8 (O_CTRL + CTRL_PVCS) (g_mem g) = v →
  code_of pv (g_mem g') ∧ get 8 (O_CTRL + CTRL_RIP) (g_mem g') = Some rv ∧
  get 4 (O_CTRL + CTRL_EFLAGS) (g_mem g') = Some ev ∧ get 4 (O_CTRL + CTRL_SEL) (g_mem g') = Some sv ∧
  get 8 (O_CTRL + CTRL_PVCS) (g_mem g') = v.
Proof.
  intros Hset Hrv Hev Hsv C0 Hv. unfold ctrlSet in Hset.
  apply bind_Some in Hset as (m1&P1&Hset). apply bind_Some in Hset as (m2&P2&Hset).
  apply bind_Some in Hset as (m3&P3&[= <-]). cbn [g_mem set_mem].
  assert (∀ o n, 0 <= o → o + Z.of_nat n <= 0x1000 → data_off (O_CTRL + o) n) as Hd.
  { intros o n ??. apply ctrl_off; lia. }
  assert (code_of pv m1) as C1 by (eapply code_put; [exact C0|exact P1|by apply Hd]).
  assert (code_of pv m2) as C2 by (eapply code_put; [exact C1|exact P2|by apply Hd]).
  assert (code_of pv m3) as C3 by (eapply code_put; [exact C2|exact P3|by apply Hd]).
  split_and!; [done| | | |].
  - rewrite (get_other _ _ _ _ _ _ P3), (get_other _ _ _ _ _ _ P2), (get_same _ _ _ _ _ P1); apart.
  - rewrite (get_other _ _ _ _ _ _ P3), (get_same _ _ _ _ _ P2); apart.
  - by apply (get_same _ _ _ _ _ P3).
  - rewrite (get_other _ _ _ _ _ _ P3), (get_other _ _ _ _ _ _ P2), (get_other _ _ _ _ _ _ P1); apart.
Qed.

(** C22: a round of the supervisor code.  In memory whose code and tables are
    as built, after the harness has put a return address, RFLAGS and selectors
    in the control page, the code entered in supervisor mode with any
    registers runs to the return-to-user SYSCALL at [retuRIP]: it has copied
    the three values, whatever they are, into the PVCS the control page names
    (either of the two pages it can be moved to), set up the user stack
    pointer, and changed no byte of memory but the 8 of the PVCS's RIP, the 4 of
    its EFLAGS and the 4 of its two selectors: the other fields of the PVCS, its
    neighbours among them, are as they were. *)
Theorem smod_round m0 g0 g rv ev sv g' p regs rf :
  buildGuest m0 g0 = Some g → pgtblVariant g0 = false → 0xf000 <= m_len m0 →
  0 <= rv < 2 ^ 64 → 0 <= ev < 2 ^ 32 → 0 <= sv < 2 ^ 32 →
  ∀ now, (∀ a, code_byte a → byte_at now a = byte_at (g_mem g) a) → m_len now = m_len m0 →
  p ∈ [O_PVCS; O_PVCS2] → get 8 (O_CTRL + CTRL_PVCS) now = Some (kva g + p) →
  ctrlSet rv ev sv (set_mem g now) = Some g' → length regs = 16%nat →
  ∃ c, run 10 (Cpu regs (smodEntry g) rf false main_cr3 (g_mem g')) = Some (Syscall, c) ∧
    rip c = retuRIP g + 2 ∧ reg c 4 = UVA_STACK_TOP ∧
    get 8 (p + PVCS_RIP) (cmem c) = Some rv ∧ get 4 (p + PVCS_EFLAGS) (cmem c) = Some ev ∧
    get 4 (p + PVCS_USER_CS) (cmem c) = Some sv ∧
    ∀ a, ¬ (p + PVCS_RIP <= a < p + PVCS_RIP + 8) → ¬ (p + PVCS_EFLAGS <= a < p + PVCS_EFLAGS + 4) →
      ¬ (p + PVCS_USER_CS <= a < p + PVCS_USER_CS + 4) → byte_at (cmem c) a = byte_at (g_mem g') a.
Proof.
  rewrite buildGuest_eq. case_match; [|done]. intros [= <-] -> Hlen Hrv Hev Hsv now Hnow Hl Hp Hpv Hset Hregs.
  assert (code_of false now) as C0 by (split; [lia|intros a Ha; rewrite <- (built_byte (m_len m0)); by apply Hnow]).
  destruct (ctrlSet_gets _ _ _ _ _ false _ Hset Hrv Hev Hsv C0 Hpv) as (C3&G1&G2&G3&G4).
  destruct (smod_run regs rf (g_mem g') p rv ev sv Hregs C3 Hp G4 G1 G2 G3) as (m1&m2&m3&regs'&E1&E2&E3&Hsp&Hrun).
  eexists. split; [exact Hrun|]. cbn [rip cmem].
  change PVCS_RIP with 88 in *. change PVCS_EFLAGS with 80 in *. change PVCS_USER_CS with 64 in *.
  split_and!; [done|by unfold reg; cbn [X86.regs]; rewrite Hsp| | | |].
  - rewrite (get_other _ _ _ _ _ _ E3), (get_other _ _ _ _ _ _ E2), (get_same _ _ _ _ _ E1); apart.
  - rewrite (get_other _ _ _ _ _ _ E3), (get_same _ _ _ _ _ E2); apart.
  - by apply (get_same _ _ _ _ _ E3).
  - intros a H1 H2 H3. rewrite (byte_at_other _ _ _ _ _ E3), (byte_at_other _ _ _ _ _ E2), (byte_at_other _ _ _ _ _ E1); apart.
Qed.
Definition ex_guest : guest := built GUEST_MEM_SIZE false.
Definition ex_set : guest := default ex_guest (ctrlSet 0x0000800000000000 0x202 GOOD_SEL (set_mem ex_guest (g_mem ex_guest))).
Lemma smod_round_witness :
  ∃ c, run 10 (Cpu (repeat 0 16) (smodEntry ex_guest) 2 false main_cr3 (g_mem ex_set)) = Some (Syscall, c) ∧
    rip c = retuRIP ex_guest + 2 ∧ get 8 (O_PVCS + PVCS_RIP) (cmem c) = Some 0x0000800000000000.
Proof.
  destruct (smod_round vm_mem (guest0 false) ex_guest 0x0000800000000000 0x202 GOOD_SEL ex_set O_PVCS (repeat 0 16) 2
    (buildGuest_eq vm_mem (guest0 false)) eq_refl ltac:(vm_compute; congruence)
    ltac:(vm_compute; intuition congruence) ltac:(vm_compute; intuition congruence) ltac:(vm_compute; intuition congruence)
    (g_mem ex_guest) (λ a _, eq_refl) eq_refl ltac:(set_solver) ltac:(vm_compute; reflexivity)
    ltac:(vm_compute; reflexivity) eq_refl) as (c&H1&H2&_&H3&_).
  exists c. split; [exact H1|]. split; [exact H2|exact H3].
Defined.

(** ** The pattern routine *)
Definition O_LIST : Z := O_USTACK + PATTERN_OFF.

Definition unmapped (va : Z) : Prop :=
  match guest_map va with Some t => t_user t = false | None => True end.

(** The routine up to the jump: the count is in rcx, compared with the total. *)
Lemma pattern_head regs rf m k total fuel :
  length regs = 16%nat → code_of false m →
  get 8 O_LIST m = Some k → get 8 (O_LIST + 8 + PATTERN_MAX * 8) m = Some total →
  ∃ regs' rf', length regs' = 16%nat ∧ regs' !! 1%nat = Some k ∧ regs' !! 6%nat = Some PATTERN_UVA ∧
    run (4 + fuel) (Cpu regs (UVA_CODE + UCODE_PATTERN) rf true main_cr3 m) =
    run fuel (Cpu regs' (if k <? total then 0x40000213 else 0x4000021f) rf' true main_cr3 m).
Proof.
  intros Hr Hm Hgk Hgt. exists (<[1%nat := k]> (<[6%nat := PATTERN_UVA]> regs)).
  set (c := Cpu (<[1%nat := k]> (<[6%nat := PATTERN_UVA]> regs)) 0x4000020d rf true main_cr3 m).
  assert (run (4 + fuel) (Cpu regs (UVA_CODE + UCODE_PATTERN) rf true main_cr3 m) = run (2 + fuel) c) as ->.
  { subst c. regs16 regs Hr. go (run_movimm false) Hm. go_mem (run_load false) Hm Hgk. reflexivity. }
  assert (effective (set_rip 0x40000211 c) (mo 6 104) = 0x40001168) as He by (subst c; regs16 regs Hr; closed).
  destruct (run_cmp false c 0x40000211 (S fuel) Hm eq_refl 1 (mo 6 104) 0x40001168 (Tr 0x10c168 true true) total
    ltac:(closed) He ltac:(closed) eq_refl ltac:(closed) Hgt) as (rf'&Hcf&Hrun).
  exists rf'. assert (reg c 1 = k) as Hreg by (subst c; regs16 regs Hr; reflexivity).
  rewrite Hreg in Hcf. subst c. split_and!.
  - by rewrite !length_insert.
  - regs16 regs Hr. reflexivity.
  - regs16 regs Hr. reflexivity.
  - etrans; [exact Hrun|]. go (run_jae false) Hm. rewrite Hcf. by destruct (k <? total).
Qed.

(** The devices are past the end of the memory. *)
Lemma put_mmio m pa l : m_len m <= MMIO_REPORT - GUEST_PHYS_BASE → MMIO_REPORT <= pa → l ≠ [] →
  put (pa - GUEST_PHYS_BASE) l m = None.
Proof.
  intros Hl Hpa Hne. unfold put, fits. destruct l as [|b l]; [done|]. cbn [length].
  destruct ((0 <=? _) && _) eqn:E; [|done]. bool_prop. lia.
Qed.

Lemma pattern_report regs rf m k total :
  length regs = 16%nat → code_of false m → m_len m <= MMIO_REPORT - GUEST_PHYS_BASE →
  get 8 O_LIST m = Some k → get 8 (O_LIST + 8 + PATTERN_MAX * 8) m = Some total → total <= k →
  ∃ c, run 6 (Cpu regs (UVA_CODE + UCODE_PATTERN) rf true main_cr3 m) = Some (Mmio MMIO_REPORT (le 4 k), c)
    ∧ cmem c = m ∧ rip c = 0x4000022b.
Proof.
  intros Hr Hm Hlen Hgk Hgt Hk.
  destruct (pattern_head regs rf m k total 2 Hr Hm Hgk Hgt) as (regs'&rf'&Hl&H1&H6&Hrun).
  change (4 + 2)%nat with 6%nat in Hrun. rewrite Hrun. clear Hrun.
  destruct (Z.ltb_spec k total) as [?|_]; [lia|]. regs16 regs' Hl. injection H1 as ->. injection H6 as ->.
  eexists. split; [|split].
  - go (run_movimm false) Hm.
    etrans; [eapply (run_mmio false); [exact Hm|reflexivity|closed|closed|closed|reflexivity|closed|by apply put_mmio]|].
    reflexivity.
  - reflexivity.
  - reflexivity.
Qed.

Lemma pattern_fault regs rf m k total va :
  length regs = 16%nat → code_of false m → 0 <= k < total → total <= PATTERN_MAX → 0 <= va < 2 ^ 64 →
  get 8 O_LIST m = Some k → get 8 (O_LIST + 8 + PATTERN_MAX * 8) m = Some total →
  get 8 (O_LIST + 8 + k * 8) m = Some va → unmapped va →
  ∃ m' c, put O_LIST (le 8 (k + 1)) m = Some m' ∧
    run 7 (Cpu regs (UVA_CODE + UCODE_PATTERN) rf true main_cr3 m) = Some (PageFault va, c) ∧
    cmem c = m' ∧ rip c = 0x4000021b.
Proof.
  intros Hr Hm Hk Ht Hva Hgk Hgt Hgv Hun.
  destruct (pattern_head regs rf m k total 3 Hr Hm Hgk Hgt) as (regs'&rf'&Hl&H1&H6&Hrun).
  change (4 + 3)%nat with 7%nat in Hrun. rewrite Hrun. clear Hrun.
  destruct (Z.ltb_spec k total) as [_|?]; [|lia]. regs16 regs' Hl. injection H1 as ->. injection H6 as ->.
  pose proof (proj1 Hm) as Hlen.
  destruct (put_fits O_LIST (le 8 (k + 1)) m) as [m' E1]; [done|rewrite le_length; change O_LIST with 0xc100; lia|].
  assert (code_of false m') as Hm'.
  { eapply code_put; [exact Hm|exact E1|]. rewrite le_length. by apply stack_off. }
  assert (u64 (k + 1) = k + 1) as Hu by (apply Z.mod_small; unfold PATTERN_MAX in *; lia).
  assert (get 8 (O_LIST + 8 + k * 8) m' = Some va) as Hgv'.
  { rewrite (get_other _ _ _ _ _ _ E1); [exact Hgv|]. rewrite le_length. lia. }
  match goal with |- ∃ m' c, _ ∧ run _ ?c = _ ∧ _ =>
    destruct (run_inc false c 0x40000216 2 Hm eq_refl (mo 6 0) 0x40001100 (Tr 0x10c100 true true) k m'
      ltac:(closed) ltac:(closed) ltac:(closed) eq_refl ltac:(closed) Hgk ltac:(rewrite Hu; exact E1)) as (rf2&Hrun) end.
  rewrite Hrun. clear Hrun. exists m'. settle_state.
  assert (guest_map (0x40001108 + k * 8) = Some (Tr (0x10c108 + k * 8) true true) ∧
          in_page (0x40001108 + k * 8) 8 = true) as [Hmap Hpage].
  { unfold PATTERN_MAX in Ht. assert (k ∈ zseq 0 12) as Hin by (apply elem_of_zseq; lia).
    cbn [zseq] in Hin. clear -Hin. rewrite !elem_of_cons, elem_of_nil in Hin.
    repeat (destruct Hin as [->|Hin]; [split; closed|]). done. }
  eexists. split; [exact E1|]. split.
  - etrans; [eapply (run_load false); [exact Hm'|reflexivity|closed| |exact Hmap|reflexivity|exact Hpage|]|].
    + unfold effective, u64. cbn -[Z.modulo Z.add Z.mul Z.pow].
      unfold PATTERN_MAX, PATTERN_UVA, UVA_BASE, PATTERN_OFF in *. rewrite Z.mod_small; lia.
    + cbn [t_pa cmem set_rip]. replace (0x10c108 + k * 8 - GUEST_PHYS_BASE) with (O_LIST + 8 + k * 8); [exact Hgv'|].
      change O_LIST with 0xc100. change GUEST_PHYS_BASE with 0x100000. lia.
    + settle_state. etrans; [eapply (run_fault false); [exact Hm'|reflexivity|closed| |]|reflexivity].
      * unfold effective, u64. cbn -[Z.modulo Z.add Z.mul Z.pow]. rewrite !Z.add_0_r. by apply Z.mod_small.
      * unfold unmapped in Hun. destruct (guest_map va) as [t|]; [|done]. cbn. by rewrite Hun.
  - done.
Qed.

Lemma run_more n k c r : run n c = Some r → run (n + k) c = Some r.
Proof.
  revert c. induction n as [|n IH]; intros c; cbn; [done|].
  destruct (step c) as [[c'|w c']|]; [apply IH|done|done].
Qed.

(** The list the harness lays out on the user stack page for the pattern
    routine (testDirectPFRule): a count of 0, the addresses, the total. *)
Fixpoint put_words (off : Z) (vs : list Z) (m : mem) : option mem :=
  match vs with
  | [] => Some m
  | v :: vs => m ← put off (le 8 v) m; put_words (off + 8) vs m
  end.
Definition setPattern (vas : list Z) (m : mem) : option mem :=
  m ← put O_LIST (le 8 0) m;
  m ← put_words (O_LIST + 8) vas m;
  put (O_LIST + 8 + PATTERN_MAX * 8) (le 8 (Z.of_nat (length vas))) m.
(** The address of the page a letter of the pattern stands for. *)
Definition pattern_va (c : ascii) : Z :=
  u64 (UVA_BASE + 0x10000 + u8 (Z.of_N (code c) - Z.of_N (code "A"%char)) * 0x1000 + 0x40).

(** A run of the routine, entered again after each fault with any registers;
    between two entries the supervisor and the harness may write anything but
    the code, the tables and the list. *)
Definition keeps_list (m m' : mem) : Prop :=
  m_len m' = m_len m ∧ (∀ a, code_byte a → byte_at m' a = byte_at m a) ∧
  ∀ a, O_LIST <= a < O_LIST + 112 → byte_at m' a = byte_at m a.
Inductive pattern_trace : mem → list Z → Z → Prop :=
| trace_report m regs rf l c :
    length regs = 16%nat →
    run 10 (Cpu regs (UVA_CODE + UCODE_PATTERN) rf true main_cr3 m) = Some (Mmio MMIO_REPORT l, c) →
    pattern_trace m [] (unle l)
| trace_fault m regs rf va c m' vas r :
    length regs = 16%nat →
    run 10 (Cpu regs (UVA_CODE + UCODE_PATTERN) rf true main_cr3 m) = Some (PageFault va, c) →
    keeps_list (cmem c) m' → pattern_trace m' vas r → pattern_trace m (va :: vas) r.

Definition list_at (m : mem) (k : nat) (vas : list Z) : Prop :=
  get 8 O_LIST m = Some (Z.of_nat k) ∧
  get 8 (O_LIST + 8 + PATTERN_MAX * 8) m = Some (Z.of_nat (length vas)) ∧
  ∀ i va, vas !! i = Some va → get 8 (O_LIST + 8 + Z.of_nat i * 8) m = Some va.

Lemma put_words_gets vs : ∀ off m m', put_words off vs m = Some m' → Forall (λ v, 0 <= v < 2 ^ 64) vs → 0 <= off →
  m_len m' = m_len m ∧
  (∀ a, a < off ∨ off + 8 * Z.of_nat (length vs) <= a → byte_at m' a = byte_at m a) ∧
  (∀ i v, vs !! i = Some v → get 8 (off + Z.of_nat i * 8) m' = Some v).
Proof.
  induction vs as [|v vs IH]; intros off m m' Hp Hvs Hoff.
  { injection Hp as <-. split_and!; [done|done|]. intros i v Hi. by rewrite lookup_nil in Hi. }
  cbn [put_words] in Hp. apply bind_Some in Hp as (m1&P1&Hp). apply Forall_cons in Hvs as [Hv Hvs].
  destruct (IH _ _ _ Hp Hvs ltac:(lia)) as (Hl&Hb&Hg). cbn [length]. split_and!.
  - by rewrite Hl, (put_len _ _ _ _ P1).
  - intros a Ha. rewrite Hb by lia. apply (byte_at_other _ _ _ _ _ P1). rewrite le_length. lia.
  - intros [|i] w Hi; cbn in Hi.
    + injection Hi as ->. replace (off + Z.of_nat 0 * 8) with off by lia.
      rewrite <- (get_same _ _ _ _ _ P1 Hv). unfold get, fits. rewrite Hl.
      replace (bytes_at m' off 8) with (bytes_at m1 off 8); [done|]. unfold bytes_at. apply list_fmap_ext.
      intros j x Hj. apply lookup_seq in Hj as [-> Hj]. symmetry. apply Hb. lia.
    + replace (off + Z.of_nat (S i) * 8) with (off + 8 + Z.of_nat i * 8) by lia. by apply Hg.
Qed.

Lemma setPattern_list vas m m' pv : setPattern vas m = Some m' → code_of pv m →
  (length vas <= 12)%nat → Forall (λ v, 0 <= v < 2 ^ 64) vas →
  code_of pv m' ∧ m_len m' = m_len m ∧ list_at m' 0 vas.
Proof.
  intros Hs Hm Hn Hvs. unfold setPattern in Hs.
  apply bind_Some in Hs as (m1&P1&Hs). apply bind_Some in Hs as (m2&P2&P3).
  change O_LIST with 0xc100 in *. change PATTERN_MAX with 12 in *.
  destruct (put_words_gets vas _ _ _ P2 Hvs ltac:(lia)) as (Hl&Hb&Hg).
  assert (m_len m' = m_len m) as Hlen by (rewrite (put_len _ _ _ _ P3), Hl; apply (put_len _ _ _ _ P1)).
  assert (∀ a, a < 0xc100 ∨ 0xc170 <= a → byte_at m' a = byte_at m a) as Hout.
  { intros a Ha. rewrite (byte_at_other _ _ _ _ _ P3), Hb, (byte_at_other _ _ _ _ _ P1); [done|..];
      rewrite ?le_length; lia. }
  split; [|split]; [|done|].
  - destruct Hm as [Hm0 Hm]. split; [lia|]. intros a Ha. rewrite Hout by (unfold code_byte in Ha; lia). by apply Hm.
  - unfold list_at. change O_LIST with 0xc100. change PATTERN_MAX with 12. split_and!.
    + rewrite (get_other _ _ _ _ _ _ P3) by (rewrite ?le_length; lia).
      pose proof (get_same _ _ _ _ _ P1 ltac:(lia)) as Hz. change (Z.of_nat 0) with 0. rewrite <- Hz.
      unfold get, fits. rewrite Hl. replace (bytes_at m2 0xc100 8) with (bytes_at m1 0xc100 8); [done|]. unfold bytes_at. apply list_fmap_ext.
      intros j x Hj. apply lookup_seq in Hj as [-> Hj]. symmetry. apply Hb. lia.
    + apply (get_same _ _ _ _ _ P3). lia.
    + intros i va Hi. rewrite (get_other _ _ _ _ _ _ P3); [by apply Hg|].
      apply lookup_lt_Some in Hi. rewrite ?le_length. lia.
Qed.

Lemma list_kept m m' k vas : keeps_list m m' → (length vas <= 12)%nat → list_at m k vas → list_at m' k vas.
Proof.
  intros (Hl&_&Hb) Hn (H1&H2&H3).
  assert (∀ o, 0xc100 <= o → o + 8 <= 0xc170 → get 8 o m' = get 8 o m) as Hg.
  { intros o ??. unfold get, fits. rewrite Hl. replace (bytes_at m' o 8) with (bytes_at m o 8); [done|].
    unfold bytes_at. apply list_fmap_ext. intros j x Hj. apply lookup_seq in Hj as [-> Hj]. symmetry. apply Hb.
    change O_LIST with 0xc100. lia. }
  unfold list_at in *. change O_LIST with 0xc100 in *. change PATTERN_MAX with 12 in *.
  split_and!; [by rewrite Hg by lia|by rewrite Hg by lia|].
  intros i va Hi. rewrite Hg; [by apply H3| |]; apply lookup_lt_Some in Hi; lia.
Qed.
Lemma code_kept pv m m' : keeps_list m m' → code_of pv m → code_of pv m'.
Proof. intros (Hl&Hb&_) [H1 H2]. split; [lia|]. intros a Ha. rewrite Hb by done. by apply H2. Qed.

(** Between two entries nothing has to change. *)
Lemma keeps_refl m : keeps_list m m.
Proof. done. Qed.

(** One entry at count [k]: a fault on the next address, or the report. *)
Lemma pattern_entry regs rf m k vas : length regs = 16%nat → code_of false m →
  m_len m <= MMIO_REPORT - GUEST_PHYS_BASE → (k <= length vas <= 12)%nat →
  Forall (λ va, 0 <= va < 2 ^ 64 ∧ unmapped va) vas → list_at m k vas →
  match vas !! k with
  | Some va => ∃ c, run 10 (Cpu regs (UVA_CODE + UCODE_PATTERN) rf true main_cr3 m) = Some (PageFault va, c) ∧
      code_of false (cmem c) ∧ m_len (cmem c) = m_len m ∧ list_at (cmem c) (S k) vas
  | None => ∃ c, run 10 (Cpu regs (UVA_CODE + UCODE_PATTERN) rf true main_cr3 m)
      = Some (Mmio MMIO_REPORT (le 4 (Z.of_nat (length vas))), c)
  end.
Proof.
  intros Hr Hm Hlen Hk Hvs (H1&H2&H3). destruct (vas !! k) as [va|] eqn:E.
  - pose proof (lookup_lt_Some _ _ _ E) as Hlt. rewrite Forall_lookup in Hvs. destruct (Hvs _ _ E) as [Hva Hun].
    destruct (pattern_fault regs rf m (Z.of_nat k) (Z.of_nat (length vas)) va Hr Hm ltac:(lia)
      ltac:(unfold PATTERN_MAX; lia) Hva H1 H2 (H3 _ _ E) Hun) as (m'&c&P&Hrun&<-&_).
    exists c. split; [exact (run_more 7 3 _ _ Hrun)|]. split_and!.
    + eapply code_put; [exact Hm|exact P|]. rewrite le_length. by apply stack_off.
    + apply (put_len _ _ _ _ P).
    + unfold list_at. replace (Z.of_nat (S k)) with (Z.of_nat k + 1) by lia. split_and!.
      * apply (get_same _ _ _ _ _ P). lia.
      * rewrite (get_other _ _ _ _ _ _ P); [exact H2|]. rewrite le_length. right. by vm_compute.
      * intros i w Hi. rewrite (get_other _ _ _ _ _ _ P); [by apply H3|]. rewrite le_length. clear. lia.
  - apply lookup_ge_None in E.
    destruct (pattern_report regs rf m (Z.of_nat k) (Z.of_nat (length vas)) Hr Hm Hlen H1 H2 ltac:(lia)) as (c&Hrun&_).
    exists c. replace (length vas) with k by lia. exact (run_more 6 4 _ _ Hrun).
Qed.

Lemma pattern_from m k vas fs r : code_of false m → m_len m <= MMIO_REPORT - GUEST_PHYS_BASE →
  (k <= length vas <= 12)%nat → Forall (λ va, 0 <= va < 2 ^ 64 ∧ unmapped va) vas → list_at m k vas →
  pattern_trace m fs r → fs = drop k vas ∧ r = Z.of_nat (length vas).
Proof.
  intros Hm Hlen Hk Hvs Hl Ht. revert k Hm Hlen Hk Hl.
  induction Ht as [m regs rf l c Hr Hrun|m regs rf va c m' fs r Hr Hrun Hkeep Ht IH]; intros k Hm Hlen Hk Hl;
    pose proof (pattern_entry regs rf m k vas Hr Hm Hlen Hk Hvs Hl) as He.
  - destruct (vas !! k) as [va|] eqn:E; destruct He as (c'&He); [destruct He as [He _]|]; rewrite Hrun in He; [done|].
    assert (l = le 4 (Z.of_nat (length vas))) as -> by congruence. apply lookup_ge_None in E. split; [by rewrite drop_ge|].
    apply unle_le. lia.
  - destruct (vas !! k) as [va'|] eqn:E; destruct He as (c'&He); [destruct He as (He&Hc&Hl'&Hli)|]; rewrite Hrun in He; [|done].
    assert (va' = va) as -> by congruence. assert (c' = c) as -> by congruence.
    pose proof (lookup_lt_Some _ _ _ E).
    destruct (IH (S k)) as [-> ->]; [by eapply code_kept| |lia|eapply list_kept; [done|lia|done]|].
    + destruct Hkeep as [-> _]. lia.
    + split; [|done]. by rewrite <- (drop_S _ _ _ E).
Qed.

(** It always gets to the end. *)
Lemma pattern_total m k vas : code_of false m → m_len m <= MMIO_REPORT - GUEST_PHYS_BASE →
  (k <= length vas <= 12)%nat → Forall (λ va, 0 <= va < 2 ^ 64 ∧ unmapped va) vas → list_at m k vas →
  ∃ fs r, pattern_trace m fs r.
Proof.
  intros Hm Hlen Hk Hvs. remember (length vas - k)%nat as n eqn:Hn. revert m k Hm Hlen Hk Hn.
  induction n as [|n IH]; intros m k Hm Hlen Hk Hn Hl;
    pose proof (pattern_entry (repeat 0 16) 2 m k vas eq_refl Hm Hlen Hk Hvs Hl) as He.
  - rewrite lookup_ge_None_2 in He by lia. destruct He as [c Hrun]. eexists _, _.
    eapply trace_report; [|exact Hrun]. reflexivity.
  - destruct (lookup_lt_is_Some_2 vas k ltac:(lia)) as [va E]. rewrite E in He. destruct He as (c&Hrun&Hc&Hl'&Hli).
    destruct (IH (cmem c) (S k) Hc ltac:(lia) ltac:(lia) ltac:(lia) Hli) as (fs&r&Ht).
    exists (va :: fs), r. eapply trace_fault; [|exact Hrun|apply keeps_refl|exact Ht]. reflexivity.
Qed.

(** C26: the pattern routine reads its list in order.  After the harness has
    laid out at most 12 unmapped addresses for it, the routine, entered in
    user mode again and again with any registers while everything but its
    code and its list may change in between, faults on exactly those
    addresses, each once and in their order, and then reports how many there
    were; such a run exists, so it does not get stuck. *)
Theorem pattern_in_order m0 g0 g vas m :
  buildGuest m0 g0 = Some g → pgtblVariant g0 = false →
  0xf000 <= m_len m0 <= MMIO_REPORT - GUEST_PHYS_BASE →
  (length vas <= 12)%nat → Forall (λ va, 0 <= va < 2 ^ 64 ∧ unmapped va) vas →
  setPattern vas (g_mem g) = Some m →
  (∃ fs r, pattern_trace m fs r) ∧
  ∀ fs r, pattern_trace m fs r → fs = vas ∧ r = Z.of_nat (length vas).
Proof.
  rewrite buildGuest_eq. case_match; [|done]. intros [= <-] -> Hlen Hn Hvs Hset.
  assert (code_of false (g_mem (built (m_len m0) false))) as Hm.
  { split; [|done]. change (0xf000 <= m_len m0). lia. }
  destruct (setPattern_list _ _ _ _ Hset Hm Hn) as (Hc&Hl&Hli).
  { eapply Forall_impl; [exact Hvs|]. by intros ? []. }
  cbn [g_mem m_len built] in Hl. split.
  - apply (pattern_total m 0 vas); [done|lia|lia|done|done].
  - intros fs r Ht. exact (pattern_from m 0 vas fs r Hc ltac:(lia) ltac:(lia) Hvs Hli Ht).
Qed.
Definition ex_pattern : list Z := pattern_va <$> ["A"; "A"; "B"; "C"; "B"; "C"; "B"; "C"]%char.
Definition ex_pattern_mem : mem := default vm_mem (setPattern ex_pattern (g_mem ex_guest)).
Lemma pattern_in_order_witness :
  length ex_pattern = 8%nat ∧ ∀ fs r, pattern_trace ex_pattern_mem fs r → fs = ex_pattern ∧ r = 8.
Proof.
  split; [done|].
  exact (proj2 (pattern_in_order vm_mem (guest0 false) ex_guest ex_pattern ex_pattern_mem
    (buildGuest_eq vm_mem (guest0 false)) eq_refl ltac:(vm_compute; split; congruence)
    ltac:(apply (bool_decide_unpack _); vm_compute; exact I)
    ltac:(repeat constructor; vm_compute; congruence)
    ltac:(vm_compute; reflexivity))).
Defined.
