(* ===== verification/Float64.v ===== *)
(** * IEEE double precision

    Go's float64 through the Standard Library's specification of floating
    point: conversion from integers, the arithmetic the program uses, its
    comparisons, its minimum and maximum, and the [%.Nf] and [%.6g] of fmt (the
    exact value rounded to the decimals asked for, ties to even). *)
From Stdlib Require Import Ascii SpecFloat.
From S2P Require Import Prelude GoStrings.

#[local] Open Scope Z_scope.

Definition prec : Z := 53.
Definition emax : Z := 1024.
Definition float64 (z : Z) : spec_float := binary_normalize prec emax z 0 false.
Definition fsub : spec_float → spec_float → spec_float := SFsub prec emax.
Definition fadd : spec_float → spec_float → spec_float := SFadd prec emax.
Definition fmul : spec_float → spec_float → spec_float := SFmul prec emax.
Definition fdiv : spec_float → spec_float → spec_float := SFdiv prec emax.
(** Comparisons: false when an operand is not a number. *)
Definition fle (a b : spec_float) : bool := SFleb a b.
Definition flt (a b : spec_float) : bool := SFltb a b.
Definition feq (a b : spec_float) : bool := SFeqb a b.

(** [n / d] rounded to the nearest integer, ties to even. *)
Definition round_even (n d : Z) : Z :=
  let q := n / d in let r := n mod d in
  if 2 * r <? d then q else if d <? 2 * r then q + 1 else if Z.even q then q else q + 1.
(** The exact value of a finite [m * 2 ^ e], as a numerator and a denominator. *)
Definition ratio (m : positive) (e : Z) : Z * Z :=
  if 0 <=? e then (Zpos m * 2 ^ e, 1) else (Zpos m, 2 ^ (- e)).
Definition fixed (k : nat) (c : Z) : string :=
  match k with
  | O => itoa c
  | _ => itoa (c / 10 ^ Z.of_nat k) +:+ "." +:+ pad_left "0"%char k (itoa (c mod 10 ^ Z.of_nat k))
  end.
Definition minus (s : bool) : string := if s then "-" else "".
(** [%.Nf]. *)
Definition fmt_f (k : nat) (f : spec_float) : string :=
  match f with
  | S754_nan => "NaN"
  | S754_infinity s => if s then "-Inf" else "+Inf"
  | S754_zero s => minus s +:+ fixed k 0
  | S754_finite s m e =>
      let '(n, d) := ratio m e in minus s +:+ fixed k (round_even (n * 10 ^ Z.of_nat k) d)
  end.
Definition fmt_2f : spec_float → string := fmt_f 2.
(** [%+.Nf]: the sign is always there. *)
Definition fmt_plus_f (k : nat) (f : spec_float) : string :=
  let t := fmt_f k f in if has_prefix t "-" || has_prefix t "+" then t else "+" +:+ t.

(** [%.6g]: six significant digits without the zeros at the end, the exponent
    written out below -4 and from 6 on. *)
Definition decimal_exp (n d : Z) : Z :=
  if d <=? n then Z.of_nat (slen (itoa (n / d))) - 1
  else - Z.of_nat (slen (itoa ((d + n - 1) / n - 1))).
Definition round6 (n d x : Z) : Z :=
  if x <=? 5 then round_even (n * 10 ^ (5 - x)) d else round_even n (d * 10 ^ (x - 5)).
(** The digits and their decimal exponent. *)
Definition digits6 (n d : Z) : string * Z :=
  let x := decimal_exp n d in
  let c := round6 n d x in
  let '(c, x) := if c =? 10 ^ 6 then (10 ^ 5, x + 1) else (c, x) in
  (trim_right (ceq "0") (itoa c), x).
Definition dotted (a b : string) : string := if seqb b "" then a else a +:+ "." +:+ b.
Definition layout_g (ds : string) (x : Z) : string :=
  if (x <? -4) || (6 <=? x) then
    dotted (stake 1 ds) (sdrop 1 ds) +:+ "e" +:+ (if x <? 0 then "-" else "+") +:+
    pad_left "0"%char 2 (itoa (Z.abs x))
  else if x <? 0 then "0." +:+ repeat_char "0" (Z.to_nat (- x - 1)) +:+ ds
  else
    let dp := Z.to_nat (x + 1) in
    dotted (stake dp ds +:+ repeat_char "0" (dp - slen ds)) (sdrop dp ds).
Definition fmt_6g (f : spec_float) : string :=
  match f with
  | S754_nan => "NaN"
  | S754_infinity s => if s then "-Inf" else "+Inf"
  | S754_zero s => minus s +:+ "0"
  | S754_finite s m e => let '(n, d) := ratio m e in let '(ds, x) := digits6 n d in minus s +:+ layout_g ds x
  end.

Example fmt_ex : fmt_2f (fdiv (float64 101) (float64 200)) = "0.51" ∨ fmt_2f (fdiv (float64 101) (float64 200)) = "0.50".
Proof. vm_compute. auto. Qed.
Example fle_ex : fle (fdiv (float64 1) (float64 2)) (fdiv (fsub (float64 300) (float64 200)) (float64 200)) = true.
Proof. vm_compute. reflexivity. Qed.

Definition tenths (n : Z) : spec_float := fdiv (float64 n) (float64 10).
Example fmt_6g_ex :
  fmt_6g <$> [tenths 15; float64 1000000; float64 123456; float64 1234567; float64 (-100000); tenths 3;
              fdiv (float64 1) (float64 30000); fdiv (float64 9999999) (float64 10); fdiv (float64 1) (float64 3); float64 0]
  = ["1.5"; "1e+06"; "123456"; "1.23457e+06"; "-100000"; "0.3"; "3.33333e-05"; "1e+06"; "0.333333"; "0"].
Proof. vm_compute. reflexivity. Qed.
Example fmt_f_ex :
  (fmt_f 1 <$> [tenths 15; tenths (-4); fdiv (float64 1) (float64 4)]) = ["1.5"; "-0.4"; "0.2"] ∧
  fmt_f 0 (tenths 15) = "2" ∧ fmt_plus_f 1 (tenths 15) = "+1.5" ∧ fmt_plus_f 1 (tenths (-15)) = "-1.5".
Proof. vm_compute. done. Qed.

(** ** Order

    Numbers are ordered by sign, exponent and mantissa, NaN before all of
    them: the order of [sort.Float64s]. *)
Definition is_nan (f : spec_float) : bool := match f with S754_nan => true | _ => false end.
Definition okey (f : spec_float) : Z * Z * Z :=
  match f with
  | S754_nan => (-3, 0, 0)
  | S754_infinity s => (if s then -2 else 2, 0, 0)
  | S754_zero _ => (0, 0, 0)
  | S754_finite true m e => (-1, - e, - Zpos m)
  | S754_finite false m e => (1, e, Zpos m)
  end.
Definition klt (x y : Z * Z * Z) : Prop :=
  x.1.1 < y.1.1 ∨ x.1.1 = y.1.1 ∧ (x.1.2 < y.1.2 ∨ x.1.2 = y.1.2 ∧ x.2 < y.2).
(** [x < y || isNaN(x) && !isNaN(y)]. *)
Definition float_less (a b : spec_float) : bool := flt a b || (is_nan a && negb (is_nan b)).

Lemma compare_key a b : is_nan a = false → is_nan b = false →
  match SFcompare a b with
  | Some Lt => klt (okey a) (okey b)
  | Some Eq => okey a = okey b
  | Some Gt => klt (okey b) (okey a)
  | None => False
  end.
Proof.
  unfold klt. intros Ha Hb. destruct a as [[]|[]| |[] m e], b as [[]|[]| |[] m' e']; try done; cbn; try lia.
  all: destruct (Z.compare_spec e e'); cbn; try lia; subst.
  all: fold (Pos.compare m m'); destruct (Pos.compare_spec m m'); subst; cbn; first [done|lia].
Qed.
Lemma nan_compare a b : is_nan a = true ∨ is_nan b = true → SFcompare a b = None.
Proof. destruct a, b; cbn; naive_solver. Qed.
Lemma flt_key a b : flt a b = true ↔ is_nan a = false ∧ is_nan b = false ∧ klt (okey a) (okey b).
Proof.
  unfold flt, SFltb. destruct (is_nan a) eqn:Ha; [rewrite nan_compare by auto; naive_solver|].
  destruct (is_nan b) eqn:Hb; [rewrite nan_compare by auto; naive_solver|].
  pose proof (compare_key a b Ha Hb) as H. unfold klt in *.
  destruct (SFcompare a b) as [[]|]; [rewrite H in *|..]; split; intros; try done; try lia.
  all: repeat split; try done; lia.
Qed.
Lemma fle_key a b : fle a b = true ↔ is_nan a = false ∧ is_nan b = false ∧ ¬ klt (okey b) (okey a).
Proof.
  unfold fle, SFleb. destruct (is_nan a) eqn:Ha; [rewrite nan_compare by auto; naive_solver|].
  destruct (is_nan b) eqn:Hb; [rewrite nan_compare by auto; naive_solver|].
  pose proof (compare_key a b Ha Hb) as H. unfold klt in *.
  destruct (SFcompare a b) as [[]|]; [rewrite H in *|..]; split; intros; try done; try lia.
  all: repeat split; try done; lia.
Qed.
Lemma nan_klt a b : is_nan a = true → is_nan b = false → klt (okey a) (okey b).
Proof. unfold klt. destruct a as [[]|[]| |[] ? ?], b as [[]|[]| |[] ? ?]; try done; intros _ _; cbn; lia. Qed.
Lemma float_less_key a b : float_less a b = true ↔ klt (okey a) (okey b).
Proof.
  unfold float_less. rewrite orb_true_iff, andb_true_iff, flt_key, negb_true_iff.
  split; [intros [(_&_&H)|[Ha Hb]]; [done|by apply nan_klt]|]. intros H.
  destruct (is_nan a) eqn:Ha; [right|left]; (split; [done|]).
  - destruct b; try done. destruct a; try done. revert H. unfold klt. cbn. lia.
  - split; [|done]. destruct b; try done. revert H. unfold klt. destruct a as [[]|[]| |[] ? ?]; try done; cbn; lia.
Qed.
#[export] Instance float_less_strict : StrictWeak float_less.
Proof.
  assert (∀ a b, float_less a b = false ↔ ¬ klt (okey a) (okey b)) as Hf
    by (intros a b; rewrite <- float_less_key; by destruct (float_less a b)).
  split; intros a b; [|intros c]; rewrite !Hf, ?float_less_key; unfold klt; lia.
Qed.

(** [math.Min] and [math.Max]. *)
Definition is_inf (f : spec_float) (neg : bool) : bool :=
  match f with S754_infinity s => Bool.eqb s neg | _ => false end.
Definition signbit (f : spec_float) : bool :=
  match f with S754_zero s | S754_infinity s | S754_finite s _ _ => s | S754_nan => false end.
Definition fzero : spec_float := S754_zero false.
Definition Min (x y : spec_float) : spec_float :=
  if is_inf x true || is_inf y true then S754_infinity true
  else if is_nan x || is_nan y then S754_nan
  else if feq x fzero && feq x y then (if signbit x then x else y)
  else if flt x y then x else y.
Definition Max (x y : spec_float) : spec_float :=
  if is_inf x false || is_inf y false then S754_infinity false
  else if is_nan x || is_nan y then S754_nan
  else if feq x fzero && feq x y then (if signbit x then y else x)
  else if flt y x then x else y.

Lemma feq_key a b : feq a b = true → okey a = okey b ∧ is_nan a = false ∧ is_nan b = false.
Proof.
  unfold feq, SFeqb. destruct (is_nan a) eqn:Ha; [by rewrite nan_compare by auto|].
  destruct (is_nan b) eqn:Hb; [by rewrite nan_compare by auto|].
  pose proof (compare_key a b Ha Hb) as H. by destruct (SFcompare a b) as [[]|].
Qed.
Lemma inf_key x s : is_inf x s = true → x = S754_infinity s.
Proof. destruct x as [|s'| |]; try done. cbn. by intros ->%eqb_prop. Qed.
Lemma inf_extreme a : is_nan a = false → fle (S754_infinity true) a = true ∧ fle a (S754_infinity false) = true.
Proof. by destruct a as [[]|[]| |[]]. Qed.
Lemma fle_refl a : is_nan a = false → fle a a = true.
Proof. intros H. apply fle_key. unfold klt. repeat split; [done..|lia]. Qed.
Lemma fle_trans a b c : fle a b = true → fle b c = true → fle a c = true.
Proof. rewrite !fle_key. unfold klt. intros (?&?&?) (?&?&?). repeat split; [done..|lia]. Qed.
Lemma flt_le_trans a b c : flt a b = true → fle b c = true → flt a c = true.
Proof. rewrite !flt_key, fle_key. unfold klt. intros (?&?&?) (?&?&?). repeat split; [done..|lia]. Qed.
Lemma fle_lt_trans a b c : fle a b = true → flt b c = true → flt a c = true.
Proof. rewrite !flt_key, fle_key. unfold klt. intros (?&?&?) (?&?&?). repeat split; [done..|lia]. Qed.
Lemma flt_fle a b : is_nan a = false → is_nan b = false → flt a b = negb (fle b a).
Proof.
  intros Ha Hb. apply eq_true_iff_eq. rewrite negb_true_iff, <- not_true_iff_false, flt_key, fle_key.
  unfold klt. split; [intros (_&_&?) (_&_&?); lia|]. intros H. repeat split; [done..|]. destruct (okey a) as [[? ?] ?], (okey b) as [[? ?] ?]. cbn in *.
  match goal with |- ?G => assert (¬ ¬ G) end; [|lia]. intros Hn. apply H. repeat split; [done..|lia].
Qed.
