(* ===== verification/HostOps.v ===== *)
(** * The harness of the host tests

    tools/hosttests/internal/harness: tap.go (the result lines), strerror.go,
    vm.go (a VM with one vCPU) and the run-structure accessors of
    internal/kvm/uapi.go.  The host tests are programs ([Prog]) over the
    system calls of [hop]; what the kernel, the guest it runs and the other
    goroutines do is in the answers.  The memory of the VM is handed to
    [KvmRun] and comes back as the guest left it.  A loop of the source that
    may go on for ever takes fuel and calls [Hang], which has no answer, when
    it runs out.  A Go panic is [Exit 2], as the runtime does. *)
From Stdlib Require Import Ascii.
From S2P Require Import Prelude GoStrings Bits Abi Guest Prog.

#[local] Open Scope Z_scope.

(** ** Structures the kernel reads and writes *)
Record kregs := KRegs { gprs : list Z; k_rip : Z; k_rflags : Z }.
Record segment := Seg { s_base : Z; s_limit : Z; s_selector : Z; s_type : Z; s_present : Z;
  s_dpl : Z; s_db : Z; s_s : Z; s_l : Z; s_g : Z; s_avl : Z; s_unusable : Z }.
Record sregs := KSregs { cs : segment; ds : segment; es : segment; fs : segment; gs : segment; ss : segment;
  tr : segment; ldt : segment; gdt : Z * Z; idt : Z * Z; cr0 : Z; cr2 : Z; cr3 : Z; cr4 : Z; cr8 : Z;
  efer : Z; apic_base : Z; interrupt_bitmap : list Z }.
Definition seg0 : segment := Seg 0 0 0 0 0 0 0 0 0 0 0 0.
Definition sregs0 : sregs :=
  KSregs seg0 seg0 seg0 seg0 seg0 seg0 seg0 seg0 (0, 0) (0, 0) 0 0 0 0 0 0 0 [0; 0; 0; 0].
Definition regs0 : kregs := KRegs (repeat 0 16) 0 0.
Record cpuid_entry := Entry { c_function : Z; c_index : Z; c_flags : Z; c_regs : list Z (* eax ebx ecx edx *) }.
(** struct kvm_cpuid2: [c_entries] are all the entries of the array. *)
Record cpuid2 := Cpuid2 { c_nent : Z; c_entries : list cpuid_entry }.
Record region := Region { r_slot : Z; r_flags : Z; r_gpa : Z; r_size : Z; r_hva : Z }.
Record msr_entry := Msr { m_index : Z; m_value : Z }.
(** What is read of a kvm_run: the exit reason and the bytes of the exit union. *)
Record krun := KRun { exit_reason : Z; exit_bytes : list Z }.

(** ** System calls *)
Inductive shape : Set → Type :=
| SMsr : shape msr_entry | SRegs : shape kregs | SSregs : shape sregs | SCpuid : shape cpuid2
| SXSave : shape (list Z) | SRegion : shape region.

Inductive hop : Type → Type :=
| Out (s : string) : hop unit
| ErrOut (s : string) : hop unit
| OpenFile (path : string) (flags : Z) : hop (Z * Z)            (* fd, errno *)
| CloseFd (fd : Z) : hop unit
| ReadFirst (path : string) (n : Z) : hop (option string)       (* one read of a file, if it opens *)
| ReadAll (path : string) : hop (option string)                 (* all of it *)
| IoctlVal (fd req arg : Z) : hop (Z * Z)                       (* value, errno *)
| IoctlPtr {T : Set} (s : shape T) (fd req : Z) (arg : T) : hop (Z * Z * T)
| KvmRun (fd : Z) (m : mem) : hop (Z * Z * mem)
| RunPage (addr : Z) : hop krun                                 (* the kvm_run mapped there *)
| Mmap (fd len prot flags : Z) : hop (Z * Z)                    (* address, errno *)
| Munmap (addr : Z) : hop unit
| Pread (fd n off : Z) : hop (list Z * Z)                       (* bytes, errno *)
| Hang : hop Empty_set
| Alarm (seconds : Z) : hop unit                                (* startAlarm *)
| Fired : hop bool                                              (* a.fired.Load() *)
| CancelAlarm : hop unit
| Load (name : string) : hop Z                                  (* an atomic another goroutine shares *)
| Store (name : string) (v : Z) : hop unit
| Add (name : string) (v : Z) : hop unit
| Go (name : string) : hop unit                                 (* start that goroutine *)
| Join (name : string) : hop unit                               (* wait until it is done *)
| Sleep (us : Z) : hop unit
| RaiseNofile : hop unit                                        (* RLIMIT_NOFILE to its maximum *)
| Gettid : hop Z
| Getaffinity (tid : Z) : hop (list Z * Z)
| Setaffinity (tid : Z) (cpus : list Z) : hop Z
| CpuidInsn (leaf sub : Z) : hop (list Z)
| Rdpkru : hop Z.
Abbreviation host := (prog hop).
Definition out (s : string) : host unit := call (Out s).
Definition hang {A} : host A := Do Hang (λ e : Empty_set, match e with end).
Definition panic {A} : host A := Exit 2.

(** ** strerror.go *)
Definition glibcErrors : list string := [
  "Success"; "Operation not permitted"; "No such file or directory"; "No such process";
  "Interrupted system call"; "Input/output error"; "No such device or address"; "Argument list too long";
  "Exec format error"; "Bad file descriptor"; "No child processes"; "Resource temporarily unavailable";
  "Cannot allocate memory"; "Permission denied"; "Bad address"; "Block device required";
  "Device or resource busy"; "File exists"; "Invalid cross-device link"; "No such device"; "Not a directory";
  "Is a directory"; "Invalid argument"; "Too many open files in system"; "Too many open files";
  "Inappropriate ioctl for device"; "Text file busy"; "File too large"; "No space left on device";
  "Illegal seek"; "Read-only file system"; "Too many links"; "Broken pipe";
  "Numerical argument out of domain"; "Numerical result out of range"; "Resource deadlock avoided";
  "File name too long"; "No locks available"; "Function not implemented"; "Directory not empty";
  "Too many levels of symbolic links"; "Unknown error 41"; "No message of desired type";
  "Identifier removed"; "Channel number out of range"; "Level 2 not synchronized"; "Level 3 halted";
  "Level 3 reset"; "Link number out of range"; "Protocol driver not attached"; "No CSI structure available";
  "Level 2 halted"; "Invalid exchange"; "Invalid request descriptor"; "Exchange full"; "No anode";
  "Invalid request code"; "Invalid slot"; "Unknown error 58"; "Bad font file format"; "Device not a stream";
  "No data available"; "Timer expired"; "Out of streams resources"; "Machine is not on the network";
  "Package not installed"; "Object is remote"; "Link has been severed"; "Advertise error"; "Srmount error";
  "Communication error on send"; "Protocol error"; "Multihop attempted"; "RFS specific error"; "Bad message";
  "Value too large for defined data type"; "Name not unique on network"; "File descriptor in bad state";
  "Remote address changed"; "Can not access a needed shared library"; "Accessing a corrupted shared library";
  ".lib section in a.out corrupted"; "Attempting to link in too many shared libraries";
  "Cannot exec a shared library directly"; "Invalid or incomplete multibyte or wide character";
  "Interrupted system call should be restarted"; "Streams pipe error"; "Too many users";
  "Socket operation on non-socket"; "Destination address required"; "Message too long";
  "Protocol wrong type for socket"; "Protocol not available"; "Protocol not supported";
  "Socket type not supported"; "Operation not supported"; "Protocol family not supported";
  "Address family not supported by protocol"; "Address already in use"; "Cannot assign requested address";
  "Network is down"; "Network is unreachable"; "Network dropped connection on reset";
  "Software caused connection abort"; "Connection reset by peer"; "No buffer space available";
  "Transport endpoint is already connected"; "Transport endpoint is not connected";
  "Cannot send after transport endpoint shutdown"; "Too many references: cannot splice";
  "Connection timed out"; "Connection refused"; "Host is down"; "No route to host";
  "Operation already in progress"; "Operation now in progress"; "Stale file handle";
  "Structure needs cleaning"; "Not a XENIX named type file"; "No XENIX semaphores available";
  "Is a named type file"; "Remote I/O error"; "Disk quota exceeded"; "No medium found"; "Wrong medium type";
  "Operation canceled"; "Required key not available"; "Key has expired"; "Key has been revoked";
  "Key was rejected by service"; "Owner died"; "State not recoverable";
  "Operation not possible due to RF-kill"; "Memory page has hardware error"].
(** An error of package syscall: [None] is nil, [Some e] the errno [e]. *)
Definition goerr := option Z.
Definition Strerror (err : goerr) : string :=
  match err with
  | None => default "" (glibcErrors !! 0%nat)
  | Some e =>
      if (0 <=? e) && (e <? Z.of_nat (length glibcErrors)) then default "" (glibcErrors !! Z.to_nat e)
      else "Unknown error " +:+ itoa e
  end.

(** ** tap.go *)
(** The package variables [pass], [fail] and [Case]. *)
Record tap := Tap { t_pass : Z; t_fail : Z; t_case : string }.
Definition tap0 : tap := Tap 0 0 "".
Definition set_case (name : string) (t : tap) : tap := Tap (t_pass t) (t_fail t) name.

Definition Ok (detail : string) (t : tap) : host tap :=
  let t := Tap (t_pass t + 1) (t_fail t) (t_case t) in
  out ("ok " +:+ itoa (t_pass t + t_fail t) +:+ " - " +:+ t_case t +:+ " (" +:+ detail +:+ ")" +:+ nl) ;; Ret t.
Definition Nok (message : string) (t : tap) : host tap :=
  let t := Tap (t_pass t) (t_fail t + 1) (t_case t) in
  out ("not ok " +:+ itoa (t_pass t + t_fail t) +:+ " - " +:+ t_case t +:+ ": " +:+ message +:+ nl) ;; Ret t.
Definition Die {A} (what : string) (err : goerr) : host A :=
  call (ErrOut ("bail out! " +:+ what +:+ ": " +:+ Strerror err +:+ nl)) ;;
  out ("Bail out! " +:+ what +:+ ": " +:+ Strerror err +:+ nl) ;; Exit 2.
Definition Skip : host unit := out ("1..0 # SKIP kvm_pvm is not the loaded vendor module" +:+ nl).
Definition Finish (t : tap) : host Z :=
  let result := if negb (t_fail t =? 0) then "fail" else "ok" in
  out ("1.." +:+ itoa (t_pass t + t_fail t) +:+ nl) ;;
  out ("PVMHOSTTEST-RESULT: " +:+ result +:+ " pass=" +:+ itoa (t_pass t) +:+ " fail=" +:+ itoa (t_fail t) +:+ nl) ;;
  Ret (if negb (t_fail t =? 0) then 1 else 0).
Definition Hex (v : Z) : string := if v =? 0 then "0" else fmt_hash_x v.
Definition B2I (b : bool) : Z := if b then 1 else 0.

(** ** vm.go *)
Definition X86_CR4_PKE : Z := Z.shiftl 1 22.
Definition MAX_CPUID_ENTRIES : Z := 256.
Definition EINTR : Z := 4.
Definition EINVAL : Z := 22.

(** The VM: its descriptors, the address its vCPU's kvm_run is mapped at, if it
    is, and the address of the guest's memory. *)
Record VM := Vm { v_kvm : Z; v_vm : Z; v_vcpu : Z; v_run : option Z; v_runsize : Z; v_mem : Z;
                  v_cpuid : cpuid2 }.
Definition set_vcpu (v : VM) (fd : Z) : VM :=
  Vm (v_kvm v) (v_vm v) fd (v_run v) (v_runsize v) (v_mem v) (v_cpuid v).
Definition set_run (v : VM) (r : option Z) : VM :=
  Vm (v_kvm v) (v_vm v) (v_vcpu v) r (v_runsize v) (v_mem v) (v_cpuid v).

Definition RunData (v : VM) : host krun :=
  match v_run v with Some addr => call (RunPage addr) | None => panic end.
(** A field of a structure in the exit union. *)
Definition exit_field (t : gotype) (n : string) (r : krun) : list Z :=
  match List.find (λ p, bool_decide (p_name p = n)) (fields_of t) with
  | Some p => take (Z.to_nat (p_size p)) (drop (Z.to_nat (p_start p)) (exit_bytes r))
  | None => []
  end.
Record mmio := MmioExit { PhysAddr : Z; Data : list Z; IsWrite : Z }.
Definition MMIO (r : krun) : mmio :=
  MmioExit (unle (exit_field RunMMIO "PhysAddr" r)) (exit_field RunMMIO "Data" r)
    (unle (exit_field RunMMIO "IsWrite" r)).
Definition Suberror (r : krun) : Z := unle (exit_field RunInternal "Suberror" r).

Definition Ioctl {T : Set} (s : shape T) (fd req : Z) (arg : T) : host (Z * Z * T) :=
  '(r, e, x) ← call (IoctlPtr s fd req arg);
  Ret (if negb (e =? 0) then (-1, e, x) else (r, 0, x)).
Definition IoctlInt (fd req arg : Z) : host (Z * Z) :=
  '(r, e) ← call (IoctlVal fd req arg);
  Ret (if negb (e =? 0) then (-1, e) else (r, 0)).
(** [IoctlInt(v.VCPU, kvm.RUN, 0)], with the memory the guest runs in. *)
Definition run_once (fd : Z) (m : mem) : host (Z * Z * mem) :=
  '(r, e, m) ← call (KvmRun fd m);
  Ret (if negb (e =? 0) then (-1, e, m) else (r, 0, m)).
Fixpoint KVMRun (fuel : nat) (vcpu : Z) (m : mem) : host (Z * Z * mem) :=
  match fuel with
  | O => hang
  | S fuel =>
      '(r, e, m) ← run_once vcpu m;
      if negb (e =? EINTR) then Ret (r, e, m) else KVMRun fuel vcpu m
  end.

Definition ExitReasonName (r : Z) : string :=
  if r =? EXIT_UNKNOWN then "UNKNOWN" else
  if r =? EXIT_EXCEPTION then "EXCEPTION" else
  if r =? EXIT_IO then "IO" else
  if r =? EXIT_HLT then "HLT" else
  if r =? EXIT_MMIO then "MMIO" else
  if r =? EXIT_SHUTDOWN then "SHUTDOWN" else
  if r =? EXIT_FAIL_ENTRY then "FAIL_ENTRY" else
  if r =? EXIT_INTR then "INTR" else
  if r =? EXIT_INTERNAL_ERROR then "INTERNAL_ERROR" else "?".

(** The entry array has [MAX_CPUID_ENTRIES] elements; an index past it
    panics ([None]). *)
Fixpoint CPUIDHas_go (fuel : nat) (i : Z) (c : cpuid2) (function index : Z) (reg : nat) (bit : Z) : option bool :=
  if c_nent c <=? i then Some false else
  match fuel, c_entries c !! Z.to_nat i with
  | S fuel, Some e =>
      if negb (c_function e =? function) then CPUIDHas_go fuel (i + 1) c function index reg bit else
      if negb (Z.land (c_flags e) CPUID_FLAG_SIGNIFCANT_INDEX =? 0) && negb (c_index e =? index)
      then CPUIDHas_go fuel (i + 1) c function index reg bit else
      Some (Z.testbit (default 0 (c_regs e !! reg)) bit)
  | _, _ => None
  end.
Definition CPUIDHas (c : cpuid2) (function index : Z) (reg : nat) (bit : Z) : option bool :=
  CPUIDHas_go (S (length (c_entries c))) 0 c function index reg bit.

Definition SetMSR (v : VM) (index data : Z) : host Z :=
  '(r, e, _) ← Ioctl SMsr (v_vcpu v) SET_MSRS (Msr index data);
  Ret (if r <? 0 then - e else r).
(** The result with [*data]. *)
Definition GetMSR (v : VM) (index data : Z) : host (Z * Z) :=
  '(r, e, m) ← Ioctl SMsr (v_vcpu v) GET_MSRS (Msr index 0);
  Ret (if r <? 0 then (- e, data) else if negb (r =? 1) then (0, data) else (1, m_value m)).
Definition SetMemslot (v : VM) (slot gpa size hva flags : Z) : host Z :=
  '(_, e, _) ← Ioctl SRegion (v_vm v) SET_USER_MEMORY_REGION (Region slot flags gpa size hva);
  Ret (if negb (e =? 0) then - e else 0).

Definition MmapRun (v : VM) (fd : Z) : host (goerr * VM) :=
  '(addr, e) ← call (Mmap fd (v_runsize v) 3 1);
  Ret (if negb (e =? 0) then (Some e, set_run v None) else (None, set_run v (Some addr))).
Definition UnmapRun (v : VM) : host VM :=
  match v_run v with
  | Some addr => call (Munmap addr) ;; Ret (set_run v None)
  | None => Ret v
  end.

Definition getSupportedCPUID (kvm : Z) : host cpuid2 :=
  '(_, e, c) ← Ioctl SCpuid kvm GET_SUPPORTED_CPUID
     (Cpuid2 MAX_CPUID_ENTRIES (repeat (Entry 0 0 0 [0; 0; 0; 0]) (Z.to_nat MAX_CPUID_ENTRIES)));
  if negb (e =? 0) then Die "KVM_GET_SUPPORTED_CPUID" (Some e) else Ret c.

Definition Setup : host VM :=
  '(kvm, e) ← call (OpenFile "/dev/kvm" 0x80002);
  if negb (e =? 0) then Die "open /dev/kvm" (Some e) else
  '(vm, e) ← IoctlInt kvm CREATE_VM 0;
  if vm <? 0 then Die "KVM_CREATE_VM" (Some e) else
  '(addr, e) ← call (Mmap (-1) GUEST_MEM_SIZE 3 0x4022);
  if negb (e =? 0) then Die "mmap guest memory" (Some e) else
  let v := Vm kvm vm 0 None 0 addr (Cpuid2 0 []) in
  r ← SetMemslot v 0 GUEST_PHYS_BASE GUEST_MEM_SIZE addr 0;
  if negb (r =? 0) then Die "KVM_SET_USER_MEMORY_REGION" (Some (- r)) else
  '(vcpu, e) ← IoctlInt vm CREATE_VCPU 0;
  if vcpu <? 0 then Die "KVM_CREATE_VCPU" (Some e) else
  c ← getSupportedCPUID kvm;
  '(_, e, _) ← Ioctl SCpuid vcpu SET_CPUID2 c;
  if negb (e =? 0) then Die "KVM_SET_CPUID2" (Some e) else
  '(size, _) ← IoctlInt kvm GET_VCPU_MMAP_SIZE 0;
  '(err, v) ← MmapRun (Vm kvm vm vcpu None size addr c) vcpu;
  match err with Some e => Die "mmap kvm_run" (Some e) | None => Ret v end.

Definition Teardown (v : VM) : host unit :=
  v ← UnmapRun v;
  call (CloseFd (v_vcpu v)) ;; call (CloseFd (v_vm v)) ;; call (Munmap (v_mem v)) ;; call (CloseFd (v_kvm v)).

(** [Stat]: the error, and what is in [*out] afterwards (a short read leaves
    the bytes that came over the old value). *)
Definition hdr_field (t : gotype) (n : string) (b : list Z) : Z :=
  unle (exit_field t n (KRun 0 b)).
Definition desc_name (b : list Z) : list Z :=
  let name := drop (Z.to_nat (sizeof StatsDesc)) b in
  match list_find (λ x, x = 0) name with Some (j, _) => take j name | None => name end.
Definition str_bytes (s : string) : list Z := (λ c, Z.of_N (code c)) <$> bytes s.
Fixpoint stat_loop (n : nat) (fd i dsz desc_off data_off : Z) (want : string) (out : Z) : host (goerr * Z) :=
  match n with
  | O => Ret (Some 0, out)
  | S n =>
      '(d, e) ← call (Pread fd dsz (desc_off + i * dsz));
      if negb (Z.of_nat (length d) =? dsz) then Ret (Some e, out) else
      if negb (bool_decide (desc_name d = str_bytes want)) then
        stat_loop n fd (i + 1) dsz desc_off data_off want out
      else
        '(b, e) ← call (Pread fd 8 (data_off + hdr_field StatsDesc "Offset" d));
        let out' := unle (b ++ drop (length b) (le 8 out)) in
        Ret (if negb (Z.of_nat (length b) =? 8) then (Some e, out') else (None, out'))
  end.
Definition Stat (v : VM) (want : string) (out : Z) : host (goerr * Z) :=
  '(fd, e) ← IoctlInt (v_vcpu v) GET_STATS_FD 0;
  if fd <? 0 then Ret (Some e, out) else
  '(h, e) ← call (Pread fd (sizeof StatsHeader) 0);
  r ← (if negb (Z.of_nat (length h) =? sizeof StatsHeader) then Ret (Some e, out) else
    let dsz := sizeof StatsDesc + hdr_field StatsHeader "NameSize" h in
    stat_loop (Z.to_nat (hdr_field StatsHeader "NumDesc" h)) fd 0 dsz
      (hdr_field StatsHeader "DescOffset" h) (hdr_field StatsHeader "DataOffset" h) want out);
  call (CloseFd fd) ;; Ret r.

Definition IsPVMHost : host bool :=
  r ← call (ReadFirst "/proc/modules" 4095);
  Ret (match r with Some s => contains s "kvm_pvm" | None => false end).
