(* ===== verification/Switcher.v ===== *)
(** * The switcher test

    tools/hosttests/cmd/pvm_switcher_test/main.go, and the vCPU state of
    guest.go: the loop that runs the guest, the cases and [main], as programs
    over the system calls of [HostOps].  The counters and the case name of the
    harness, the VM and the guest are passed along; the guest's memory is in
    the guest ([v.Mem] and [g.mem] are one slice). *)
From Stdlib Require Import Ascii SpecFloat.
From S2P Require Import Prelude GoStrings Bits Abi Guest Prog Float64 HostOps GuestRuns.

#[local] Open Scope Z_scope.

(** A step of pure code that may panic. *)
Definition must {A} (o : option A) : host A := match o with Some a => Ret a | None => panic end.

(** ** guest.go: the state of the vCPU *)
Definition setSeg (sel typ l db : Z) : segment := Seg 0 0xfffff sel typ 1 0 db 1 l 1 0 0.
Definition long_mode (s : sregs) : sregs :=
  let ds := setSeg 0x18 0x3 0 1 in
  KSregs (setSeg 0x10 0xb 1 0) ds ds ds ds ds
    (Seg (s_base (tr s)) (s_limit (tr s)) (s_selector (tr s)) 11 1 (s_dpl (tr s)) (s_db (tr s)) (s_s (tr s))
         (s_l (tr s)) (s_g (tr s)) (s_avl (tr s)) (s_unusable (tr s)))
    seg0 (gdt s) (idt s) 0x80050033 (cr2 s) (GUEST_PHYS_BASE + O_PML4) (Z.lor (Z.shiftl 1 5) (Z.shiftl 1 17))
    (cr8 s) 0xd01 (apic_base s) (interrupt_bitmap s).
(** Its errno, 0 if none. *)
Definition vcpuEnterLongMode (v : VM) (g : guest) : host Z :=
  '(_, e, s) ← Ioctl SSregs (v_vcpu v) GET_SREGS sregs0;
  if negb (e =? 0) then Ret e else
  '(_, e, _) ← Ioctl SSregs (v_vcpu v) SET_SREGS (long_mode s);
  if negb (e =? 0) then Ret e else
  '(_, e, _) ← Ioctl SRegs (v_vcpu v) SET_REGS (KRegs (gprs regs0) (smodEntry g) 0x202);
  Ret e.

(** Each MSR in turn, until one is refused. *)
Fixpoint setMSRs (v : VM) (l : list (Z * Z)) : host bool :=
  match l with
  | [] => Ret true
  | (index, data) :: l =>
      r ← SetMSR v index data;
      if r <=? 0 then Ret false else setMSRs v l
  end.
Definition guestSetup (v : VM) (g : guest) : host (Z * guest) :=
  g ← must (buildGuest vm_mem g);
  ok ← setMSRs v [(MSR_PVM_VCPU_STRUCT, GUEST_PHYS_BASE + O_PVCS); (MSR_PVM_EVENT_ENTRY, eventEntry g);
                  (MSR_PVM_RETU_RIP, retuRIP g); (MSR_LSTAR, smodEntry g); (MSR_SYSCALL_MASK, 0)];
  if negb (ok : bool) then Ret (-1, g) else
  e ← vcpuEnterLongMode v g;
  Ret (if negb (e =? 0) then -1 else 0, g).

(** ** Running the guest *)
Record outcome := Outcome { reports : Z; lastRflags : Z; events : Z; lastEvent : Z; exits : Z;
                            stoppedBy : Z; err : Z }.
Definition outcome0 : outcome := Outcome 0 0 0 0 0 (-1) 0.
Definition set_err (o : outcome) (e : Z) : outcome :=
  Outcome (reports o) (lastRflags o) (events o) (lastEvent o) (exits o) (stoppedBy o) e.
Definition set_stopped (o : outcome) (r : Z) : outcome :=
  Outcome (reports o) (lastRflags o) (events o) (lastEvent o) (exits o) r (err o).
Definition add_exit (o : outcome) : outcome :=
  Outcome (reports o) (lastRflags o) (events o) (lastEvent o) (exits o + 1) (stoppedBy o) (err o).
Definition add_report (o : outcome) (x : Z) : outcome :=
  Outcome (reports o + 1) x (events o) (lastEvent o) (exits o) (stoppedBy o) (err o).
Definition add_event (o : outcome) (x : Z) : outcome :=
  Outcome (reports o) (lastRflags o) (events o + 1) x (exits o) (stoppedBy o) (err o).
(** binary.LittleEndian.Uint32 of the exit's data. *)
Definition data32 (x : mmio) : Z := unle (take 4 (Data x)).

(** What the loop makes of an exit: the outcome, and whether it goes on. *)
Definition on_exit (o : outcome) (r : krun) : outcome * bool :=
  if negb (exit_reason r =? EXIT_MMIO) then (set_stopped o (exit_reason r), false) else
  let x := MMIO r in
  if IsWrite x =? 0 then (set_stopped o EXIT_MMIO, false) else
  if PhysAddr x =? MMIO_REPORT then (add_report o (data32 x), true) else
  if PhysAddr x =? MMIO_EVENT then (add_event o (data32 x), false) else
  (set_stopped o EXIT_MMIO, false).

Fixpoint guest_loop (fuel : nat) (v : VM) (want : Z) (o : outcome) (m : mem) : host (outcome * mem) :=
  if negb (reports o <? want) then Ret (o, m) else
  match fuel with
  | O => hang
  | S fuel =>
      '(_, e, m) ← run_once (v_vcpu v) m;
      if negb (e =? 0) then
        signal ← (if e =? EINTR then f ← call Fired; Ret (negb f) else Ret false);
        if signal : bool then guest_loop fuel v want o m else Ret (set_err o e, m)
      else
        r ← RunData v;
        let '(o, more) := on_exit (add_exit o) r in
        if more then guest_loop fuel v want o m else Ret (o, m)
  end.

Definition describe (o : outcome) : string :=
  let stopped := if 0 <=? stoppedBy o then ExitReasonName (stoppedBy o) else "nothing" in
  let timedOut := if err o =? EINTR then ", TIMED OUT" else "" in
  itoa (reports o) +:+ " report(s) (last rflags " +:+ Hex (lastRflags o) +:+ "), " +:+
  itoa (events o) +:+ " event(s) (last " +:+ Hex (lastEvent o) +:+ "), " +:+
  itoa (exits o) +:+ " exit(s), stopped by " +:+ stopped +:+ timedOut.

Definition WARMUP_ROUNDS : Z := 4.
Definition PGTBL_ROUNDS : Z := 200.
Definition REBIND_ROUNDS : Z := 200.
Definition MIGRATE_ROUNDS : Z := 20000.
Definition CPU_SETSIZE : Z := 1024.
Definition DUMMY_PVCS_BASE : Z := 0x100000.

Section Fuel.
Context (fuel : nat).

Definition guestRun (v : VM) (g : guest) (want seconds : Z) : host (outcome * guest) :=
  call (Alarm seconds) ;;
  '(o, m) ← guest_loop fuel v want outcome0 (g_mem g);
  call CancelAlarm ;;
  Ret (o, set_mem g m).

Definition warmUp (t : tap) (v : VM) (g : guest) (what : string) : host (Z * tap * guest) :=
  g ← must (ctrlSet UVA_CODE 0x202 GOOD_SEL g);
  '(o, g) ← guestRun v g WARMUP_ROUNDS 10;
  if reports o <? WARMUP_ROUNDS then
    t ← Nok (what +:+ ": the guest never got going: " +:+ describe o) t; Ret (-1, t, g)
  else Ret (0, t, g).

Definition hostStillAnswering (v : VM) : host bool :=
  '(_, e, _) ← Ioctl SRegs (v_vcpu v) GET_REGS regs0;
  Ret (e =? 0).

(** The last line of a case. *)
Definition nok (message : string) (t : tap) (g : guest) : host (tap * guest) := t ← Nok message t; Ret (t, g).
Definition ok (detail : string) (t : tap) (g : guest) : host (tap * guest) := t ← Ok detail t; Ret (t, g).

Definition testS1NoncanonicalRIP (t : tap) (v : VM) (g : guest) : host (tap * guest) :=
  let t := set_case "pvm/invariant-S1-noncanonical-eretu-rip" t in
  '(r, t, g) ← warmUp t v g "S1";
  if negb (r =? 0) then Ret (t, g) else
  g ← must (ctrlSet 0x0000800000000000 0x202 GOOD_SEL g);
  '(o, g) ← guestRun v g 1 10;
  let desc := describe o in
  if err o =? EINTR then nok ("the vCPU never came back: " +:+ desc) t g else
  alive ← hostStillAnswering v;
  if negb (alive : bool) then nok ("the vCPU stopped answering ioctls: " +:+ desc) t g else ok desc t g.

Definition forbidden : Z := Z.lor (Z.lor (Z.lor 0x3000 0x20000) 0x80000) 0x100000.
Definition testS2EFLAGS (t : tap) (v : VM) (g : guest) : host (tap * guest) :=
  let t := set_case "pvm/invariant-S2-eflags-sanitised" t in
  '(r, t, g) ← warmUp t v g "S2";
  if negb (r =? 0) then Ret (t, g) else
  g ← must (ctrlSet UVA_CODE (Z.lor 0x202 forbidden) GOOD_SEL g);
  '(o, g) ← guestRun v g 1 10;
  let desc := describe o in
  if reports o <? 1 then nok ("user mode never reported back: " +:+ desc) t g else
  let got := lastRflags o in
  if negb (Z.land got forbidden =? 0) then
    nok ("user mode got RFLAGS " +:+ Hex got +:+ ", which still has " +:+ Hex (Z.land got forbidden) +:+
         " of IOPL/VM/VIF/VIP set") t g
  else if (Z.land got 0x2 =? 0) || (Z.land got 0x200 =? 0) then
    nok ("user mode got RFLAGS " +:+ Hex got +:+ ", without the fixed bit or IF") t g
  else ok ("asked for " +:+ Hex (Z.lor 0x202 forbidden) +:+ ", got " +:+ Hex got) t g.

Definition testS4Selectors (t : tap) (v : VM) (g : guest) : host (tap * guest) :=
  let t := set_case "pvm/invariant-S4-unexpected-selectors" t in
  '(r, t, g) ← warmUp t v g "S4";
  if negb (r =? 0) then Ret (t, g) else
  '(_, e, before) ← Ioctl SSregs (v_vcpu v) GET_SREGS sregs0;
  if negb (e =? 0) then nok ("KVM_GET_SREGS: " +:+ Strerror (Some e)) t g else
  g ← must (ctrlSet UVA_CODE 0x202 HOST_USER_CS g);
  '(o, g) ← guestRun v g 1 10;
  let desc := describe o in
  alive ← hostStillAnswering v;
  if negb (alive : bool) then nok ("the vCPU stopped answering ioctls: " +:+ desc) t g else
  '(_, e, after) ← Ioctl SSregs (v_vcpu v) GET_SREGS sregs0;
  if negb (e =? 0) then nok ("KVM_GET_SREGS after: " +:+ Strerror (Some e)) t g else
  let old := s_selector (ss before) in let new := s_selector (ss after) in
  if reports o <? 1 then ok ("the guest did not resume in user mode: " +:+ desc) t g
  else if new =? old then
    nok ("user mode resumed with SS unchanged (" +:+ Hex old +:+ "): the unexpected pair was not emulated, "
         +:+ desc) t g
  else ok ("SS went " +:+ Hex old +:+ " -> " +:+ Hex new +:+ " through the hypervisor, " +:+ desc) t g.

(** [*exits], if the result is 0. *)
Definition pgtblRoundExits (t : tap) (v : VM) (g : guest) : host (Z * Z * tap * guest) :=
  '(e, before) ← Stat v "exits" 0;
  match e with
  | Some _ => t ← Nok ("could not read the vCPU's exits counter: " +:+ Strerror e) t; Ret (-1, 0, t, g)
  | None =>
      '(o, g) ← guestRun v g PGTBL_ROUNDS 30;
      '(e, after) ← Stat v "exits" 0;
      match e with
      | Some _ => t ← Nok ("could not read the vCPU's exits counter: " +:+ Strerror e) t; Ret (-1, 0, t, g)
      | None =>
          if reports o <? PGTBL_ROUNDS then
            t ← Nok ("the guest stopped going round: " +:+ describe o) t; Ret (-1, 0, t, g)
          else Ret (0, u64 (after - before), t, g)
      end
  end.

(** [extra], the exits a round takes more through the other address space. *)
Definition extra_exits (stale control : Z) : spec_float :=
  fdiv (fsub (float64 stale) (float64 control)) (float64 PGTBL_ROUNDS).
Definition half : spec_float := S754_finite false 4503599627370496 (-53).
Definition testPgtblNoDSCR3 (t : tap) (v : VM) (g : guest) : host (tap * guest) :=
  let mainAS := GUEST_PHYS_BASE + O_PML4 in
  let altAS := GUEST_PHYS_BASE + O_PML4_ALT in
  let t := set_case "pvm/pgtbl-fastpath-clears-no-ds-cr3" t in
  g ← must (ctrlSetPgds mainAS mainAS g);
  '(r, t, g) ← warmUp t v g "pgtbl";
  if negb (r =? 0) then Ret (t, g) else
  '(r, control, t, g) ← pgtblRoundExits t v g;
  if negb (r =? 0) then Ret (t, g) else
  g ← must (ctrlSetPgds altAS mainAS g);
  '(r, t, g) ← warmUp t v g "pgtbl";
  if negb (r =? 0) then Ret (t, g) else
  '(r, stale, t, g) ← pgtblRoundExits t v g;
  if negb (r =? 0) then Ret (t, g) else
  let extra := extra_exits stale control in
  if fle half extra then
    nok (fmt_2f extra +:+ " more exits per round through an address space without a pair (" +:+ itoa stale +:+
         " vs " +:+ itoa control +:+ " over " +:+ itoa PGTBL_ROUNDS +:+
         " rounds): returns to user mode are exiting after the switcher loaded a paired root") t g
  else ok (itoa stale +:+ " exits with the unpaired detour, " +:+ itoa control +:+ " without, over " +:+
           itoa PGTBL_ROUNDS +:+ " rounds") t g.

(** ** The alias of the PVCS *)
Definition runCleanRounds (t : tap) (v : VM) (g : guest) (rounds seconds : Z) : host (Z * tap * guest) :=
  '(e, before) ← Stat v "exits" 0;
  let before := if e is Some _ then 0 else before in
  '(o, g) ← guestRun v g rounds seconds;
  '(e, after) ← Stat v "exits" 0;
  let after := if e is Some _ then 0 else after in
  let desc := describe o in
  if (reports o <? rounds) || negb (events o =? 0) then t ← Nok desc t; Ret (-1, t, g) else
  if Z.land (lastRflags o) 0x200 =? 0 then
    t ← Nok ("user mode got RFLAGS " +:+ Hex (lastRflags o) +:+ ": " +:+ desc) t; Ret (-1, t, g)
  else Ret (i64 (after - before), t, g).

(** [copy(mem[to:to+0x1000], mem[from:from+0x1000])]. *)
Definition copy_page (to from : Z) (m : mem) : option mem :=
  if fits m from 0x1000 then put to (bytes_at m from 0x1000) m else None.
Fixpoint rebind_loop (n : nat) (i : Z) (t : tap) (v : VM) (g : guest) : host (tap * guest) :=
  match n with
  | O => ok ("PVCS moved 3 times, " +:+ itoa REBIND_ROUNDS +:+ " clean direct-switch rounds after each") t g
  | S n =>
      let '(from, to, toKVA) :=
        if negb (i mod 2 =? 0) then (O_PVCS2, O_PVCS, u64 (kva g + O_PVCS))
        else (O_PVCS, O_PVCS2, u64 (kva g + O_PVCS2)) in
      m ← must (copy_page to from (g_mem g));
      m ← must (put (O_CTRL + CTRL_PVCS) (le 8 toKVA) m);
      let g := set_mem g m in
      r ← SetMSR v MSR_PVM_VCPU_STRUCT (GUEST_PHYS_BASE + to);
      if r <=? 0 then nok ("moving the PVCS to " +:+ Hex (GUEST_PHYS_BASE + to) +:+ " was refused") t g else
      m ← must (put (from + PVCS_RIP) (le 8 0x0000dead00000000) (g_mem g));
      '(exits, t, g) ← runCleanRounds t v (set_mem g m) REBIND_ROUNDS 20;
      if exits <? 0 then Ret (t, g) else
      if 2 * REBIND_ROUNDS <? exits then
        nok ("move " +:+ itoa (i + 1) +:+ ": " +:+ itoa exits +:+ " exits over " +:+ itoa REBIND_ROUNDS +:+
             " rounds -- not direct switches") t g
      else rebind_loop n (i + 1) t v g
  end.
Definition testPVCSAliasRebind (t : tap) (v : VM) (g : guest) : host (tap * guest) :=
  let t := set_case "pvm/pvcs-alias-rebind" t in
  '(r, t, g) ← warmUp t v g "rebind";
  if negb (r =? 0) then Ret (t, g) else rebind_loop 3 0 t v g.

(** A cpu_set_t: 16 words. *)
Definition isSet (s : list Z) (cpu : Z) : bool :=
  Z.testbit (default 0 (s !! Z.to_nat (cpu / 64))) (cpu mod 64).
Definition set_cpu (cpu : Z) (s : list Z) : list Z :=
  alter (λ w, Z.lor w (Z.shiftl 1 (cpu mod 64))) (Z.to_nat (cpu / 64)) s.
Definition no_cpus : list Z := repeat 0 16.
(** The next CPU of the set after [cpu], going round. *)
Fixpoint next_cpu (n : nat) (allowed : list Z) (cpu : Z) : option Z :=
  match n with
  | O => None
  | S n => let cpu := (cpu + 1) mod CPU_SETSIZE in if isSet allowed cpu then Some cpu else next_cpu n allowed cpu
  end.
Fixpoint migrate_loop (n : nat) (tid : Z) (allowed : list Z) (cpu : Z) : host unit :=
  stop ← call (Load "stop");
  if negb (stop =? 0) then Ret tt else
  match n, next_cpu (S (Z.to_nat CPU_SETSIZE)) allowed cpu with
  | S n, Some cpu =>
      e ← call (Setaffinity tid (set_cpu cpu no_cpus));
      (if e =? 0 then call (Add "moves" 1) else Ret tt) ;;
      call (Sleep 1000) ;;
      migrate_loop n tid allowed cpu
  | _, _ => hang
  end.
(** The goroutine that moves the vCPU's thread about. *)
Definition migrateThread (tid : Z) : host unit :=
  '(allowed, e) ← call (Getaffinity tid);
  if negb (e =? 0) then Ret tt else
  migrate_loop fuel tid allowed 0 ;;
  call (Setaffinity tid allowed) ;; Ret tt.

Definition testPVCSAliasMigrate (t : tap) (v : VM) (g : guest) : host (tap * guest) :=
  tid ← call Gettid;
  let t := set_case "pvm/pvcs-alias-migrate" t in
  '(r, t, g) ← warmUp t v g "migrate";
  if negb (r =? 0) then Ret (t, g) else
  call (Go "migrateThread") ;;
  '(exits, t, g) ← runCleanRounds t v g MIGRATE_ROUNDS 120;
  call (Store "stop" 1) ;;
  call (Join "migrateThread") ;;
  if exits <? 0 then Ret (t, g) else
  moves ← call (Load "moves");
  if moves <? 10 then
    again ← call (Load "moves");
    nok ("only " +:+ itoa again +:+ " CPU moves happened; nothing was tested") t g
  else
    again ← call (Load "moves");
    ok (itoa MIGRATE_ROUNDS +:+ " rounds, " +:+ itoa exits +:+ " exits, across " +:+ itoa again +:+ " CPU moves") t g.

(** ** The last vCPU of a VM *)
Definition pattern (i : Z) : Z := Z.lor 0x5a00000000000000 (u64 i).
Definition fd_at (fds : list Z) (i : Z) : Z := default 0 (fds !! Z.to_nat i).
Definition set_fd (i fd : Z) (fds : list Z) : list Z := <[Z.to_nat i := fd]> fds.

(** The closures [out] and [swapBack]. *)
Definition out_last (v : VM) (fds : list Z) : host unit :=
  each (drop 1 fds) (λ fd, if 0 <? fd then call (CloseFd fd) else Ret tt) ;;
  Teardown v.
Definition swapBack (v : VM) (fds : list Z) : host unit :=
  v ← UnmapRun v;
  '(_, v) ← MmapRun v (fd_at fds 0);
  out_last (set_vcpu v (fd_at fds 0)) fds.

(** vCPUs [i], [i+1], ..., [n] of them: the errno and the number of the one
    that could not be created. *)
Fixpoint create_vcpus (n : nat) (i : Z) (v : VM) (fds : list Z) : host (option (Z * Z) * list Z) :=
  match n with
  | O => Ret (None, fds)
  | S n =>
      '(fd, e) ← IoctlInt (v_vm v) CREATE_VCPU i;
      let fds := set_fd i fd fds in
      if fd <? 0 then Ret (Some (i, e), fds) else create_vcpus n (i + 1) v fds
  end.
(** The page of each of the other vCPUs: its pattern, and the pin. *)
Fixpoint pin_pages (n : nat) (i : Z) (v : VM) (fds : list Z) (g : guest) : host (option Z * guest) :=
  match n with
  | O => Ret (None, g)
  | S n =>
      let off := DUMMY_PVCS_BASE + i * 0x1000 in
      m ← must (put_words off (repeat (pattern i) 512) (g_mem g));
      let g := set_mem g m in
      r ← SetMSR (set_vcpu v (fd_at fds i)) MSR_PVM_VCPU_STRUCT (GUEST_PHYS_BASE + off);
      if r <=? 0 then Ret (Some i, g) else pin_pages n (i + 1) v fds g
  end.
Fixpoint page_holds (n : nat) (off pat : Z) (m : mem) : option bool :=
  match n with
  | O => Some true
  | S n => x ← get 8 off m; if negb (x =? pat) then Some false else page_holds n (off + 8) pat m
  end.
(** The first page that was written, -1 if none. *)
Fixpoint first_bad (n : nat) (i : Z) (m : mem) : option Z :=
  match n with
  | O => Some (-1)
  | S n =>
      same ← page_holds 512 (DUMMY_PVCS_BASE + i * 0x1000) (pattern i) m;
      if same : bool then first_bad n (i + 1) m else Some i
  end.

(** From the running vCPU on: everything between the two swaps. *)
Definition last_vcpu_runs (t : tap) (v : VM) (fds : list Z) (maxVcpus : Z) : host tap :=
  let last := itoa (maxVcpus - 1) in
  '(r, g) ← guestSetup v (guest0 false);
  if negb (r =? 0) then Nok ("could not build the guest on vCPU " +:+ last) t else
  '(refused, g) ← pin_pages (Z.to_nat (maxVcpus - 1)) 0 v fds g;
  match refused with
  | Some i => Nok ("pinning a PVCS for vCPU " +:+ itoa i +:+ " was refused") t
  | None =>
      '(r, t, g) ← warmUp t v g "last-vcpu";
      if negb (r =? 0) then Ret t else
      '(exits, t, g) ← runCleanRounds t v g 200 20;
      if exits <? 0 then Ret t else
      bad ← must (first_bad (Z.to_nat (maxVcpus - 1)) 0 (g_mem g));
      if 0 <=? bad then
        Nok ("vCPU " +:+ itoa bad +:+ "'s PVCS page was written while only vCPU " +:+ last +:+ " ran") t
      else if 400 <? exits then
        Nok (itoa exits +:+ " exits over 200 rounds on vCPU " +:+ last +:+ " -- not direct switches") t
      else
        Ok (itoa maxVcpus +:+ " vCPUs; vCPU " +:+ last +:+ " ran 200 direct-switch rounds (" +:+ itoa exits +:+
            " exits), the other " +:+ last +:+ " PVCS pages untouched, vCPU " +:+ itoa (maxVcpus + 1) +:+
            " refused") t
  end.

(** With every vCPU made: [v]'s own becomes the first of [fds], [fd] the one
    that runs. *)
Definition last_vcpu_swapped (t : tap) (v : VM) (fd : Z) (fds : list Z) (maxVcpus : Z) : host tap :=
  v ← UnmapRun v;
  let fds := set_fd 0 (v_vcpu v) fds in
  '(err, v) ← MmapRun (set_vcpu v fd) fd;
  err ← match err with
        | Some e => Ret (Some e)
        | None => '(_, e, _) ← Ioctl SCpuid fd SET_CPUID2 (v_cpuid v);
                  Ret (if negb (e =? 0) then Some e else None)
        end;
  match err with
  | Some _ =>
      t ← Nok ("setting up the last vCPU: " +:+ Strerror err) t;
      out_last (set_vcpu v (fd_at fds 0)) fds ;; Ret t
  | None =>
      t ← last_vcpu_runs t v fds maxVcpus;
      swapBack v fds ;; Ret t
  end.
(** With all but the last made. *)
Definition last_vcpu_made (t : tap) (v : VM) (fds : list Z) (maxVcpus : Z) : host tap :=
  '(fd, e) ← IoctlInt (v_vm v) CREATE_VCPU (maxVcpus - 1);
  let fds := set_fd (maxVcpus - 1) fd fds in
  if fd <? 0 then
    t ← Nok ("creating the last vCPU (" +:+ itoa (maxVcpus - 1) +:+ "): " +:+ Strerror (Some e)) t;
    out_last v fds ;; Ret t
  else
  '(extra, _) ← IoctlInt (v_vm v) CREATE_VCPU maxVcpus;
  if 0 <=? extra then
    t ← Nok ("vCPU " +:+ itoa (maxVcpus + 1) +:+ " of a maximum of " +:+ itoa maxVcpus +:+ " was created") t;
    call (CloseFd extra) ;; out_last v fds ;; Ret t
  else last_vcpu_swapped t v fd fds maxVcpus.
Definition testPVCSAliasLastVcpu (t : tap) : host tap :=
  let t := set_case "pvm/pvcs-alias-last-vcpu" t in
  v ← Setup;
  '(maxVcpus, _) ← IoctlInt (v_kvm v) CHECK_EXTENSION CAP_MAX_VCPUS;
  if (maxVcpus <=? 1) || (GUEST_MEM_SIZE <? u64 (DUMMY_PVCS_BASE + u64 (maxVcpus * 0x1000))) then
    t ← Nok ("KVM_CAP_MAX_VCPUS is " +:+ itoa maxVcpus +:+ ", which this case cannot lay out") t;
    Teardown v ;; Ret t
  else
  call RaiseNofile ;;
  '(failed, fds) ← create_vcpus (Z.to_nat (maxVcpus - 2)) 1 v (repeat 0 (Z.to_nat maxVcpus));
  match failed with
  | Some (i, e) =>
      t ← Nok ("creating vCPU " +:+ itoa i +:+ " of " +:+ itoa maxVcpus +:+ ": " +:+ Strerror (Some e)) t;
      out_last v fds ;; Ret t
  | None => last_vcpu_made t v fds maxVcpus
  end.

(** ** PVM_FEATURE_DIRECT_PF *)
Definition testDirectPFCPUIDAndCR2Write (t : tap) (v : VM) (g : guest) : host (tap * guest) :=
  let t := set_case "pvm/direct-pf/cpuid-and-cr2-write" t in
  '(_, e, r) ← Ioctl SRegs (v_vcpu v) GET_REGS regs0;
  if negb (e =? 0) then nok ("KVM_GET_REGS: " +:+ Strerror (Some e)) t g else
  '(entry, g) ← must (buildSmodProbeCode g);
  '(_, e, _) ← Ioctl SRegs (v_vcpu v) SET_REGS (KRegs (gprs r) entry (k_rflags r));
  if negb (e =? 0) then nok ("KVM_SET_REGS: " +:+ Strerror (Some e)) t g else
  '(o, g) ← guestRun v g 1 10;
  if negb (events o =? 1) then nok ("the probe never reported: " +:+ describe o) t g else
  if Z.land (lastEvent o) PVM_FEATURE_DIRECT_PF =? 0 then
    nok ("PVM_CPUID_FEATURES.ebx is " +:+ Hex (lastEvent o) +:+ ", without PVM_FEATURE_DIRECT_PF") t g
  else
  '(_, e, s) ← Ioctl SSregs (v_vcpu v) GET_SREGS sregs0;
  if negb (e =? 0) then nok ("KVM_GET_SREGS: " +:+ Strerror (Some e)) t g else
  if negb (cr2 s =? CR2_PROBE) then
    nok ("guest wrote " +:+ Hex CR2_PROBE +:+ " to PVCS::cr2, KVM reports CR2 " +:+ Hex (cr2 s)) t g
  else ok ("ebx " +:+ Hex (lastEvent o) +:+ "; CR2 " +:+ Hex (cr2 s) +:+ " after the guest wrote it") t g.

Definition testDirectPFFault (direct : bool) (t : tap) (v : VM) (g : guest) : host (tap * guest) :=
  let wantVA := FAULT_VA + 0x123 in
  let t := set_case (if direct then "pvm/direct-pf/user-np-delivered-directly"
                     else "pvm/direct-pf/user-np-disabled-slow-path") t in
  '(r, t, g) ← warmUp t v g (t_case t);
  if negb (r =? 0) then Ret (t, g) else
  r ← SetMSR v MSR_PVM_FEATURES_ENABLED (if direct then PVM_FEATURE_DIRECT_PF else 0);
  if r <=? 0 then nok "MSR_PVM_FEATURES_ENABLED write refused" t g else
  '(e, taken0) ← Stat v "pf_guest" 0;
  if e is Some _ then nok "no pf_guest stat" t g else
  g ← must (ctrlSet (UVA_CODE + UCODE_FAULT) 0x202 GOOD_SEL g);
  '(o, g) ← guestRun v g 1 10;
  '(_, taken1) ← Stat v "pf_guest" 0;
  if negb (events o =? 1) || negb (lastEvent o =? Z.lor (Z.lor MARK_USER_EVENT 0x100) 14) then
    nok ("expected a #PF at the user event entry: " +:+ describe o) t g
  else
  errcode ← must (get 2 (O_PVCS + PVCS_EVENT_ERRCODE) (g_mem g));
  pvcsCR2 ← must (get 8 (O_PVCS + PVCS_CR2) (g_mem g));
  '(_, e, s) ← Ioctl SSregs (v_vcpu v) GET_SREGS sregs0;
  if negb (e =? 0) then nok ("KVM_GET_SREGS: " +:+ Strerror (Some e)) t g else
  if negb (errcode =? 0x4) then nok ("error code " +:+ Hex errcode +:+ ", want U (0x4)") t g else
  if negb (pvcsCR2 =? wantVA) then nok ("PVCS::cr2 " +:+ Hex pvcsCR2 +:+ ", want " +:+ Hex wantVA) t g else
  if negb (cr2 s =? wantVA) then
    nok ("KVM reports CR2 " +:+ Hex (cr2 s) +:+ " after the fault, want " +:+ Hex wantVA) t g else
  if direct && negb (taken1 =? taken0) then
    nok ("KVM injected the fault (pf_guest " +:+ itoa taken0 +:+ " -> " +:+ itoa taken1 +:+
         "): not delivered by the switcher") t g else
  if negb direct && (taken1 =? taken0) then nok "KVM never injected the fault with the feature off" t g else
  ok ("#PF U at " +:+ Hex wantVA +:+ ", CR2 synced, pf_guest +" +:+ itoa (u64 (taken1 - taken0))) t g.

Definition testDirectPFRule (name pattern : string) (wantSlow : Z) (t : tap) (v : VM) (g : guest) : host (tap * guest) :=
  let n := Z.of_nat (slen pattern) in
  let t := set_case name t in
  '(r, t, g) ← warmUp t v g name;
  if negb (r =? 0) then Ret (t, g) else
  r ← SetMSR v MSR_PVM_FEATURES_ENABLED PVM_FEATURE_DIRECT_PF;
  if r <=? 0 then nok "MSR_PVM_FEATURES_ENABLED write refused" t g else
  r ← SetMSR v MSR_PVM_EVENT_ENTRY (smodEntry g);
  if r <=? 0 then nok "MSR_PVM_EVENT_ENTRY write refused" t g else
  m ← must (setPattern (pattern_va <$> bytes pattern) (g_mem g));
  g ← must (ctrlSet (UVA_CODE + UCODE_PATTERN) 0x202 GOOD_SEL (set_mem g m));
  '(e, taken0) ← Stat v "pf_taken" 0;
  if e is Some _ then nok "no pf_taken stat" t g else
  '(o, g) ← guestRun v g 1 10;
  '(_, taken1) ← Stat v "pf_taken" 0;
  let slow := u64 (taken1 - taken0) in
  if negb (reports o =? 1) || negb (lastRflags o =? n) then
    nok ("the pattern did not run to the end: " +:+ describe o) t g
  else if negb (slow =? wantSlow) then
    nok ("pattern " +:+ pattern +:+ ": " +:+ itoa slow +:+ " of " +:+ itoa n +:+
         " faults reached the shadow MMU, the rule says " +:+ itoa wantSlow) t g
  else ok ("pattern " +:+ pattern +:+ ": " +:+ itoa (u64 (n - wantSlow)) +:+ " direct, " +:+ itoa wantSlow +:+
           " through the MMU") t g.

(** ** main *)
Definition set_variant (b : bool) (g : guest) : guest :=
  Guest (g_mem g) (kva g) (smodEntry g) (retuRIP g) (eventEntry g) b.
(** One VM for a case. *)
Definition vm_case (test : tap → VM → guest → host (tap * guest)) (t : tap) (g : guest) : host (tap * guest) :=
  v ← Setup;
  '(r, g) ← guestSetup v g;
  '(t, g) ← (if r =? 0 then test t v g else Ret (t, g));
  Teardown v ;; Ret (t, g).
Definition rules : list (string * string * Z) :=
  [ ("pvm/direct-pf/rule-same-page", "AAAAAA", 3); ("pvm/direct-pf/rule-run-limit", "AABCDEFG", 2);
    ("pvm/direct-pf/rule-interleaved", "AABCBCBC", 2) ].
Definition main : host Empty_set :=
  pvm ← IsPVMHost;
  if negb (pvm : bool) then Skip ;; Exit 0 else
  let t := set_case "pvm/switcher-harness" tap0 in
  v ← Setup;
  '(r, g) ← guestSetup v (guest0 false);
  if negb (r =? 0) then
    t ← Nok "could not build the guest; is this a PVM host?" t;
    Teardown v ;;
    out ("1.." +:+ itoa (t_pass t + t_fail t) +:+ nl) ;;
    out ("PVMHOSTTEST-RESULT: fail pass=" +:+ itoa (t_pass t) +:+ " fail=" +:+ itoa (t_fail t) +:+ nl) ;;
    Exit 1
  else
  '(t, g) ← testS1NoncanonicalRIP t v g;
  Teardown v ;;
  '(t, g) ← vm_case testS2EFLAGS t g;
  '(t, g) ← vm_case testS4Selectors t g;
  '(t, g) ← vm_case testPgtblNoDSCR3 t (set_variant true g);
  '(t, g) ← vm_case testPVCSAliasRebind t (set_variant false g);
  '(t, g) ← vm_case testPVCSAliasMigrate t g;
  t ← testPVCSAliasLastVcpu t;
  '(t, g) ← vm_case testDirectPFCPUIDAndCR2Write t g;
  '(t, g) ← vm_case (testDirectPFFault true) t g;
  '(t, g) ← vm_case (testDirectPFFault false) t g;
  '(t, _) ← each_with rules (t, g) (λ '(t, g) '(name, pattern, slow),
     vm_case (testDirectPFRule name pattern slow) t g);
  code ← Finish t;
  Exit code.
End Fuel.
