(* ===== verification/HostLogic.v ===== *)
(** * Reasoning about the host tests

    Two monitors over the system calls of [HostOps]: [tapM] collects what is
    written to standard output, [resM] what is open, mapped, armed and running.
    Their rules for the operations of the harness are what the proofs about
    both test programs are made of. *)
From stdpp Require Import gmap.
From S2P Require Import Prelude GoStrings Bits Abi Guest Prog HostOps.

#[local] Open Scope Z_scope.

(** ** A TAP stream *)
Record entry := Entry { e_ok : bool; e_case : string; e_text : string }.
Definition render (n : Z) (e : entry) : string :=
  if e_ok e then "ok " +:+ itoa n +:+ " - " +:+ e_case e +:+ " (" +:+ e_text e +:+ ")" +:+ nl
  else "not ok " +:+ itoa n +:+ " - " +:+ e_case e +:+ ": " +:+ e_text e +:+ nl.
(** The result lines, numbered from [n + 1]. *)
Fixpoint render_from (n : Z) (es : list entry) : list string :=
  match es with [] => [] | e :: es => render (n + 1) e :: render_from (n + 1) es end.
Definition passes (es : list entry) : Z := Z.of_nat (length (filter (λ e, e_ok e = true) es)).
Definition fails (es : list entry) : Z := Z.of_nat (length (filter (λ e, e_ok e = false) es)).
(** The counters are those of the lines written. *)
Definition counted (t : tap) (es : list entry) : Prop := t_pass t = passes es ∧ t_fail t = fails es.

Definition plan_line (n : Z) : string := "1.." +:+ itoa n +:+ nl.
Definition result_line (result : string) (p f : Z) : string :=
  "PVMHOSTTEST-RESULT: " +:+ result +:+ " pass=" +:+ itoa p +:+ " fail=" +:+ itoa f +:+ nl.
Definition skip_line : string := "1..0 # SKIP kvm_pvm is not the loaded vendor module" +:+ nl.
Definition bail_line (what : string) (e : goerr) : string := "Bail out! " +:+ what +:+ ": " +:+ Strerror e +:+ nl.

Lemma render_app n es1 es2 :
  render_from n (es1 ++ es2) = render_from n es1 ++ render_from (n + Z.of_nat (length es1)) es2.
Proof.
  revert n. induction es1 as [|e es1 IH]; intros n; cbn [render_from app length]; [by rewrite Z.add_0_r|].
  rewrite IH. do 3 f_equal. lia.
Qed.
Lemma passes_fails es : passes es + fails es = Z.of_nat (length es).
Proof. unfold passes, fails. pose proof (filter_bool_length e_ok es). lia. Qed.
Lemma passes_snoc es e : passes (es ++ [e]) = passes es + if e_ok e then 1 else 0.
Proof.
  unfold passes. rewrite filter_app, length_app, Nat2Z.inj_add. f_equal. destruct e as [[] ??]; reflexivity.
Qed.
Lemma fails_snoc es e : fails (es ++ [e]) = fails es + if e_ok e then 0 else 1.
Proof.
  unfold fails. rewrite filter_app, length_app, Nat2Z.inj_add. f_equal. destruct e as [[] ??]; reflexivity.
Qed.
Lemma fails_none es : fails es = 0 ↔ Forall (λ e, e_ok e = true) es.
Proof.
  unfold fails. induction es as [|e es IH]; [done|]. rewrite Forall_cons, <- IH.
  destruct e as [[] n x]; cbn [e_ok].
  - rewrite filter_cons_False by done. tauto.
  - rewrite filter_cons_True by done. cbn [length]. split; [lia|by intros []].
Qed.

(** ** Standard output *)
Definition tapM : monitor hop := Monitor hop (list string)
  (λ B o _ g, match o with Out s => g ++ [s] | _ => g end) (λ _ _ _, True) (λ _ _ _ _, True).
Definition stdout (tr : list (event hop)) : list string := observe tapM tr [].

(** A program that writes nothing and exits only by a panic. *)
Definition no_out (B : Type) (o : hop B) : Prop := match o with Out _ => False | _ => True end.
Definition quiet {A} (p : host A) : Prop := Prog.all_ops no_out p ∧ Prog.exits (eq 2) p.

Lemma quiet_ret {A} (a : A) : quiet (Ret a).
Proof. done. Qed.
Lemma quiet_panic {A} : quiet (@panic A).
Proof. done. Qed.
Lemma quiet_hang {A} : quiet (@hang A).
Proof. split; [split; [done|intros []]|intros []]. Qed.
Lemma quiet_call {B} (o : hop B) : no_out B o → quiet (call o).
Proof. done. Qed.
Lemma quiet_bind {A B} (p : host A) (f : A → host B) : quiet p → (∀ a, quiet (f a)) → quiet (p ≫= f).
Proof.
  intros [H1 H2] Hf. split; [apply Prog.all_ops_bind|apply Prog.exits_bind]; [done| |done|]; intros a; apply Hf.
Qed.
Lemma quiet_each {A} (l : list A) (f : A → host unit) : (∀ x, quiet (f x)) → quiet (each l f).
Proof. intros H. split; [apply all_ops_each|apply exits_each]; intros x; apply H. Qed.

Create HintDb quiet discriminated.
#[export] Hint Resolve quiet_ret quiet_panic quiet_hang quiet_each : quiet.
#[export] Hint Extern 1 (no_out _ _) => exact I : quiet.
Ltac quiet_tac :=
  repeat (intros; first [solve [auto with quiet nocore] | apply quiet_call; exact I | apply quiet_bind
                        | apply quiet_each | case_match]).

(** How a program that cannot go on ends. *)
Definition bailed (n : Z) (g : list string) : Prop :=
  n = 2 ∧ ∃ es tail, g = render_from 0 es ++ tail ∧ (tail = [] ∨ ∃ what e, tail = [bail_line what e]).

Lemma wp_quiet {A} (p : host A) Q g es :
  quiet p → g = render_from 0 es → (∀ a, Q a g) → wp tapM p Q bailed g.
Proof.
  intros [Hp He] -> HQ. induction p as [a|n|B o k IH]; cbn [wp] in *; [auto| |].
  - cbn in He. subst. split; [done|]. exists es, []. rewrite app_nil_r. auto.
  - destruct Hp as [Ho Hp]. split; [exact I|]. intros b _.
    assert (m_obs tapM o b (render_from 0 es : m_state tapM) = (render_from 0 es : m_state tapM)) as ->
      by (by destruct o).
    apply IH; [apply Hp|apply He].
Qed.

Lemma counted_length t es : counted t es → t_pass t + t_fail t = Z.of_nat (length es).
Proof. intros [-> ->]. apply passes_fails. Qed.
Lemma wp_Ok d t es (Q : tap → list string → Prop) E :
  counted t es →
  (∀ t', t_case t' = t_case t → counted t' (es ++ [Entry true (t_case t) d]) →
     Q t' (render_from 0 (es ++ [Entry true (t_case t) d]))) →
  wp tapM (Ok d t) Q E (render_from 0 es).
Proof.
  intros Hc HQ. cbn. split; [done|]. intros _ _.
  replace (t_pass t + 1 + t_fail t) with (0 + Z.of_nat (length es) + 1) by (rewrite <- (counted_length _ _ Hc); lia).
  specialize (HQ (Tap (t_pass t + 1) (t_fail t) (t_case t)) eq_refl).
  rewrite render_app in HQ. apply HQ. destruct Hc as [Hp Hf].
  split; rewrite ?passes_snoc, ?fails_snoc; cbn; lia.
Qed.
Lemma wp_Nok d t es (Q : tap → list string → Prop) E :
  counted t es →
  (∀ t', t_case t' = t_case t → counted t' (es ++ [Entry false (t_case t) d]) →
     Q t' (render_from 0 (es ++ [Entry false (t_case t) d]))) →
  wp tapM (Nok d t) Q E (render_from 0 es).
Proof.
  intros Hc HQ. cbn. split; [done|]. intros _ _.
  replace (t_pass t + (t_fail t + 1)) with (0 + Z.of_nat (length es) + 1) by (rewrite <- (counted_length _ _ Hc); lia).
  specialize (HQ (Tap (t_pass t) (t_fail t + 1) (t_case t)) eq_refl).
  rewrite render_app in HQ. apply HQ. destruct Hc as [Hp Hf].
  split; rewrite ?passes_snoc, ?fails_snoc; cbn; lia.
Qed.
Lemma wp_Die {A} what e (Q : A → list string → Prop) es : wp tapM (Die what e) Q bailed (render_from 0 es).
Proof. cbn. split_and!; try done. intros _ _. split; [done|]. intros _ _. split; [done|].
  exists es, [bail_line what e]. split; [done|]. right. by exists what, e. Qed.

(** What [Finish] adds, and the code it returns. *)
Definition finished (code : Z) (es : list entry) (tail : list string) : Prop :=
  (code = 0 ∧ Forall (λ e, e_ok e = true) es ∧
   tail = [plan_line (Z.of_nat (length es)); result_line "ok" (passes es) 0]) ∨
  (code = 1 ∧ ¬ Forall (λ e, e_ok e = true) es ∧
   tail = [plan_line (Z.of_nat (length es)); result_line "fail" (passes es) (fails es)]).
Lemma wp_Finish t es (Q : Z → list string → Prop) E :
  counted t es → (∀ code tail, finished code es tail → Q code (render_from 0 es ++ tail)) →
  wp tapM (Finish t) Q E (render_from 0 es).
Proof.
  intros Hc HQ. pose proof (counted_length _ _ Hc) as Hl. destruct Hc as [Hp Hf]. cbn.
  split; [done|]. intros _ _. split; [done|]. intros _ _. rewrite <- app_assoc. apply HQ. unfold finished.
  rewrite Hl, Hp, Hf. destruct (Z.eqb_spec (fails es) 0) as [E0|E0]; rewrite fails_none in E0.
  - left. split_and!; [done..|]. apply fails_none in E0. by rewrite E0.
  - right. auto.
Qed.

(** ** The harness writes nothing by itself *)
Section Quiet.
Context (v : VM).
Lemma RunData_quiet : quiet (RunData v).
Proof. unfold RunData. quiet_tac. Qed.
Lemma Ioctl_quiet {T : Set} (s : shape T) fd req arg : quiet (Ioctl s fd req arg).
Proof. unfold Ioctl. quiet_tac. Qed.
Lemma IoctlInt_quiet fd req arg : quiet (IoctlInt fd req arg).
Proof. unfold IoctlInt. quiet_tac. Qed.
Lemma run_once_quiet fd m : quiet (run_once fd m).
Proof. unfold run_once. quiet_tac. Qed.
Hint Resolve RunData_quiet Ioctl_quiet IoctlInt_quiet run_once_quiet : quiet.
Lemma KVMRun_quiet fuel fd m : quiet (KVMRun fuel fd m).
Proof. revert m. induction fuel as [|fuel IH]; intros m; cbn [KVMRun]; quiet_tac. Qed.
Lemma SetMSR_quiet i x : quiet (SetMSR v i x).
Proof. unfold SetMSR. quiet_tac. Qed.
Lemma GetMSR_quiet i x : quiet (GetMSR v i x).
Proof. unfold GetMSR. quiet_tac. Qed.
Lemma SetMemslot_quiet a b c d e : quiet (SetMemslot v a b c d e).
Proof. unfold SetMemslot. quiet_tac. Qed.
Lemma MmapRun_quiet fd : quiet (MmapRun v fd).
Proof. unfold MmapRun. quiet_tac. Qed.
Lemma UnmapRun_quiet : quiet (UnmapRun v).
Proof. unfold UnmapRun. quiet_tac. Qed.
Lemma Teardown_quiet : quiet (Teardown v).
Proof. unfold Teardown. apply quiet_bind; [apply UnmapRun_quiet|]. quiet_tac. Qed.
Lemma stat_loop_quiet n fd i a b c w x : quiet (stat_loop n fd i a b c w x).
Proof. revert i. induction n as [|n IH]; intros i; cbn [stat_loop]; quiet_tac. Qed.
Hint Resolve stat_loop_quiet : quiet.
Lemma Stat_quiet w x : quiet (Stat v w x).
Proof. unfold Stat. quiet_tac. Qed.
Lemma IsPVMHost_quiet : quiet IsPVMHost.
Proof. unfold IsPVMHost. quiet_tac. Qed.
End Quiet.
#[export] Hint Resolve RunData_quiet Ioctl_quiet IoctlInt_quiet run_once_quiet KVMRun_quiet SetMSR_quiet
  GetMSR_quiet SetMemslot_quiet MmapRun_quiet UnmapRun_quiet Teardown_quiet Stat_quiet IsPVMHost_quiet : quiet.

(** What writes nothing and returns, or bails out. *)
Definition mute {A} (p : host A) : Prop :=
  ∀ es (Q : A → list string → Prop),
    (∀ a, Q a (render_from 0 es)) → wp tapM p Q bailed (render_from 0 es).
Lemma mute_quiet {A} (p : host A) : quiet p → mute p.
Proof. intros Hp es Q HQ. by eapply wp_quiet. Qed.
Lemma mute_die {A} what e : mute (@Die A what e).
Proof. intros es Q _. apply wp_Die. Qed.
Lemma mute_bind {A B} (p : host A) (f : A → host B) : mute p → (∀ a, mute (f a)) → mute (p ≫= f).
Proof. intros Hp Hf es Q HQ. apply wp_bind. apply Hp. intros a. by apply Hf. Qed.
Ltac mute_tac :=
  repeat (intros; first [apply mute_die | solve [apply mute_quiet; quiet_tac; fail] | apply mute_bind | case_match]).
Lemma getSupportedCPUID_mute kvm : mute (getSupportedCPUID kvm).
Proof. unfold getSupportedCPUID. mute_tac. Qed.
Lemma Setup_mute : mute Setup.
Proof. unfold Setup. repeat (intros; first [apply getSupportedCPUID_mute | progress mute_tac]). Qed.

(** ** Cases *)
(** [p] adds a line named [name], or, if [may], none. *)
Definition adds {A} (may : bool) (name : string) (tof : A → tap) (t : tap) (p : host A) : Prop :=
  ∀ es (Q : A → list string → Prop), counted t es →
    (∀ a e, e_case e = name → counted (tof a) (es ++ [e]) → Q a (render_from 0 (es ++ [e]))) →
    (may = true → ∀ a, counted (tof a) es → Q a (render_from 0 es)) →
    wp tapM p Q bailed (render_from 0 es).

Lemma adds_Nok may name msg t : t_case t = name → adds may name id t (Nok msg t).
Proof. intros <- es Q Hc HQ _. apply wp_Nok; [done|]. intros t' _ Hc'. by apply HQ. Qed.
Lemma adds_Ok may name msg t : t_case t = name → adds may name id t (Ok msg t).
Proof. intros <- es Q Hc HQ _. apply wp_Ok; [done|]. intros t' _ Hc'. by apply HQ. Qed.
Lemma adds_none {A} name (tof : A → tap) t a : tof a = t → adds true name tof t (Ret a).
Proof. intros Ha es Q Hc _ HQ. apply HQ; [done|]. by rewrite Ha. Qed.
(** A case may change the name first. *)
Lemma adds_set_case {A} may name (tof : A → tap) t p :
  adds may name tof (set_case name t) p → adds may name tof t p.
Proof. intros H es Q Hc. by apply H. Qed.
(** Quiet steps before or after do not matter. *)
Lemma adds_mute {A B} may name (tof : B → tap) t (p : host A) (f : A → host B) :
  mute p → (∀ a, adds may name tof t (f a)) → adds may name tof t (p ≫= f).
Proof. intros Hp Hf es Q Hc H1 H2. apply wp_bind, Hp. intros a. by apply Hf. Qed.
Lemma adds_then {A B} may name (tof : A → tap) (tof' : B → tap) t (p : host A) (f : A → host B) :
  adds may name tof t p → (∀ a, ∃ b, tof' b = tof a ∧ ∀ es (Q : B → list string → Prop),
    Q b (render_from 0 es) → wp tapM (f a) Q bailed (render_from 0 es)) → adds may name tof' t (p ≫= f).
Proof.
  intros Hp Hf es Q Hc H1 H2. apply wp_bind. apply Hp; [done|..].
  - intros a e He Hce. destruct (Hf a) as (b & Eb & Hw). apply Hw. apply H1; [done|]. by rewrite Eb.
  - intros Hm a Hca. destruct (Hf a) as (b & Eb & Hw). apply Hw. apply H2; [done|]. by rewrite Eb.
Qed.

(** The clean-up after the line. *)
Definition returns {A} (a : A) (p : host A) : Prop :=
  ∀ es (Q : A → list string → Prop), Q a (render_from 0 es) → wp tapM p Q bailed (render_from 0 es).
Lemma returns_ret {A} (a : A) : returns a (Ret a).
Proof. by intros es Q HQ. Qed.
Lemma returns_quiet {A B} (a : A) (q : host B) (f : B → host A) :
  quiet q → (∀ b, returns a (f b)) → returns a (q ≫= f).
Proof. intros Hq Hf es Q HQ. apply wp_bind. eapply wp_quiet; [done..|]. intros b. by apply Hf. Qed.
Lemma adds_returns may name t (p : host tap) (f : tap → host tap) :
  adds may name id t p → (∀ a, returns a (f a)) → adds may name id t (p ≫= f).
Proof. intros Hp Hf. eapply adds_then; [done|]. intros a. exists a. split; [done|]. intros es Q. apply Hf. Qed.
Ltac returns_tac := repeat first [apply returns_ret | apply returns_quiet; [solve [quiet_tac]|intros ?]].

(** A step that says why it failed: with the code it returns then, the case is
    over; otherwise it wrote nothing. *)
Definition tries {A} (may : bool) (failed : A → bool) (tof : A → tap) (t : tap) (p : host A) : Prop :=
  ∀ es (Q : A → list string → Prop), counted t es →
    (∀ a e, failed a = true → e_case e = t_case t → counted (tof a) (es ++ [e]) → Q a (render_from 0 (es ++ [e]))) →
    (∀ a, tof a = t → failed a = false ∨ may = true → Q a (render_from 0 es)) →
    wp tapM p Q bailed (render_from 0 es).
Lemma adds_tries {A B} may mayp name failed (tof : A → tap) (tof' : B → tap) t (p : host A) (f : A → host B) (g : A → B) :
  (mayp = true → may = true) → t_case t = name →
  tries mayp failed tof t p →
  (∀ a, failed a = true → returns (g a) (f a) ∧ tof' (g a) = tof a) →
  (∀ a, failed a = false → tof a = t → adds may name tof' t (f a)) →
  adds may name tof' t (p ≫= f).
Proof.
  intros Hm <- Hp Hfail Hgo es Q Hc H1 H2. apply wp_bind. apply Hp; [done|..].
  - intros a e Ha He Hce. destruct (Hfail a Ha) as [Hr Et]. apply Hr. apply H1; [done|]. by rewrite Et.
  - intros a Ea Ha. destruct (failed a) eqn:Ef.
    + destruct (Hfail a Ef) as [Hr Et]. destruct Ha as [?|Hmay]; [done|].
      apply Hr, H2; [by apply Hm|]. by rewrite Et, Ea.
    + by apply Hgo.
Qed.

(** ** The whole stream *)
(** How the program can end, by the status it exits with. *)
Definition ended (names : list string) (code : Z) (g : list string) : Prop :=
  ∃ es tail, g = render_from 0 es ++ tail ∧
    ((code = 0 ∧ es = [] ∧ tail = [skip_line]) ∨
     (finished code es tail ∧ (e_case <$> es) `sublist_of` names) ∨
     (code = 2 ∧ (tail = [] ∨ ∃ what e, tail = [bail_line what e]))).
Lemma bailed_ended names n g : bailed n g → ended names n g.
Proof. intros [-> (es&tail&->&H)]. exists es, tail. split; [done|]. auto. Qed.

(** After the cases [names]: what was written, and the counters. *)
Definition so_far (names : list string) (t : tap) (g : list string) : Prop :=
  ∃ es, g = render_from 0 es ∧ counted t es ∧ (e_case <$> es) `sublist_of` names.
Lemma wp_adds {A} all names name may (tof : A → tap) t (p : host A) (Q : A → list string → Prop) g :
  adds may name tof t p → so_far names t g →
  (∀ a g, so_far (names ++ [name]) (tof a) g → Q a g) → wp tapM p Q (ended all) g.
Proof.
  intros Hp (es&->&Hc&Hn) HQ. eapply wp_mono; [|by intros ?? H; apply H|apply bailed_ended]. apply Hp; [done|..].
  - intros a e He Hce. apply HQ. exists (es ++ [e]). split_and!; [done..|].
    rewrite fmap_app. cbn. rewrite He. by apply sublist_app.
  - intros _ a Ha. apply HQ. exists es. split_and!; [done..|]. by apply sublist_inserts_r.
Qed.

Lemma so_far_weaken names names' t g : names `sublist_of` names' → so_far names t g → so_far names' t g.
Proof. intros Hs (es&->&Hc&Hn). exists es. split_and!; [done..|]. by etrans. Qed.
Lemma wp_last names t g (Q : Empty_set → list string → Prop) :
  so_far names t g → wp tapM (code ← Finish t; Exit code) Q (ended names) g.
Proof.
  intros (es&->&Hc&Hn). apply wp_bind. apply wp_Finish; [done|]. intros code tail Hf.
  exists es, tail. split; [done|]. right; left. done.
Qed.

(** [p] reports on cases of [names], in their order. *)
Definition covers {A} (names : list string) (tof : A → tap) (t : tap) (p : host A) : Prop :=
  ∀ ns g (Q : A → list string → Prop), so_far ns t g →
    (∀ a g, so_far (ns ++ names) (tof a) g → Q a g) → wp tapM p Q bailed g.
Lemma covers_adds {A} may name (tof : A → tap) t p : adds may name tof t p → covers [name] tof t p.
Proof.
  intros Hp ns g Q (es&->&Hc&Hn) HQ. apply Hp; [done|..].
  - intros a e He Hce. apply HQ. exists (es ++ [e]). split_and!; [done..|].
    rewrite fmap_app. cbn. rewrite He. by apply sublist_app.
  - intros _ a Ha. apply HQ. exists es. split_and!; [done..|]. by apply sublist_inserts_r.
Qed.
Lemma covers_ret {A} (tof : A → tap) a : covers [] tof (tof a) (Ret a).
Proof. intros ns g Q Hs HQ. apply HQ. by rewrite app_nil_r. Qed.
Lemma covers_mute {A B} names (tof : B → tap) t (p : host A) (f : A → host B) :
  mute p → (∀ a, covers names tof t (f a)) → covers names tof t (p ≫= f).
Proof.
  intros Hp Hf ns g Q Hs HQ. assert (∃ es, g = render_from 0 es) as [es ->] by (destruct Hs as (es&->&_); eauto).
  apply wp_bind, Hp. intros a. by apply (Hf a ns).
Qed.
Lemma covers_bind {A B} n1 n2 (tof : A → tap) (tof' : B → tap) t (p : host A) (f : A → host B) :
  covers n1 tof t p → (∀ a, covers n2 tof' (tof a) (f a)) → covers (n1 ++ n2) tof' t (p ≫= f).
Proof.
  intros Hp Hf ns g Q Hs HQ. apply wp_bind. eapply Hp; [done|]. intros a g' Hs'. eapply Hf; [done|].
  intros b g2. rewrite <- app_assoc. apply HQ.
Qed.
Lemma covers_case {A} names name (tof : A → tap) t p : covers names tof (set_case name t) p → covers names tof t p.
Proof. intros H ns g Q Hs. apply H. destruct Hs as (es&->&Hc&Hn). by exists es. Qed.
Lemma covers_weaken {A} names names' (tof : A → tap) t p :
  names `sublist_of` names' → covers names tof t p → covers names' tof t p.
Proof.
  intros Hn Hp ns g Q Hs HQ. eapply Hp; [done|]. intros a g' Hs'. apply HQ.
  eapply so_far_weaken; [|done]. by apply sublist_app.
Qed.

(** ** Concrete runs

    A kernel that answers every request: the guest reports 0x202 at every exit
    and leaves its memory alone, there are two vCPUs to a VM and no statistics.
    Its state counts the VMs; [refuses] says of which of them the MSR writes
    are refused. *)
Definition report_exit : krun :=
  KRun EXIT_MMIO (le 8 MMIO_REPORT ++ le 8 0x202 ++ le 4 8 ++ [1] ++ repeat 0 227).
Definition kernel (refuses : Z → bool) (B : Type) (n : Z) (o : hop B) : option (B * Z) :=
  match o in hop B return option (B * Z) with
  | Out _ | ErrOut _ | CloseFd _ | Munmap _ | Alarm _ | CancelAlarm | Store _ _ | HostOps.Add _ _ | Go _
  | Join _ | Sleep _ | RaiseNofile => Some (tt, n)
  | OpenFile _ _ => Some ((3, 0), n)
  | ReadFirst _ _ => Some (Some "kvm_pvm 1 0 - Live 0x0", n)
  | ReadAll _ => Some (None, n)
  | IoctlVal _ req arg =>
      if req =? CREATE_VM then Some ((4, 0), n + 1) else
      if req =? CREATE_VCPU then Some (if arg =? 2 then (0, EINVAL) else (5 + arg, 0), n) else
      if req =? CHECK_EXTENSION then Some ((2, 0), n) else
      if req =? GET_STATS_FD then Some ((0, EINVAL), n) else Some ((4096, 0), n)
  | IoctlPtr s _ req x => Some ((if (req =? SET_MSRS) && refuses n then 0 else 1, 0, x), n)
  | KvmRun _ m => Some ((0, 0, m), n)
  | RunPage _ => Some (report_exit, n)
  | Mmap fd _ prot _ => Some ((0x10000 * (fd + 2) + prot, 0), n)
  | Pread _ _ _ => Some (([], 0), n)
  | Hang => None
  | Fired => Some (false, n)
  | Load _ => Some (20, n)
  | Gettid => Some (1, n)
  | Getaffinity _ => Some ((repeat 1 16, 0), n)
  | Setaffinity _ _ => Some (0, n)
  | CpuidInsn _ _ => Some ([0; 0; 0; 0], n)
  | Rdpkru => Some (0, n)
  end.
