(* ===== verification/SwitcherTap.v ===== *)
(** * What the switcher test prints

    Every case writes one result line under its own name, or none if its exits
    counter went backwards; the whole output is a TAP stream whose plan and
    verdict are those of its lines. *)
From Stdlib Require Import Ascii.
From S2P Require Import Prelude GoStrings Bits Abi Guest Prog HostOps HostLogic GuestRuns Switcher.

#[local] Open Scope Z_scope.

(** ** The quiet parts *)
Lemma must_quiet {A} (o : option A) : quiet (must o).
Proof. unfold must. quiet_tac. Qed.
#[export] Hint Resolve must_quiet : quiet.
Lemma setMSRs_quiet v l : quiet (setMSRs v l).
Proof. induction l as [|[i x] l IH]; cbn [setMSRs]; quiet_tac. Qed.
#[export] Hint Resolve setMSRs_quiet : quiet.
Lemma vcpuEnterLongMode_quiet v g : quiet (vcpuEnterLongMode v g).
Proof. unfold vcpuEnterLongMode. quiet_tac. Qed.
#[export] Hint Resolve vcpuEnterLongMode_quiet : quiet.
Lemma guestSetup_quiet v g : quiet (guestSetup v g).
Proof. unfold guestSetup. quiet_tac. Qed.
Lemma guest_loop_quiet fuel v want o m : quiet (guest_loop fuel v want o m).
Proof. revert o m. induction fuel as [|fuel IH]; intros o m; cbn [guest_loop]; quiet_tac. Qed.
#[export] Hint Resolve guestSetup_quiet guest_loop_quiet : quiet.
Lemma guestRun_quiet fuel v g want s : quiet (guestRun fuel v g want s).
Proof. unfold guestRun. quiet_tac. Qed.
Lemma hostStillAnswering_quiet v : quiet (hostStillAnswering v).
Proof. unfold hostStillAnswering. quiet_tac. Qed.
Lemma out_last_quiet v fds : quiet (out_last v fds).
Proof. unfold out_last. quiet_tac. Qed.
#[export] Hint Resolve guestRun_quiet hostStillAnswering_quiet out_last_quiet : quiet.
Lemma swapBack_quiet v fds : quiet (swapBack v fds).
Proof. unfold swapBack. quiet_tac. Qed.
Lemma create_vcpus_quiet n i v fds : quiet (create_vcpus n i v fds).
Proof. revert i fds. induction n as [|n IH]; intros i fds; cbn [create_vcpus]; quiet_tac. Qed.
Lemma pin_pages_quiet n i v fds g : quiet (pin_pages n i v fds g).
Proof. revert i g. induction n as [|n IH]; intros i g; cbn [pin_pages]; quiet_tac. Qed.
#[export] Hint Resolve swapBack_quiet create_vcpus_quiet pin_pages_quiet : quiet.

(** ** The cases *)
Lemma adds_nok may name msg t g : t_case t = name → adds may name fst t (nok msg t g).
Proof.
  intros <- es Q Hc HQ _. apply wp_bind. apply wp_Nok; [done|]. intros t' _ Hc'. by apply (HQ (t', g)).
Qed.
Lemma adds_ok may name msg t g : t_case t = name → adds may name fst t (ok msg t g).
Proof.
  intros <- es Q Hc HQ _. apply wp_bind. apply wp_Ok; [done|]. intros t' _ Hc'. by apply (HQ (t', g)).
Qed.
Lemma warmUp_tries fuel t v g what :
  tries false (λ a, negb (a.1.1 =? 0)) (λ a, a.1.2) t (warmUp fuel t v g what).
Proof.
  intros es Q Hc H1 H2. unfold warmUp. apply wp_bind. eapply wp_quiet; [quiet_tac|done|]. intros g1.
  apply wp_bind. eapply wp_quiet; [quiet_tac|done|]. intros [o g2]. case_match.
  - apply wp_bind. apply wp_Nok; [done|]. intros t' _ Hc'. by apply (H1 (-1, t', g2)).
  - apply (H2 (0, t, g2)); auto.
Qed.
Lemma pgtblRoundExits_tries fuel t v g :
  tries false (λ a, negb (a.1.1.1 =? 0)) (λ a, a.1.2) t (pgtblRoundExits fuel t v g).
Proof.
  intros es Q Hc H1 H2. unfold pgtblRoundExits. apply wp_bind. eapply wp_quiet; [quiet_tac|done|]. intros [[e|] before].
  - apply wp_bind. apply wp_Nok; [done|]. intros t' _ Hc'. by apply (H1 (-1, 0, t', g)).
  - apply wp_bind. eapply wp_quiet; [quiet_tac|done|]. intros [o g1].
    apply wp_bind. eapply wp_quiet; [quiet_tac|done|]. intros [[e|] after].
    + apply wp_bind. apply wp_Nok; [done|]. intros t' _ Hc'. by apply (H1 (-1, 0, t', g1)).
    + case_match.
      * apply wp_bind. apply wp_Nok; [done|]. intros t' _ Hc'. by apply (H1 (-1, 0, t', g1)).
      * apply (H2 (0, u64 (after - before), t, g1)); auto.
Qed.
Lemma runCleanRounds_tries fuel t v g n s :
  tries true (λ a, a.1.1 <? 0) (λ a, a.1.2) t (runCleanRounds fuel t v g n s).
Proof.
  intros es Q Hc H1 H2. unfold runCleanRounds. apply wp_bind. eapply wp_quiet; [quiet_tac|done|]. intros [e before].
  apply wp_bind. eapply wp_quiet; [quiet_tac|done|]. intros [o g1].
  apply wp_bind. eapply wp_quiet; [quiet_tac|done|]. intros [e' after]. case_match.
  - apply wp_bind. apply wp_Nok; [done|]. intros t' _ Hc'. by apply (H1 (-1, t', g1)).
  - case_match.
    + apply wp_bind. apply wp_Nok; [done|]. intros t' _ Hc'. by apply (H1 (-1, t', g1)).
    + apply (H2 (_, t, g1)); auto.
Qed.

(** Walks a case down to its last line. *)
Ltac try_step h l ret :=
  eapply (adds_tries _ h _ _ _ _ _ _ _ ret); [done|reflexivity|apply l
    |intros [[??] ?] E; cbn [fst snd] in E |- *; rewrite E; split; [returns_tac|reflexivity]
    |intros [[??] ?] E Et; cbn [fst snd] in E, Et |- *; rewrite E; clear E; subst].
Ltac try_step4 h l ret :=
  eapply (adds_tries _ h _ _ _ _ _ _ _ ret); [done|reflexivity|apply l
    |intros [[[??] ?] ?] E; cbn [fst snd] in E |- *; rewrite E; split; [returns_tac|reflexivity]
    |intros [[[??] ?] ?] E Et; cbn [fst snd] in E, Et |- *; rewrite E; clear E; subst].
Ltac case_step :=
  cbv zeta;
  lazymatch goal with
  | |- adds _ _ _ _ (nok _ _ _) => apply adds_nok; reflexivity
  | |- adds _ _ _ _ (ok _ _ _) => apply adds_ok; reflexivity
  | |- adds _ _ _ _ (Nok _ _) => apply adds_Nok; reflexivity
  | |- adds _ _ _ _ (Ok _ _) => apply adds_Ok; reflexivity
  | |- adds _ _ fst _ (warmUp _ _ _ _ _ ≫= _) => try_step false warmUp_tries (λ a : Z * tap * guest, (a.1.2, a.2))
  | |- adds _ _ id _ (warmUp _ _ _ _ _ ≫= _) => try_step false warmUp_tries (λ a : Z * tap * guest, a.1.2)
  | |- adds _ _ fst _ (runCleanRounds _ _ _ _ _ _ ≫= _) =>
      try_step true runCleanRounds_tries (λ a : Z * tap * guest, (a.1.2, a.2))
  | |- adds _ _ id _ (runCleanRounds _ _ _ _ _ _ ≫= _) =>
      try_step true runCleanRounds_tries (λ a : Z * tap * guest, a.1.2)
  | |- adds _ _ _ _ (pgtblRoundExits _ _ _ _ ≫= _) =>
      try_step4 false pgtblRoundExits_tries (λ a : Z * Z * tap * guest, (a.1.2, a.2))
  | |- adds _ _ _ _ (Setup ≫= _) => apply adds_mute; [apply Setup_mute|intros ?]
  | |- adds _ _ _ _ (Nok _ _ ≫= _) => apply adds_returns; [|intros ?; returns_tac]
  | |- adds _ _ _ _ (_ ≫= _) => apply adds_mute; [solve [apply mute_quiet; quiet_tac]|intros ?]
  | |- _ => case_match
  end.
Ltac case_tac := repeat case_step.

Section Cases.
Context (fuel : nat) (t : tap) (v : VM) (g : guest).
Lemma S1_adds : adds false "pvm/invariant-S1-noncanonical-eretu-rip" fst t (testS1NoncanonicalRIP fuel t v g).
Proof. unfold testS1NoncanonicalRIP. cbv zeta. apply adds_set_case. case_tac. Qed.
Lemma S2_adds : adds false "pvm/invariant-S2-eflags-sanitised" fst t (testS2EFLAGS fuel t v g).
Proof. unfold testS2EFLAGS. apply adds_set_case. case_tac. Qed.
Lemma S4_adds : adds false "pvm/invariant-S4-unexpected-selectors" fst t (testS4Selectors fuel t v g).
Proof. unfold testS4Selectors. apply adds_set_case. case_tac. Qed.
Lemma pgtbl_adds : adds false "pvm/pgtbl-fastpath-clears-no-ds-cr3" fst t (testPgtblNoDSCR3 fuel t v g).
Proof. unfold testPgtblNoDSCR3. apply adds_set_case. case_tac. Qed.
Lemma direct_cpuid_adds :
  adds false "pvm/direct-pf/cpuid-and-cr2-write" fst t (testDirectPFCPUIDAndCR2Write fuel t v g).
Proof. unfold testDirectPFCPUIDAndCR2Write. apply adds_set_case. case_tac. Qed.
Definition fault_case (direct : bool) : string :=
  if direct then "pvm/direct-pf/user-np-delivered-directly" else "pvm/direct-pf/user-np-disabled-slow-path".
Lemma fault_adds direct : adds false (fault_case direct) fst t (testDirectPFFault fuel direct t v g).
Proof. unfold testDirectPFFault. apply adds_set_case. destruct direct; case_tac. Qed.
Lemma rule_adds name pattern slow : adds false name fst t (testDirectPFRule fuel name pattern slow t v g).
Proof. unfold testDirectPFRule. apply adds_set_case. case_tac. Qed.
Lemma migrate_adds : adds true "pvm/pvcs-alias-migrate" fst t (testPVCSAliasMigrate fuel t v g).
Proof.
  unfold testPVCSAliasMigrate. apply adds_mute; [apply mute_quiet; quiet_tac|intros tid]. apply adds_set_case. case_tac. Qed.
Lemma rebind_loop_adds n i t0 g0 :
  t_case t0 = "pvm/pvcs-alias-rebind" → adds true "pvm/pvcs-alias-rebind" fst t0 (rebind_loop fuel n i t0 v g0).
Proof.
  intros Ht. revert i g0. induction n as [|n IH]; intros i g0; cbn [rebind_loop]; [by apply adds_ok|].
  destruct (if negb (i mod 2 =? 0) then _ else _) as [[from to] toKVA].
  repeat (cbv zeta; first
    [ by apply adds_nok | apply IH | apply adds_mute; [solve [apply mute_quiet; quiet_tac]|intros ?]
    | eapply (adds_tries _ true _ _ _ _ _ _ _ (λ a : Z * tap * guest, (a.1.2, a.2))); [done|exact Ht|apply runCleanRounds_tries
      |intros [[??] ?] E; cbn [fst snd] in E |- *; rewrite E; split; [returns_tac|reflexivity]
      |intros [[??] ?] E Et; cbn [fst snd] in E, Et |- *; rewrite E; clear E; subst]
    | case_match ]).
Qed.
Lemma rebind_adds : adds true "pvm/pvcs-alias-rebind" fst t (testPVCSAliasRebind fuel t v g).
Proof.
  unfold testPVCSAliasRebind. apply adds_set_case. cbv zeta. try_step false warmUp_tries (λ a : Z * tap * guest, (a.1.2, a.2)).
  by apply rebind_loop_adds.
Qed.
Lemma last_vcpu_runs_adds t0 v0 fds n :
  adds true (t_case t0) id t0 (last_vcpu_runs fuel t0 v0 fds n).
Proof. unfold last_vcpu_runs. case_tac. Qed.
Lemma last_vcpu_swapped_adds t0 v0 fd fds n :
  adds true (t_case t0) id t0 (last_vcpu_swapped fuel t0 v0 fd fds n).
Proof.
  unfold last_vcpu_swapped. repeat lazymatch goal with
  | |- adds _ _ _ _ (last_vcpu_runs _ ?t0 _ _ _ ≫= _) =>
      apply adds_returns; [apply (last_vcpu_runs_adds t0)|intros ?; returns_tac]
  | |- _ => case_step
  end.
Qed.
Lemma last_vcpu_made_adds t0 v0 fds n :
  adds true (t_case t0) id t0 (last_vcpu_made fuel t0 v0 fds n).
Proof.
  unfold last_vcpu_made. repeat lazymatch goal with
  | |- adds _ _ _ _ (last_vcpu_swapped _ ?t0 _ _ _ _) => apply (last_vcpu_swapped_adds t0)
  | |- _ => case_step
  end.
Qed.
Lemma last_vcpu_adds : adds true "pvm/pvcs-alias-last-vcpu" id t (testPVCSAliasLastVcpu fuel t).
Proof.
  unfold testPVCSAliasLastVcpu. apply adds_set_case.
  repeat lazymatch goal with
  | |- adds _ _ _ _ (last_vcpu_made _ ?t0 _ _ _) => apply (last_vcpu_made_adds t0)
  | |- _ => case_step
  end.
Qed.
End Cases.

(** ** The whole program *)
Definition case_names : list string :=
  ["pvm/switcher-harness"; "pvm/invariant-S1-noncanonical-eretu-rip"; "pvm/invariant-S2-eflags-sanitised";
   "pvm/invariant-S4-unexpected-selectors"; "pvm/pgtbl-fastpath-clears-no-ds-cr3"; "pvm/pvcs-alias-rebind";
   "pvm/pvcs-alias-migrate"; "pvm/pvcs-alias-last-vcpu"; "pvm/direct-pf/cpuid-and-cr2-write";
   "pvm/direct-pf/user-np-delivered-directly"; "pvm/direct-pf/user-np-disabled-slow-path";
   "pvm/direct-pf/rule-same-page"; "pvm/direct-pf/rule-run-limit"; "pvm/direct-pf/rule-interleaved"].
Lemma vm_case_adds may name test t g :
  (∀ v g, adds may name fst t (test t v g)) → adds true name fst t (vm_case test t g).
Proof.
  intros Ht. unfold vm_case. apply adds_mute; [apply Setup_mute|intros v].
  apply adds_mute; [apply mute_quiet; quiet_tac|intros [r g1]].
  intros es Q Hc H1 H2. apply wp_bind.
  assert (∀ a es, Q a (render_from 0 es) → wp tapM (let '(t, g) := a in Teardown v ;; Ret (t, g)) Q bailed (render_from 0 es))
    as Hend.
  { intros [t' g'] es' HQ. apply wp_bind. eapply wp_quiet; [quiet_tac|done|]. by intros _. }
  case_match; [apply Ht; [done|..]|].
  - intros a e He Hce. by apply Hend, H1.
  - intros _ a Hca. by apply Hend, H2.
  - apply Hend, H2; [done|]. by cbn.
Qed.

(** The verdict of a harness that did not start. *)
Lemma wp_no_guest t es (Q : Empty_set → list string → Prop) :
  counted t es → ¬ Forall (λ e, e_ok e = true) es → (e_case <$> es) `sublist_of` case_names →
  wp tapM (out ("1.." +:+ itoa (t_pass t + t_fail t) +:+ nl) ;;
    out ("PVMHOSTTEST-RESULT: fail pass=" +:+ itoa (t_pass t) +:+ " fail=" +:+ itoa (t_fail t) +:+ nl) ;;
    Exit 1) Q (ended case_names) (render_from 0 es).
Proof.
  intros Hc Hf Hn. pose proof (counted_length _ _ Hc) as Hl. destruct Hc as [Hp Hq]. cbn. split; [done|].
  intros _ _. split; [done|]. intros _ _. eexists es, _. rewrite <- app_assoc. split; [done|].
  right; left. split; [|done]. right. rewrite Hl, Hp, Hq. done.
Qed.
Section Main.
Context (fuel : nat).
Ltac bail_mono := eapply wp_mono; [|by intros ?? H'; apply H'|apply bailed_ended].
Ltac vm_next l :=
  apply wp_bind; eapply wp_adds; [eapply vm_case_adds; intros; apply l|eassumption|];
  intros [? ?] ? ?; cbn [fst snd] in *.

Lemma wp_cases t v g ls :
  so_far ["pvm/switcher-harness"] t ls →
  wp tapM (
    '(t, g) ← testS1NoncanonicalRIP fuel t v g;
    Teardown v ;;
    '(t, g) ← vm_case (testS2EFLAGS fuel) t g;
    '(t, g) ← vm_case (testS4Selectors fuel) t g;
    '(t, g) ← vm_case (testPgtblNoDSCR3 fuel) t (set_variant true g);
    '(t, g) ← vm_case (testPVCSAliasRebind fuel) t (set_variant false g);
    '(t, g) ← vm_case (testPVCSAliasMigrate fuel) t g;
    t ← testPVCSAliasLastVcpu fuel t;
    '(t, g) ← vm_case (testDirectPFCPUIDAndCR2Write fuel) t g;
    '(t, g) ← vm_case (testDirectPFFault fuel true) t g;
    '(t, g) ← vm_case (testDirectPFFault fuel false) t g;
    '(t, _) ← each_with rules (t, g) (λ '(t, g) '(name, pattern, slow),
       vm_case (testDirectPFRule fuel name pattern slow) t g);
    code ← Finish t; Exit code) (λ (_ : Empty_set) _, False) (ended case_names) ls.
Proof.
  intros H0. apply wp_bind. eapply wp_adds; [apply S1_adds|done|]. intros [t1 g1] ls1 H1; cbn [fst snd] in *.
  apply wp_bind. destruct H1 as (es&->&Hc&Hn). bail_mono. eapply wp_quiet; [quiet_tac|done|]. intros _.
  assert (so_far (["pvm/switcher-harness"] ++ ["pvm/invariant-S1-noncanonical-eretu-rip"]) t1 (render_from 0 es)) as H1
    by (exists es; done).
  clear Hc Hn. vm_next S2_adds. vm_next S4_adds. vm_next pgtbl_adds. vm_next rebind_adds. vm_next migrate_adds.
  apply wp_bind. eapply wp_adds; [apply last_vcpu_adds|eassumption|]. intros tl lsl H7. unfold id in H7.
  vm_next direct_cpuid_adds. vm_next (fault_adds fuel). vm_next (fault_adds fuel).
  apply wp_bind. cbn [each_with rules]. unfold rules. cbn [each_with].
  do 3 (vm_next rule_adds). cbn [wp]. apply wp_last. done.
Qed.

Lemma wp_main : wp tapM (main fuel) (λ _ _, False) (ended case_names) [].
Proof.
  unfold main. apply wp_bind. bail_mono. eapply (wp_quiet _ _ _ []); [quiet_tac|done|]. intros [|]; cbn [negb].
  2:{ cbn. split; [done|]. intros _ _. exists [], [skip_line]. auto. }
  apply wp_bind. bail_mono. apply (Setup_mute []). intros v.
  apply wp_bind. bail_mono. eapply (wp_quiet _ _ _ []); [quiet_tac|done|]. intros [r g].
  set (t := set_case _ _). case_match.
  - apply wp_bind. apply (wp_Nok _ _ []); [done|]. intros t' _ Hc.
    apply wp_bind. bail_mono. eapply wp_quiet; [quiet_tac|done|]. intros _.
    apply wp_no_guest; [done|by intros F; inversion F|]. by apply sublist_skip, sublist_nil_l.
  - apply (wp_cases t v g []). exists []. split_and!; [done..|]. apply sublist_nil_l.
Qed.
End Main.

(** C30: Whatever the kernel answers, when the switcher test ends by itself its
    standard output is a TAP stream: the result lines numbered from one, each
    case at most once and in the order of the program, followed by the plan
    and the verdict that count them and, for status 0, no failed line (status 1
    exactly when there is one); or the skip line alone with status 0; or, with
    status 2, the lines so far and at most one bail-out line. *)
Theorem main_tap fuel tr code :
  runs (main fuel) tr (Exited code) → ended case_names code (stdout tr).
Proof.
  intros H. refine (proj2 (wp_runs tapM _ _ _ _ _ _ (wp_main fuel) H _)).
  generalize ([] : m_state tapM). clear H. induction tr as [|[T o [b|]] tr IH]; intros g; cbn; auto.
Qed.

(** ** Concrete runs *)
Definition on_kernel (refuses : Z → bool) (p : host Empty_set) := drive_with (kernel refuses) 0 p.

Lemma on_kernel_runs refuses p : runs p (on_kernel refuses p).1 (on_kernel refuses p).2.
Proof. apply drive_with_runs. Qed.
Lemma main_tap_witness : ended case_names 0 (stdout (on_kernel (λ n, (2 <=? n) && negb (n =? 7)) (main 300)).1).
Proof.
  eapply (main_tap 300).
  replace (Exited 0) with (on_kernel (λ n, (2 <=? n) && negb (n =? 7)) (main 300)).2 by (vm_compute; reflexivity).
  exact (on_kernel_runs _ _).
Defined.

(** When building the guest fails on every VM but the first and the one of
    the last-vCPU case, eleven cases leave no line, and the test still says ok
    and exits 0: only the first VM's failure is reported. *)
Theorem main_drops_cases :
  ∃ tr, runs (main 300) tr (Exited 0) ∧
    stdout tr =
      render_from 0
        [ Entry true "pvm/invariant-S1-noncanonical-eretu-rip"
            "1 report(s) (last rflags 0x202), 0 event(s) (last 0), 1 exit(s), stopped by nothing";
          Entry true "pvm/pvcs-alias-last-vcpu"
            "2 vCPUs; vCPU 1 ran 200 direct-switch rounds (0 exits), the other 1 PVCS pages untouched, vCPU 3 refused" ]
      ++ [plan_line 2; result_line "ok" 2 0].
Proof.
  exists (on_kernel (λ n, (2 <=? n) && negb (n =? 7)) (main 300)).1. split; [|vm_compute; reflexivity].
  replace (Exited 0) with (on_kernel (λ n, (2 <=? n) && negb (n =? 7)) (main 300)).2 by (vm_compute; reflexivity).
  exact (on_kernel_runs _ _).
Qed.
