(* ===== verification/HostRes.v ===== *)
(** * What the host tests hold open

    A monitor of the descriptors, mappings, the alarm and the goroutines of a
    host test.  A call may use only what is open, may close only what is open,
    and arms one alarm at a time; the kernel hands out descriptors and
    addresses that are not in use.  The rules here say that the operations of
    the harness give back what they take. *)
From stdpp Require Import gmap.
From S2P Require Import Prelude GoStrings Bits Abi Guest Prog HostOps.

#[local] Open Scope Z_scope.

Record res := Res { r_fds : gset Z; r_maps : gset Z; r_armed : bool; r_threads : list string }.
Definition idle : res := Res ∅ ∅ false [].
Definition open_fd (fd : Z) (g : res) : res := Res ({[fd]} ∪ r_fds g) (r_maps g) (r_armed g) (r_threads g).
Definition close_fd (fd : Z) (g : res) : res := Res (r_fds g ∖ {[fd]}) (r_maps g) (r_armed g) (r_threads g).
Definition map_at (a : Z) (g : res) : res := Res (r_fds g) ({[a]} ∪ r_maps g) (r_armed g) (r_threads g).
Definition unmap (a : Z) (g : res) : res := Res (r_fds g) (r_maps g ∖ {[a]}) (r_armed g) (r_threads g).
Definition arm (b : bool) (g : res) : res := Res (r_fds g) (r_maps g) b (r_threads g).
Definition with_threads (l : list string) (g : res) : res := Res (r_fds g) (r_maps g) (r_armed g) l.

(** The requests whose value is a new descriptor. *)
Definition creates (req : Z) : bool := (req =? CREATE_VM) || (req =? CREATE_VCPU) || (req =? GET_STATS_FD).
Definition res_obs (B : Type) (o : hop B) : B → res → res :=
  match o in hop B return B → res → res with
  | OpenFile _ _ => λ '(fd, e) g, if e =? 0 then open_fd fd g else g
  | IoctlVal _ req _ => λ '(r, e) g, if creates req && (e =? 0) then open_fd r g else g
  | CloseFd fd => λ _ g, close_fd fd g
  | Mmap _ _ _ _ => λ '(a, e) g, if e =? 0 then map_at a g else g
  | Munmap a => λ _ g, unmap a g
  | Alarm _ => λ _ g, arm true g
  | CancelAlarm => λ _ g, arm false g
  | Go n => λ _ g, with_threads (n :: r_threads g) g
  | Join n => λ _ g, with_threads (filter (λ x, x ≠ n) (r_threads g)) g
  | _ => λ _ g, g
  end.
Definition res_pre (B : Type) (o : hop B) (g : res) : Prop :=
  match o with
  | IoctlVal fd _ _ | IoctlPtr _ fd _ _ | KvmRun fd _ | Pread fd _ _ | CloseFd fd => fd ∈ r_fds g
  | Mmap fd _ _ _ => fd = -1 ∨ fd ∈ r_fds g
  | Munmap a | RunPage a => a ∈ r_maps g
  | Alarm _ => r_armed g = false
  | CancelAlarm => r_armed g = true
  | Go n => n ∉ r_threads g
  | Join n => n ∈ r_threads g
  | _ => True
  end.
Definition res_ans (B : Type) (o : hop B) : B → res → Prop :=
  match o in hop B return B → res → Prop with
  | OpenFile _ _ => λ '(fd, e) g, e = 0 → 2 < fd ∧ fd ∉ r_fds g
  | IoctlVal _ req _ => λ '(r, e) g, e = 0 → creates req = true → 2 < r ∧ r ∉ r_fds g
  | Mmap _ _ _ _ => λ '(a, e) g, e = 0 → a ∉ r_maps g
  | _ => λ _ _, True
  end.
Definition resM : monitor hop := Monitor hop res res_obs res_pre res_ans.

(** Bailing out, or a panic: the kernel cleans up. *)
Definition died (n : Z) (_ : res) : Prop := n = 2.

(** ** Programs that give back what they take *)
(** The VM is usable; [m] says whether the alarm is set, and what goroutines run. *)
Record live (m : bool * list string) (v : VM) (g : res) : Prop := {
  live_kvm : v_kvm v ∈ r_fds g; live_vm : v_vm v ∈ r_fds g; live_vcpu : v_vcpu v ∈ r_fds g;
  live_run : ∃ a, v_run v = Some a ∧ a ∈ r_maps g; live_alarm : r_armed g = m.1; live_threads : r_threads g = m.2 }.
Definition keeps (m : bool * list string) (v : VM) {A} (p : host A) : Prop :=
  ∀ g (Q : A → res → Prop), live m v g → (∀ a, Q a g) → wp resM p Q died g.

Section Keeps.
Context (m : bool * list string) (v : VM).
Lemma keeps_ret {A} (a : A) : keeps m v (Ret a).
Proof. intros g Q _ HQ. apply HQ. Qed.
Lemma keeps_panic {A} : keeps m v (@panic A).
Proof. intros g Q _ HQ. done. Qed.
Lemma keeps_hang {A} : keeps m v (@hang A).
Proof. intros g Q _ HQ. split; [done|intros []]. Qed.
Lemma keeps_bind {A B} (p : host A) (f : A → host B) : keeps m v p → (∀ a, keeps m v (f a)) → keeps m v (p ≫= f).
Proof. intros Hp Hf g Q Hg HQ. apply wp_bind. apply Hp; [done|]. intros a. by apply Hf. Qed.
(** A call that only looks. *)
Definition plain (B : Type) (o : hop B) : Prop :=
  match o with
  | Out _ | ErrOut _ | ReadFirst _ _ | ReadAll _ | Hang | Fired | Load _ | Store _ _ | HostOps.Add _ _ | Sleep _ | RaiseNofile
  | Gettid | Getaffinity _ | Setaffinity _ _ | CpuidInsn _ _ | Rdpkru => True
  | IoctlPtr _ fd _ _ | KvmRun fd _ => fd = v_vcpu v ∨ fd = v_vm v
  | RunPage a => v_run v = Some a
  | _ => False
  end.
Lemma keeps_call {B} (o : hop B) : plain B o → keeps m v (call o).
Proof.
  intros Ho g Q [Hk Hv Hc (a&Hr&Ha) Hal Hth] HQ. destruct o; try done; cbn in Ho |- *;
    (split; [try done; try (destruct Ho as [->| ->]; done); try congruence|intros b _; apply HQ]).
Qed.
Lemma keeps_die {A} what e : keeps m v (@Die A what e).
Proof. intros g Q _ _. cbn. split; [done|]. intros _ _. split; [done|]. by intros _ _. Qed.
Lemma keeps_each {A} (l : list A) (f : A → host unit) : (∀ x, keeps m v (f x)) → keeps m v (each l f).
Proof. intros H. induction l; cbn [each]; [apply keeps_ret|]. by apply keeps_bind. Qed.
End Keeps.

Create HintDb res discriminated.
#[export] Hint Resolve keeps_ret keeps_panic keeps_hang keeps_die : res.
#[export] Hint Extern 1 (plain _ _ _) => (cbn; solve [exact I | left; reflexivity | right; reflexivity]) : res.
Ltac keeps_tac :=
  repeat (intros; first [solve [auto with res nocore] | apply keeps_call; cbn; solve [exact I | auto]
                        | apply keeps_bind | case_match]).

Section Harness.
Context (m : bool * list string) (v : VM).
Lemma RunData_keeps : keeps m v (RunData v).
Proof. unfold RunData. keeps_tac. Qed.
Lemma Ioctl_keeps {T : Set} (s : shape T) req arg : keeps m v (Ioctl s (v_vcpu v) req arg).
Proof. unfold Ioctl. keeps_tac. Qed.
Lemma Ioctl_vm_keeps {T : Set} (s : shape T) req arg : keeps m v (Ioctl s (v_vm v) req arg).
Proof. unfold Ioctl. keeps_tac. Qed.
Lemma run_once_keeps x : keeps m v (run_once (v_vcpu v) x).
Proof. unfold run_once. keeps_tac. Qed.
Hint Resolve RunData_keeps Ioctl_keeps Ioctl_vm_keeps run_once_keeps : res.
Lemma KVMRun_keeps fuel x : keeps m v (KVMRun fuel (v_vcpu v) x).
Proof. revert x. induction fuel as [|fuel IH]; intros x; cbn [KVMRun]; keeps_tac. Qed.
Lemma SetMSR_keeps i x : keeps m v (SetMSR v i x).
Proof. unfold SetMSR. keeps_tac. Qed.
Lemma GetMSR_keeps i x : keeps m v (GetMSR v i x).
Proof. unfold GetMSR. keeps_tac. Qed.
Lemma SetMemslot_keeps a b c d e : keeps m v (SetMemslot v a b c d e).
Proof. unfold SetMemslot. keeps_tac. Qed.
Lemma Ok_keeps d t : keeps m v (Ok d t).
Proof. unfold Ok, out. keeps_tac. Qed.
Lemma Nok_keeps d t : keeps m v (Nok d t).
Proof. unfold Nok, out. keeps_tac. Qed.

(** [Stat] closes the descriptor it gets on every path. *)
Lemma close_open fd g : fd ∉ r_fds g → close_fd fd (open_fd fd g) = g.
Proof. intros H. destruct g as [F M a t]. unfold close_fd, open_fd; cbn in *. f_equal. set_solver. Qed.
Lemma unmap_map a g : a ∉ r_maps g → unmap a (map_at a g) = g.
Proof. intros H. destruct g as [F M b t]. unfold unmap, map_at; cbn in *. f_equal. set_solver. Qed.
Lemma stat_loop_wp n fd i a b c w x g (Q : goerr * Z → res → Prop) :
  fd ∈ r_fds g → (∀ r, Q r g) → wp resM (stat_loop n fd i a b c w x) Q died g.
Proof.
  intros Hfd HQ. revert i. induction n as [|n IH]; intros i; cbn [stat_loop]; [apply HQ|].
  cbn. split; [done|]. intros [d e] _. case_match; [apply HQ|]. case_match; [apply IH|].
  cbn. split; [done|]. intros [b' e'] _. apply HQ.
Qed.
Lemma Stat_keeps w x : keeps m v (Stat v w x).
Proof.
  intros g Q Hg HQ. unfold Stat, IoctlInt. cbn. split; [apply Hg|]. intros [r e] Ha. cbn.
  destruct (Z.eqb_spec e 0) as [->|He]; cbn; [|apply HQ]. specialize (Ha eq_refl eq_refl) as [Hr Hn].
  destruct (Z.ltb_spec r 0); [lia|]. cbn. split; [set_solver|]. intros [h e] _. apply wp_bind.
  assert (∀ y : goerr * Z, wp resM (call (CloseFd r) ;; Ret y) Q died (open_fd r g)) as Hend.
  { intros y. cbn. split; [set_solver|]. intros _ _. by rewrite close_open. }
  case_match; [apply Hend|]. apply stat_loop_wp; [set_solver|apply Hend].
Qed.
End Harness.
#[export] Hint Resolve RunData_keeps Ioctl_keeps Ioctl_vm_keeps run_once_keeps KVMRun_keeps SetMSR_keeps GetMSR_keeps
  SetMemslot_keeps Ok_keeps Nok_keeps Stat_keeps : res.

(** ** A VM from [Setup] to [Teardown] *)
(** All that is open is the VM's, and the descriptors [X]. *)
Record holds (v : VM) (X : gset Z) (g : res) : Prop := {
  h_fds : r_fds g = {[v_kvm v; v_vm v; v_vcpu v]} ∪ X;
  h_dup : NoDup [v_kvm v; v_vm v; v_vcpu v];
  h_apart : ∀ x, x ∈ X → x ≠ v_kvm v ∧ x ≠ v_vm v ∧ x ≠ v_vcpu v;
  h_maps : match v_run v with
           | Some a => r_maps g = {[a; v_mem v]} ∧ a ≠ v_mem v
           | None => r_maps g = {[v_mem v]}
           end;
  h_alarm : r_armed g = false; h_threads : r_threads g = [] }.
Lemma holds_live v X g : holds v X g → is_Some (v_run v) → live (false, []) v g.
Proof.
  intros [Hf _ _ Hm Ha Ht] [a Hr]. rewrite Hr in Hm. destruct Hm as [Hm _].
  split; [set_solver..| |done|done]. exists a. split; [done|]. set_solver.
Qed.
Lemma three_apart (a b c : Z) : NoDup [a; b; c] ↔ a ≠ b ∧ a ≠ c ∧ b ≠ c.
Proof. rewrite !NoDup_cons, !elem_of_cons. pose proof (NoDup_nil_2 (A := Z)). set_solver. Qed.
Lemma res_eq g F M : r_fds g = F → r_maps g = M → r_armed g = false → r_threads g = [] → g = Res F M false [].
Proof. destruct g. cbn. congruence. Qed.

Lemma set_run_id v r : v_run v = r → set_run v r = v.
Proof. intros <-. by destruct v. Qed.
Lemma UnmapRun_wp v vo X g (Q : VM → res → Prop) E :
  holds vo X g → v_run v = v_run vo →
  (∀ g', holds (set_run vo None) X g' → Q (set_run v None) g') → wp resM (UnmapRun v) Q E g.
Proof.
  intros [Hf Hd Hx Hm Ha Ht] Hv HQ. unfold UnmapRun. rewrite Hv. destruct (v_run vo) as [a|] eqn:Er.
  - destruct Hm as [Hm Hne]. cbn. split; [set_solver|]. intros _ _. apply HQ. split; [done..| |done|done].
    cbn. rewrite Hm. set_solver.
  - cbn. specialize (HQ g). rewrite (set_run_id v None Hv) in HQ. apply HQ. by split.
Qed.
Lemma MmapRun_wp v vo X fd g (Q : goerr * VM → res → Prop) E :
  holds vo X g → v_run vo = None → fd ∈ r_fds g →
  (∀ a g', holds (set_run vo (Some a)) X g' → Q (None, set_run v (Some a)) g') →
  (∀ e, Q (Some e, set_run v None) g) →
  wp resM (MmapRun v fd) Q E g.
Proof.
  intros [Hf Hd Hx Hm Ha Ht] Er Hfd HQ1 HQ2. unfold MmapRun. rewrite Er in Hm. cbn. split; [auto|]. intros [a e] Hans.
  destruct (Z.eqb_spec e 0) as [->|He]; cbn; [|apply HQ2].
  apply HQ1. specialize (Hans eq_refl). split; [done..| |done|done]. cbn. rewrite Hm in *. set_solver.
Qed.
Lemma Teardown_wp v g (Q : unit → res → Prop) E :
  holds v ∅ g → Q tt idle → wp resM (Teardown v) Q E g.
Proof.
  intros Hh HQ. unfold Teardown. apply wp_bind. eapply UnmapRun_wp; [done|done|].
  clear g Hh. intros g [Hf Hd _ Hm Ha Ht]. cbn in Hf, Hd, Hm.
  apply three_apart in Hd as (H1&H2&H3). cbn.
  repeat match goal with |- _ ∧ _ => split; [cbn; set_solver|intros [] _] end.
  lazymatch goal with |- Q _ ?g' => replace g' with idle; [done|] end.
  symmetry. apply res_eq; cbn; [set_solver..|done|done].
Qed.

Lemma Ioctl_wp {T : Set} (s : shape T) fd req arg g (Q : Z * Z * T → res → Prop) E :
  fd ∈ r_fds g → (∀ r e x, Q (r, e, x) g) → wp resM (Ioctl s fd req arg) Q E g.
Proof. intros Hfd HQ. unfold Ioctl. cbn. split; [done|]. intros [[r e] x] _. case_match; apply HQ. Qed.

Lemma wp_die {A} what e (Q : A → res → Prop) g : wp resM (Die what e) Q died g.
Proof. cbn. split; [done|intros [] _]; split; [done|intros [] _]; exact eq_refl. Qed.

Lemma getSupportedCPUID_wp kvm g (Q : cpuid2 → res → Prop) :
  kvm ∈ r_fds g → (∀ c, Q c g) → wp resM (getSupportedCPUID kvm) Q died g.
Proof.
  intros Hk HQ. unfold getSupportedCPUID. apply wp_bind. apply Ioctl_wp; [done|]. intros r e c.
  case_match; [apply wp_die|apply HQ].
Qed.
Lemma IoctlInt_wp fd req arg g (Q : Z * Z → res → Prop) E :
  fd ∈ r_fds g →
  (∀ r, (creates req = true → 2 < r ∧ r ∉ r_fds g) → Q (r, 0) (if creates req then open_fd r g else g)) →
  (∀ e, e ≠ 0 → Q (-1, e) g) →
  wp resM (IoctlInt fd req arg) Q E g.
Proof.
  intros Hfd H1 H2. unfold IoctlInt. cbn. split; [done|]. intros [r e] Ha. destruct (Z.eqb_spec e 0) as [->|He]; cbn.
  - rewrite andb_true_r. apply H1. auto.
  - rewrite andb_false_r. by apply H2.
Qed.
Ltac dies := lazymatch goal with |- context [Die ?w ?e] => exact (wp_die w e _ _) end.
Lemma Setup_wp (Q : VM → res → Prop) :
  (∀ v g, is_Some (v_run v) → holds v ∅ g → Q v g) → wp resM Setup Q died idle.
Proof.
  intros HQ. unfold Setup. apply wp_bind. apply wp_call; [exact I|]. intros [kvm e] Hk. cbn [m_ans resM res_ans] in Hk. cbn [m_obs resM res_obs].
  destruct (Z.eqb_spec e 0) as [->|]; [|dies]. specialize (Hk eq_refl) as [Hk _]. cbn [negb].
  apply wp_bind. apply IoctlInt_wp; [cbn; set_solver| |]; [|intros e He; dies].
  intros vm Hvm. specialize (Hvm eq_refl) as [Hvm Hn1]. change (creates CREATE_VM) with true. cbv iota.
  destruct (Z.ltb_spec vm 0); [lia|]. apply wp_bind. apply wp_call; [by left|]. intros [addr e] Haddr. cbn [m_ans resM res_ans] in Haddr. cbn [m_obs resM res_obs].
  destruct (Z.eqb_spec e 0) as [->|]; [|dies]. specialize (Haddr eq_refl). cbn [negb].
  apply wp_bind. unfold SetMemslot. apply wp_bind. apply Ioctl_wp; [cbn; set_solver|]. intros _ e _. cbn [wp]. destruct (negb (_ =? 0)); [dies|]. apply wp_bind. apply IoctlInt_wp; [cbn; set_solver| |]; [|intros e' He; dies].
  intros vcpu Hc. specialize (Hc eq_refl) as [Hc Hn2]. change (creates CREATE_VCPU) with true. cbv iota.
  destruct (Z.ltb_spec vcpu 0); [lia|]. apply wp_bind. apply getSupportedCPUID_wp; [cbn; set_solver|]. intros c.
  apply wp_bind. apply Ioctl_wp; [cbn; set_solver|]. intros _ e' _. cbv beta iota.
  destruct (Z.eqb_spec e' 0) as [->|]; cbn [negb]; [|dies].
  apply wp_bind. apply IoctlInt_wp; [cbn; set_solver| |]; change (creates GET_VCPU_MMAP_SIZE) with false; cbv iota.
  - intros size _. apply wp_bind. lazymatch goal with |- wp _ (MmapRun ?v _) _ _ _ => eapply (MmapRun_wp v v ∅) end; [|done|cbn; set_solver| |].
    + split; cbn; [set_solver|apply three_apart; cbn in *; set_solver|set_solver|set_solver|done|done].
    + intros a g' Hg'. cbn [wp]. apply HQ; [by exists a|done].
    + intros e2. dies.
  - intros e2 _. apply wp_bind. lazymatch goal with |- wp _ (MmapRun ?v _) _ _ _ => eapply (MmapRun_wp v v ∅) end; [|done|cbn; set_solver| |].
    + split; cbn; [set_solver|apply three_apart; cbn in *; set_solver|set_solver|set_solver|done|done].
    + intros a g' Hg'. cbn [wp]. apply HQ; [by exists a|done].
    + intros e3. dies.
Qed.
