(* ===== verification/SwitcherRes.v ===== *)
(** * What the switcher test opens, it closes

    The cases leave the descriptors, the mappings, the alarm and the goroutines
    as they found them, also the one that makes every vCPU of a VM. *)
From stdpp Require Import gmap.
From Stdlib Require Import Ascii.
From S2P Require Import Prelude GoStrings Bits Abi Guest Prog HostOps HostLogic HostRes GuestRuns Switcher SwitcherTap.

#[local] Open Scope Z_scope.

Section Cases.
Context (m : bool * list string) (v : VM).
Lemma must_keeps {A} (o : option A) : keeps m v (must o).
Proof. unfold must. keeps_tac. Qed.
Hint Resolve must_keeps : res.
Lemma setMSRs_keeps l : keeps m v (setMSRs v l).
Proof. induction l as [|[i x] l IH]; cbn [setMSRs]; keeps_tac. Qed.
Hint Resolve setMSRs_keeps : res.
Lemma vcpuEnterLongMode_keeps g : keeps m v (vcpuEnterLongMode v g).
Proof. unfold vcpuEnterLongMode. keeps_tac. Qed.
Hint Resolve vcpuEnterLongMode_keeps : res.
Lemma guestSetup_keeps g : keeps m v (guestSetup v g).
Proof. unfold guestSetup. keeps_tac. Qed.
Lemma hostStillAnswering_keeps : keeps m v (hostStillAnswering v).
Proof. unfold hostStillAnswering. keeps_tac. Qed.
Lemma nok_keeps d t g : keeps m v (nok d t g).
Proof. unfold nok. keeps_tac. Qed.
Lemma ok_keeps d t g : keeps m v (ok d t g).
Proof. unfold ok. keeps_tac. Qed.
Lemma guest_loop_keeps fuel want o x : keeps m v (guest_loop fuel v want o x).
Proof. revert o x. induction fuel as [|fuel IH]; intros o x; cbn [guest_loop]; keeps_tac. Qed.
End Cases.
#[export] Hint Resolve must_keeps setMSRs_keeps vcpuEnterLongMode_keeps guestSetup_keeps hostStillAnswering_keeps
  nok_keeps ok_keeps guest_loop_keeps : res.

(** The alarm is set only while the guest runs. *)
Lemma arm_arm b g : r_armed g = false → arm false (arm b g) = g.
Proof. destruct g. cbn. by intros ->. Qed.
Section Runs.
Context (fuel : nat) (ts : list string) (v : VM).
Lemma guestRun_keeps g want s : keeps (false, ts) v (guestRun fuel v g want s).
Proof.
  intros st Q Hst HQ. unfold guestRun. apply wp_bind. apply wp_call; [apply Hst|]. intros [] _.
  apply wp_bind. apply (guest_loop_keeps (true, ts)).
  { destruct Hst as [?????]. split; try done. }
  intros [o x]. apply wp_bind. apply wp_call; [done|]. intros [] _.
  change (wp resM (Ret (o, set_mem g x)) Q died (arm false (arm true st))). rewrite arm_arm by apply Hst. apply HQ.
Qed.
Hint Resolve guestRun_keeps : res.
Lemma warmUp_keeps t g what : keeps (false, ts) v (warmUp fuel t v g what).
Proof. unfold warmUp. keeps_tac. Qed.
Lemma pgtblRoundExits_keeps t g : keeps (false, ts) v (pgtblRoundExits fuel t v g).
Proof. unfold pgtblRoundExits. keeps_tac. Qed.
Lemma runCleanRounds_keeps t g n s : keeps (false, ts) v (runCleanRounds fuel t v g n s).
Proof. unfold runCleanRounds. keeps_tac. Qed.
Hint Resolve warmUp_keeps pgtblRoundExits_keeps runCleanRounds_keeps : res.

Lemma S1_keeps t g : keeps (false, ts) v (testS1NoncanonicalRIP fuel t v g).
Proof. unfold testS1NoncanonicalRIP. keeps_tac. Qed.
Lemma S2_keeps t g : keeps (false, ts) v (testS2EFLAGS fuel t v g).
Proof. unfold testS2EFLAGS. keeps_tac. Qed.
Lemma S4_keeps t g : keeps (false, ts) v (testS4Selectors fuel t v g).
Proof. unfold testS4Selectors. keeps_tac. Qed.
Lemma pgtbl_keeps t g : keeps (false, ts) v (testPgtblNoDSCR3 fuel t v g).
Proof. unfold testPgtblNoDSCR3. keeps_tac. Qed.
Lemma rebind_loop_keeps n i t g : keeps (false, ts) v (rebind_loop fuel n i t v g).
Proof. revert i t g. induction n as [|n IH]; intros i t g; cbn [rebind_loop]; keeps_tac. Qed.
Hint Resolve rebind_loop_keeps : res.
Lemma rebind_keeps t g : keeps (false, ts) v (testPVCSAliasRebind fuel t v g).
Proof. unfold testPVCSAliasRebind. keeps_tac. Qed.
Lemma direct_cpuid_keeps t g : keeps (false, ts) v (testDirectPFCPUIDAndCR2Write fuel t v g).
Proof. unfold testDirectPFCPUIDAndCR2Write. keeps_tac. Qed.
Lemma fault_keeps direct t g : keeps (false, ts) v (testDirectPFFault fuel direct t v g).
Proof. unfold testDirectPFFault. destruct direct; keeps_tac. Qed.
Lemma rule_keeps name pattern slow t g : keeps (false, ts) v (testDirectPFRule fuel name pattern slow t v g).
Proof. unfold testDirectPFRule. keeps_tac. Qed.
End Runs.
#[export] Hint Resolve guestRun_keeps warmUp_keeps pgtblRoundExits_keeps runCleanRounds_keeps : res.

(** The goroutine that moves the thread is joined on every path. *)
Lemma migrate_keeps fuel v t g : keeps (false, []) v (testPVCSAliasMigrate fuel t v g).
Proof.
  unfold testPVCSAliasMigrate. apply keeps_bind; [keeps_tac|intros tid]. apply keeps_bind; [keeps_tac|].
  intros [[r t1] g1]. case_match; [keeps_tac|]. intros st Q Hst HQ. apply wp_bind.
  assert (r_threads st = []) as Ht by apply Hst.
  apply wp_call; [cbn; rewrite Ht; apply not_elem_of_nil|]. intros [] _.
  apply wp_bind. apply (runCleanRounds_keeps fuel ["migrateThread"]).
  { destruct Hst as [?????]. split; try done. cbn in *. by rewrite Ht. }
  intros [[exits t2] g2]. apply wp_bind. apply wp_call; [exact I|]. intros [] _.
  apply wp_bind. apply wp_call; [cbn; rewrite Ht; left|]. intros [] _.
  match goal with |- wp _ ?p _ _ ?s => replace s with st end.
  - lazymatch goal with |- wp _ ?p _ _ _ => enough (keeps (false, []) v p) as Hk by (by apply Hk) end. keeps_tac.
  - destruct st as [F M a ts]. cbn in *. subst ts. by vm_compute.
Qed.

(** ** The last vCPU *)
(** The descriptors of a slice [fds[1:]] that the clean-up closes. *)
Definition made (l : list Z) : gset Z := list_to_set (filter (λ x, 0 < x) l).
Definition once (l : list Z) : Prop :=
  ∀ i j x, l !! i = Some x → l !! j = Some x → 0 < x → i = j.
Lemma elem_of_made x l : x ∈ made l ↔ 0 < x ∧ x ∈ l.
Proof. unfold made. by rewrite elem_of_list_to_set, list_elem_of_filter. Qed.
Lemma once_cons x l : once (x :: l) → once l ∧ (0 < x → x ∉ l).
Proof.
  intros H. split.
  - intros i j y Hi Hj Hy. assert (S i = S j) as E by (by apply (H _ _ y)). by injection E.
  - intros Hx [i Hi]%list_elem_of_lookup. by assert (0%nat = S i) as E by (by apply (H _ _ x)).
Qed.
Lemma made_insert l j x : l !! j = Some 0 → x ∉ made l →
  once l → once (<[j := x]> l) ∧ made (<[j := x]> l) = if 0 <? x then {[x]} ∪ made l else made l.
Proof.
  intros Hj Hx Hl. pose proof (lookup_lt_Some _ _ _ Hj) as Hlt. split.
  - intros a b y. rewrite !list_lookup_insert_Some. intros [(<-&<-&_)|[Ha Ha']] [(<-&Ey&_)|[Hb Hb']] Hy.
    + done.
    + subst. destruct Hx. apply elem_of_made. split; [done|]. by eapply list_elem_of_lookup_2.
    + subst. destruct Hx. apply elem_of_made. split; [done|]. by eapply list_elem_of_lookup_2.
    + by apply (Hl _ _ y).
  - apply set_eq. intros y.
    assert (y ∈ made (<[j := x]> l) ↔ (0 < x ∧ y = x) ∨ y ∈ made l) as ->.
    { rewrite !elem_of_made, !list_elem_of_lookup. setoid_rewrite list_lookup_insert_Some. split.
      - intros (Hy & i & [(->&->&_)|[? Hi]]); [by left|right; eauto].
      - intros [[Hy ->]|(Hy & i & Hi)]; [eauto 6|]. split; [done|]. exists i. right. split; [|done].
        intros ->. rewrite Hj in Hi. injection Hi as <-. lia. }
    destruct (Z.ltb_spec 0 x); set_solver by lia.
Qed.

Lemma close_all_wp l g (Q : unit → res → Prop) E :
  once l → made l ⊆ r_fds g →
  (∀ g', r_fds g' = r_fds g ∖ made l → r_maps g' = r_maps g → r_armed g' = r_armed g →
         r_threads g' = r_threads g → Q tt g') →
  wp resM (each l (λ fd, if 0 <? fd then call (CloseFd fd) else Ret tt)) Q E g.
Proof.
  revert g. induction l as [|x l IH]; intros g Hl Hm HQ; cbn [each].
  - apply HQ; try done. cbn. unfold made. cbn. set_solver.
  - apply once_cons in Hl as [Hl Hx]. apply wp_bind.
    assert (made (x :: l) = if 0 <? x then {[x]} ∪ made l else made l) as Em.
    { unfold made. destruct (Z.ltb_spec 0 x).
      - by rewrite filter_cons_True, list_to_set_cons.
      - by rewrite filter_cons_False by lia. }
    destruct (Z.ltb_spec 0 x) as [Hp|Hp].
    + specialize (Hx Hp). assert (x ∉ made l) by (rewrite elem_of_made; tauto).
      cbn. split; [set_solver|]. intros _ _. apply IH; [done|cbn; set_solver|].
      intros g' Hf Hmp Ha Ht. apply HQ; [|done..]. rewrite Hf, Em. cbn. set_solver.
    + cbn [wp]. rewrite Em in *. apply IH; auto.
Qed.
Lemma out_last_wp v l a g (Q : unit → res → Prop) E :
  holds v (made l) g → once l → Q tt idle → wp resM (out_last v (a :: l)) Q E g.
Proof.
  intros [Hf Hd Hx Hm Ha Ht] Hl HQ. unfold out_last. apply wp_bind. apply close_all_wp; [done|set_solver|].
  intros g' Hf' Hm' Ha' Ht'. apply Teardown_wp; [|done].
  split; [|done|set_solver|by rewrite Hm'|congruence|congruence].
  rewrite Hf', Hf. apply set_eq. intros x. split; [set_solver|]. intros Hx'. apply elem_of_difference.
  split; [set_solver|]. intros Hin. apply Hx in Hin. set_solver.
Qed.

(** Making the vCPUs [i], [i + 1], ..., with [l] the slice from 1: the entries
    before are made, those from there on are still zero. *)
Lemma set_fd_S a l i fd : 1 <= i → set_fd i fd (a :: l) = a :: <[Z.to_nat (i - 1) := fd]> l.
Proof. intros. unfold set_fd. by replace (Z.to_nat i) with (S (Z.to_nat (i - 1))) by lia. Qed.
Record made_up_to (v : VM) (i : Z) (l : list Z) (g : res) : Prop := {
  mu_holds : holds v (made l) g; mu_once : once l;
  mu_zero : ∀ j, (Z.to_nat (i - 1) ≤ j < length l)%nat → l !! j = Some 0;
  mu_done : ∀ j, (j < Z.to_nat (i - 1))%nat → ∃ x, l !! j = Some x ∧ x ∈ made l }.
Lemma made_one v i l g fd :
  1 <= i → (Z.to_nat (i - 1) < length l)%nat → made_up_to v i l g →
  2 < fd → fd ∉ r_fds g → made_up_to v (i + 1) (<[Z.to_nat (i - 1) := fd]> l) (open_fd fd g).
Proof.
  intros Hi Hlt [[Hf Hd Hx Hm Ha Ht] Ho Hz Hdn] Hfd Hn.
  destruct (made_insert l (Z.to_nat (i - 1)) fd) as [Ho' Hm']; [apply Hz; lia|set_solver|done|].
  replace (0 <? fd) with true in Hm' by (symmetry; apply Z.ltb_lt; lia).
  split; [|done| |].
  - split; [|done| |done..]; rewrite Hm'; [cbn; rewrite Hf; set_solver|].
    intros x [->%elem_of_singleton|Hx']%elem_of_union; [set_solver|by apply Hx].
  - intros j Hj. rewrite length_insert in Hj. rewrite list_lookup_insert_ne by lia. apply Hz. lia.
  - intros j Hj. rewrite Hm'. destruct (decide (j = Z.to_nat (i - 1))) as [->|].
    + exists fd. rewrite list_lookup_insert_eq by done. set_solver.
    + destruct (Hdn j) as (x&Hx1&Hx2); [lia|]. exists x. rewrite list_lookup_insert_ne by done. set_solver.
Qed.
Lemma made_refused v i l g :
  1 <= i → (Z.to_nat (i - 1) < length l)%nat → made_up_to v i l g →
  holds v (made (<[Z.to_nat (i - 1) := -1]> l)) g ∧ once (<[Z.to_nat (i - 1) := -1]> l).
Proof.
  intros Hi Hlt [Hh Ho Hz _].
  destruct (made_insert l (Z.to_nat (i - 1)) (-1)) as [Ho' Hm']; [apply Hz; lia|rewrite elem_of_made; lia|done|].
  cbn in Hm'. by rewrite Hm'.
Qed.
Lemma create_vcpus_wp n v a l i g (Q : option (Z * Z) * list Z → res → Prop) E :
  1 <= i → (Z.to_nat (i - 1) + n < length l)%nat → made_up_to v i l g →
  (∀ l' g', length l' = length l → made_up_to v (i + Z.of_nat n) l' g' → Q (None, a :: l') g') →
  (∀ x l' g', holds v (made l') g' → once l' → Q (Some x, a :: l') g') →
  wp resM (create_vcpus n i v (a :: l)) Q E g.
Proof.
  revert i l g. induction n as [|n IH]; intros i l g Hi Hlen Hg H1 H2; cbn [create_vcpus].
  { rewrite Z.add_0_r in H1. by apply H1. }
  pose proof (h_fds _ _ _ (mu_holds _ _ _ _ Hg)) as Hf.
  assert (Z.to_nat (i - 1) < length l)%nat as Hlt by lia.
  apply wp_bind. apply IoctlInt_wp; [set_solver| |].
  - intros fd Hfd. specialize (Hfd eq_refl) as [Hfd Hn]. change (creates CREATE_VCPU) with true. cbv beta iota zeta.
    replace (fd <? 0) with false by (symmetry; apply Z.ltb_ge; lia). rewrite set_fd_S by done.
    apply IH; [lia|rewrite length_insert; lia|exact (made_one v i l g fd Hi Hlt Hg Hfd Hn)| |exact H2].
    intros l' g' Hl'. rewrite length_insert in Hl'. replace (i + 1 + Z.of_nat n) with (i + Z.of_nat (S n)) by lia.
    by apply H1.
  - intros e He. cbv beta iota zeta. change (-1 <? 0) with true. cbv iota. rewrite set_fd_S by done.
    destruct (made_refused v i l g Hi Hlt Hg). by apply H2.
Qed.

Lemma SetMSR_wp v i x g (Q : Z → res → Prop) E :
  v_vcpu v ∈ r_fds g → (∀ r, Q r g) → wp resM (SetMSR v i x) Q E g.
Proof. intros Hv HQ. unfold SetMSR. apply wp_bind. apply Ioctl_wp; [done|]. intros. apply HQ. Qed.
Lemma pin_pages_wp n i v fds gs g (Q : option Z * guest → res → Prop) :
  (∀ j, i <= j < i + Z.of_nat n → fd_at fds j ∈ r_fds g) → (∀ r, Q r g) →
  wp resM (pin_pages n i v fds gs) Q died g.
Proof.
  revert i gs. induction n as [|n IH]; intros i gs Hfd HQ; cbn [pin_pages]; [apply HQ|].
  apply wp_bind. destruct (put_words _ _ _); [|done]. cbn [must wp].
  apply wp_bind. apply SetMSR_wp; [apply Hfd; lia|]. intros r. case_match; [apply HQ|]. apply IH; [|done].
  intros j Hj. apply Hfd. lia.
Qed.
Lemma last_vcpu_runs_wp fuel t v fds n g (Q : tap → res → Prop) :
  live (false, []) v g → (∀ j, 0 <= j < n - 1 → fd_at fds j ∈ r_fds g) → (∀ t, Q t g) →
  wp resM (last_vcpu_runs fuel t v fds n) Q died g.
Proof.
  intros Hv Hfd HQ. unfold last_vcpu_runs. apply wp_bind. apply (guestSetup_keeps (false, []) v (guest0 false) g); [exact Hv|].
  intros [r gs]. case_match; [apply (Nok_keeps (false, []) v _ _ g); [exact Hv|exact HQ]|].
  apply wp_bind. apply pin_pages_wp; [intros; apply Hfd; lia|]. intros [[i|] gs']; [apply (Nok_keeps (false, []) v _ _ g); [exact Hv|exact HQ]|].
  apply wp_bind. apply (warmUp_keeps fuel [] v t gs' _ g); [exact Hv|]. intros [[r2 t2] g2].
  lazymatch goal with |- wp _ ?p _ _ _ => enough (keeps (false, []) v p) as Hk by (by apply Hk) end. keeps_tac.
Qed.

Lemma Nok_wp d t g (Q : tap → res → Prop) : (∀ t, Q t g) → wp resM (Nok d t) Q died g.
Proof. intros HQ. unfold Nok. apply wp_bind. apply wp_call; [exact I|]. intros [] _. apply HQ. Qed.
(** Back to the first vCPU, and the clean-up. *)
Lemma swapBack_wp v vo l a g (Q : unit → res → Prop) :
  holds vo (made l) g → once l → v_run v = v_run vo → a = v_vcpu vo → v_kvm v = v_kvm vo → v_vm v = v_vm vo →
  v_mem v = v_mem vo → Q tt idle → wp resM (swapBack v (a :: l)) Q died g.
Proof.
  intros Hh Ho Hr -> Hk Hv Hm HQ. unfold swapBack. apply wp_bind. eapply UnmapRun_wp; [exact Hh|exact Hr|].
  intros g' Hh'. pose proof (h_fds _ _ _ Hh') as Hf. apply wp_bind.
  assert (∀ r, set_vcpu (set_run (set_run v None) r) (fd_at (v_vcpu vo :: l) 0) =
    Vm (v_kvm vo) (v_vm vo) (v_vcpu vo) r (v_runsize v) (v_mem vo) (v_cpuid v)) as E
    by (intros r; unfold set_vcpu, set_run; cbn; by rewrite Hk, Hv, Hm).
  assert (∀ r g', holds (set_run vo r) (made l) g' →
    holds (Vm (v_kvm vo) (v_vm vo) (v_vcpu vo) r (v_runsize v) (v_mem vo) (v_cpuid v)) (made l) g') as Hvo
    by (intros r g2 [?????]; by split).
  eapply (MmapRun_wp _ (set_run vo None)); [exact Hh'|done|cbn in *; set_solver| |].
  - intros x g2 Hg2. rewrite E. apply out_last_wp; [|exact Ho|exact HQ]. apply Hvo. exact Hg2.
  - intros e. rewrite E. apply out_last_wp; [|exact Ho|exact HQ]. apply Hvo. exact Hh'.
Qed.

Section Last.
Context (fuel : nat).
(** The run on the last vCPU. *)
Lemma last_vcpu_swapped_wp t v l fd maxVcpus g (Q : tap → res → Prop) :
  holds v (made l) g → once l → fd ∈ made l →
  (∀ j, (j < Z.to_nat (maxVcpus - 2))%nat → ∃ x, l !! j = Some x ∧ x ∈ made l) → (∀ t, Q t idle) →
  wp resM (last_vcpu_swapped fuel t v fd (0 :: l) maxVcpus) Q died g.
Proof.
  intros Hh Ho Hin Hdone HQ. unfold last_vcpu_swapped.
  apply wp_bind. eapply UnmapRun_wp; [exact Hh|done|]. clear g Hh. intros g Hh.
  change (set_fd 0 (v_vcpu (set_run v None)) (0 :: l)) with (v_vcpu v :: l). cbv zeta.
  pose proof (h_fds _ _ _ Hh) as Hf. cbn in Hf.
  assert (∀ r g', holds (set_run (set_run v None) r) (made l) g' →
    ∀ t, wp resM (out_last (set_vcpu (set_run (set_vcpu (set_run v None) fd) r) (fd_at (v_vcpu v :: l) 0)) (v_vcpu v :: l) ;; Ret t)
         Q died g') as Hend.
  { intros r g' Hg' t'. apply wp_bind, out_last_wp; [exact Hg'|exact Ho|apply HQ]. }
  apply wp_bind. eapply (MmapRun_wp _ (set_run v None)); [exact Hh|done|set_solver| |].
  2:{ intros e. cbn [wp mbind]. apply wp_bind, Nok_wp. intros t'. by apply Hend. }
  clear g Hh Hf. intros a g Hg. pose proof (h_fds _ _ _ Hg) as Hf. cbn in Hf.
  apply wp_bind. apply wp_bind. apply Ioctl_wp; [set_solver|]. intros _ e _. cbv beta iota. cbn [wp].
  case_match; [apply wp_bind, Nok_wp; intros t'; by apply Hend|].
  apply wp_bind. apply last_vcpu_runs_wp.
  - split; cbn; [set_solver..| |apply Hg|apply Hg]. exists a. split; [done|].
    pose proof (h_maps _ _ _ Hg) as Hm. cbn in Hm. set_solver.
  - intros j Hj. destruct (decide (j = 0)) as [->|Hj0]; [cbn; set_solver|].
    destruct (Hdone (Z.to_nat (j - 1))) as (x&Hx&Hx'); [lia|]. unfold fd_at.
    replace (Z.to_nat j) with (S (Z.to_nat (j - 1))) by lia.
    assert ((v_vcpu v :: l) !! S (Z.to_nat (j - 1)) = Some x) as Hl by exact Hx.
    change (v_vcpu (set_run v None)) with (v_vcpu v). rewrite Hl. cbn. set_solver.
  - intros t'. apply wp_bind.
    apply (swapBack_wp _ (set_run (set_run v None) (Some a)) l); try reflexivity; [exact Hg|exact Ho|apply HQ].
Qed.

Lemma last_vcpu_made_wp t v l maxVcpus g (Q : tap → res → Prop) :
  1 < maxVcpus → length l = Z.to_nat (maxVcpus - 1) → made_up_to v (maxVcpus - 1) l g → (∀ t, Q t idle) →
  wp resM (last_vcpu_made fuel t v (0 :: l) maxVcpus) Q died g.
Proof.
  intros Hmax Hlen Hg HQ. unfold last_vcpu_made. pose proof (h_fds _ _ _ (mu_holds _ _ _ _ Hg)) as Hf.
  assert (Z.to_nat (maxVcpus - 1 - 1) < length l)%nat as Hlt by lia. assert (1 <= maxVcpus - 1) as Hge by lia.
  apply wp_bind. apply IoctlInt_wp; [set_solver| |].
  2:{ intros e _. cbv beta iota zeta. change (-1 <? 0) with true. cbv iota. rewrite set_fd_S by exact Hge.
      destruct (made_refused v _ l g Hge Hlt Hg) as [Hh' Ho']. apply wp_bind, Nok_wp. intros t'.
      apply wp_bind, out_last_wp; [exact Hh'|exact Ho'|apply HQ]. }
  intros fd Hfd. specialize (Hfd eq_refl) as [Hfd Hn]. change (creates CREATE_VCPU) with true. cbv beta iota zeta.
  replace (fd <? 0) with false by (symmetry; apply Z.ltb_ge; lia). rewrite set_fd_S by exact Hge.
  pose proof (made_one v _ l g fd Hge Hlt Hg Hfd Hn) as Hm.
  assert (fd ∈ made (<[Z.to_nat (maxVcpus - 1 - 1) := fd]> l)) as Hin.
  { apply elem_of_made. split; [lia|]. apply list_elem_of_lookup_2 with (Z.to_nat (maxVcpus - 1 - 1)).
    by apply list_lookup_insert_eq. }
  revert Hm Hin. generalize (<[Z.to_nat (maxVcpus - 1 - 1) := fd]> l) as l'. clear Hg Hf. intros l' Hm Hin.
  assert (fd ∉ r_fds g) as Hn' by exact Hn. clear Hn.
  destruct Hm as [Hh Ho _ Hdone]. revert Hh. generalize (open_fd fd g) as g1. clear g Hn'. intros g Hh.
  pose proof (h_fds _ _ _ Hh) as Hf. apply wp_bind. apply IoctlInt_wp; [set_solver| |].
  - intros extra He. specialize (He eq_refl) as [He Hn]. change (creates CREATE_VCPU) with true. cbv beta iota zeta.
    replace (0 <=? extra) with true by (symmetry; apply Z.leb_le; lia).
    apply wp_bind, Nok_wp. intros t'. apply wp_bind. apply wp_call; [cbn; set_solver|]. intros [] _.
    change (m_obs resM (CloseFd extra) tt (open_fd extra g)) with (close_fd extra (open_fd extra g)).
    rewrite close_open by exact Hn. apply wp_bind, out_last_wp; [exact Hh|exact Ho|apply HQ].
  - intros e _. cbv beta iota zeta. change (0 <=? -1) with false. cbv iota.
    apply last_vcpu_swapped_wp; [exact Hh|exact Ho|exact Hin| |exact HQ].
    intros j Hj. apply Hdone. lia.
Qed.

Lemma made_none n : made (repeat 0 n) = ∅ ∧ once (repeat 0 n).
Proof.
  split.
  - apply set_eq. intros x. rewrite elem_of_made, list_elem_of_In. split; [|set_solver].
    intros [Hx Hin%repeat_spec]. lia.
  - intros i j x Hi%list_elem_of_lookup_2%list_elem_of_In%repeat_spec _ Hx. lia.
Qed.
Lemma made_start v n g : holds v ∅ g → made_up_to v 1 (repeat 0 n) g.
Proof.
  intros Hh. destruct (made_none n) as [E Ho]. split; [by rewrite E|done| |cbn; lia].
  intros j [_ Hj]. rewrite repeat_length in Hj. revert j Hj. clear. induction n as [|n IH]; intros [|j] Hj; cbn; [lia..|done|].
  apply IH. lia.
Qed.
Lemma last_vcpu_wp t (Q : tap → res → Prop) : (∀ t, Q t idle) → wp resM (testPVCSAliasLastVcpu fuel t) Q died idle.
Proof.
  intros HQ. unfold testPVCSAliasLastVcpu. apply wp_bind. apply Setup_wp. intros v g Hr Hh.
  pose proof (h_fds _ _ _ Hh) as Hf. apply wp_bind.
  apply IoctlInt_wp; [set_solver| |]; change (creates CHECK_EXTENSION) with false; cbv beta iota zeta.
  2:{ intros e _. change (-1 <=? 1) with true. cbn [orb]. apply wp_bind, Nok_wp. intros t'.
      apply wp_bind, Teardown_wp; [exact Hh|apply HQ]. }
  intros n _. destruct (Z.leb_spec n 1) as [Hn|Hn]; cbn [orb].
  { apply wp_bind, Nok_wp. intros t'. apply wp_bind, Teardown_wp; [exact Hh|apply HQ]. }
  case_match.
  { apply wp_bind, Nok_wp. intros t'. apply wp_bind, Teardown_wp; [exact Hh|apply HQ]. }
  apply wp_bind. apply wp_call; [exact I|]. intros [] _. apply wp_bind.
  replace (Z.to_nat n) with (S (Z.to_nat (n - 1))) by lia. cbn [repeat].
  apply create_vcpus_wp; [done|rewrite repeat_length; lia|exact (made_start v _ g Hh)| |].
  - intros l g' Hl Hg'. rewrite repeat_length in Hl. apply last_vcpu_made_wp; [done|done| |exact HQ].
    by replace (n - 1) with (1 + Z.of_nat (Z.to_nat (n - 2))) by lia.
  - intros [i e] l g' Hg' Ho. cbv beta iota. apply wp_bind, Nok_wp. intros t'.
    apply wp_bind, out_last_wp; [exact Hg'|exact Ho|apply HQ].
Qed.
End Last.

(** ** The whole program *)
Definition over (code : Z) (g : res) : Prop := code = 2 ∨ g = idle.
Section Main.
Context (fuel : nat).
Lemma died_over n g : died n g → over n g.
Proof. by left. Qed.
Ltac over_mono := eapply wp_mono; [|by intros ?? H'; apply H'|apply died_over].
Lemma vm_case_wp test t g (Q : tap * guest → res → Prop) :
  (∀ v t g, keeps (false, []) v (test t v g)) → (∀ r, Q r idle) → wp resM (vm_case test t g) Q died idle.
Proof.
  intros Ht HQ. unfold vm_case. apply wp_bind, Setup_wp. intros v st Hr Hh. pose proof (holds_live _ _ _ Hh Hr) as Hl.
  apply wp_bind. apply (guestSetup_keeps (false, []) v g st); [exact Hl|]. intros [r g1].
  apply wp_bind. case_match; [apply (Ht v t g1 st); [exact Hl|]; intros [t2 g2]|cbn [wp]];
    (apply wp_bind, Teardown_wp; [exact Hh|apply HQ]).
Qed.
Ltac vm_step l := apply wp_bind; over_mono; apply vm_case_wp; [intros; apply l|intros [??]].
Lemma wp_main_res : wp resM (main fuel) (λ _ _, False) over idle.
Proof.
  unfold main. apply wp_bind. unfold IsPVMHost. apply wp_bind, wp_call; [exact I|]. intros r _. cbn [wp].
  case_match; [cbn; split; [done|]; intros _ _; by right|]. clear.
  apply wp_bind. over_mono. apply Setup_wp. intros v g Hr Hh. pose proof (holds_live _ _ _ Hh Hr) as Hl.
  apply wp_bind. over_mono. apply (guestSetup_keeps (false, []) v (guest0 false) g); [exact Hl|]. intros [r1 g1].
  case_match.
  - apply wp_bind. over_mono. apply Nok_wp. intros t. apply wp_bind. over_mono. apply Teardown_wp; [exact Hh|].
    cbn. split; [done|]. intros _ _. split; [done|]. intros _ _. by right.
  - apply wp_bind. over_mono. apply (S1_keeps fuel [] v _ g1 g); [exact Hl|]. intros [t2 g2].
    apply wp_bind. over_mono. apply Teardown_wp; [exact Hh|].
    vm_step (S2_keeps fuel []). vm_step (S4_keeps fuel []). vm_step (pgtbl_keeps fuel []).
    vm_step (rebind_keeps fuel []). vm_step (migrate_keeps fuel).
    apply wp_bind. over_mono. apply last_vcpu_wp. intros tl.
    vm_step (direct_cpuid_keeps fuel []). vm_step (fault_keeps fuel []). vm_step (fault_keeps fuel []).
    apply wp_bind. unfold rules. cbn [each_with].
    do 3 vm_step (rule_keeps fuel []). cbn. split; [done|]. intros _ _. split; [done|]. intros _ _. by right.
Qed.
End Main.

(** C29: In any run of the switcher test in which the kernel hands out
    descriptors and addresses that are not in use, every call is made on
    descriptors and mappings that are open at that time (no use after close,
    no double close), at most one alarm is armed and every goroutine joined
    once; and when the test ends by itself other than by bailing out,
    everything it opened has been given back. *)
Theorem main_resources fuel tr code :
  runs (main fuel) tr (Exited code) → answered resM tr idle →
  allowed resM tr idle ∧ (code ≠ 2 → observe resM tr idle = idle).
Proof.
  intros H Ha. destruct (wp_runs resM _ _ _ _ _ _ (wp_main_res fuel) H Ha) as [Hal Ho].
  split; [exact Hal|]. by destruct Ho as [->|Ho].
Qed.
(** On a kernel that refuses the guest's MSRs: exit 1. *)
Lemma main_resources_witness :
  let tr := (on_kernel (λ _, true) (main 0)).1 in
  length tr = 19%nat ∧ allowed resM tr idle ∧ (1 ≠ 2 → observe resM tr idle = idle).
Proof.
  split; [vm_compute; reflexivity|]. apply (main_resources 0).
  - replace (Exited 1) with (on_kernel (λ _, true) (main 0)).2 by (vm_compute; reflexivity).
    exact (on_kernel_runs _ _).
  - vm_compute. repeat match goal with |- _ ∧ _ => split | |- _ → _ => intro end; done.
Defined.
