(* ===== verification/SwitcherRuns.v ===== *)
(** * How the guest is run

    What the loop of [guestRun] makes of the exits it sees, that it goes on
    only while KVM_RUN does, and the order in which the vCPU's thread is moved
    over the CPUs. *)
From Stdlib Require Import Ascii.
From S2P Require Import Prelude GoStrings Bits Abi Guest Prog HostOps HostLogic GuestRuns Switcher SwitcherTap.

#[local] Open Scope Z_scope.

(** ** The outcome of a run *)
(** The exits the loop has read, in order. *)
Definition exitsM : monitor hop := Monitor hop (list krun)
  (λ B o, match o in hop B return B → list krun → list krun with RunPage _ => λ r g, g ++ [r] | _ => λ _ g, g end)
  (λ _ _ _, True) (λ _ _ _ _, True).
Definition exits_seen (tr : list (event hop)) : list krun := observe exitsM tr [].

Definition mmio_write (addr : Z) (r : krun) : Prop :=
  exit_reason r = EXIT_MMIO ∧ IsWrite (MMIO r) ≠ 0 ∧ PhysAddr (MMIO r) = addr.
Definition is_report (r : krun) : Prop := mmio_write MMIO_REPORT r.
Definition is_event (r : krun) : Prop := mmio_write MMIO_EVENT r.
Definition last_data (rs : list krun) : Z := match last rs with Some r => data32 (MMIO r) | None => 0 end.
(** The outcome after the reports [rs] and, at most, one other exit. *)
Inductive tells (want : Z) : list krun → outcome → Prop :=
| tells_enough rs : Forall is_report rs → Z.of_nat (length rs) = want →
    tells want rs (Outcome (Z.of_nat (length rs)) (last_data rs) 0 0 (Z.of_nat (length rs)) (-1) 0)
| tells_error rs e : Forall is_report rs → Z.of_nat (length rs) < want → e ≠ 0 →
    tells want rs (Outcome (Z.of_nat (length rs)) (last_data rs) 0 0 (Z.of_nat (length rs)) (-1) e)
| tells_event rs r : Forall is_report rs → Z.of_nat (length rs) < want → is_event r →
    tells want (rs ++ [r])
      (Outcome (Z.of_nat (length rs)) (last_data rs) 1 (data32 (MMIO r)) (Z.of_nat (length rs) + 1) (-1) 0)
| tells_stop rs r : Forall is_report rs → Z.of_nat (length rs) < want → ¬ is_report r → ¬ is_event r →
    tells want (rs ++ [r])
      (Outcome (Z.of_nat (length rs)) (last_data rs) 0 0 (Z.of_nat (length rs) + 1) (exit_reason r) 0).

Definition reported (rs : list krun) : outcome :=
  Outcome (Z.of_nat (length rs)) (last_data rs) 0 0 (Z.of_nat (length rs)) (-1) 0.
Lemma reported_snoc rs r :
  add_report (add_exit (reported rs)) (data32 (MMIO r)) = reported (rs ++ [r]).
Proof.
  unfold add_report, add_exit, reported, last_data. cbn. rewrite last_snoc, length_app. cbn [length].
  replace (Z.of_nat (length rs + 1)) with (Z.of_nat (length rs) + 1) by lia. reflexivity.
Qed.
Lemma on_exit_spec rs r o more :
  on_exit (add_exit (reported rs)) r = (o, more) →
  (more = true ∧ is_report r ∧ o = reported (rs ++ [r])) ∨
  (more = false ∧ ∀ want, Forall is_report rs → Z.of_nat (length rs) < want → tells want (rs ++ [r]) o).
Proof.
  unfold on_exit, is_report, mmio_write.
  destruct (Z.eqb_spec (exit_reason r) EXIT_MMIO) as [Er|Er]; cbn [negb].
  2:{ intros [= <- <-]. right. split; [done|]. intros want Hr Hw. apply tells_stop; try done; by intros [? _]. }
  destruct (Z.eqb_spec (IsWrite (MMIO r)) 0) as [Ew|Ew].
  { intros [= <- <-]. right. split; [done|]. intros want Hr Hw. rewrite <- Er.
    apply tells_stop; try done; by intros (_&?&_). }
  destruct (Z.eqb_spec (PhysAddr (MMIO r)) MMIO_REPORT) as [Ep|Ep].
  { intros [= <- <-]. left. rewrite reported_snoc. done. }
  destruct (Z.eqb_spec (PhysAddr (MMIO r)) MMIO_EVENT) as [Ev|Ev]; intros [= <- <-]; right; (split; [done|]);
    intros want Hr Hw.
  - by apply tells_event.
  - rewrite <- Er. apply tells_stop; try done; by intros (_&_&?).
Qed.

(** A run that reads no exit. *)
Lemma wp_exits_call {B} (o : hop B) (Q : B → list krun → Prop) E g :
  (∀ a, match o with RunPage _ => False | _ => Q a g end) → wp exitsM (call o) Q E g.
Proof. intros HQ. split; [done|]. intros b _. specialize (HQ b). by destruct o. Qed.
Lemma guest_loop_tells fuel v want rs m :
  0 <= want → Forall is_report rs → Z.of_nat (length rs) <= want →
  wp exitsM (guest_loop fuel v want (reported rs) m) (λ '(o, _) g, tells want g o) (λ _ _, True) rs.
Proof.
  intros Hw. revert rs m. induction fuel as [|fuel IH]; intros rs m Hr Hn; cbn [guest_loop reports reported].
  { destruct (Z.ltb_spec (Z.of_nat (length rs)) want); cbn [negb].
    - split; [done|intros []].
    - apply tells_enough; [done|lia]. }
  destruct (Z.ltb_spec (Z.of_nat (length rs)) want) as [Hlt|Hge]; cbn [negb]; [|apply tells_enough; [done|lia]].
  apply wp_bind. unfold run_once. apply wp_bind, wp_exits_call. intros [[x e] m']. cbn [wp].
  assert (∀ e, e ≠ 0 → tells want rs (set_err (reported rs) e)) as Herr by (intros; by apply tells_error).
  destruct (Z.eqb_spec e 0) as [->|He]; cbn [negb].
  - change (negb (0 =? 0)) with false. cbv iota. apply wp_bind. unfold RunData.
    destruct (v_run v) as [a|]; [|done]. split; [done|]. intros r _. cbn [wp m_obs exitsM].
    destruct (on_exit (add_exit (reported rs)) r) as [o more] eqn:Eo.
    destruct (on_exit_spec _ _ _ _ Eo) as [(->&Hrep&->)|(->&Ht)].
    + apply IH; [apply Forall_app; split; [done|by constructor]|rewrite length_app; cbn; lia].
    + cbn [wp]. by apply Ht.
  - destruct (Z.eqb_spec e 0) as [?|_]; [done|]. cbn [negb]. apply wp_bind.
    destruct (e =? EINTR); [|by apply Herr].
    apply wp_bind, wp_exits_call. intros b. cbn [wp]. destruct (negb b); [by apply IH|by apply Herr].
Qed.

(** Whenever [guestRun] returns, its outcome is the one the exits tell:
    the leading user-mode reports are counted, at most as many as were asked
    for, with the RFLAGS of the last; the loop ends with the last report it
    wants, with the first event, with the first other exit, whose reason it
    keeps, or with the first error of KVM_RUN; and it counts every exit once. *)
Theorem guestRun_tells fuel v g want seconds tr o g' :
  0 <= want → runs (guestRun fuel v g want seconds) tr (Returned (o, g')) → tells want (exits_seen tr) o.
Proof.
  intros Hw H. assert (wp exitsM (guestRun fuel v g want seconds) (λ '(o, _) g, tells want g o) (λ _ _, True) []) as Hwp.
  { unfold guestRun. apply wp_bind, wp_exits_call. intros _. apply wp_bind. eapply wp_mono; [by apply (guest_loop_tells _ _ _ [])| |done].
    intros [o1 m1] rs Ht. apply wp_bind, wp_exits_call. intros _. exact Ht. }
  refine (proj2 (wp_runs exitsM _ _ _ _ _ _ Hwp H _)).
  generalize ([] : m_state exitsM). clear. induction tr as [|[T e [b|]] tr IH]; intros s; cbn; auto.
Qed.
Lemma guestRun_tells_witness :
  let p := guestRun 10 (Vm 3 4 5 (Some 7) 4096 0 (Cpuid2 0 [])) (guest0 false) 4 10 in
  let tr := (drive_with (kernel (λ _, false)) 0 p).1 in
  exits_seen tr = repeat report_exit 4 ∧ tells 4 (exits_seen tr) (Outcome 4 0x202 0 0 4 (-1) 0).
Proof.
  set (p := guestRun _ _ _ _ _). split; [vm_compute; reflexivity|].
  apply (guestRun_tells 10 (Vm 3 4 5 (Some 7) 4096 0 (Cpuid2 0 [])) (guest0 false) 4 10 _ _
           (set_mem (guest0 false) (g_mem (guest0 false)))); [lia|].
  change (guestRun _ _ _ 4 10) with p.
  replace (Returned _) with (drive_with (kernel (λ _, false)) 0 p).2 by (vm_compute; reflexivity).
  apply drive_with_runs.
Defined.

(** ** The loop goes on only while KVM_RUN does *)
Definition runsM (fuel : nat) : monitor hop := Monitor hop nat
  (λ B o _ n, match o with KvmRun _ _ => S n | _ => n end)
  (λ B o n, match o with Hang => (fuel ≤ n)%nat | _ => True end) (λ _ _ _ _, True).
Fixpoint kvm_runs (tr : list (event hop)) : nat :=
  match tr with
  | [] => 0
  | Ev (KvmRun _ _) (Some _) :: tr => S (kvm_runs tr)
  | _ :: tr => kvm_runs tr
  end.
Lemma allowed_runs fuel tr n :
  allowed (runsM fuel) (tr ++ [Ev Hang None]) n → (fuel ≤ n + kvm_runs tr)%nat.
Proof.
  revert n. induction tr as [|[T o [b|]] tr IH]; intros n; cbn.
  - intros [? _]. lia.
  - intros [_ H%IH]. destruct o; cbn in *; lia.
  - intros [_ H%IH]. destruct o; cbn in *; lia.
Qed.
Lemma guest_loop_fuel all fuel v want o m n (Q : outcome * mem → nat → Prop) :
  (all ≤ n + fuel)%nat → (∀ a n, Q a n) → wp (runsM all) (guest_loop fuel v want o m) Q (λ _ _, True) n.
Proof.
  intros Hn HQ. revert o m n Hn. induction fuel as [|fuel IH]; intros o m n Hn; cbn [guest_loop].
  { case_match; [apply HQ|]. split; [cbn; lia|intros []]. }
  case_match; [apply HQ|]. apply wp_bind. unfold run_once. apply wp_bind, wp_call; [exact I|].
  intros [[x e] m'] _. cbn [wp m_obs runsM]. destruct (Z.eqb_spec e 0) as [->|He]; cbn [negb].
  - change (negb (0 =? 0)) with false. cbv iota. apply wp_bind. unfold RunData.
    destruct (v_run v) as [a|]; [|done]. apply wp_call; [exact I|]. intros r _. cbn [m_obs runsM].
    destruct (on_exit _ _) as [o' []]; [apply IH; lia|apply HQ].
  - destruct (Z.eqb_spec e 0) as [?|_]; [done|]. cbn [negb]. apply wp_bind.
    destruct (e =? EINTR); [|apply HQ]. apply wp_bind, wp_call; [exact I|]. intros b _. cbn [wp m_obs runsM].
    destruct (negb b); [apply IH; lia|apply HQ].
Qed.

(** [guestRun] is cut short by its fuel only after as many calls of
    KVM_RUN: a guest that reports, or whose KVM_RUN fails once the alarm has
    fired, in fewer calls always gets an outcome. *)
Theorem guestRun_ends fuel v g want seconds tr :
  runs (guestRun fuel v g want seconds) (tr ++ [Ev Hang None]) Stopped → (fuel ≤ kvm_runs tr)%nat.
Proof.
  intros H.
  assert (wp (runsM fuel) (guestRun fuel v g want seconds) (λ _ _, True) (λ _ _, True) 0%nat) as Hwp.
  { unfold guestRun. apply wp_bind, wp_call; [exact I|]. intros [] _. apply wp_bind.
    apply (guest_loop_fuel fuel); [cbn; lia|]. intros [o m] n. apply wp_bind, wp_call; [exact I|]. by intros [] _. }
  apply (wp_runs (runsM fuel) _ _ _ _ _ _ Hwp) in H as [H _].
  - by apply allowed_runs in H.
  - generalize (0%nat : m_state (runsM fuel)). generalize (tr ++ [Ev Hang None]). clear.
    intros l. induction l as [|[T e [b|]] l IH]; intros n; cbn; auto.
Qed.
(** A guest that is interrupted for ever, with fuel for three calls. *)
Definition interrupted (B : Type) (o : hop B) : option B :=
  match o in hop B return option B with
  | KvmRun _ m => Some (0, EINTR, m)
  | Fired => Some false
  | Alarm _ | CancelAlarm => Some tt
  | _ => None
  end.
Lemma guestRun_ends_witness :
  let p := guestRun 3 (Vm 3 4 5 (Some 7) 4096 0 (Cpuid2 0 [])) (guest0 false) 4 10 in
  (3 ≤ kvm_runs (take 7 (drive interrupted p).1))%nat.
Proof.
  apply (guestRun_ends 3 (Vm 3 4 5 (Some 7) 4096 0 (Cpuid2 0 [])) (guest0 false) 4 10).
  exact (drive_runs interrupted (guestRun 3 (Vm 3 4 5 (Some 7) 4096 0 (Cpuid2 0 [])) (guest0 false) 4 10)).
Defined.

(** ** The CPUs the thread is moved over *)
(** The masks the thread is given. *)
Definition masksM : monitor hop := Monitor hop (list (list Z))
  (λ B o _ g, match o with Setaffinity _ s => g ++ [s] | _ => g end) (λ _ _ _, True) (λ _ _ _ _, True).
(** [c] is the first CPU of the set after [cpu], going round. *)
Definition is_next (allowed : list Z) (cpu c : Z) : Prop :=
  isSet allowed c = true ∧ ∃ k, 0 < k ∧ c = (cpu + k) mod CPU_SETSIZE ∧
    ∀ j, 0 < j < k → isSet allowed ((cpu + j) mod CPU_SETSIZE) = false.
Lemma next_cpu_spec n allowed cpu c : next_cpu n allowed cpu = Some c → is_next allowed cpu c.
Proof.
  revert cpu. induction n as [|n IH]; intros cpu; cbn [next_cpu]; [done|].
  destruct (isSet allowed ((cpu + 1) mod CPU_SETSIZE)) eqn:E.
  - intros [= <-]. split; [done|]. exists 1. split; [lia|]. split; [done|]. intros j Hj. lia.
  - intros (Hs&k&Hk&->&Hj)%IH. split; [done|]. exists (k + 1). split; [lia|].
    assert (∀ j, ((cpu + 1) mod CPU_SETSIZE + j) mod CPU_SETSIZE = (cpu + (j + 1)) mod CPU_SETSIZE) as Em.
    { intros j. rewrite Zplus_mod_idemp_l. f_equal. lia. }
    split; [apply Em|]. intros j Hj'. destruct (decide (j = 1)) as [->|]; [done|].
    specialize (Hj (j - 1)). rewrite Em in Hj. replace (j - 1 + 1) with j in Hj by lia. apply Hj. lia.
Qed.
Lemma next_cpu_none n allowed cpu : next_cpu n allowed cpu = None →
  ∀ j, 0 < j <= Z.of_nat n → isSet allowed ((cpu + j) mod CPU_SETSIZE) = false.
Proof.
  revert cpu. induction n as [|n IH]; intros cpu; cbn [next_cpu]; [lia|].
  destruct (isSet allowed ((cpu + 1) mod CPU_SETSIZE)) eqn:E; [done|]. intros Hn j Hj.
  destruct (decide (j = 1)) as [->|]; [done|]. specialize (IH _ Hn (j - 1)).
  rewrite Zplus_mod_idemp_l in IH. replace (cpu + 1 + (j - 1)) with (cpu + j) in IH by lia. apply IH. lia.
Qed.
(** The inner loop ends when the thread may run anywhere at all. *)
Lemma next_cpu_total allowed cpu c : 0 <= c < CPU_SETSIZE → isSet allowed c = true → 0 <= cpu < CPU_SETSIZE →
  is_Some (next_cpu (S (Z.to_nat CPU_SETSIZE)) allowed cpu).
Proof.
  intros Hc Hs Hcpu. destruct (next_cpu _ _ _) eqn:E; [by eexists|exfalso]. unfold CPU_SETSIZE in *.
  assert (∀ j, 0 < j <= 1025 → isSet allowed ((cpu + j) mod 1024) = false) as H by exact (next_cpu_none _ _ _ E).
  destruct (decide (cpu < c)).
  - specialize (H (c - cpu)). replace (cpu + (c - cpu)) with c in H by lia. rewrite Z.mod_small, Hs in H by lia.
    specialize (H ltac:(lia)). done.
  - specialize (H (c - cpu + 1024)). replace (cpu + (c - cpu + 1024)) with (c + 1 * 1024) in H by lia.
    rewrite Z.mod_add, Z.mod_small, Hs in H by lia. specialize (H ltac:(lia)). done.
Qed.

(** The masks of one CPU each, round the set. *)
Inductive round (allowed : list Z) : Z → list (list Z) → Prop :=
| round_nil cpu : round allowed cpu []
| round_cons cpu c l : is_next allowed cpu c → round allowed c l →
    round allowed cpu (set_cpu c no_cpus :: l).
Lemma migrate_loop_round n tid allowed cpu g (Q : unit → list (list Z) → Prop) E :
  (∀ l, round allowed cpu l → Q tt (g ++ l)) → wp masksM (migrate_loop n tid allowed cpu) Q E g.
Proof.
  revert cpu g. induction n as [|n IH]; intros cpu g HQ; cbn [migrate_loop];
    (apply wp_bind, wp_call; [exact I|]; intros stop _; cbn [m_obs masksM]; case_match;
      [cbn [wp]; rewrite <- (app_nil_r g); apply HQ; constructor|]).
  - split; [done|intros []].
  - destruct (next_cpu _ allowed cpu) as [c|] eqn:Ec; [|split; [done|intros []]].
    apply wp_bind, wp_call; [exact I|]. intros e _. cbn [m_obs masksM]. apply wp_bind.
    assert (∀ l, round allowed c l → Q tt ((g ++ [set_cpu c no_cpus]) ++ l)) as HQ'.
    { intros l Hl. rewrite <- app_assoc. apply HQ. constructor; [by eapply next_cpu_spec|done]. }
    destruct (e =? 0); [apply wp_call; [exact I|]; intros [] _|cbn [wp]];
      (apply wp_bind, wp_call; [exact I|]; intros [] _; by apply IH).
Qed.
(** A mask of one CPU holds that CPU alone. *)
Lemma isSet_one c c' : 0 <= c < CPU_SETSIZE → 0 <= c' < CPU_SETSIZE → isSet (set_cpu c no_cpus) c' = bool_decide (c = c').
Proof.
  intros Hc Hc'. unfold isSet, set_cpu, no_cpus, CPU_SETSIZE in *.
  assert (0 <= c / 64 < 16 ∧ 0 <= c' / 64 < 16) as [H1 H2]
    by (split; split; (apply Z.div_pos; lia) || (apply Z.div_lt_upper_bound; lia)).
  assert (∀ n, default 0 (repeat 0 16 !! n) = 0) as H0
    by (intros n; do 16 (destruct n as [|n]; [done|]); by destruct n).
  pose proof (Z.mod_pos_bound c 64 ltac:(lia)). pose proof (Z.mod_pos_bound c' 64 ltac:(lia)).
  destruct (decide (c / 64 = c' / 64)) as [E|E].
  - rewrite E, list_lookup_alter_eq. specialize (H0 (Z.to_nat (c' / 64))).
    destruct (repeat 0 16 !! Z.to_nat (c' / 64)) as [w|] eqn:Ew.
    + cbn in H0 |- *. subst w. rewrite Z.lor_0_l, Z.shiftl_1_l, Z.pow2_bits_eqb by lia.
      apply eq_true_iff_eq. rewrite Z.eqb_eq, bool_decide_eq_true.
      pose proof (Z.div_mod c 64 ltac:(lia)). pose proof (Z.div_mod c' 64 ltac:(lia)). split; [lia|by intros ->].
    + exfalso. apply lookup_ge_None_1 in Ew. change (length (repeat 0 16)) with 16%nat in Ew. lia.
  - rewrite list_lookup_alter_ne by lia. rewrite H0, Z.testbit_0_l. symmetry. apply bool_decide_eq_false.
    intros ->. done.
Qed.

(** The goroutine that moves the vCPU's thread gives it one CPU at a time,
    always one of those the process may run on, going round the set in order
    and never passing one over, and gives the whole set back at the end. *)
Theorem migrateThread_round fuel tid tr :
  runs (migrateThread fuel tid) tr (Returned tt) →
  observe masksM tr [] = [] ∨
  ∃ allowed l, round allowed 0 l ∧ observe masksM tr [] = l ++ [allowed] ∧
    Ev (Getaffinity tid) (Some (allowed, 0)) ∈ tr.
Proof.
  intros H. unfold migrateThread in H. destruct H as [[_ ?]|([allowed e] & tr' & -> & H)]; [done|]. cbn in H |- *.
  destruct (Z.eqb_spec e 0) as [->|He]; [right|destruct H as [-> _]; by left].
  exists allowed.
  assert (wp masksM (migrate_loop fuel tid allowed 0 ;; call (Setaffinity tid allowed) ;; Ret tt)
    (λ _ g, ∃ l, round allowed 0 l ∧ g = l ++ [allowed]) (λ _ _, True) []) as Hwp.
  { apply wp_bind, migrate_loop_round. intros l Hl. apply wp_bind, wp_call; [exact I|]. intros x _.
    exists l. done. }
  apply (wp_runs masksM _ _ _ _ _ _ Hwp) in H as [_ (l&Hl&E)].
  - exists l. split; [done|]. split; [done|]. left.
  - generalize ([] : m_state masksM). clear. induction tr' as [|[T o [b|]] tr IH]; intros s; cbn; auto.
Qed.
(** Two CPUs, and a run that is stopped after three moves. *)
Definition two_cpus : list Z := 5 :: repeat 0 15.
Definition moving (B : Type) (n : Z) (o : hop B) : option (B * Z) :=
  match o in hop B return option (B * Z) with
  | Load _ => Some (if n <? 3 then 0 else 1, n + 1)
  | Getaffinity _ => Some ((two_cpus, 0), n)
  | Setaffinity _ _ => Some (0, n)
  | HostOps.Add _ _ | Sleep _ => Some (tt, n)
  | _ => None
  end.
Lemma migrateThread_round_witness :
  let tr := (drive_with moving 0 (migrateThread 5 1)).1 in
  observe masksM tr [] = [4 :: repeat 0 15; 1 :: repeat 0 15; 4 :: repeat 0 15; two_cpus] ∧
  (observe masksM tr [] = [] ∨
   ∃ allowed l, round allowed 0 l ∧ observe masksM tr [] = l ++ [allowed] ∧
     Ev (Getaffinity 1) (Some (allowed, 0)) ∈ tr).
Proof.
  split; [vm_compute; reflexivity|]. apply (migrateThread_round 5 1).
  exact (drive_with_runs moving 0 (migrateThread 5 1)).
Defined.
