(* ===== verification/AbiTest.v ===== *)
(** * The ABI test

    tools/hosttests/cmd/pvm_abi_test/main.go: what the VMM sees of the PVM ABI,
    as programs over the system calls of [HostOps].  The goroutine that enters
    the vCPU while the memory map changes is a program of its own; the atomics
    the two share are calls.  The test never looks at the guest's memory, which
    is not kept from one KVM_RUN to the next here. *)
From Stdlib Require Import Ascii.
From S2P Require Import Prelude GoStrings Bits Abi Guest Prog HostOps.

#[local] Open Scope Z_scope.

(** ** MSR_PVM_VCPU_STRUCT *)
Definition UNBACKED : Z := GUEST_PHYS_BASE + GUEST_MEM_SIZE + 0x10000.
Definition testVcpuStruct (t : tap) (v : VM) : host tap :=
  let t := set_case "pvm/vcpu-struct/unaligned" t in
  r ← SetMSR v MSR_PVM_VCPU_STRUCT (PVCS_GPA + 8);
  t ← (if 0 <? r then Nok "an unaligned PVCS address was accepted" t else Ok "rejected" t);
  let t := set_case "pvm/vcpu-struct/valid" t in
  r ← SetMSR v MSR_PVM_VCPU_STRUCT PVCS_GPA;
  t ← (if r <=? 0 then Nok "a page-aligned PVCS inside a memslot was rejected" t else
       '(n, back) ← GetMSR v MSR_PVM_VCPU_STRUCT 0;
       if negb (n =? 1) || negb (back =? PVCS_GPA)
       then Nok ("read back " +:+ Hex back +:+ ", wrote " +:+ Hex PVCS_GPA) t
       else Ok ("pinned at " +:+ Hex PVCS_GPA) t);
  let t := set_case "pvm/vcpu-struct/unbacked-accepted" t in
  r ← SetMSR v MSR_PVM_VCPU_STRUCT UNBACKED;
  t ← (if r <=? 0 then
         Nok "a PVCS with no memslot was rejected at set time; the restore-before-memory-regions path depends on it being stored and refreshed later" t
       else Ok "stored, to be resolved by KVM_REQ_GPC_REFRESH" t);
  let t := set_case "pvm/vcpu-struct/zero-clears" t in
  r ← SetMSR v MSR_PVM_VCPU_STRUCT 0;
  t ← (if r <=? 0 then Nok "clearing the PVCS was rejected" t else Ok "cleared" t);
  SetMSR v MSR_PVM_VCPU_STRUCT PVCS_GPA ;; Ret t.

(** ** MSR_PVM_FEATURES_ENABLED *)
Definition testFeaturesEnabled (t : tap) (v : VM) : host tap :=
  let t := set_case "pvm/features-enabled/reset-zero" t in
  '(n, back) ← GetMSR v MSR_PVM_FEATURES_ENABLED (2 ^ 64 - 1);
  t ← (if negb (n =? 1) then Nok "MSR_PVM_FEATURES_ENABLED cannot be read" t
       else if negb (back =? 0) then Nok ("a new vCPU has features enabled: " +:+ Hex back) t
       else Ok "zero" t);
  let t := set_case "pvm/features-enabled/direct-pf" t in
  r ← SetMSR v MSR_PVM_FEATURES_ENABLED PVM_FEATURE_DIRECT_PF;
  '(t, back) ← (if r <=? 0 then t ← Nok "enabling PVM_FEATURE_DIRECT_PF was refused" t; Ret (t, back) else
       '(n, back) ← GetMSR v MSR_PVM_FEATURES_ENABLED back;
       t ← (if negb (n =? 1) || negb (back =? PVM_FEATURE_DIRECT_PF)
            then Nok ("read back " +:+ Hex back) t else Ok "enabled" t);
       Ret (t, back));
  let t := set_case "pvm/features-enabled/unsupported-refused" t in
  r ← SetMSR v MSR_PVM_FEATURES_ENABLED (shl64 PVM_FEATURE_DIRECT_PF 1);
  '(t, back) ← (if 0 <? r then t ← Nok "a feature bit the hypervisor does not advertise was accepted" t; Ret (t, back) else
       '(n, back) ← GetMSR v MSR_PVM_FEATURES_ENABLED back;
       t ← (if negb (n =? 1) || negb (back =? PVM_FEATURE_DIRECT_PF)
            then Nok ("the refused write changed the MSR to " +:+ Hex back) t else Ok "refused, value kept" t);
       Ret (t, back));
  let t := set_case "pvm/features-enabled/disable" t in
  r ← SetMSR v MSR_PVM_FEATURES_ENABLED 0;
  if r <=? 0 then Nok "writing zero was refused" t else
  '(n, back) ← GetMSR v MSR_PVM_FEATURES_ENABLED back;
  if negb (n =? 1) || negb (back =? 0) then Nok ("read back " +:+ Hex back +:+ " after writing zero") t
  else Ok "disabled" t.

(** ** MSR_PVM_EVENT_ENTRY *)
(** At most [n] bytes, stopping after a newline: the line, the rest, and
    whether the end of the file cut it short. *)
Fixpoint fgets (n : nat) (s : string) : string * string * bool :=
  match n with
  | O => ("", s, false)
  | S n =>
      match s with
      | EmptyString => ("", "", true)
      | String c s =>
          if ceq c ch_nl then (str1 c, s, false)
          else let '(l, r, eof) := fgets n s in (String c l, r, eof)
      end
  end.
Definition la57_line (l : string) : bool := has_prefix l "flags" && contains l " la57".
Fixpoint scan_cpuinfo (fuel : nat) (s : string) : bool :=
  match fuel with
  | O => false
  | S fuel =>
      let '(l, r, eof) := fgets 4095 s in
      if bool_decide (l = "") && eof then false
      else if la57_line l then true else scan_cpuinfo fuel r
  end.
Definition host5Level : host bool :=
  r ← call (ReadAll "/proc/cpuinfo");
  Ret (match r with Some s => scan_cpuinfo (S (slen s)) s | None => false end).

Definition bad_entries (top : Z) : list (string * Z) :=
  [("non-canonical", top); ("canonical, +256 is not", top - 0x10); ("canonical, +512 is not", top - 0x1f0)].
Definition event_case (v : VM) (t : tap) (b : Z * (string * Z)) : host tap :=
  let '(i, (why, val)) := b in
  let t := set_case ("pvm/event-entry/reject-" +:+ itoa i) t in
  r ← SetMSR v MSR_PVM_EVENT_ENTRY val;
  if 0 <? r then Nok (Hex val +:+ " (" +:+ why +:+ ") was accepted") t else Ok (why +:+ " rejected") t.
Definition testEventEntry (t : tap) (v : VM) : host tap :=
  la57 ← host5Level;
  let top := if la57 : bool then Z.shiftl 1 56 else Z.shiftl 1 47 in
  each_with (imap (λ i b, (Z.of_nat i, b)) (bad_entries top)) t (event_case v).

(** ** The MSR window *)
Definition pvmMSRRange : Z := 16.
Definition window_values : list Z := [0; 1; 2 ^ 64 - 1; 0x0000800000000000; 0xffffffff80000000].
(** One MSR: true if no value was refused with EINVAL. *)
Fixpoint sweep_values (vals : list Z) (msr : Z) (t : tap) (v : VM) : host (bool * tap) :=
  match vals with
  | [] => Ret (true, t)
  | val :: vals =>
      r ← SetMSR v msr val;
      if r =? - EINVAL then
        t ← Nok ("KVM_SET_MSRS(" +:+ Hex msr +:+ ") failed with EINVAL, which is the ioctl refusing the request " +:+
                 "rather than the vendor refusing the value") t;
        Ret (false, t)
      else sweep_values vals msr t v
  end.
Definition sweep (msrs : list Z) (t : tap) (v : VM) : host (bool * tap) :=
  each_with msrs (true, t) (λ '(survived, t) msr,
    '(fine, t) ← sweep_values window_values msr t v; Ret (survived && fine, t)).
Definition window_msrs : list Z := (λ i : nat, PVM_VIRTUAL_MSR_BASE + Z.of_nat i) <$> seq 0 (Z.to_nat pvmMSRRange).
Definition testMSRWindow (t : tap) (v : VM) : host tap :=
  let t := set_case "pvm/msr-window/sweep" t in
  '(survived, t) ← sweep window_msrs t v;
  t ← (if survived : bool then
         '(n, _) ← GetMSR v MSR_PVM_VCPU_STRUCT 0;
         if n <? 0 then Nok "the vCPU stopped answering after the sweep" t
         else Ok (itoa pvmMSRRange +:+ " MSRs x " +:+ itoa (Z.of_nat (length window_values)) +:+
                  " values, host still answering") t
       else Ret t);
  SetMSR v MSR_PVM_VCPU_STRUCT 0 ;; Ret t.

(** ** Memslot churn under a pinned PVCS *)
Section Fuel.
Context (fuel : nat).

(** The goroutine that enters the vCPU: at most [n] times from entry [i] on. *)
Fixpoint vcpu_loop (n : nat) (v : VM) : host unit :=
  match n with
  | O => Ret tt
  | S n =>
      stop ← call (Load "churnStop");
      if negb (stop =? 0) then Ret tt else
      '(r, e, _) ← KVMRun fuel (v_vcpu v) vm_mem;
      (if r <? 0 then call (HostOps.Add "runFailed" 1) ;; call (Store "runLastErrno" e)
       else
         call (HostOps.Add "runEntered" 1) ;;
         run ← RunData v;
         call (Store "runLastReason" (exit_reason run)) ;;
         if exit_reason run =? EXIT_INTERNAL_ERROR then call (Store "runLastSuberror" (Suberror run)) else Ret tt) ;;
      vcpu_loop n v
  end.
Definition vcpuThread (v : VM) : host unit := vcpu_loop 100000 v.

(** Whether the goroutine has called KVM_RUN: [a.Load() == 0 && b.Load() == 0]. *)
Definition not_yet : host bool :=
  a ← call (Load "runEntered");
  if negb (a =? 0) then Ret false else
  b ← call (Load "runFailed");
  Ret (b =? 0).
Fixpoint wait_loop (n : nat) : host unit :=
  match n with
  | O => Ret tt
  | S n => w ← not_yet; if w : bool then call (Sleep 100) ;; wait_loop n else Ret tt
  end.
(** The slots of a round: where, and how large. *)
Definition churn_round : list (Z * Z) :=
  let there := GUEST_PHYS_BASE + GUEST_MEM_SIZE in
  [(GUEST_PHYS_BASE, 0); (GUEST_PHYS_BASE, GUEST_MEM_SIZE); (GUEST_PHYS_BASE, 0); (there, GUEST_MEM_SIZE);
   (there, 0); (GUEST_PHYS_BASE, GUEST_MEM_SIZE)].
(** The errno that ended it, 0 if none. *)
Fixpoint set_slots (l : list (Z * Z)) (v : VM) : host Z :=
  match l with
  | [] => Ret 0
  | (gpa, size) :: l =>
      r ← SetMemslot v 0 gpa size (v_mem v) 0;
      if negb (r =? 0) then Ret (- r) else set_slots l v
  end.
Fixpoint churn_loop (n : nat) (i : Z) (v : VM) : host (Z * Z) :=
  match n with
  | O => Ret (i, 0)
  | S n =>
      e ← set_slots churn_round v;
      if negb (e =? 0) then Ret (i, e) else churn_loop n (i + 1) v
  end.
Definition testMemslotChurn (t : tap) (v : VM) : host tap :=
  let t := set_case "pvm/memslot-churn" t in
  r ← SetMSR v MSR_PVM_VCPU_STRUCT PVCS_GPA;
  if r <=? 0 then Nok "could not pin a PVCS to churn under" t else
  call (Store "churnStop" 0) ;; call (Store "runEntered" 0) ;; call (Store "runFailed" 0) ;;
  call (Go "vcpuThread") ;;
  wait_loop 100000 ;;
  w ← not_yet;
  if w : bool then
    call (Store "churnStop" 1) ;; call (Join "vcpuThread") ;;
    Nok "the vCPU thread never made a KVM_RUN call" t
  else
  '(i, err) ← churn_loop 50 0 v;
  call (Store "churnStop" 1) ;; call (Join "vcpuThread") ;;
  if negb (err =? 0) then
    Nok ("memslot update failed after " +:+ itoa i +:+ " rounds: " +:+ Strerror (Some err)) t else
  r ← SetMSR v MSR_PVM_VCPU_STRUCT PVCS_GPA;
  if r <=? 0 then Nok "the vCPU stopped accepting a PVCS after the churn" t else
  entered ← call (Load "runEntered");
  failed ← call (Load "runFailed");
  lastErrno ← call (Load "runLastErrno");
  lastReason ← call (Load "runLastReason");
  if entered =? 0 then
    Nok (itoa i +:+ " rounds, but not one KVM_RUN entered the vCPU (" +:+ itoa failed +:+ " refused, last errno " +:+
         itoa lastErrno +:+ "): nothing was in flight, so this case tested nothing") t
  else if lastReason =? EXIT_INTERNAL_ERROR then
    sub ← call (Load "runLastSuberror");
    Ok (itoa i +:+ " rounds; " +:+ itoa entered +:+ " entries (last exit " +:+ ExitReasonName lastReason +:+ "/" +:+
        itoa sub +:+ "), " +:+ itoa failed +:+ " refused") t
  else
    Ok (itoa i +:+ " rounds; " +:+ itoa entered +:+ " entries (last exit " +:+ ExitReasonName lastReason +:+ "), " +:+
        itoa failed +:+ " refused (last errno " +:+ itoa lastErrno +:+ ")") t.

(** ** A PVCS the host cannot pin *)
Record runs_seen := RunsSeen { rs_entered : Z; rs_refused : Z; rs_errno : Z; rs_reason : Z }.
Fixpoint enter_loop (n : nat) (s : runs_seen) (v : VM) : host runs_seen :=
  match n with
  | O => Ret s
  | S n =>
      '(r, e, _) ← KVMRun fuel (v_vcpu v) vm_mem;
      if r <? 0 then enter_loop n (RunsSeen (rs_entered s) (rs_refused s + 1) e (rs_reason s)) v
      else
        run ← RunData v;
        enter_loop n (RunsSeen (rs_entered s + 1) (rs_refused s) (rs_errno s) (exit_reason run)) v
  end.
Definition runWithUnpinnablePVCS (what : string) (gpa : Z) (t : tap) (v : VM) : host tap :=
  r ← SetMSR v MSR_PVM_VCPU_STRUCT gpa;
  if r <=? 0 then
    Nok (what +:+ ": setting the PVCS was rejected outright; the restore-before-memory-regions path depends on " +:+
         "it being stored and resolved later") t
  else
  s ← enter_loop 20 (RunsSeen 0 0 0 (-1)) v;
  r ← SetMSR v MSR_PVM_VCPU_STRUCT 0;
  if r <=? 0 then
    Nok (what +:+ ": the vCPU stopped answering after " +:+ itoa (rs_entered s) +:+ " entries") t else
  if (rs_entered s =? 0) && (rs_refused s =? 0) then Nok (what +:+ ": KVM_RUN was never called") t else
  let last := if 0 <=? rs_reason s then ExitReasonName (rs_reason s) else "none" in
  Ok (what +:+ ": " +:+ itoa (rs_entered s) +:+ " entries (last exit " +:+ last +:+ "), " +:+ itoa (rs_refused s) +:+
      " refused (last errno " +:+ itoa (rs_errno s) +:+ "), host still answering") t.
Definition testUnpinnablePVCS (t : tap) (v : VM) : host tap :=
  let t := set_case "pvm/vcpu-struct/unbacked-run" t in
  t ← runWithUnpinnablePVCS "no memslot behind the PVCS" UNBACKED t v;
  let t := set_case "pvm/vcpu-struct/readonly-run" t in
  let gpa := GUEST_PHYS_BASE + 2 * GUEST_MEM_SIZE in
  '(ro, e) ← call (Mmap (-1) GUEST_MEM_SIZE 1 0x4022);
  if negb (e =? 0) then Nok ("mmap PROT_READ: " +:+ Strerror (Some e)) t else
  r ← SetMemslot v 1 gpa GUEST_MEM_SIZE ro 0;
  if negb (r =? 0) then
    t ← Nok ("adding a read-only-backed memslot: " +:+ Strerror (Some (- r))) t;
    call (Munmap ro) ;; Ret t
  else
  t ← runWithUnpinnablePVCS "PVCS on read-only backing memory" gpa t v;
  SetMemslot v 1 gpa 0 ro 0 ;;
  call (Munmap ro) ;; Ret t.

(** ** Protection keys *)
Definition hostPKRU : host Z := call Rdpkru.
Definition XFEATURE_PKRU : Z := 9.
Definition CPUIDCount (leaf sub : Z) : host (list Z) := call (CpuidInsn leaf sub).
Definition reg_bit (r : list Z) (i : nat) (bit : Z) : bool := Z.testbit (default 0 (r !! i)) bit.
Definition hostHasOSPKE : host bool := r ← CPUIDCount 7 0; Ret (reg_bit r 2 4).
(** [CPUIDHas] of the VM, which may panic. *)
Definition cpuid_has (v : VM) (function index : Z) (reg : nat) (bit : Z) : host bool :=
  match CPUIDHas (v_cpuid v) function index reg bit with Some b => Ret b | None => panic end.
Definition testPKUNotAdvertised (t : tap) (v : VM) : host tap :=
  pku ← cpuid_has v 7 0 2 3;
  ospke ← cpuid_has v 7 0 2 4;
  haveOSPKE ← hostHasOSPKE;
  let t := set_case "pvm/pku-advertised" t in
  if negb (haveOSPKE : bool) then Ok "the host has no OSPKE, so there is no PKU to advertise" t else
  if (ospke : bool) && negb (pku : bool) then
    Nok "OSPKE is advertised without PKU; a guest cannot set CR4.PKE and so cannot reach the keys it is told about" t else
  if negb pku then
    Nok "KVM_GET_SUPPORTED_CPUID does not advertise PKU on a host that has OSPKE; the guest gets no protection keys" t
  else Ok "PKU advertised; security/pkey-denied is what says it works" t.

Definition with_cr4 (s : sregs) (x : Z) : sregs :=
  KSregs (cs s) (ds s) (es s) (fs s) (gs s) (ss s) (tr s) (ldt s) (gdt s) (idt s) (cr0 s) (cr2 s) (cr3 s) x (cr8 s)
    (efer s) (apic_base s) (interrupt_bitmap s).
Fixpoint run_times (n : nat) (v : VM) : host unit :=
  match n with O => Ret tt | S n => KVMRun fuel (v_vcpu v) vm_mem ;; run_times n v end.
(** [binary.LittleEndian.Uint32(region[offset:])]. *)
Definition region32 (region : list Z) (offset : Z) : host Z :=
  if offset + 4 <=? Z.of_nat (length region) then Ret (unle (take 4 (drop (Z.to_nat offset) region))) else panic.
Definition testPKRULeak (t : tap) (v : VM) : host tap :=
  let t := set_case "pvm/pkru-not-leaked" t in
  r ← CPUIDCount 0 0;
  if default 0 (r !! 0%nat) <? 0xd then Ok "no XSAVE leaf on this CPU; nothing to check" t else
  r ← CPUIDCount 0xd 0;
  if negb (reg_bit r 0 XFEATURE_PKRU) then Ok "the host CPU has no PKRU xstate component" t else
  r ← CPUIDCount 0xd XFEATURE_PKRU;
  let size := default 0 (r !! 0%nat) in let offset := default 0 (r !! 1%nat) in
  if (size <? 4) || (sizeofXSave <? u32 (offset + size)) then
    Nok ("PKRU xstate component is at offset " +:+ itoa offset +:+ " size " +:+ itoa size +:+
         ", which does not fit the KVM_GET_XSAVE buffer") t
  else
  '(_, e, s) ← Ioctl SSregs (v_vcpu v) GET_SREGS sregs0;
  if negb (e =? 0) then Nok ("KVM_GET_SREGS: " +:+ Strerror (Some e)) t else
  '(_, e, _) ← Ioctl SSregs (v_vcpu v) SET_SREGS (with_cr4 s (Z.lor (cr4 s) X86_CR4_PKE));
  if negb (e =? 0) then
    Ok ("the host refuses CR4.PKE (" +:+ Strerror (Some e) +:+ "), so the PKRU bracketing never runs") t else
  '(_, e, s) ← Ioctl SSregs (v_vcpu v) GET_SREGS sregs0;
  if negb (e =? 0) then Nok ("KVM_GET_SREGS after setting CR4.PKE: " +:+ Strerror (Some e)) t else
  if Z.land (cr4 s) X86_CR4_PKE =? 0 then
    Nok ("CR4.PKE did not stick (cr4=" +:+ Hex (cr4 s) +:+
         "), so the PKRU bracketing never ran and this case proved nothing") t
  else
  run_times 5 v ;;
  '(_, e, region) ← Ioctl SXSave (v_vcpu v) GET_XSAVE (repeat 0 (Z.to_nat sizeofXSave));
  if negb (e =? 0) then Nok ("KVM_GET_XSAVE: " +:+ Strerror (Some e)) t else
  guestPKRU ← region32 region offset;
  mine ← hostPKRU;
  if negb (guestPKRU =? 0) && (guestPKRU =? mine) then
    Nok ("the guest's saved PKRU is " +:+ Hex guestPKRU +:+ ", which is this process's own PKRU: the host's value " +:+
         "is being handed to the VMM as guest state and would be written into a snapshot") t
  else
    Ok ("guest PKRU " +:+ Hex guestPKRU +:+ ", host PKRU " +:+ Hex mine +:+ " (vCPU never left non-PVM mode, so " +:+
        "the PVM wrappers did not run)") t.

(** ** The CPL3 invariants *)
Definition testInvariants (t : tap) (v : VM) : host tap :=
  let t := set_case "pvm/invariant-M4-smep-needs-nx" t in
  r ← CPUIDCount 0x80000001 0;
  let hostNX := reg_bit r 3 20 in
  smep ← cpuid_has v 7 0 1 7;
  t ← (if (smep : bool) && negb hostNX then
         Nok "SMEP is advertised to the guest but the host has no NX; invariant M4 has nothing to emulate it with" t
       else Ok ("SMEP advertised=" +:+ itoa (B2I smep) +:+ ", host NX=" +:+ itoa (B2I hostNX)) t);
  let t := set_case "pvm/invariant-M4-no-smap" t in
  smap ← cpuid_has v 7 0 1 20;
  t ← (if (smap : bool) then
         Nok "SMAP is advertised, but PVM emulates no equivalent: the guest runs at CPL3 and hardware SMAP cannot separate its two modes" t
       else Ok "SMAP not advertised" t);
  let t := set_case "pvm/invariant-M5-la57-matches-host" t in
  r ← CPUIDCount 7 0;
  let hostLA57 := reg_bit r 2 16 in
  la57 ← cpuid_has v 7 0 2 16;
  t ← (if (la57 : bool) && negb hostLA57 then
         Nok "LA57 is advertised to the guest but the host is 4-level; the shadow root level cannot match the host's" t
       else Ok ("LA57 advertised=" +:+ itoa (B2I la57) +:+ ", host LA57=" +:+ itoa (B2I hostLA57)) t);
  let t := set_case "pvm/invariant-host-pkru-is-restrictive" t in
  r ← CPUIDCount 7 0;
  if negb (reg_bit r 2 4) then Ok "no OSPKE on the host; nothing to restrict with" t else
  pkru ← hostPKRU;
  if pkru =? 0 then
    Nok "this process's PKRU is 0, so every guest run has been exercising the easy case: the wrapper that forces PKRU to 0 for the guest is never doing anything" t
  else
    again ← hostPKRU;
    Ok ("host PKRU is " +:+ Hex again +:+ ", so the forced-to-zero path is live") t.

Definition main : host Empty_set :=
  pvm ← IsPVMHost;
  if negb (pvm : bool) then Skip ;; Exit 0 else
  v ← Setup;
  t ← testFeaturesEnabled tap0 v;
  t ← testVcpuStruct t v;
  t ← testEventEntry t v;
  t ← testMSRWindow t v;
  t ← testUnpinnablePVCS t v;
  t ← testPKUNotAdvertised t v;
  t ← testInvariants t v;
  t ← testPKRULeak t v;
  t ← testMemslotChurn t v;
  Teardown v ;;
  code ← Finish t;
  Exit code.
End Fuel.
