(* ===== verification/AbiTap.v ===== *)
(** * What the ABI test prints

    Every case of the ABI test under its own name and in the order of the
    program (the sweep of the MSR window may print a line for each MSR); the
    whole output is a TAP stream whose plan and verdict are those of its
    lines. *)
From Stdlib Require Import Ascii.
From S2P Require Import Prelude GoStrings Bits Abi Guest Prog HostOps HostLogic AbiTest.

#[local] Open Scope Z_scope.

(** ** The quiet parts *)
Lemma host5Level_quiet : quiet host5Level.
Proof. unfold host5Level. quiet_tac. Qed.
Lemma vcpu_not_yet_quiet : quiet not_yet.
Proof. unfold not_yet. quiet_tac. Qed.
#[export] Hint Resolve host5Level_quiet vcpu_not_yet_quiet : quiet.
Lemma wait_loop_quiet n : quiet (wait_loop n).
Proof. induction n as [|n IH]; cbn [wait_loop]; quiet_tac. Qed.
Lemma set_slots_quiet l v : quiet (set_slots l v).
Proof. induction l as [|[a b] l IH]; cbn [set_slots]; quiet_tac. Qed.
#[export] Hint Resolve wait_loop_quiet set_slots_quiet : quiet.
Lemma churn_loop_quiet n i v : quiet (churn_loop n i v).
Proof. revert i. induction n as [|n IH]; intros i; cbn [churn_loop]; quiet_tac. Qed.
Lemma enter_loop_quiet fuel n s v : quiet (enter_loop fuel n s v).
Proof. revert s. induction n as [|n IH]; intros s; cbn [enter_loop]; quiet_tac. Qed.
Lemma run_times_quiet fuel n v : quiet (run_times fuel n v).
Proof. induction n as [|n IH]; cbn [run_times]; quiet_tac. Qed.
Lemma CPUIDCount_quiet a b : quiet (CPUIDCount a b).
Proof. unfold CPUIDCount. quiet_tac. Qed.
#[export] Hint Resolve churn_loop_quiet enter_loop_quiet run_times_quiet CPUIDCount_quiet : quiet.
Lemma hostHasOSPKE_quiet : quiet hostHasOSPKE.
Proof. unfold hostHasOSPKE. quiet_tac. Qed.
Lemma hostPKRU_quiet : quiet hostPKRU.
Proof. unfold hostPKRU. quiet_tac. Qed.
Lemma cpuid_has_quiet v a b c d : quiet (cpuid_has v a b c d).
Proof. unfold cpuid_has. quiet_tac. Qed.
Lemma region32_quiet r o : quiet (region32 r o).
Proof. unfold region32. quiet_tac. Qed.
#[export] Hint Resolve hostHasOSPKE_quiet hostPKRU_quiet cpuid_has_quiet region32_quiet : quiet.

(** ** The cases *)
Ltac line_step :=
  cbv zeta;
  lazymatch goal with
  | |- adds _ _ _ _ (Nok _ _) => apply adds_Nok; reflexivity
  | |- adds _ _ _ _ (Ok _ _) => apply adds_Ok; reflexivity
  | |- adds _ _ _ _ (Nok _ _ ≫= _) => apply adds_returns; [|intros ?; returns_tac]
  | |- adds _ _ _ _ (Ok _ _ ≫= _) => apply adds_returns; [|intros ?; returns_tac]
  | |- adds _ _ _ _ (_ ≫= _) => apply adds_mute; [solve [apply mute_quiet; quiet_tac]|intros ?]
  | |- _ => case_match
  end.
Ltac line_tac := repeat line_step.
(** The next case, and the rest. *)
Ltac next_case :=
  apply (covers_bind [_]) with (tof := id); [apply (covers_adds false); line_tac|intros ?; cbv beta].
Ltac quiet_step := eapply covers_mute; [apply mute_quiet; quiet_tac|intros ?].

(** A case that keeps a value next to the counters. *)
Lemma adds_nok_pair {B} name msg t (b : B) : t_case t = name → adds false name fst t (t ← Nok msg t; Ret (t, b)).
Proof. intros <- es Q Hc HQ _. apply wp_bind, wp_Nok; [done|]. intros t' _ Hc'. by apply (HQ (t', b)). Qed.
Lemma adds_ok_pair {B} name msg t (b : B) : t_case t = name → adds false name fst t (t ← Ok msg t; Ret (t, b)).
Proof. intros <- es Q Hc HQ _. apply wp_bind, wp_Ok; [done|]. intros t' _ Hc'. by apply (HQ (t', b)). Qed.
Ltac pair_tac :=
  repeat (cbv zeta; lazymatch goal with
  | |- adds _ _ _ _ (Nok _ _ ≫= _) => apply adds_nok_pair; reflexivity
  | |- adds _ _ _ _ (Ok _ _ ≫= _) => apply adds_ok_pair; reflexivity
  | |- adds _ _ _ _ ((if ?b then _ else _) ≫= _) => destruct b
  | |- adds _ _ _ _ (_ ≫= _) => apply adds_mute; [solve [apply mute_quiet; quiet_tac]|intros ?]
  | |- _ => case_match
  end).

Section Cases.
Context (fuel : nat) (v : VM) (t : tap).
Lemma vcpu_struct_covers :
  covers ["pvm/vcpu-struct/unaligned"; "pvm/vcpu-struct/valid"; "pvm/vcpu-struct/unbacked-accepted";
          "pvm/vcpu-struct/zero-clears"] id t (testVcpuStruct t v).
Proof.
  unfold testVcpuStruct. cbv zeta.
  do 4 (eapply covers_case; quiet_step; next_case).
  quiet_step. apply (covers_ret id).
Qed.
Lemma features_covers :
  covers ["pvm/features-enabled/reset-zero"; "pvm/features-enabled/direct-pf";
          "pvm/features-enabled/unsupported-refused"; "pvm/features-enabled/disable"] id t (testFeaturesEnabled t v).
Proof.
  unfold testFeaturesEnabled. cbv zeta.
  eapply covers_case. quiet_step. case_match. next_case.
  do 2 (eapply covers_case; quiet_step; apply (covers_bind [_]) with (tof := fst);
    [apply (covers_adds false); pair_tac|intros [??]; cbn [fst]]).
  eapply covers_case. quiet_step. apply (covers_adds false). line_tac.
Qed.
Lemma event_covers :
  covers ["pvm/event-entry/reject-0"; "pvm/event-entry/reject-1"; "pvm/event-entry/reject-2"] id t (testEventEntry t v).
Proof.
  unfold testEventEntry. quiet_step. cbv zeta.
  assert (∀ i b t, covers ["pvm/event-entry/reject-" +:+ itoa i] id t (event_case v t (i, b))) as H.
  { intros i [why val] t'. unfold event_case. eapply covers_case. apply (covers_adds false). line_tac. }
  cbn [bad_entries imap each_with].
  apply (covers_bind [_]) with (tof := id); [apply (H 0)|intros ?].
  apply (covers_bind [_]) with (tof := id); [apply (H 1)|intros ?].
  apply (covers_bind [_]) with (tof := id); [apply (H 2)|intros ?]. apply (covers_ret id).
Qed.
Lemma unpinnable_adds t0 what gpa : adds false (t_case t0) id t0 (runWithUnpinnablePVCS fuel what gpa t0 v).
Proof. unfold runWithUnpinnablePVCS. line_tac. Qed.
Lemma unpinnable_covers :
  covers ["pvm/vcpu-struct/unbacked-run"; "pvm/vcpu-struct/readonly-run"] id t (testUnpinnablePVCS fuel t v).
Proof.
  unfold testUnpinnablePVCS. cbv zeta. eapply covers_case.
  apply (covers_bind [_]) with (tof := id);
    [apply (covers_adds false), (unpinnable_adds (set_case "pvm/vcpu-struct/unbacked-run" t))|intros t1].
  eapply covers_case. apply (covers_adds false).
  repeat lazymatch goal with
  | |- adds _ _ _ _ (runWithUnpinnablePVCS _ _ _ ?t0 _ ≫= _) =>
      apply adds_returns; [apply (unpinnable_adds t0)|intros ?; returns_tac]
  | |- _ => line_step
  end.
Qed.
Lemma pku_covers : covers ["pvm/pku-advertised"] id t (testPKUNotAdvertised t v).
Proof. unfold testPKUNotAdvertised. do 3 quiet_step. eapply covers_case, (covers_adds false). line_tac. Qed.
Lemma pkru_covers : covers ["pvm/pkru-not-leaked"] id t (testPKRULeak fuel t v).
Proof. unfold testPKRULeak. eapply covers_case, (covers_adds false). line_tac. Qed.
Lemma churn_covers : covers ["pvm/memslot-churn"] id t (testMemslotChurn t v).
Proof. unfold testMemslotChurn. eapply covers_case, (covers_adds false). line_tac. Qed.
Lemma invariants_covers :
  covers ["pvm/invariant-M4-smep-needs-nx"; "pvm/invariant-M4-no-smap"; "pvm/invariant-M5-la57-matches-host";
          "pvm/invariant-host-pkru-is-restrictive"] id t (testInvariants t v).
Proof.
  unfold testInvariants. cbv zeta.
  eapply covers_case. do 2 quiet_step. next_case.
  eapply covers_case. quiet_step. next_case.
  eapply covers_case. do 2 quiet_step. next_case.
  eapply covers_case, (covers_adds false). line_tac.
Qed.

(** The sweep may print a line for each MSR. *)
Lemma sweep_values_wp vals msr t0 es (Q : bool * tap → list string → Prop) :
  counted t0 es → Q (true, t0) (render_from 0 es) →
  (∀ t' e, e_case e = t_case t0 → t_case t' = t_case t0 → counted t' (es ++ [e]) → Q (false, t') (render_from 0 (es ++ [e]))) →
  wp tapM (sweep_values vals msr t0 v) Q bailed (render_from 0 es).
Proof.
  intros Hc H1 H2. induction vals as [|x vals IH]; cbn [sweep_values]; [exact H1|].
  apply wp_bind. eapply wp_quiet; [quiet_tac|done|]. intros r. case_match; [|exact IH].
  apply wp_bind, wp_Nok; [done|]. intros t' Et Hc'. by apply H2.
Qed.
Lemma sweep_false_wp l t0 es (Q : bool * tap → list string → Prop) :
  counted t0 es →
  (∀ t' es', t_case t' = t_case t0 → counted t' (es ++ es') →
     (e_case <$> es') `sublist_of` repeat (t_case t0) (length l) → Q (false, t') (render_from 0 (es ++ es'))) →
  wp tapM (each_with l (false, t0) (λ '(survived, t) msr,
    '(fine, t) ← sweep_values window_values msr t v; Ret (survived && fine, t))) Q bailed (render_from 0 es).
Proof.
  revert t0 es. induction l as [|msr l IH]; intros t0 es Hc HQ; cbn [each_with].
  { specialize (HQ t0 []). rewrite app_nil_r in HQ. by apply HQ. }
  apply wp_bind, wp_bind. apply sweep_values_wp; [done|..]; cbn [wp andb].
  - apply IH; [done|]. intros t' es' Et Hc' Hn. apply HQ; [done..|]. by apply sublist_cons.
  - intros t1 e He Et Hc'. apply IH; [done|]. intros t' es' Et' Hc2 Hn. rewrite <- app_assoc in *.
    apply HQ; [congruence|done|]. cbn. rewrite He. apply sublist_skip. by rewrite <- Et.
Qed.
Lemma sweep_wp l t0 es (Q : bool * tap → list string → Prop) :
  counted t0 es →
  (∀ s t' es', t_case t' = t_case t0 → counted t' (es ++ es') → (s = true → es' = []) →
     (e_case <$> es') `sublist_of` repeat (t_case t0) (length l) → Q (s, t') (render_from 0 (es ++ es'))) →
  wp tapM (each_with l (true, t0) (λ '(survived, t) msr,
    '(fine, t) ← sweep_values window_values msr t v; Ret (survived && fine, t))) Q bailed (render_from 0 es).
Proof.
  revert t0 es. induction l as [|msr l IH]; intros t0 es Hc HQ; cbn [each_with].
  { specialize (HQ true t0 []). rewrite app_nil_r in HQ. by apply HQ. }
  apply wp_bind, wp_bind. apply sweep_values_wp; [done|..]; cbn [wp andb].
  - apply IH; [done|]. intros s t' es' Et Hc' Hs Hn. apply HQ; [done..|]. by apply sublist_cons.
  - intros t1 e He Et Hc'. apply sweep_false_wp; [done|]. intros t' es' Et' Hc2 Hn. rewrite <- app_assoc in *.
    apply HQ; [congruence|done|done|]. cbn. rewrite He. apply sublist_skip. by rewrite <- Et.
Qed.
Definition sweep_lines : list string := repeat "pvm/msr-window/sweep" 16.
Lemma window_covers : covers sweep_lines id t (testMSRWindow t v).
Proof.
  intros ns g Q (es&->&Hc&Hn) HQ. unfold testMSRWindow. cbv zeta. apply wp_bind. unfold sweep.
  apply (sweep_wp window_msrs (set_case "pvm/msr-window/sweep" t)); [done|].
  intros s t' es' Et Hc' Hs Hn'. cbn [t_case set_case] in Et, Hn'. change (length window_msrs) with 16%nat in Hn'.
  assert (∀ es2 t2, (e_case <$> es2) `sublist_of` sweep_lines → counted t2 (es ++ es2) →
    wp tapM (SetMSR v MSR_PVM_VCPU_STRUCT 0 ;; Ret t2) Q bailed (render_from 0 (es ++ es2))) as Hend.
  { intros es2 t2 Hn2 Hc2. apply wp_bind. eapply wp_quiet; [quiet_tac|done|]. intros _. apply HQ.
    exists (es ++ es2). split; [done|]. split; [done|]. rewrite fmap_app. by apply sublist_app. }
  apply wp_bind. destruct s; [|by apply Hend]. rewrite (Hs eq_refl), app_nil_r in *.
  apply wp_bind. eapply wp_quiet; [quiet_tac|done|]. intros [n x].
  case_match; [apply wp_Nok|apply wp_Ok]; try done; intros t2 _ Hc2; (apply Hend; [|done]); cbn; rewrite Et;
    apply sublist_skip, sublist_nil_l.
Qed.
End Cases.

(** ** The whole program *)
Definition case_names : list string :=
  ["pvm/features-enabled/reset-zero"; "pvm/features-enabled/direct-pf"; "pvm/features-enabled/unsupported-refused";
   "pvm/features-enabled/disable";
   "pvm/vcpu-struct/unaligned"; "pvm/vcpu-struct/valid"; "pvm/vcpu-struct/unbacked-accepted";
   "pvm/vcpu-struct/zero-clears";
   "pvm/event-entry/reject-0"; "pvm/event-entry/reject-1"; "pvm/event-entry/reject-2"] ++ sweep_lines ++
  ["pvm/vcpu-struct/unbacked-run"; "pvm/vcpu-struct/readonly-run"; "pvm/pku-advertised";
   "pvm/invariant-M4-smep-needs-nx"; "pvm/invariant-M4-no-smap"; "pvm/invariant-M5-la57-matches-host";
   "pvm/invariant-host-pkru-is-restrictive"; "pvm/pkru-not-leaked"; "pvm/memslot-churn"].
Ltac next_test l :=
  apply wp_bind; eapply wp_mono; [|by intros ?? H'; apply H'|apply bailed_ended];
  eapply l; [eassumption|]; clear; intros ? ? ?.
Lemma wp_abi_main fuel : wp tapM (main fuel) (λ _ _, False) (ended case_names) [].
Proof.
  unfold main. apply wp_bind. eapply wp_mono; [|by intros ?? H'; apply H'|apply bailed_ended].
  eapply (wp_quiet _ _ _ []); [quiet_tac|done|]. intros [|]; cbn [negb].
  2:{ cbn. split; [done|]. intros _ _. exists [], [skip_line]. auto. }
  apply wp_bind. eapply wp_mono; [|by intros ?? H'; apply H'|apply bailed_ended]. apply (Setup_mute []). intros v.
  assert (so_far [] tap0 []) as H0 by (by exists []).
  next_test features_covers. next_test vcpu_struct_covers. next_test event_covers. next_test window_covers. next_test unpinnable_covers.
  next_test pku_covers. next_test invariants_covers. next_test pkru_covers. next_test churn_covers.
  destruct H as (es&->&Hc&Hn). apply wp_bind. eapply wp_mono; [|by intros ?? H'; apply H'|apply bailed_ended].
  eapply wp_quiet; [quiet_tac|done|]. intros _. apply wp_last. exists es. done.
Qed.

(** C31: Whatever the kernel, the CPU and the other goroutine answer, when the
    ABI test ends by itself its standard output is a TAP stream: numbered
    lines, the cases in the order of the program and each at most once (the
    sweep of the MSR window at most 16 times), then the plan and the verdict
    that count them, with status 0 exactly when no line failed; or the skip
    line alone; or, with status 2, the lines so far and at most one bail-out
    line. *)
Theorem abi_tap fuel tr code :
  runs (main fuel) tr (Exited code) → ended case_names code (stdout tr).
Proof.
  intros H. refine (proj2 (wp_runs tapM _ _ _ _ _ _ (wp_abi_main fuel) H _)).
  generalize ([] : m_state tapM). clear H. induction tr as [|[T o [b|]] tr IH]; intros g; cbn; auto.
Qed.
Lemma abi_tap_witness :
  ended case_names 1 (stdout (drive_with (kernel (λ _, false)) 0 (main 3)).1).
Proof.
  apply (abi_tap 3).
  replace (Exited 1) with (drive_with (kernel (λ _, false)) 0 (main 3)).2 by (vm_compute; reflexivity).
  exact (drive_with_runs (kernel (λ _, false)) 0 (main 3)).
Defined.

(** A CPU whose PKRU component is said to be at an offset near the top of a
    uint32: the sum of offset and size wraps past the check, and the read of
    the buffer panics. *)
Definition wrapping (B : Type) (o : hop B) : option B :=
  match o in hop B return option B with
  | CpuidInsn leaf sub => Some (if (leaf =? 0xd) && (sub =? 9) then [8; 0xfffffffc; 0; 0] else [0x3ff; 0; 0; 0])
  | IoctlPtr s fd req x => Some ((0, 0, match s in shape T return T → T with SSregs => λ s, with_cr4 s X86_CR4_PKE | _ => id end x))
  | KvmRun _ m => Some (0, 0, m)
  | _ => None
  end.
Lemma pkru_offset_wraps :
  ∃ tr, runs (testPKRULeak 1 tap0 (Vm 3 4 5 (Some 7) 4096 0 (Cpuid2 0 []))) tr (Exited 2) ∧ stdout tr = [].
Proof.
  exists (drive wrapping (testPKRULeak 1 tap0 (Vm 3 4 5 (Some 7) 4096 0 (Cpuid2 0 [])))).1.
  split; [|vm_compute; reflexivity].
  exact (drive_runs wrapping (testPKRULeak 1 tap0 (Vm 3 4 5 (Some 7) 4096 0 (Cpuid2 0 [])))).
Qed.
