(* ===== verification/AbiRes.v ===== *)
(** * What the ABI test opens, it closes

    As [SwitcherRes] for the switcher test: the read-only mapping of the
    unpinnable PVCS, the goroutine of the memslot churn and the VM itself are
    given back on every path. *)
From stdpp Require Import gmap.
From Stdlib Require Import Ascii.
From S2P Require Import Prelude GoStrings Bits Abi Guest Prog HostOps HostLogic HostRes AbiTest.

#[local] Open Scope Z_scope.

Section Keeps.
Context (fuel : nat) (m : bool * list string) (v : VM).
Lemma host5Level_keeps : keeps m v host5Level.
Proof. unfold host5Level. keeps_tac. Qed.
Lemma not_yet_keeps : keeps m v not_yet.
Proof. unfold not_yet. keeps_tac. Qed.
Hint Resolve host5Level_keeps not_yet_keeps : res.
Lemma wait_loop_keeps n : keeps m v (wait_loop n).
Proof. induction n as [|n IH]; cbn [wait_loop]; keeps_tac. Qed.
Lemma set_slots_keeps l : keeps m v (set_slots l v).
Proof. induction l as [|[a b] l IH]; cbn [set_slots]; keeps_tac. Qed.
Hint Resolve wait_loop_keeps set_slots_keeps : res.
Lemma churn_loop_keeps n i : keeps m v (churn_loop n i v).
Proof. revert i. induction n as [|n IH]; intros i; cbn [churn_loop]; keeps_tac. Qed.
Lemma enter_loop_keeps n s : keeps m v (enter_loop fuel n s v).
Proof. revert s. induction n as [|n IH]; intros s; cbn [enter_loop]; keeps_tac. Qed.
Lemma run_times_keeps n : keeps m v (run_times fuel n v).
Proof. induction n as [|n IH]; cbn [run_times]; keeps_tac. Qed.
Lemma CPUIDCount_keeps a b : keeps m v (CPUIDCount a b).
Proof. unfold CPUIDCount. keeps_tac. Qed.
Hint Resolve churn_loop_keeps enter_loop_keeps run_times_keeps CPUIDCount_keeps : res.
Lemma hostHasOSPKE_keeps : keeps m v hostHasOSPKE.
Proof. unfold hostHasOSPKE. keeps_tac. Qed.
Lemma hostPKRU_keeps : keeps m v hostPKRU.
Proof. unfold hostPKRU. keeps_tac. Qed.
Lemma cpuid_has_keeps a b c d : keeps m v (cpuid_has v a b c d).
Proof. unfold cpuid_has. keeps_tac. Qed.
Lemma region32_keeps r o : keeps m v (region32 r o).
Proof. unfold region32. keeps_tac. Qed.
Hint Resolve hostHasOSPKE_keeps hostPKRU_keeps cpuid_has_keeps region32_keeps : res.
Lemma sweep_values_keeps vals msr t : keeps m v (sweep_values vals msr t v).
Proof. induction vals as [|x vals IH]; cbn [sweep_values]; keeps_tac. Qed.
Hint Resolve sweep_values_keeps : res.
Lemma each_with_keeps {A S} (l : list A) (st : S) f :
  (∀ st x, keeps m v (f st x)) → keeps m v (each_with l st f).
Proof. intros H. revert st. induction l as [|x l IH]; intros st; cbn [each_with]; [apply keeps_ret|]. by apply keeps_bind. Qed.

Lemma features_keeps t : keeps m v (testFeaturesEnabled t v).
Proof. unfold testFeaturesEnabled. keeps_tac. Qed.
Lemma vcpu_struct_keeps t : keeps m v (testVcpuStruct t v).
Proof. unfold testVcpuStruct. keeps_tac. Qed.
Lemma event_keeps t : keeps m v (testEventEntry t v).
Proof.
  unfold testEventEntry. apply keeps_bind; [keeps_tac|]. intros a. apply each_with_keeps.
  intros t' [i [w x]]. unfold event_case. keeps_tac.
Qed.
Lemma window_keeps t : keeps m v (testMSRWindow t v).
Proof.
  unfold testMSRWindow, sweep. apply keeps_bind; [|intros [s t']; keeps_tac].
  apply each_with_keeps. intros [s t'] x. keeps_tac.
Qed.
Lemma unpinnable_run_keeps what gpa t : keeps m v (runWithUnpinnablePVCS fuel what gpa t v).
Proof. unfold runWithUnpinnablePVCS. keeps_tac. Qed.
Lemma pku_keeps t : keeps m v (testPKUNotAdvertised t v).
Proof. unfold testPKUNotAdvertised. keeps_tac. Qed.
Lemma invariants_keeps t : keeps m v (testInvariants t v).
Proof. unfold testInvariants. keeps_tac. Qed.
Lemma pkru_keeps t : keeps m v (testPKRULeak fuel t v).
Proof. unfold testPKRULeak. keeps_tac. Qed.
End Keeps.
#[export] Hint Resolve unpinnable_run_keeps churn_loop_keeps wait_loop_keeps not_yet_keeps : res.

(** A mapping made for the while: the VM stays usable with it. *)
Lemma live_map m v g a : live m v g → live m v (map_at a g).
Proof. intros [H1 H2 H3 (b&Hb&Hm) H5 H6]. split; try done. exists b. split; [done|]. cbn. set_solver. Qed.
Lemma unpinnable_keeps fuel m v t : keeps m v (testUnpinnablePVCS fuel t v).
Proof.
  unfold testUnpinnablePVCS. cbv zeta. apply keeps_bind; [apply unpinnable_run_keeps|]. intros t1 g Q Hg HQ.
  apply wp_bind, wp_call; [by left|]. intros [ro e] Ha. cbn [m_ans resM res_ans] in Ha. cbn [m_obs resM res_obs].
  destruct (Z.eqb_spec e 0) as [->|He]; cbn [negb]; [|apply (Nok_keeps m v _ _ g); [exact Hg|exact HQ]].
  specialize (Ha eq_refl). pose proof (live_map _ _ _ ro Hg) as Hg'.
  assert (∀ t, wp resM (call (Munmap ro) ;; Ret t) Q died (map_at ro g)) as Hend.
  { intros t'. apply wp_bind, wp_call; [cbn; set_solver|]. intros [] _.
    change (m_obs resM (Munmap ro) tt (map_at ro g)) with (unmap ro (map_at ro g)). rewrite unmap_map by exact Ha. apply HQ. }
  apply wp_bind, (SetMemslot_keeps m v 1 _ _ _ _ (map_at ro g)); [exact Hg'|]. intros r.
  destruct (negb (r =? 0)); apply wp_bind.
  - apply (Nok_keeps m v _ _ (map_at ro g)); [exact Hg'|exact Hend].
  - apply (unpinnable_run_keeps fuel m v _ _ _ (map_at ro g)); [exact Hg'|]. intros t'. apply wp_bind.
    apply (SetMemslot_keeps m v 1 _ _ _ _ (map_at ro g)); [exact Hg'|]. intros _. apply Hend.
Qed.

(** The goroutine is joined on every path. *)
Lemma live_threads_set v g l : live (false, []) v g → live (false, l) v (with_threads l g).
Proof. intros [?????]. by split. Qed.
Lemma churn_keeps v t : keeps (false, []) v (testMemslotChurn t v).
Proof.
  unfold testMemslotChurn. cbv zeta. apply keeps_bind; [keeps_tac|]. intros r. case_match; [keeps_tac|].
  do 3 (apply keeps_bind; [keeps_tac|intros []]). intros g Q Hg HQ.
  assert (r_threads g = []) as Ht by apply Hg.
  apply wp_bind, wp_call; [cbn; rewrite Ht; apply not_elem_of_nil|]. intros [] _.
  cbn [m_obs resM res_obs]. rewrite Ht.
  pose proof (live_threads_set v g ["vcpuThread"] Hg) as Hg'.
  assert (∀ p : host tap, keeps (false, []) v p →
    wp resM (call (Store "churnStop" 1) ;; call (Join "vcpuThread") ;; p) Q died (with_threads ["vcpuThread"] g)) as Hend.
  { intros p Hp. apply wp_bind, wp_call; [exact I|]. intros [] _. apply wp_bind, wp_call; [cbn; left|]. intros [] _.
    match goal with |- wp _ _ _ _ ?s => replace s with g; [by apply Hp|] end.
    destruct g as [F M a l]. cbn in Ht. subst l. reflexivity. }
  apply wp_bind, (wait_loop_keeps _ v _ _ _ Hg'). intros []. apply wp_bind, (not_yet_keeps _ v _ _ Hg'). intros w.
  destruct w; [apply Hend; keeps_tac|]. apply wp_bind, (churn_loop_keeps _ v _ _ _ _ Hg'). intros [i e]. apply Hend. keeps_tac.
Qed.

(** Bailing out is one way to be over_mono. *)
Ltac over_mono := eapply wp_mono; [|by intros ?? H'; apply H'|eassumption].
Ltac next_test l := apply wp_bind; over_mono; eapply l; [eassumption|intros ?].

Section Main.
Context (fuel : nat).
Lemma wp_abi_main_res : wp resM (main fuel) (λ _ _, False) (λ code g, code = 2 ∨ g = idle) idle.
Proof.
  assert (∀ n g, died n g → n = 2 ∨ g = idle) as Hd by (by left).
  unfold main. apply wp_bind. unfold IsPVMHost. apply wp_bind, wp_call; [exact I|]. intros r _. cbn [wp].
  case_match; [cbn; split; [done|]; intros _ _; by right|].
  apply wp_bind. over_mono. apply Setup_wp. intros v g Hr Hh. pose proof (holds_live _ _ _ Hh Hr) as Hl.
  next_test (features_keeps (false, []) v). next_test (vcpu_struct_keeps (false, []) v). next_test (event_keeps (false, []) v).
  next_test (window_keeps (false, []) v). next_test (unpinnable_keeps fuel (false, []) v). next_test (pku_keeps (false, []) v).
  next_test (invariants_keeps (false, []) v). next_test (pkru_keeps fuel (false, []) v). next_test (churn_keeps v).
  apply wp_bind. over_mono. apply Teardown_wp; [exact Hh|]. cbn. split; [done|]. intros _ _. split; [done|].
  intros _ _. by right.
Qed.
End Main.

(** C32: In any run of the ABI test in which the kernel hands out descriptors
    and addresses that are not in use, every call is made on what is open at
    that time, the goroutine is joined once, and when the test ends by itself
    other than by bailing out everything has been given back. *)
Theorem abi_resources fuel tr code :
  runs (main fuel) tr (Exited code) → answered resM tr idle →
  allowed resM tr idle ∧ (code ≠ 2 → observe resM tr idle = idle).
Proof.
  intros H Ha. destruct (wp_runs resM _ _ _ _ _ _ (wp_abi_main_res fuel) H Ha) as [Hal Ho].
  split; [exact Hal|]. by destruct Ho as [->|Ho].
Qed.
(** On a kernel that refuses every MSR: exit 1. *)
Lemma abi_resources_witness :
  let tr := (drive_with (kernel (λ _, true)) 0 (main 3)).1 in
  length tr = 146%nat ∧ allowed resM tr idle ∧ (1 ≠ 2 → observe resM tr idle = idle).
Proof.
  split; [vm_compute; reflexivity|]. apply (abi_resources 3).
  - replace (Exited 1) with (drive_with (kernel (λ _, true)) 0 (main 3)).2 by (vm_compute; reflexivity).
    exact (drive_with_runs (kernel (λ _, true)) 0 (main 3)).
  - vm_compute. repeat match goal with |- _ ∧ _ => split | |- _ → _ => intro end; done.
Defined.
