(* ===== verification/Cpio.v ===== *)
(** * The cpio archive of the initrd

    The newc writer of tools/pvmtest/build.go, against a reader of the format
    that is only a specification: the kernel's unpacking of an initramfs.
    Archives are byte strings; the writer is the bytes written and the next
    inode number. *)
From Stdlib Require Import Ascii.
From S2P Require Import Prelude GoStrings.

#[local] Open Scope Z_scope.

(** ** The writer *)
Record cpioWriter := Cpio { c_w : string; c_ino : Z }.
Definition newCpio : cpioWriter := Cpio "" 1.
Definition nul : ascii := "000"%char.
(** [%08X] *)
Definition fmt_08X (n : Z) : string := pad_left "0"%char 8 (radix true 16 (Z.to_N n)).
Definition write (s : string) (c : cpioWriter) : cpioWriter := Cpio (c_w c +:+ s) (c_ino c).
Definition bump (c : cpioWriter) : cpioWriter := Cpio (c_w c) (c_ino c + 1).
Definition pad (n : Z) (c : cpioWriter) : cpioWriter :=
  let r := n mod 4 in
  if negb (r =? 0) then write (repeat_char nul (Z.to_nat (4 - r))) c else c.
Definition header_fields (mode size ino nlink namesize : Z) : list Z :=
  [ino; mode; 0; 0; nlink; 0; size; 0; 0; 0; 0; namesize; 0].
Definition concat_s (l : list string) : string := foldr (λ a b, a +:+ b) "" l.
Definition headerLinks (name : string) (mode size ino nlink : Z) (c : cpioWriter) : cpioWriter :=
  let namesize := Z.of_nat (slen name) + 1 in
  let c := write ("070701" +:+ concat_s (fmt_08X <$> header_fields mode size ino nlink namesize)) c in
  let c := write (name +:+ str1 nul) c in
  pad (110 + namesize) c.
Definition header (name : string) (mode size : Z) (c : cpioWriter) : cpioWriter :=
  bump (headerLinks name mode size (c_ino c) 1 c).
Definition dir (name : string) (c : cpioWriter) : cpioWriter := header name 0x41ed 0 c.
Definition file (name data : string) (perm : Z) (c : cpioWriter) : cpioWriter :=
  let c := header name (Z.lor 0x8000 perm) (Z.of_nat (slen data)) c in
  pad (Z.of_nat (slen data)) (write data c).
Fixpoint links (names : list string) (data : string) (perm ino nlink : Z) (c : cpioWriter) : cpioWriter :=
  match names with
  | [] => c
  | n :: names =>
      let size := match names with [] => Z.of_nat (slen data) | _ => 0 end in
      let c := headerLinks n (Z.lor 0x8000 perm) size ino nlink c in
      let c := if 0 <? size then pad (Z.of_nat (slen data)) (write data c) else c in
      links names data perm ino nlink c
  end.
Definition hardlinks (names : list string) (data : string) (perm : Z) (c : cpioWriter) : cpioWriter :=
  let ino := c_ino c in
  links names data perm ino (Z.of_nat (length names)) (bump c).
Definition close (c : cpioWriter) : cpioWriter := header "TRAILER!!!" 0 0 c.

(** What [BuildInitrd] writes: five directories and the init under two names. *)
Definition initrd_dirs : list string := ["dev"; "proc"; "run"; "sys"; "tmp"].
Definition initrd (raw : string) : string :=
  let c := foldl (λ c d, dir d c) newCpio initrd_dirs in
  c_w (close (hardlinks ["init"; "pvminit"] raw 0x1ed c)).

(** ** The format *)
Record member := Member { m_ino : Z; m_mode : Z; m_nlink : Z; m_name : string; m_body : string }.
Definition aligned (n : Z) : nat := Z.to_nat ((- n) mod 4).
Fixpoint read_fields (n : nat) (s : string) : option (list Z * string) :=
  match n with
  | O => Some ([], s)
  | S n =>
      x ← unradix 16 (stake 8 s);
      '(l, r) ← read_fields n (sdrop 8 s);
      Some (Z.of_N x :: l, r)
  end.
(** One member, and what follows it. *)
Definition read_member (s : string) : option (member * string) :=
  if negb (seqb (stake 6 s) "070701") then None else
  '(l, r) ← read_fields 13 (sdrop 6 s);
  match l with
  | [ino; mode; _; _; nlink; _; size; _; _; _; _; namesize; _] =>
      let name := stake (Z.to_nat (namesize - 1)) r in
      if negb (seqb (stake 1 (sdrop (Z.to_nat (namesize - 1)) r)) (str1 nul)) then None else
      let r := sdrop (Z.to_nat namesize + aligned (110 + namesize)) r in
      let body := stake (Z.to_nat size) r in
      if negb (Z.of_nat (slen body) =? size) then None else
      Some (Member ino mode nlink name body, sdrop (Z.to_nat size + aligned size) r)
  | _ => None
  end.
(** Up to the trailer. *)
Fixpoint read_archive (fuel : nat) (s : string) : option (list member) :=
  match fuel with
  | O => None
  | S fuel =>
      '(m, r) ← read_member s;
      if seqb (m_name m) "TRAILER!!!" then Some [] else
      l ← read_archive fuel r;
      Some (m :: l)
  end.

(** ** Numbers *)
Lemma radix_go_len fuel u b n acc k :
  (2 <= b)%N → (n < b ^ N.of_nat k)%N → (0 < k)%nat →
  (slen (radix_go fuel u b n acc) ≤ k + slen acc)%nat.
Proof.
  intros Hb. revert n acc k. induction fuel as [|fuel IH]; intros n acc k Hn Hk; cbn [radix_go]; [lia|].
  destruct (N.eqb_spec (n / b) 0) as [E|E]; [rewrite slen_cons; lia|].
  destruct k as [|[|k]]; [lia| |].
  - exfalso. apply E. apply N.div_small. by rewrite N.pow_1_r in Hn.
  - etrans; [apply (IH _ _ (S k)); [|lia]|rewrite slen_cons; lia].
    apply N.Div0.div_lt_upper_bound. by rewrite Nat2N.inj_succ, N.pow_succ_r' in Hn.
Qed.
Lemma unradix_go_zeros n s : unradix_go 16 0 (repeat_char "0" n +:+ s) = unradix_go 16 0 s.
Proof. induction n as [|n IH]; [done|]. exact IH. Qed.
Lemma fmt_08X_len n : 0 <= n < 2 ^ 32 → slen (fmt_08X n) = 8%nat.
Proof.
  intros Hn. unfold fmt_08X. rewrite slen_pad_left. unfold radix.
  pose proof (radix_go_len (S (N.to_nat (N.size (Z.to_N n)))) true 16 (Z.to_N n) "" 8 ltac:(done)) as H.
  change (slen "") with 0%nat in H. rewrite Nat.add_0_r in H. rewrite Nat.max_l; [done|]. apply H; [|lia].
  change (16 ^ N.of_nat 8)%N with (Z.to_N (2 ^ 32)). lia.
Qed.
Lemma fmt_08X_read n : 0 <= n → unradix 16 (fmt_08X n) = Some (Z.to_N n).
Proof.
  intros Hn. pose proof (unradix_radix true 16 (Z.to_N n) ltac:(done)) as H. unfold unradix in *.
  destruct (seqb_spec (radix true 16 (Z.to_N n)) "") as [E|E]; [done|].
  destruct (seqb_spec (fmt_08X n) "") as [E'|E'].
  - exfalso. unfold fmt_08X, pad_left in E'. apply E. destruct (repeat_char _ _); [exact E'|done].
  - unfold fmt_08X, pad_left. by rewrite unradix_go_zeros.
Qed.
Lemma read_fields_written l r :
  Forall (λ n, 0 <= n < 2 ^ 32) l → read_fields (length l) (concat_s (fmt_08X <$> l) +:+ r) = Some (l, r).
Proof.
  induction 1 as [|n l Hn _ IH]; [done|]. cbn [fmap list_fmap concat_s foldr length read_fields].
  fold (concat_s (fmt_08X <$> l)). rewrite app_assoc_s. rewrite <- (fmt_08X_len n Hn), stake_app, sdrop_app.
  rewrite fmt_08X_read by lia. cbn [mbind option_bind]. rewrite IH. cbn. rewrite Z2N.id by lia. done.
Qed.

(** ** Members *)
Definition zeros (n : nat) : string := repeat_char nul n.
Definition member_bytes (m : member) : string :=
  let namesize := Z.of_nat (slen (m_name m)) + 1 in
  let size := Z.of_nat (slen (m_body m)) in
  "070701" +:+ concat_s (fmt_08X <$> header_fields (m_mode m) size (m_ino m) (m_nlink m) namesize) +:+
  (m_name m +:+ str1 nul) +:+ zeros (aligned (110 + namesize)) +:+ m_body m +:+ zeros (aligned size).
Record fits_newc (m : member) : Prop := {
  fn_ino : 0 <= m_ino m < 2 ^ 32; fn_mode : 0 <= m_mode m < 2 ^ 32; fn_nlink : 0 <= m_nlink m < 2 ^ 32;
  fn_name : Z.of_nat (slen (m_name m)) + 1 < 2 ^ 32; fn_body : Z.of_nat (slen (m_body m)) < 2 ^ 32 }.

Lemma sdrop_app_plus n a b : sdrop (slen a + n) (a +:+ b) = sdrop n b.
Proof.
  unfold sdrop, slen. rewrite bytes_app, drop_app. f_equal.
  rewrite drop_ge by lia. by replace (length (bytes a) + n - length (bytes a))%nat with n by lia.
Qed.
Lemma slen_zeros n : slen (zeros n) = n.
Proof. apply slen_repeat. Qed.
Lemma read_member_bytes m r : fits_newc m → read_member (member_bytes m +:+ r) = Some (m, r).
Proof.
  intros [Hi Hm Hl Hn Hb]. unfold member_bytes, read_member. cbv zeta.
  set (name := m_name m) in *. set (body := m_body m) in *.
  set (ns := Z.of_nat (slen name) + 1) in *. set (size := Z.of_nat (slen body)) in *.
  rewrite !app_assoc_s. change (stake 6 _) with "070701". rewrite seqb_refl. cbn [negb].
  set (l := header_fields _ _ _ _ _).
  match goal with |- context [sdrop 6 ?s] => change (sdrop 6 s) with (sdrop (slen "070701") s) end. rewrite sdrop_app.
  assert (Forall (λ n, 0 <= n < 2 ^ 32) l) as Hall by (repeat constructor; lia).
  change 13%nat with (length l). rewrite (read_fields_written l _ Hall). cbn [mbind option_bind l header_fields].
  replace (Z.to_nat (ns - 1)) with (slen name) by lia. rewrite stake_app, sdrop_app.
  change (stake 1 (str1 nul +:+ ?x)) with (str1 nul). rewrite seqb_refl. cbn [negb].
  replace (Z.to_nat ns + aligned (110 + ns))%nat with (slen name + (slen (str1 nul) + (slen (zeros (aligned (110 + ns))) + 0)))%nat
    by (rewrite slen_zeros; change (slen (str1 nul)) with 1%nat; lia).
  rewrite !sdrop_app_plus. change (sdrop 0 ?x) with (unbytes (bytes x)). rewrite unbytes_bytes.
  replace (Z.to_nat size) with (slen body) by lia. rewrite stake_app. fold size. rewrite Z.eqb_refl. cbn [negb].
  replace (slen body + aligned size)%nat with (slen body + (slen (zeros (aligned size)) + 0))%nat
    by (rewrite slen_zeros; lia).
  rewrite !sdrop_app_plus. change (sdrop 0 r) with (unbytes (bytes r)). rewrite unbytes_bytes. by destruct m.
Qed.
Definition trailer (ino : Z) : member := Member ino 0 1 "TRAILER!!!" "".
Lemma read_archive_bytes ms ino fuel :
  Forall fits_newc ms → Forall (λ m, m_name m ≠ "TRAILER!!!") ms → 0 <= ino < 2 ^ 32 → (length ms < fuel)%nat →
  read_archive fuel (concat_s (member_bytes <$> ms) +:+ member_bytes (trailer ino)) = Some ms.
Proof.
  intros Hf Hn Hi. revert fuel. induction Hf as [|m ms Hm Hf IH]; intros [|fuel] Hl; cbn in Hl; try lia.
  - cbn [fmap list_fmap concat_s foldr]. rewrite app_nil_l_s. cbn [read_archive].
    rewrite <- (app_nil_r_s (member_bytes (trailer ino))), read_member_bytes by (split; cbn; lia). done.
  - apply Forall_cons in Hn as [Hm' Hn]. cbn [fmap list_fmap concat_s foldr read_archive].
    fold (concat_s (member_bytes <$> ms)). rewrite app_assoc_s, read_member_bytes by done. cbn [mbind option_bind].
    rewrite (proj2 (seqb_false _ _)) by done. rewrite IH; [done|done|lia].
Qed.

(** ** What the operations write *)
Definition writes (c : cpioWriter) (ms : list member) (ino : Z) (c' : cpioWriter) : Prop :=
  c_w c' = c_w c +:+ concat_s (member_bytes <$> ms) ∧ c_ino c' = ino.
Lemma pad_aligned n c : c_w (pad n c) = c_w c +:+ zeros (aligned n) ∧ c_ino (pad n c) = c_ino c.
Proof.
  unfold pad, aligned, zeros. destruct (Z.eqb_spec (n mod 4) 0) as [E|E]; cbn [negb].
  - rewrite Z.mod_opp_l_z by done. by rewrite app_nil_r_s.
  - rewrite Z.mod_opp_l_nz by done. done.
Qed.
Lemma headerLinks_writes name mode size ino nlink c :
  c_w (headerLinks name mode size ino nlink c) = c_w c +:+
    "070701" +:+ concat_s (fmt_08X <$> header_fields mode size ino nlink (Z.of_nat (slen name) + 1)) +:+
    (name +:+ str1 nul) +:+ zeros (aligned (110 + (Z.of_nat (slen name) + 1)))
  ∧ c_ino (headerLinks name mode size ino nlink c) = c_ino c.
Proof.
  unfold headerLinks. cbv zeta. destruct (pad_aligned (110 + (Z.of_nat (slen name) + 1))
    (write (name +:+ str1 nul) (write ("070701" +:+ concat_s (fmt_08X <$> header_fields mode size ino nlink (Z.of_nat (slen name) + 1))) c)))
    as [-> ->]. cbn [write c_w c_ino]. split; [|done]. by rewrite !app_assoc_s.
Qed.
Lemma header_writes name mode c :
  writes c [Member (c_ino c) mode 1 name ""] (c_ino c + 1) (header name mode 0 c).
Proof.
  unfold header, bump, writes. cbn [c_w c_ino]. destruct (headerLinks_writes name mode 0 (c_ino c) 1 c) as [-> ->].
  split; [|done]. f_equal. cbn [fmap list_fmap concat_s foldr]. unfold member_bytes. cbn [m_name m_body m_mode m_ino m_nlink].
  change (zeros (aligned (Z.of_nat (slen "")))) with "". change (Z.of_nat (slen "")) with 0.
  by rewrite !app_nil_r_s, !app_assoc_s.
Qed.
Lemma file_writes name data perm c :
  writes c [Member (c_ino c) (Z.lor 0x8000 perm) 1 name data] (c_ino c + 1) (file name data perm c).
Proof.
  unfold file, header, writes. cbv zeta.
  destruct (pad_aligned (Z.of_nat (slen data)) (write data
    (bump (headerLinks name (Z.lor 0x8000 perm) (Z.of_nat (slen data)) (c_ino c) 1 c)))) as [-> ->].
  cbn [write bump c_w c_ino].
  destruct (headerLinks_writes name (Z.lor 0x8000 perm) (Z.of_nat (slen data)) (c_ino c) 1 c) as [-> ->].
  split; [|done]. cbn [fmap list_fmap concat_s foldr]. unfold member_bytes. cbn [m_name m_body m_mode m_ino m_nlink].
  by rewrite !app_nil_r_s, !app_assoc_s.
Qed.
(** The names of one inode: the data is in the last. *)
Definition link_members (names : list string) (data : string) (perm ino nlink : Z) : list member :=
  imap (λ i n, Member ino (Z.lor 0x8000 perm) nlink n
    (if bool_decide (S i = length names) then data else "")) names.
Lemma link_members_cons n names data perm ino nlink :
  link_members (n :: names) data perm ino nlink =
  Member ino (Z.lor 0x8000 perm) nlink n (match names with [] => data | _ => "" end)
    :: link_members names data perm ino nlink.
Proof.
  unfold link_members. cbn [imap length]. f_equal.
  - f_equal. by destruct names.
  - apply imap_ext. intros i x _. cbn. f_equal. by rewrite (bool_decide_ext (S (S i) = S (length names)) (S i = length names)) by lia.
Qed.
Lemma links_writes names data perm ino nlink c :
  writes c (link_members names data perm ino nlink) (c_ino c) (links names data perm ino nlink c).
Proof.
  revert c. induction names as [|n names IH]; intros c; cbn [links]; [split; [by rewrite app_nil_r_s|done]|].
  cbv zeta. rewrite link_members_cons.
  set (body := match names with [] => data | _ => "" end).
  set (size := match names with [] => Z.of_nat (slen data) | _ => 0 end).
  assert (size = Z.of_nat (slen body)) as Es by (by destruct names).
  set (c1 := headerLinks _ _ _ _ _ _).
  assert (writes c [Member ino (Z.lor 0x8000 perm) nlink n body] (c_ino c)
    (if 0 <? size then pad (Z.of_nat (slen data)) (write data c1) else c1)) as [H1 H2].
  { destruct (headerLinks_writes n (Z.lor 0x8000 perm) size ino nlink c) as [Hw Hi]. fold c1 in Hw, Hi.
    unfold writes. cbn [fmap list_fmap concat_s foldr]. unfold member_bytes. cbn [m_name m_body m_mode m_ino m_nlink].
    rewrite <- Es. destruct (Z.ltb_spec 0 size) as [Hs|Hs].
    - destruct (pad_aligned (Z.of_nat (slen data)) (write data c1)) as [-> ->]. cbn [write c_w c_ino]. rewrite Hw, Hi.
      assert (body = data ∧ size = Z.of_nat (slen data)) as [-> ->] by (destruct names; [done|]; cbn in Hs; lia).
      split; [|done]. by rewrite !app_nil_r_s, !app_assoc_s.
    - rewrite Hw, Hi. split; [|done]. assert (body = "") as Hb by (destruct body; [done|]; rewrite slen_cons in Es; lia).
      rewrite Hb in *. rewrite Es. cbn [slen]. change (zeros (aligned (Z.of_nat (slen "")))) with "". by rewrite !app_nil_r_s, !app_assoc_s. }
  destruct (IH (if 0 <? size then pad (Z.of_nat (slen data)) (write data c1) else c1)) as [H3 H4].
  split; [|by rewrite H4]. rewrite H3, H1. cbn [fmap list_fmap concat_s foldr]. by rewrite app_nil_r_s, !app_assoc_s.
Qed.

(** ** A sequence of operations *)
Inductive cop := CDir (name : string) | CFile (name data : string) (perm : Z)
  | CLinks (names : list string) (data : string) (perm : Z).
Definition run_op (c : cpioWriter) (o : cop) : cpioWriter :=
  match o with
  | CDir n => dir n c
  | CFile n d p => file n d p c
  | CLinks ns d p => hardlinks ns d p c
  end.
(** What it stands for, at the next inode number. *)
Definition op_members (ino : Z) (o : cop) : list member :=
  match o with
  | CDir n => [Member ino 0x41ed 1 n ""]
  | CFile n d p => [Member ino (Z.lor 0x8000 p) 1 n d]
  | CLinks ns d p => link_members ns d p ino (Z.of_nat (length ns))
  end.
Fixpoint all_members (ino : Z) (l : list cop) : list member :=
  match l with [] => [] | o :: l => op_members ino o ++ all_members (ino + 1) l end.
Lemma concat_s_app a b : concat_s (a ++ b) = concat_s a +:+ concat_s b.
Proof.
  induction a as [|x a IH]; [done|]. unfold concat_s in *. cbn [app foldr]. by rewrite IH, app_assoc_s.
Qed.
Lemma run_op_writes c o : writes c (op_members (c_ino c) o) (c_ino c + 1) (run_op c o).
Proof.
  destruct o as [n|n d p|ns d p]; cbn [run_op op_members]; [apply header_writes|apply file_writes|].
  destruct (links_writes ns d p (c_ino c) (Z.of_nat (length ns)) (bump c)) as [H1 H2]. by split.
Qed.
Lemma run_ops_writes l c :
  writes c (all_members (c_ino c) l) (c_ino c + Z.of_nat (length l)) (foldl run_op c l).
Proof.
  revert c. induction l as [|o l IH]; intros c; cbn [foldl all_members length].
  { split; [by rewrite app_nil_r_s|lia]. }
  destruct (run_op_writes c o) as [H1 H2]. destruct (IH (run_op c o)) as [H3 H4]. rewrite H2 in *.
  split; [|lia]. by rewrite H3, H1, fmap_app, concat_s_app, app_assoc_s.
Qed.

(** C39: The archive written by any sequence of directories, files and groups
    of hard links and closed is read back member by member: each with its
    inode, mode, link count, name and data, the links of a group sharing one
    inode with the data in the last; as long as every number fits its eight
    hexadecimal digits and no member has the trailer's name. *)
Theorem cpio_reads_back l :
  let ms := all_members 1 l in
  Forall fits_newc ms → Forall (λ m, m_name m ≠ "TRAILER!!!") ms → 1 + Z.of_nat (length l) < 2 ^ 32 →
  read_archive (S (length ms)) (c_w (close (foldl run_op newCpio l))) = Some ms.
Proof.
  intros ms Hf Hn Hl. unfold close.
  destruct (run_ops_writes l newCpio) as [H1 H2]. destruct (header_writes "TRAILER!!!" 0 (foldl run_op newCpio l)) as [H3 _].
  rewrite H3, H1, H2. cbn [c_w c_ino newCpio]. rewrite app_nil_l_s. cbn [fmap list_fmap concat_s foldr].
  rewrite app_nil_r_s. apply read_archive_bytes; [done|done|cbn; lia|lia].
Qed.
(** The archive of the initrd. *)
Definition initrd_ops (raw : string) : list cop := (CDir <$> initrd_dirs) ++ [CLinks ["init"; "pvminit"] raw 0x1ed].
Lemma cpio_reads_back_witness :
  initrd "program" = c_w (close (foldl run_op newCpio (initrd_ops "program"))) ∧
  read_archive 8 (initrd "program") =
    Some [ Member 1 0x41ed 1 "dev" ""; Member 2 0x41ed 1 "proc" ""; Member 3 0x41ed 1 "run" "";
           Member 4 0x41ed 1 "sys" ""; Member 5 0x41ed 1 "tmp" "";
           Member 6 0x81ed 2 "init" ""; Member 6 0x81ed 2 "pvminit" "program" ].
Proof.
  split; [reflexivity|]. apply (cpio_reads_back (initrd_ops "program")).
  - cbn. repeat apply Forall_cons_2; try apply Forall_nil_2; constructor; by vm_compute.
  - cbn. by repeat apply Forall_cons_2.
  - cbn. lia.
Defined.
