(* ===== verification/Report.v ===== *)
(** * tools/pvmtest/report.go and compare.go: matrices, comparisons and baselines

    Measured values are IEEE doubles ([Float64]).  Files are texts; the errors
    of opening one and the machine's /proc files are arguments.  What
    [strconv.ParseFloat] returns, its error dropped, is the parameter
    [ParseFloat]; [sort.Float64s], which does not say how it orders the two
    zeros, is the parameter [Float64s], with [float_sort] as its contract. *)
From Stdlib Require Import Ascii SpecFloat.
From S2P Require Import Prelude GoStrings Regexp Spec ParseLog Run Float64.

(** ** Samples *)
Record sample := Sample {
  sm_metric : string; sm_vendor : string; sm_side : string; sm_unit : string; sm_cpus : Z; sm_value : spec_float
}.
Definition collect (statuses : list Status) : list sample :=
  statuses ≫= λ s,
    if negb (seqb (Verdict s) "ok") then [] else
    (λ m, Sample (m_Name m) (Vendor (s_Boot s)) (Side (s_Boot s)) (Unit_ m) (CPUs (s_Boot s)) (Value m))
    <$> Metrics (s_Outcome s).

(** A Go map from keys to the values appended under them. *)
Definition append_to {K V} `{Countable K} (k : K) (v : V) (m : gmap K (list V)) : gmap K (list V) :=
  <[k := default [] (m !! k) ++ [v]]> m.
Definition group_by {K} `{Countable K} (key : sample → K) (l : list sample) : gmap K (list spec_float) :=
  foldl (λ m s, append_to (key s) (sm_value s) m) ∅ l.

Definition minmax (v : list spec_float) : spec_float * spec_float :=
  foldl (λ '(lo, hi) x, (Min lo x, Max hi x)) (S754_infinity false, S754_infinity true) v.

(** The key of a matrix row: metric, vendor and CPUs; of an ab row: metric and
    CPUs. *)
Abbreviation mkey := (string * string * Z)%type.
Abbreviation akey := (string * Z)%type.
Definition matrix_key (s : sample) : mkey := (sm_metric s, sm_vendor s, sm_cpus s).
Definition ab_key (s : sample) : akey := (sm_metric s, sm_cpus s).
Definition matrix_less (a b : mkey) : bool :=
  let '(am, av, ac) := a in let '(bm, bv, bc) := b in
  if negb (seqb am bm) then str_less am bm
  else if negb (ac =? bc)%Z then (ac <? bc)%Z
  else str_less av bv.
Definition ab_less (a b : akey) : bool :=
  let '(am, ac) := a in let '(bm, bc) := b in
  if negb (seqb am bm) then str_less am bm else (ac <? bc)%Z.
Definition keys_of {K V} `{Countable K} (m : gmap K V) : list K := (map_to_list m).*1.
Definition units_of (l : list sample) : gmap mkey string :=
  foldl (λ m s, <[matrix_key s := sm_unit s]> m) ∅ l.

(** Cells of a table line. *)
Definition cells (l : list string) : string := join tab l.

Section Report.
Context (Float64s : list spec_float → list spec_float) (ParseFloat : string → spec_float).

Definition median (v : list spec_float) : spec_float :=
  let s := Float64s v in
  let n := length s in
  if decide (n = 0) then S754_nan else
  if Nat.odd n then nth (n / 2) s S754_nan
  else fdiv (fadd (nth (n / 2 - 1) s S754_nan) (nth (n / 2) s S754_nan)) (float64 2).

(** ** The matrix *)
Definition matrix_line (k : mkey) (v : list spec_float) (unit : string) : string :=
  let '(lo, hi) := minmax v in
  cells [k.1.1; itoa k.2; k.1.2; fmt_6g (median v); fmt_6g lo; fmt_6g hi; itoa (Z.of_nat (length v)); unit].
Definition matrix_head (name kernel : string) (reps : Z) : list string :=
  ["# pvm-testbed perf matrix"; "# env" +:+ tab +:+ name; "# kernel" +:+ tab +:+ kernel;
   "# reps" +:+ tab +:+ itoa reps;
   cells ["metric"; "cpus"; "vendor"; "median"; "min"; "max"; "n"; "unit"]].
Definition WriteMatrix (name kernel : string) (reps : Z) (statuses : list Status) : string :=
  let l := collect statuses in
  let vals := group_by matrix_key l in
  let units := units_of l in
  let keys := sort_stable matrix_less (keys_of vals) in
  unlines (matrix_head name kernel reps ++
    ((λ k, matrix_line k (default [] (vals !! k)) (default "" (units !! k))) <$> keys)).

(** ** Two sides *)
Definition ab_disjoint (a b : list spec_float) : bool :=
  let '(alo, ahi) := minmax a in
  let '(blo, bhi) := minmax b in
  flt ahi blo || flt bhi alo.
Definition ab_line (k : akey) (a b : list spec_float) : string :=
  let ma := median a in let mb := median b in
  let '(alo, ahi) := minmax a in
  let '(blo, bhi) := minmax b in
  cells [k.1; itoa k.2; fmt_6g ma; fmt_6g mb;
         fmt_plus_f 1 (fdiv (fmul (float64 100) (fsub mb ma)) ma) +:+ "%"; fmt_2f (fdiv mb ma) +:+ "x";
         itoa (Z.of_nat (length a)); itoa (Z.of_nat (length b));
         fmt_6g alo +:+ "-" +:+ fmt_6g ahi; fmt_6g blo +:+ "-" +:+ fmt_6g bhi;
         if ab_disjoint a b then "yes" else "no"].
Definition on_side (a : bool) (l : list sample) : list sample :=
  filter (λ s, seqb (sm_side s) "a" = a) l.
Definition WriteAB (statuses : list Status) : string :=
  let l := collect statuses in
  let a := group_by ab_key (on_side true l) in
  let b := group_by ab_key (on_side false l) in
  let keys := sort_stable ab_less (keys_of a) in
  unlines (cells ["metric"; "cpus"; "A"; "B"; "delta"; "B/A"; "nA"; "nB"; "A_range"; "B_range"; "disjoint"] ::
    (keys ≫= λ k,
       let bk := default [] (b !! k) in
       if decide (length bk = 0) then [] else [ab_line k (default [] (a !! k)) bk])).

(** ** Reading a matrix *)
Record matrixRow := Row {
  r_median : spec_float; r_min : spec_float; r_max : spec_float; r_n : Z; r_unit : string
}.
Definition read_row (rows : gmap mkey matrixRow) (line : string) : gmap mkey matrixRow :=
  match split ch_tab line with
  | c0 :: c1 :: c2 :: c3 :: c4 :: c5 :: c6 :: c7 :: _ =>
      if has_prefix c0 "#" || seqb c0 "metric" then rows else
      <[(c0, c2, atoi_lossy c1) := Row (ParseFloat c3) (ParseFloat c4) (ParseFloat c5) (atoi_lossy c6) c7]> rows
  | _ => rows
  end.
(** [inl] is the error of opening the file or of the scanner. *)
Definition readMatrix (file : string + string) : string + gmap mkey matrixRow :=
  match file with
  | inl e => inl e
  | inr text =>
      let '(lines, ok) := scan_lines max_token text in
      let rows := foldl read_row ∅ lines in
      if ok then inr rows else inl "bufio.Scanner: token too long"
  end.

(** ** Comparing *)
Definition timing (k : mkey) (r : matrixRow) : bool :=
  seqb k.1.2 "pvm" && (seqb (r_unit r) "ns" || seqb (r_unit r) "us" || seqb (r_unit r) "s").
Definition hundred : spec_float := float64 100.
(** By how many percent [p] is worse than [b]. *)
Definition worse (p b : matrixRow) : spec_float :=
  fmul (fdiv (fsub (r_median p) (r_median b)) (r_median b)) hundred.
Definition regression (threshold : spec_float) (p b : matrixRow) : bool :=
  flt fzero (r_median b) && flt threshold (worse p b) && flt (r_max b) (r_median p).
Definition delta_cell (threshold : spec_float) (p : matrixRow) (b : option matrixRow) : string :=
  match b with
  | Some b =>
      if flt fzero (r_median b) then
        let d := worse p b in
        fmt_plus_f 1 d +:+ "%" +:+
        (if flt threshold d && flt (r_max b) (r_median p) then "  REGRESSION"
         else if flt threshold d then "  (inside baseline spread)" else "")
      else "-"
  | None => "-"
  end.
Definition compare_cols (m c p s k r d : string) : string :=
  pad_right_to 42 m +:+ " " +:+ pad_left " " 5 c +:+ " " +:+ pad_left " " 12 p +:+ " " +:+ pad_left " " 7 s +:+
  " " +:+ pad_left " " 12 k +:+ " " +:+ pad_left " " 8 r +:+ " " +:+ d.
Definition compare_line (threshold : spec_float) (now was : gmap mkey matrixRow) (k : mkey) (p : matrixRow) : string :=
  let '(ratio, kvmS) :=
    match now !! (k.1.1, "intel", k.2) with
    | Some kvm =>
        if flt fzero (r_median kvm)
        then (fmt_2f (fdiv (r_median p) (r_median kvm)) +:+ "x", fmt_f 1 (r_median kvm)) else ("-", "-")
    | None => ("-", "-")
    end in
  let spread :=
    if flt fzero (r_median p)
    then fmt_f 0 (fmul (fdiv (fsub (r_max p) (r_min p)) (r_median p)) hundred) +:+ "%" else "-" in
  compare_cols k.1.1 (itoa k.2) (fmt_f 1 (r_median p)) spread kvmS ratio (delta_cell threshold p (was !! k)).
(** [sort.Slice] on the keys of PVM's timings. *)
Definition pvm_less (a b : mkey) : bool := ab_less (a.1.1, a.2) (b.1.1, b.2).
Definition pvm_timings (now : gmap mkey matrixRow) : list mkey :=
  sort_stable pvm_less (filter (λ kr, timing kr.1 kr.2 = true) (map_to_list now)).*1.

(** The loop over the keys: what it printed and whether something regressed. *)
Definition compare_key (threshold : spec_float) (now was : gmap mkey matrixRow)
    (acc : list string * bool) (k : mkey) : list string * bool :=
  match now !! k with
  | None => acc
  | Some p =>
      let '(out, regressed) := acc in
      (out ++ [compare_line threshold now was k p],
       match was !! k with
       | Some b => if regression threshold p b then true else regressed
       | None => regressed
       end)
  end.
(** [baseline] is the file's name and [base] what opening it gives. *)
Definition CompareMatrix (results : string + string) (baseline : string) (base : string + string)
    (threshold : spec_float) : string * bool * option string :=
  match readMatrix results with
  | inl e => ("", false, Some e)
  | inr now =>
      let '(note, was) :=
        if seqb baseline "" then ([], ∅) else
        match readMatrix base with
        | inl _ => (["no baseline at " +:+ baseline +:+ ": make perf-baseline records this run as one"], ∅)
        | inr was => ([], was)
        end in
      let head := compare_cols "metric" "cpus" "PVM" "spread" "KVM" "PVM/KVM" "vs baseline" in
      let '(out, regressed) :=
        foldl (compare_key threshold now was) (note ++ [head], false) (pvm_timings now) in
      (unlines out, regressed, None)
  end.
End Report.

(** ** The name of a machine's baseline *)
Definition modelRe : re := must_compile "[^A-Za-z0-9]+".
Lemma report_compile_ok : is_Some (compile "[^A-Za-z0-9]+").
Proof. vm_compute. eauto. Qed.
Definition model_name (line : string) : option string :=
  match cut line ":" with
  | Some (k, v) => if seqb (trim_space k) "model name" then Some (trim_space v) else None
  | None => None
  end.
Definition first_some {A B} (f : A → option B) (l : list A) : option B :=
  foldr (λ x r, match f x with Some y => Some y | None => r end) None l.
(** [rel] is /proc/sys/kernel/osrelease, [cpuinfo] /proc/cpuinfo. *)
Definition envID (rel : string) (cpuinfo : option string) : string :=
  let model :=
    match cpuinfo with
    | Some t => default "" (first_some model_name (scan_lines max_token t).1)
    | None => ""
    end in
  let model := replace_all modelRe "-" model in
  let model := trim_right (in_set "-") model in
  let model := if 40 <? slen model then stake 40 model else model in
  trim_space rel +:+ "__" +:+ model.

(** ** A matrix item of a run *)
Definition atoiDef (s : string) (def : Z) : Z := default def (atoi s).
Section MatrixItem.
Context (Float64s : list spec_float → list spec_float) (ParseFloat : string → spec_float).
(** The testbed's directory, [envID] of the machine, [gitDescribe] of the
    kernel and what opening a file gives. *)
Context (tb env kernel : string) (Open : string → string + string).
Definition item_baseline (it : Item) : string :=
  let b := Get it "baseline" "auto" in
  if seqb b "auto" then path_join (path_join tb "baselines") (env +:+ ".tsv") else if seqb b "none" then "" else b.
(** What [cmdRun] does with the statuses of a matrix item: write the matrix,
    read it back from the file and compare it. *)
Definition matrix_item (it : Item) (statuses : list Status) : string * bool * option string :=
  let text := WriteMatrix Float64s env kernel (atoiDef (Get it "reps" "1") 1) statuses in
  let baseline := item_baseline it in
  CompareMatrix ParseFloat (inr text) baseline (Open baseline) (ParseFloat (Get it "threshold" "15")).
End MatrixItem.

(** ** A table for the terminal *)
Definition widen (width : gmap nat nat) (cols : list string) : gmap nat nat :=
  foldl (λ w '(i, c), if default 0 (w !! i) <? slen c then <[i := slen c]> w else w) width (imap pair cols).
Definition tsv_row (width : gmap nat nat) (cols : list string) : string :=
  foldr String.append "" (imap (λ i c, pad_right_to (default 0 (width !! i)) c +:+ "  ") cols).
Definition printTSV (raw : option string) : string :=
  match raw with
  | None => ""
  | Some raw =>
      let lines := filter (λ l, has_prefix l "#" = false) (split ch_nl (trim_right (ceq ch_nl) raw)) in
      let rows := split ch_tab <$> lines in
      unlines (tsv_row (foldl widen ∅ rows) <$> rows)
  end.
