(* ===== verification/ReportRuns.v ===== *)
(** * What the reports say

    The medians, the two-sided table, the matrix read back and the verdict of a
    comparison, for the definitions of [Report]. *)
From Stdlib Require Import Ascii SpecFloat.
From S2P Require Import Prelude GoStrings Regexp Spec ParseLog Run Float64 Report.

(** ** Grouping *)
Definition values {K} `{EqDecision K} (key : sample → K) (l : list sample) (k : K) : list spec_float :=
  sm_value <$> filter (λ s, key s = k) l.
Lemma values_cons {K} `{EqDecision K} (key : sample → K) s l k :
  values key (s :: l) k = (if decide (key s = k) then [sm_value s] else []) ++ values key l k.
Proof. unfold values. rewrite filter_cons. by case_decide. Qed.
Lemma group_by_from {K} `{Countable K} (key : sample → K) l m k :
  foldl (λ m s, append_to (key s) (sm_value s) m) m l !! k =
    match values key l k with [] => m !! k | v => Some (default [] (m !! k) ++ v) end.
Proof.
  revert m. induction l as [|s l IH]; intros m; [done|]. cbn [foldl]. rewrite IH, values_cons. unfold append_to.
  destruct (decide (key s = k)) as [<-|Hk].
  - rewrite lookup_insert_eq. cbn [app default from_option]. destruct (values key l (key s)); [done|].
    cbn. by rewrite <- (assoc_L (++)).
  - by rewrite lookup_insert_ne by done.
Qed.
Lemma group_by_lookup {K} `{Countable K} (key : sample → K) l k :
  group_by key l !! k = match values key l k with [] => None | v => Some v end.
Proof. unfold group_by. rewrite group_by_from, lookup_empty. by destruct (values key l k). Qed.
Lemma group_by_default {K} `{Countable K} (key : sample → K) l k :
  default [] (group_by key l !! k) = values key l k.
Proof. rewrite group_by_lookup. by destruct (values key l k). Qed.
Lemma keys_of_spec {K V} `{Countable K} (m : gmap K V) k : k ∈ keys_of m ↔ is_Some (m !! k).
Proof.
  unfold keys_of. rewrite list_elem_of_fmap. split.
  - intros ([? v] & -> & Hm%elem_of_map_to_list). by exists v.
  - intros [v Hv]. exists (k, v). by rewrite elem_of_map_to_list.
Qed.
Lemma keys_of_group {K} `{Countable K} (key : sample → K) l k :
  k ∈ keys_of (group_by key l) ↔ ∃ s, s ∈ l ∧ key s = k.
Proof.
  rewrite keys_of_spec, group_by_lookup. unfold values. split.
  - destruct (filter (λ s, key s = k) l) as [|s r] eqn:E; [by intros []|]. intros _. exists s.
    assert (s ∈ filter (λ s, key s = k) l) as Hs by (rewrite E; left). by apply list_elem_of_filter in Hs as [? ?].
  - intros (s & Hs & Hk). assert (s ∈ filter (λ s, key s = k) l) as Hf by by apply list_elem_of_filter.
    destruct (filter (λ s, key s = k) l); [by apply not_elem_of_nil in Hf|]. by eexists.
Qed.

(** ** Ranges *)
Definition no_nan (v : list spec_float) : Prop := Forall (λ x, is_nan x = false) v.
Lemma Min_spec x y : is_nan x = false → is_nan y = false →
  (Min x y = x ∨ Min x y = y) ∧ fle (Min x y) x = true ∧ fle (Min x y) y = true.
Proof.
  intros Hx Hy. unfold Min. destruct (is_inf x true || is_inf y true) eqn:Ei.
  { apply orb_prop in Ei as [Ei|Ei]; apply inf_key in Ei as ->; (split; [auto|]); by split; apply inf_extreme. }
  rewrite Hx, Hy. cbn [orb]. destruct (feq x fzero && feq x y) eqn:Ez.
  - apply andb_prop in Ez as [_ Ez]. apply feq_key in Ez as (Ek & _).
    destruct (signbit x); (split; [auto|]); rewrite !fle_key, Ek; unfold klt; repeat split; try done; lia.
  - destruct (flt x y) eqn:E; (split; [auto|]).
    + split; [by apply fle_refl|]. apply flt_key in E as (_&_&?). apply fle_key. unfold klt in *. repeat split; [done..|lia].
    + rewrite flt_fle in E by done. apply negb_false_iff in E. split; [done|by apply fle_refl].
Qed.
Lemma Max_spec x y : is_nan x = false → is_nan y = false →
  (Max x y = x ∨ Max x y = y) ∧ fle x (Max x y) = true ∧ fle y (Max x y) = true.
Proof.
  intros Hx Hy. unfold Max. destruct (is_inf x false || is_inf y false) eqn:Ei.
  { apply orb_prop in Ei as [Ei|Ei]; apply inf_key in Ei as ->; (split; [auto|]); by split; apply inf_extreme. }
  rewrite Hx, Hy. cbn [orb]. destruct (feq x fzero && feq x y) eqn:Ez.
  - apply andb_prop in Ez as [_ Ez]. apply feq_key in Ez as (Ek & _).
    destruct (signbit x); (split; [auto|]); rewrite !fle_key, Ek; unfold klt; repeat split; try done; lia.
  - destruct (flt y x) eqn:E; (split; [auto|]).
    + split; [by apply fle_refl|]. apply flt_key in E as (_&_&?). apply fle_key. unfold klt in *. repeat split; [done..|lia].
    + rewrite flt_fle in E by done. apply negb_false_iff in E. split; [done|by apply fle_refl].
Qed.
(** The range of a sample: its least and greatest values. *)
Definition range_of (v : list spec_float) (r : spec_float * spec_float) : Prop :=
  (r.1 ∈ v ∧ ∀ x, x ∈ v → fle r.1 x = true) ∧ (r.2 ∈ v ∧ ∀ x, x ∈ v → fle x r.2 = true).
Lemma minmax_from v u r : no_nan u → no_nan v → range_of u r →
  range_of (u ++ v) (foldl (λ '(lo, hi) x, (Min lo x, Max hi x)) r v).
Proof.
  revert u r. induction v as [|x v IH]; intros u [lo hi] Hu Hv Hr; [by rewrite app_nil_r|].
  inversion Hv as [|? ? Hx Hv']; subst. replace (u ++ x :: v) with ((u ++ [x]) ++ v) by by rewrite <- (assoc_L (++)).
  cbn [foldl]. apply IH; [by apply Forall_app; repeat constructor| done|].
  destruct Hr as [[Hlo Hl] [Hhi Hh]]. cbn in *. unfold no_nan in Hu. rewrite Forall_forall in Hu.
  destruct (Min_spec lo x) as (Em & Hm1 & Hm2); [by apply Hu|done|].
  destruct (Max_spec hi x) as (EM & HM1 & HM2); [by apply Hu|done|].
  split; cbn; (split; [rewrite elem_of_app, list_elem_of_singleton; first [destruct Em as [-> | ->]|destruct EM as [-> | ->]]; auto|]).
  all: intros y; rewrite elem_of_app, list_elem_of_singleton; intros [Hy| ->]; eauto using fle_trans.
Qed.
Lemma minmax_range v : v ≠ [] → no_nan v → range_of v (minmax v).
Proof.
  destruct v as [|x v]; [done|]. intros _ H. inversion H as [|? ? Hx Hv]; subst. unfold minmax. cbn [foldl].
  assert (Min (S754_infinity false) x = x ∧ Max (S754_infinity true) x = x) as [-> ->] by by destruct x as [[]|[]| |[]].
  apply (minmax_from v [x]); [by repeat constructor|done|].
  split; cbn; (split; [by left|]); intros y ->%list_elem_of_singleton; by apply fle_refl.
Qed.
(** Every value of [a] is below every value of [b]. *)
Definition below (a b : list spec_float) : Prop := ∀ x y, x ∈ a → y ∈ b → flt x y = true.
Lemma disjoint_below a b : a ≠ [] → b ≠ [] → no_nan a → no_nan b →
  ab_disjoint a b = true ↔ below a b ∨ below b a.
Proof.
  intros Ha Hb Na Nb. pose proof (minmax_range a Ha Na) as Ra. pose proof (minmax_range b Hb Nb) as Rb.
  unfold ab_disjoint. destruct (minmax a) as [alo ahi], (minmax b) as [blo bhi].
  destruct Ra as [[Al1 Al2] [Ah1 Ah2]], Rb as [[Bl1 Bl2] [Bh1 Bh2]]. cbn in *. rewrite orb_true_iff.
  unfold below. split; (intros [H|H]; [left|right]); eauto using flt_le_trans, fle_lt_trans.
Qed.

(** ** Cells of a line *)
Definition cell_byte (c : ascii) : bool := negb (ceq c ch_tab || ceq c ch_nl || ceq c ch_cr).
Definition cell (s : string) : bool := all_bytes cell_byte s.
Lemma all_bytes_take p n s : all_bytes p s = true → all_bytes p (stake n s) = true ∧ all_bytes p (sdrop n s) = true.
Proof. rewrite <- (stake_sdrop n s) at 1. rewrite all_bytes_app. apply andb_prop. Qed.
Lemma all_bytes_repeat p c n : p c = true → all_bytes p (repeat_char c n) = true.
Proof. intros H. induction n as [|n IH]; [done|]. cbn [repeat_char]. by rewrite all_bytes_cons, H. Qed.
Lemma all_bytes_trim_right p q s : all_bytes p s = true → all_bytes p (trim_right q s) = true.
Proof.
  induction s as [|c s IH]; [done|]. rewrite all_bytes_cons. intros [Hc Hs]%andb_prop. specialize (IH Hs).
  cbn [trim_right]. destruct (trim_right q s) eqn:E; [|by rewrite all_bytes_cons, Hc].
  destruct (q c); [done|]. unfold str1. by rewrite all_bytes_cons, Hc.
Qed.
Lemma digit_cell c : is_digit c = true → cell_byte c = true.
Proof. by destruct c as [[] [] [] [] [] [] [] []]. Qed.
Lemma itoa_cell z : cell (itoa z) = true.
Proof.
  unfold cell, itoa. destruct (z <? 0)%Z; [rewrite all_bytes_app; apply andb_true_intro; split; [done|]|];
    (eapply all_bytes_impl; [apply digit_cell|apply radix10_digits]).
Qed.
Lemma pad_left_cell c w s : cell_byte c = true → cell s = true → cell (pad_left c w s) = true.
Proof. unfold cell, pad_left. intros. by rewrite all_bytes_app, all_bytes_repeat. Qed.
Lemma dotted_cell a b : cell a = true → cell b = true → cell (dotted a b) = true.
Proof. unfold cell, dotted. intros Ha Hb. case_match; [done|]. by rewrite !all_bytes_app, Ha, Hb. Qed.
Lemma layout_cell ds x : cell ds = true → cell (layout_g ds x) = true.
Proof.
  intros H. unfold layout_g. repeat case_match.
  all: rewrite ?app_assoc_s; unfold cell; rewrite ?all_bytes_app; fold (cell ds).
  1-2: apply andb_true_intro; split; [by apply dotted_cell; apply all_bytes_take|].
  1-2: by apply (pad_left_cell "0" 2 (itoa _)), itoa_cell.
  - rewrite H. by rewrite all_bytes_repeat.
  - apply dotted_cell; [|by apply all_bytes_take]. unfold cell. rewrite all_bytes_app.
    rewrite all_bytes_repeat by done. by rewrite (proj1 (all_bytes_take _ _ _ H)).
Qed.
Lemma fmt_6g_cell f : cell (fmt_6g f) = true.
Proof.
  destruct f as [[]|[]| |s m e]; try done. cbn [fmt_6g]. destruct (ratio m e) as [n d]. unfold digits6.
  repeat case_match; unfold cell; rewrite all_bytes_app; simplify_eq;
    (apply andb_true_intro; split; [by destruct s|]);
    apply layout_cell, all_bytes_trim_right, itoa_cell.
Qed.
Lemma cell_no c s : (∀ x, cell_byte x = true → ceq x c = false) → cell s = true → no_byte c s = true.
Proof. intros H. apply all_bytes_impl. intros x Hx. by rewrite H. Qed.
Lemma cell_tab s : cell s = true → no_byte ch_tab s = true.
Proof. apply cell_no. by intros [[] [] [] [] [] [] [] []]. Qed.
Lemma cells_no c l : ceq ch_tab c = false → Forall (λ s, no_byte c s = true) l → no_byte c (cells l) = true.
Proof.
  intros Hc. unfold cells. induction 1 as [|s l Hs _ IH]; [done|]. destruct l as [|s' l]; [done|].
  rewrite join_cons. unfold no_byte in *. rewrite !all_bytes_app, Hs, IH. unfold tab, str1. by rewrite all_bytes_cons, Hc.
Qed.
Lemma cells_line l : Forall (λ s, cell s = true) l → no_byte ch_nl (cells l) = true ∧ no_byte ch_cr (cells l) = true.
Proof.
  intros H. split; (apply cells_no; [done|]); (eapply Forall_impl; [exact H|]); intros s; apply cell_no;
    by intros [[] [] [] [] [] [] [] []].
Qed.
Lemma split_cells l : l ≠ [] → Forall (λ s, cell s = true) l → split ch_tab (cells l) = l.
Proof. intros Hl H. apply split_join; [done|]. eapply Forall_impl; [exact H|]. exact cell_tab. Qed.
Lemma atoi_lossy_of s n : atoi s = Some n → atoi_lossy s = n.
Proof.
  unfold atoi, parse_int, atoi_lossy. destruct (match s with "" => _ | String c r => _ end) as [neg digits].
  destruct (unradix 10 digits) as [k|]; [|done]. intros H.
  match type of H with (if ?b then _ else _) = _ => destruct b eqn:E; [|done] end.
  injection H as <-. bool_prop. lia.
Qed.
Lemma atoi_lossy_itoa z : (int_min <= z <= int_max)%Z → atoi_lossy (itoa z) = z.
Proof. intros H. by apply atoi_lossy_of, atoi_itoa. Qed.

(** ** The matrix read back *)
(** What a metric, a vendor or a unit must be to stand in a cell of the first
    column, and of the others. *)
Definition metric_cell (s : string) : Prop := cell s = true ∧ has_prefix s "#" = false ∧ s ≠ "metric".
Definition good_sample (s : sample) : Prop :=
  metric_cell (sm_metric s) ∧ cell (sm_vendor s) = true ∧ cell (sm_unit s) = true ∧
  (int_min <= sm_cpus s <= int_max)%Z.
Section ReadBack.
Context (Float64s : list spec_float → list spec_float) (ParseFloat : string → spec_float).

(** The row that stands in the file for the values of a key. *)
Definition row_of (v : list spec_float) (unit : string) : matrixRow :=
  Row (ParseFloat (fmt_6g (median Float64s v))) (ParseFloat (fmt_6g (minmax v).1)) (ParseFloat (fmt_6g (minmax v).2))
    (Z.of_nat (length v)) unit.
Lemma read_matrix_line rows k v unit :
  metric_cell k.1.1 → cell k.1.2 = true → cell unit = true → (int_min <= k.2 <= int_max)%Z →
  (Z.of_nat (length v) <= int_max)%Z →
  read_row ParseFloat rows (drop_cr (matrix_line Float64s k v unit)) = <[k := row_of v unit]> rows.
Proof.
  destruct k as [[m vd] cp]. cbn [fst snd]. intros (Hm & Hp & Hne) Hv Hu Hc Hl.
  unfold matrix_line, row_of. destruct (minmax v) as [lo hi]. cbn [fst snd].
  set (l := [m; _; _; _; _; _; _; _]).
  assert (Forall (λ s, cell s = true) l) as Hcells.
  { subst l. repeat first [apply Forall_cons_2; [first [done|apply itoa_cell|apply fmt_6g_cell]|]|apply Forall_nil_2]. }
  rewrite drop_cr_id by by apply cells_line. unfold read_row. rewrite split_cells by done. subst l. cbv beta iota.
  rewrite Hp. rewrite (proj2 (seqb_false _ _)) by done. cbn [orb].
  rewrite !atoi_lossy_itoa by (unfold int_min in *; lia). done.
Qed.
Lemma foldl_insert {V} (f : mkey → V) (ks : list mkey) (m : gmap mkey V) k :
  foldl (λ (m : gmap mkey V) k, <[k := f k]> m) m ks !! k = if decide (k ∈ ks) then Some (f k) else m !! k.
Proof.
  revert m. induction ks as [|x ks IH]; intros m; cbn [foldl]; [by rewrite decide_False by apply not_elem_of_nil|].
  rewrite IH. destruct (decide (k ∈ ks)); [by rewrite decide_True by by right|]. destruct (decide (k = x)) as [->|].
  - by rewrite lookup_insert_eq, decide_True by by left.
  - rewrite lookup_insert_ne by done. by rewrite decide_False by by intros [?|?]%elem_of_cons.
Qed.
Lemma units_from (l : list sample) (m : gmap mkey string) (k : mkey) :
  foldl (λ (m : gmap mkey string) s, <[matrix_key s := sm_unit s]> m) m l !! k =
    match last (filter (λ s, matrix_key s = k) l) with Some s => Some (sm_unit s) | None => m !! k end.
Proof.
  revert m. induction l as [|s l IH]; intros m; [done|]. cbn [foldl]. rewrite IH, filter_cons.
  destruct (decide (matrix_key s = k)) as [<-|Hk].
  - rewrite lookup_insert_eq, last_cons. by destruct (last _).
  - by rewrite lookup_insert_ne by done.
Qed.

(** A line that starts with # leaves no row, nor does the line of the titles. *)
Lemma drop_cr_cons c s : ceq c ch_cr = false → ∃ r, drop_cr (String c s) = String c r.
Proof.
  intros Hc. unfold drop_cr. destruct (has_suffix (String c s) (str1 ch_cr)) eqn:E.
  - apply has_suffix_spec in E as [[|c' r] E].
    + injection E as -> _. by rewrite ceq_refl in Hc.
    + rewrite app_cons_s in E. injection E as <- ->. exists r. by rewrite <- app_cons_s, trim_suffix_app.
  - exists s. unfold trim_suffix. by rewrite E.
Qed.
Lemma read_hash rows s : read_row ParseFloat rows (drop_cr (String "#" s)) = rows.
Proof.
  destruct (drop_cr_cons "#" s) as [r ->]; [done|]. unfold read_row. cbn [split].
  change (ceq "#" ch_tab) with false. destruct (split ch_tab r) as [|h t]; cbv iota; [done|].
  repeat case_match; by simplify_eq.
Qed.
Lemma read_head name kernel reps rows :
  foldl (read_row ParseFloat) rows (drop_cr <$> matrix_head name kernel reps) = rows.
Proof.
  unfold matrix_head. cbn [fmap list_fmap foldl]. rewrite !app_cons_s, !read_hash. vm_compute (drop_cr _). 
  by vm_compute (read_row _ _ _).
Qed.

(** The samples of a key, and the row the file has for it. *)
Definition samples_of (l : list sample) (k : mkey) : list sample := filter (λ s, matrix_key s = k) l.
Definition row_for (l : list sample) (k : mkey) : option matrixRow :=
  match last (samples_of l k) with
  | Some s => Some (row_of (sm_value <$> samples_of l k) (sm_unit s))
  | None => None
  end.
Lemma samples_good l k s : Forall good_sample l → last (samples_of l k) = Some s → good_sample s ∧ matrix_key s = k.
Proof.
  intros Hl H%last_Some_elem_of. unfold samples_of in H. apply list_elem_of_filter in H as [? ?].
  split; [|done]. by eapply Forall_forall.
Qed.
Lemma units_default l k s : last (samples_of l k) = Some s → default "" (units_of l !! k) = sm_unit s.
Proof. intros H. unfold units_of. rewrite units_from. unfold samples_of in H. by rewrite H. Qed.
Lemma key_has_last l k : k ∈ keys_of (group_by matrix_key l) → is_Some (last (samples_of l k)).
Proof.
  intros (s & Hs & Hk)%keys_of_group. apply last_is_Some. intros E.
  assert (s ∈ samples_of l k) as H by by apply list_elem_of_filter. rewrite E in H. by apply not_elem_of_nil in H.
Qed.
Lemma read_lines l ks rows :
  Forall good_sample l → (Z.of_nat (length l) <= int_max)%Z → Forall (λ k, k ∈ keys_of (group_by matrix_key l)) ks →
  foldl (read_row ParseFloat) rows (drop_cr <$> ((λ k, matrix_line Float64s k
    (default [] (group_by matrix_key l !! k)) (default "" (units_of l !! k))) <$> ks)) =
  foldl (λ (m : gmap mkey matrixRow) k, <[k := default (row_of [] "") (row_for l k)]> m) rows ks.
Proof.
  intros Hg Hl Hks. revert rows. induction Hks as [|k ks Hk _ IH]; intros rows; [done|]. cbn [fmap list_fmap foldl].
  rewrite group_by_default. apply key_has_last in Hk as [s Hs].
  destruct (samples_good l k s Hg Hs) as [(Hm & Hv & Hu & Hc) <-].
  rewrite (units_default l _ s Hs), read_matrix_line; [|done..|].
  - unfold row_for. rewrite Hs. apply IH.
  - unfold values. rewrite length_fmap. etrans; [|exact Hl]. apply inj_le, length_filter.
Qed.
End ReadBack.

Lemma matrix_lines_clean fs name kernel reps l :
  no_byte ch_nl name = true → no_byte ch_nl kernel = true → Forall good_sample l →
  Forall (λ x, no_byte ch_nl x = true) (matrix_head name kernel reps ++
    ((λ k, matrix_line fs k (default [] (group_by matrix_key l !! k)) (default "" (units_of l !! k)))
      <$> sort_stable matrix_less (keys_of (group_by matrix_key l)))).
Proof.
  intros Hn Hk Hg. apply Forall_app. split.
  - unfold matrix_head. repeat apply Forall_cons_2; try apply Forall_nil_2; try done.
    all: unfold no_byte in *; rewrite !all_bytes_app; rewrite ?Hn, ?Hk; try done.
    apply andb_true_intro. split; [done|]. apply (all_bytes_impl cell_byte); [|apply itoa_cell].
    by intros [[] [] [] [] [] [] [] []].
  - apply Forall_fmap, Forall_forall. intros k Hin. rewrite sort_stable_perm in Hin.
    apply key_has_last in Hin as [s Hs]. destruct (samples_good l k s Hg Hs) as [((Hm & _) & Hv & Hu & Hc) <-].
    unfold compose, matrix_line. destruct (minmax _) as [lo hi]. rewrite (units_default l _ s Hs).
    apply cells_line. repeat first [apply Forall_cons_2; [first [done|apply itoa_cell|apply fmt_6g_cell]|]|apply Forall_nil_2].
Qed.

Lemma read_back fs pf name kernel reps statuses :
  let l := collect statuses in
  let text := WriteMatrix fs name kernel reps statuses in
  no_byte ch_nl name = true → no_byte ch_nl kernel = true → Forall good_sample l →
  (Z.of_nat (length l) <= int_max)%Z → Forall (λ x, slen x < max_token) (split ch_nl text) →
  ∃ rows, readMatrix pf (inr text) = inr rows ∧ ∀ k, rows !! k = row_for fs pf l k.
Proof.
  intros l text Hn Hk Hg Hl Hf. unfold text, WriteMatrix in *. fold l in Hf |- *.
  pose proof (matrix_lines_clean fs name kernel reps l Hn Hk Hg) as Hc.
  rewrite split_unlines in Hf by done. apply Forall_app in Hf as [Hf _].
  unfold readMatrix. rewrite scan_unlines by (apply Forall_and; by split).
  eexists. split; [reflexivity|]. intros k. rewrite fmap_app, foldl_app, read_head, read_lines; [|done..|].
  - rewrite foldl_insert. destruct (decide _) as [Hin|Hin]; rewrite sort_stable_perm in Hin.
    + apply key_has_last in Hin as [s Hs]. unfold row_for. by rewrite Hs.
    + rewrite lookup_empty. unfold row_for. destruct (last (samples_of l k)) as [s|] eqn:E; [|done]. exfalso.
      apply Hin, keys_of_group. exists s. apply last_Some_elem_of in E. by apply list_elem_of_filter in E as [? ?].
  - apply Forall_forall. intros k'. by rewrite sort_stable_perm.
Qed.
(** A matrix written by a run is read back as a baseline row by row: for
    each metric, vendor and CPU count that a passing boot measured, and for no
    other, the row holds what [ParseFloat] makes of the printed median and
    range of all its values, their number and the unit of the last; as long
    as no name holds a tab or a line break and no line reaches the scanner's
    limit. *)
Theorem matrix_reads_back fs pf name kernel reps statuses :
  let l := collect statuses in
  let text := WriteMatrix fs name kernel reps statuses in
  no_byte ch_nl name = true → no_byte ch_nl kernel = true → Forall good_sample l →
  (Z.of_nat (length l) <= int_max)%Z → Forall (λ x, slen x < max_token) (split ch_nl text) →
  ∃ rows, readMatrix pf (inr text) = inr rows ∧ ∀ k, rows !! k = row_for fs pf l k.
Proof. apply read_back. Qed.

(** A sweep: one CPU, two repetitions of one metric on both vendors. *)
Definition demo_float : string → spec_float := λ s, float64 (atoi_lossy s).
Definition demo_status (vendor side : string) (rep v : Z) : Status :=
  {| s_Boot := {| b_Item := {| Kind := "matrix"; i_Name := "m"; Line := 1; Keys := ∅ |}; Vendor := vendor; CPUs := 1;
                  Rep := rep; Side := side; LogName := "" |};
     s_Outcome := set_Metrics (λ _, [Build_Metric "mm/fork" (float64 v) "ns"]) empty_outcome; Verdict := "ok"; Why := "" |}.
Definition demo_sweep : list Status :=
  [demo_status "pvm" "a" 0 120; demo_status "pvm" "a" 1 100; demo_status "intel" "b" 0 80; demo_status "pvm" "a" 2 140].
Definition sorted_floats : list spec_float → list spec_float := sort_stable float_less.
Lemma demo_good : Forall good_sample (collect demo_sweep).
Proof. vm_compute (collect _). repeat (apply Forall_cons_2; [repeat split; by vm_compute|]). apply Forall_nil_2. Qed.
Lemma demo_lines reps : (0 <= reps < 4)%Z →
  Forall (λ x, slen x < max_token) (split ch_nl (WriteMatrix sorted_floats "host" "v6" reps demo_sweep)).
Proof.
  intros H. assert (reps = 0 ∨ reps = 1 ∨ reps = 2 ∨ reps = 3)%Z as Hr by lia. clear H. Transparent max_token.
  destruct Hr as [->|[->|[->| ->]]]; vm_compute (split _ _);
    repeat (apply Forall_cons_2; [apply Nat.ltb_lt; vm_compute; reflexivity|]); apply Forall_nil_2.
Qed.
#[global] Opaque max_token.
Lemma matrix_reads_back_witness :
  ∃ rows, readMatrix demo_float (inr (WriteMatrix sorted_floats "host" "v6" 3 demo_sweep)) = inr rows ∧
    rows !! ("mm/fork", "pvm", 1%Z) = Some (Row (float64 120) (float64 100) (float64 140) 3 "ns") ∧
    rows !! ("mm/fork", "intel", 1%Z) = Some (Row (float64 80) (float64 80) (float64 80) 1 "ns").
Proof.
  destruct (matrix_reads_back sorted_floats demo_float "host" "v6" 3 demo_sweep) as (rows & Hr & H);
    [done|done|exact demo_good|done|apply demo_lines; lia|].
  exists rows. split; [exact Hr|]. rewrite !H. split; vm_compute; reflexivity.
Defined.

(** ** Medians *)
(** The contract of [sort.Float64s]. *)
Definition float_sort (f : list spec_float → list spec_float) : Prop :=
  ∀ l, f l ≡ₚ l ∧ StronglySorted (not_after float_less) (f l).
Lemma sorted_floats_sort : float_sort sorted_floats.
Proof. intros l. split; [apply sort_stable_perm|apply sort_stable_sorted, float_less_strict]. Qed.
Definition lower (x : spec_float) (v : list spec_float) : nat := length (filter (λ y, float_less y x = true) v).
Definition higher (x : spec_float) (v : list spec_float) : nat := length (filter (λ y, float_less x y = true) v).
Lemma irreflexive_less x : float_less x x = false.
Proof. destruct (float_less x x) eqn:E; [|done]. by rewrite (less_asym _ x x E) in E. Qed.
Lemma sorted_split s i x : StronglySorted (not_after float_less) s → s !! i = Some x →
  lower x s ≤ i ∧ higher x s ≤ length s - S i.
Proof.
  intros Hs. revert i. induction Hs as [|y s Hs IH Hy]; intros i Hi; [done|]. unfold lower, higher in *.
  rewrite !filter_cons. destruct i as [|i]; cbn in Hi.
  - injection Hi as ->. rewrite irreflexive_less, !decide_False by done.
    split; [|etrans; [apply length_filter|cbn; lia]]. apply Nat.eq_le_incl, (filter_bool_none (λ y, float_less y x)). exact Hy.
  - destruct (IH i Hi) as [H1 H2]. assert (float_less x y = false) as Hxy.
    { rewrite Forall_forall in Hy. apply Hy. by eapply list_elem_of_lookup_2. }
    rewrite Hxy, (decide_False (P := false = true)) by done. case_decide; cbn [length]; lia.
Qed.

Lemma sorted_lookup s i j a b :
  StronglySorted (not_after float_less) s → i ≤ j → s !! i = Some a → s !! j = Some b → float_less b a = false.
Proof.
  intros Hs. revert i j. induction Hs as [|y s Hs IH Hy]; intros [|i] [|j] Hij Hi Hj; try done; try lia; cbn in *.
  - simplify_eq. by apply irreflexive_less.
  - simplify_eq. rewrite Forall_forall in Hy. apply Hy. by eapply list_elem_of_lookup_2.
  - eapply (IH i j); [lia|done|done].
Qed.
Lemma lower_perm x u v : u ≡ₚ v → lower x u = lower x v ∧ higher x u = higher x v.
Proof. intros H. unfold lower, higher. by rewrite H. Qed.
(** The median of a sample is its middle value, or half the sum of the two
    middle values: [a] and [b] are of the sample, less than half of it is
    below [a] and less than half above [b], and nothing lies between them. *)
Theorem median_middle Float64s v :
  float_sort Float64s → v ≠ [] →
  ∃ a b, a ∈ v ∧ b ∈ v ∧ float_less b a = false ∧
    lower a v ≤ (length v - 1) / 2 ∧ higher a v ≤ length v / 2 ∧
    lower b v ≤ length v / 2 ∧ higher b v ≤ (length v - 1) / 2 ∧
    median Float64s v = if Nat.odd (length v) then a else fdiv (fadd a b) (float64 2).
Proof.
  intros Hsort Hv. destruct (Hsort v) as [Hp Hs]. set (s := Float64s v) in *.
  assert (length s = length v) as Hlen by by rewrite Hp.
  assert (0 < length v) as Hpos by (destruct v; [done|cbn; lia]).
  set (n := length v) in *.
  assert (n = 2 * (n / 2) + Nat.b2n (Nat.odd n)) as Hn by (rewrite <- Nat.div2_div; apply Nat.div2_odd).
  assert ((n - 1) / 2 = n / 2 - Nat.b2n (negb (Nat.odd n))) as Hh.
  { destruct (Nat.odd n); cbn [negb Nat.b2n] in *.
    - replace (n - 1) with (n / 2 * 2) by lia. rewrite Nat.div_mul; lia.
    - replace (n - 1) with (1 + (n / 2 - 1) * 2) by lia. rewrite Nat.div_add by lia. change (1 / 2) with 0. lia. }
  destruct (lookup_lt_is_Some_2 s ((n - 1) / 2)) as [a Ha]; [lia|].
  destruct (lookup_lt_is_Some_2 s (n / 2)) as [b Hb]; [lia|].
  exists a, b. destruct (sorted_split s _ a Hs Ha) as [Ha1 Ha2], (sorted_split s _ b Hs Hb) as [Hb1 Hb2].
  destruct (lower_perm a s v Hp) as [<- <-], (lower_perm b s v Hp) as [<- <-].
  assert (nth (n / 2) s S754_nan = b) as Eb by by apply nth_lookup_Some.
  assert (nth ((n - 1) / 2) s S754_nan = a) as Ea by by apply nth_lookup_Some.
  do 2 (split; [rewrite <- Hp; by eapply list_elem_of_lookup_2|]).
  split; [by eapply sorted_lookup; [..|exact Ha|exact Hb]; [|lia]|].
  do 4 (split; [destruct (Nat.odd n); cbn [negb Nat.b2n] in *; lia|]).
  unfold median. fold s. rewrite Hlen. fold n. rewrite decide_False by lia. rewrite Eb. rewrite Hh in Ea.
  destruct (Nat.odd n); cbn [negb Nat.b2n] in *; [|by rewrite Ea]. by rewrite Nat.sub_0_r, Eb in Ea.
Qed.
Lemma median_middle_witness :
  ∃ a b, float_less b a = false ∧ median sorted_floats (float64 <$> [30%Z; 10%Z; 20%Z; 40%Z]) = fdiv (fadd a b) (float64 2).
Proof.
  destruct (median_middle sorted_floats (float64 <$> [30%Z; 10%Z; 20%Z; 40%Z])) as (a & b & _ & _ & H & _ & _ & _ & _ & E);
    [exact sorted_floats_sort|done|].
  exists a, b. split; [exact H|exact E].
Defined.

(** ** Orders on keys *)
Definition lex_less {A B} `{EqDecision A} (l1 : A → A → bool) (l2 : B → B → bool) (a b : A * B) : bool :=
  if decide (a.1 = b.1) then l2 a.2 b.2 else l1 a.1 b.1.
Lemma lex_less_strict {A B} `{EqDecision A} (l1 : A → A → bool) (l2 : B → B → bool) :
  StrictWeak l1 → StrictWeak l2 → (∀ a b, l1 a b = false → l1 b a = false → a = b) → StrictWeak (lex_less l1 l2).
Proof.
  intros S1 S2 T. unfold lex_less. split.
  - intros [a a'] [b b']. cbn. destruct (decide (a = b)) as [->|]; [|rewrite (decide_False (P := b = a)) by done].
    + rewrite (decide_True (P := b = b)) by done. by apply less_asym.
    + by apply less_asym.
  - intros [a a'] [b b'] [c c']. cbn. intros Hab Hbc.
    destruct (decide (a = b)) as [->|Nab], (decide (b = c)) as [->|Nbc].
    + by eapply less_neg_trans.
    + done.
    + by rewrite decide_False.
    + destruct (decide (a = c)) as [->|]; [|by eapply less_neg_trans]. by destruct Nab; apply T.
Qed.
Lemma strict_ext {A} (f g : A → A → bool) : (∀ a b, f a b = g a b) → StrictWeak f → StrictWeak g.
Proof. intros E S. split; intros *; rewrite <- !E; [by apply less_asym|by apply less_neg_trans]. Qed.
#[export] Instance Zltb_strict : StrictWeak Z.ltb.
Proof. split; intros *; rewrite ?Z.ltb_lt, ?Z.ltb_ge; lia. Qed.
Lemma seqb_decide a b : seqb a b = bool_decide (a = b).
Proof. done. Qed.
#[export] Instance ab_less_strict : StrictWeak ab_less.
Proof.
  apply (strict_ext (lex_less str_less Z.ltb)).
  - intros [a x] [b y]. unfold lex_less, ab_less. cbn. unfold seqb. by destruct (decide (a = b)) as [->|]; [rewrite bool_decide_eq_true_2|rewrite bool_decide_eq_false_2].
  - apply lex_less_strict; [apply str_less_strict|apply Zltb_strict|apply str_less_total].
Qed.
Lemma keys_of_NoDup {K V} `{Countable K} (m : gmap K V) : NoDup (keys_of m).
Proof. apply NoDup_fst_map_to_list. Qed.

(** ** The table of two sides *)
Lemma StronglySorted_filter {A} (R : A → A → Prop) (P : A → Prop) `{∀ x, Decision (P x)} l :
  StronglySorted R l → StronglySorted R (filter P l).
Proof.
  induction 1 as [|x l Hs IH Hx]; [constructor|]. rewrite filter_cons. case_decide; [|done].
  constructor; [done|]. rewrite Forall_forall in Hx |- *. intros y [_ Hy]%list_elem_of_filter. by apply Hx.
Qed.
Lemma bind_filter {A B} (P : A → Prop) `{∀ x, Decision (P x)} (f : A → B) l :
  (l ≫= λ x, if decide (P x) then [] else [f x]) = f <$> filter (λ x, ¬ P x) l.
Proof.
  induction l as [|x l IH]; [done|]. cbn [mbind list_bind]. rewrite filter_cons, IH.
  destruct (decide (P x)) as [Hp|Hp]; [by rewrite decide_False by tauto|by rewrite decide_True by done].
Qed.
(** The table of an ab item has one line for each metric and CPU count that
    passing boots of both sides measured, in order, made of the values of each
    side; and the two sides are called disjoint exactly when every value of one
    is below every value of the other. *)
Theorem WriteAB_lines fs statuses :
  let l := collect statuses in
  let A := values ab_key (on_side true l) in
  let B := values ab_key (on_side false l) in
  ∃ keys,
    WriteAB fs statuses =
      unlines (cells ["metric"; "cpus"; "A"; "B"; "delta"; "B/A"; "nA"; "nB"; "A_range"; "B_range"; "disjoint"] ::
               ((λ k, ab_line fs k (A k) (B k)) <$> keys)) ∧
    NoDup keys ∧ StronglySorted (not_after ab_less) keys ∧
    (∀ k, k ∈ keys ↔ A k ≠ [] ∧ B k ≠ []) ∧
    (∀ k, k ∈ keys → no_nan (A k) → no_nan (B k) →
       (ab_disjoint (A k) (B k) = true ↔ below (A k) (B k) ∨ below (B k) (A k))).
Proof.
  intros l A B. set (ks := sort_stable ab_less (keys_of (group_by ab_key (on_side true l)))).
  assert (∀ k, k ∈ ks ↔ A k ≠ []) as Hks.
  { intros k. unfold ks. rewrite sort_stable_perm, keys_of_spec, group_by_lookup. subst A. cbn.
    destruct (values _ _ k); (split; [by intros [? [=]]|]); [done|by eexists]. }
  exists (filter (λ k, ¬ length (B k) = 0) ks). split; [|split; [|split; [|split]]].
  - unfold WriteAB. fold l. fold ks. f_equal. f_equal. rewrite <- bind_filter. apply list_bind_ext; [|done].
    intros k. by rewrite !group_by_default.
  - apply NoDup_filter. unfold ks. rewrite sort_stable_perm. apply keys_of_NoDup.
  - apply StronglySorted_filter. apply sort_stable_sorted, ab_less_strict.
  - intros k. rewrite list_elem_of_filter, Hks, length_zero_iff_nil. tauto.
  - intros k [Hb Ha%Hks]%list_elem_of_filter Na Nb. rewrite length_zero_iff_nil in Hb. by apply disjoint_below.
Qed.

(** ** The comparison *)
(** The baseline a comparison uses, and what it says about it. *)
Definition baseline_of (pf : string → spec_float) (baseline : string) (base : string + string) : gmap mkey matrixRow :=
  if seqb baseline "" then ∅ else match readMatrix pf base with inl _ => ∅ | inr was => was end.
Definition baseline_note (pf : string → spec_float) (baseline : string) (base : string + string) : list string :=
  if seqb baseline "" then [] else
  match readMatrix pf base with
  | inl _ => ["no baseline at " +:+ baseline +:+ ": make perf-baseline records this run as one"]
  | inr _ => []
  end.
Lemma compare_keys threshold now was ks out r :
  Forall (λ k, is_Some (now !! k)) ks →
  foldl (compare_key threshold now was) (out, r) ks =
    (out ++ ((λ k, compare_line threshold now was k (default (Row fzero fzero fzero 0 "") (now !! k))) <$> ks),
     r || existsb (λ k, match now !! k, was !! k with Some p, Some b => regression threshold p b | _, _ => false end) ks).
Proof.
  intros H. revert out r. induction H as [|k ks [p Hp] _ IH]; intros out r; cbn [foldl fmap list_fmap existsb].
  { by rewrite app_nil_r, orb_false_r. }
  unfold compare_key at 2. rewrite Hp, IH, <- (assoc_L (++)). f_equal.
  destruct (was !! k) as [b|]; [|done]. destruct (regression threshold p b); by destruct r.
Qed.
Lemma sublist_map {A B} (f : A → B) l k : l `sublist_of` k → f <$> l `sublist_of` f <$> k.
Proof. induction 1; cbn; by constructor. Qed.
Lemma pvm_timings_spec now k :
  k ∈ pvm_timings now ↔ ∃ p, now !! k = Some p ∧ timing k p = true.
Proof.
  unfold pvm_timings. rewrite sort_stable_perm, list_elem_of_fmap. split.
  - intros ([? p] & -> & [Ht Hm%elem_of_map_to_list]%list_elem_of_filter). by exists p.
  - intros (p & Hp & Ht). exists (k, p). split; [done|]. by rewrite list_elem_of_filter, elem_of_map_to_list.
Qed.
#[export] Instance pvm_less_strict : StrictWeak pvm_less.
Proof.
  split; unfold pvm_less.
  - intros a b. apply (less_asym ab_less).
  - intros a b c. apply (less_neg_trans ab_less).
Qed.

Lemma compare_verdict pf results baseline base threshold :
  match readMatrix pf results with
  | inl e => CompareMatrix pf results baseline base threshold = ("", false, Some e)
  | inr now =>
      let was := baseline_of pf baseline base in
      ∃ keys regressed,
        CompareMatrix pf results baseline base threshold =
          (unlines (baseline_note pf baseline base ++
                    compare_cols "metric" "cpus" "PVM" "spread" "KVM" "PVM/KVM" "vs baseline" ::
                    ((λ k, compare_line threshold now was k (default (Row fzero fzero fzero 0 "") (now !! k))) <$> keys)),
           regressed, None) ∧
        NoDup keys ∧ StronglySorted (not_after pvm_less) keys ∧
        (∀ k, k ∈ keys ↔ ∃ p, now !! k = Some p ∧ timing k p = true) ∧
        (regressed = true ↔ ∃ k p b, now !! k = Some p ∧ timing k p = true ∧ was !! k = Some b ∧
           flt fzero (r_median b) = true ∧ flt threshold (worse p b) = true ∧ flt (r_max b) (r_median p) = true)
  end.
Proof.
  unfold CompareMatrix. destruct (readMatrix pf results) as [e|now]; [done|]. set (was := baseline_of pf baseline base).
  assert ((if seqb baseline "" then ([], ∅) else
    match readMatrix pf base with
    | inl _ => (["no baseline at " +:+ baseline +:+ ": make perf-baseline records this run as one"], ∅)
    | inr was => ([], was) end) = (baseline_note pf baseline base, was)) as ->.
  { subst was. unfold baseline_note, baseline_of. destruct (seqb baseline ""); [done|]. by destruct (readMatrix pf base). }
  exists (pvm_timings now). rewrite compare_keys.
  2: { apply Forall_forall. intros k (p & Hp & _)%pvm_timings_spec. by exists p. }
  eexists. split; [by rewrite <- (assoc_L (++))|]. split; [|split; [|split]].
  - unfold pvm_timings. rewrite sort_stable_perm. eapply sublist_NoDup; [apply (NoDup_fst_map_to_list now)|].
    apply sublist_map, sublist_filter.
  - apply sort_stable_sorted, pvm_less_strict.
  - intros k. apply pvm_timings_spec.
  - cbn [orb]. rewrite existsb_exists. unfold regression. split.
    + intros (k & Hin & H). rewrite <- list_elem_of_In in Hin. apply pvm_timings_spec in Hin as (p & Hp & Ht). rewrite Hp in H.
      destruct (was !! k) as [b|] eqn:Hb; [|done]. apply andb_prop in H as [[? ?]%andb_prop ?]. by exists k, p, b.
    + intros (k & p & b & Hp & Ht & Hb & H1 & H2 & H3). exists k. rewrite <- list_elem_of_In, pvm_timings_spec, Hp, Hb, H1, H2, H3.
      eauto.
Qed.
(** A comparison of a matrix that can be read has a line for every timing
    of PVM, in order, and says that something regressed exactly when for one of
    them the baseline has a positive median, the new median is more than the
    threshold worse, and it is outside the range of the baseline's own runs; a
    baseline that is absent or cannot be read never counts as a regression,
    and a matrix that cannot be read is an error. *)
Theorem CompareMatrix_regressed pf results baseline base threshold :
  match readMatrix pf results with
  | inl e => CompareMatrix pf results baseline base threshold = ("", false, Some e)
  | inr now =>
      let was := baseline_of pf baseline base in
      ∃ keys regressed,
        CompareMatrix pf results baseline base threshold =
          (unlines (baseline_note pf baseline base ++
                    compare_cols "metric" "cpus" "PVM" "spread" "KVM" "PVM/KVM" "vs baseline" ::
                    ((λ k, compare_line threshold now was k (default (Row fzero fzero fzero 0 "") (now !! k))) <$> keys)),
           regressed, None) ∧
        NoDup keys ∧ StronglySorted (not_after pvm_less) keys ∧
        (∀ k, k ∈ keys ↔ ∃ p, now !! k = Some p ∧ timing k p = true) ∧
        (regressed = true ↔ ∃ k p b, now !! k = Some p ∧ timing k p = true ∧ was !! k = Some b ∧
           flt fzero (r_median b) = true ∧ flt threshold (worse p b) = true ∧ flt (r_max b) (r_median p) = true)
  end.
Proof. apply compare_verdict. Qed.
Example CompareMatrix_ex :
  let now := WriteMatrix sorted_floats "host" "v6" 3 demo_sweep in
  let base := "mm/fork" +:+ tab +:+ "1" +:+ tab +:+ "pvm" +:+ tab +:+ "100" +:+ tab +:+ "90" +:+ tab +:+ "115" +:+ tab +:+
    "3" +:+ tab +:+ "ns" +:+ nl in
  (CompareMatrix demo_float (inr now) "b.tsv" (inr base) (float64 15)).1.2 = true ∧
  (CompareMatrix demo_float (inr now) "b.tsv" (inr base) (float64 25)).1.2 = false.
Proof. Transparent max_token. vm_compute. done. Qed.
#[global] Opaque max_token.

(** ** A matrix item of a run *)
Section MatrixItem.
Context (fs : list spec_float → list spec_float) (pf : string → spec_float).
(** The testbed's directory, [envID] of the machine, [gitDescribe] of the
    kernel and what opening a file gives. *)
Context (tb env kernel : string) (Open : string → string + string).
(** C19: A matrix item counts as an unexpected result exactly when some timing
    that passing PVM boots measured is, as printed in the matrix, more than
    the item's threshold above the baseline's median and above all its runs. *)
Theorem matrix_item_regressed it statuses :
  let l := collect statuses in
  let was := baseline_of pf (item_baseline tb env it) (Open (item_baseline tb env it)) in
  no_byte ch_nl env = true → no_byte ch_nl kernel = true → Forall good_sample l → (Z.of_nat (length l) <= int_max)%Z →
  Forall (λ x, slen x < max_token) (split ch_nl (WriteMatrix fs env kernel (atoiDef (Get it "reps" "1") 1) statuses)) →
  (matrix_item fs pf tb env kernel Open it statuses).1.2 = true ↔
  ∃ k p b, row_for fs pf l k = Some p ∧ timing k p = true ∧ was !! k = Some b ∧
    flt fzero (r_median b) = true ∧ flt (pf (Get it "threshold" "15")) (worse p b) = true ∧
    flt (r_max b) (r_median p) = true.
Proof.
  intros l was Hn Hk Hg Hl Hf. unfold matrix_item.
  destruct (read_back fs pf env kernel (atoiDef (Get it "reps" "1") 1) statuses Hn Hk Hg Hl Hf) as (rows & Hr & Hrows).
  pose proof (compare_verdict pf (inr (WriteMatrix fs env kernel (atoiDef (Get it "reps" "1") 1) statuses))
    (item_baseline tb env it) (Open (item_baseline tb env it)) (pf (Get it "threshold" "15"))) as H. rewrite Hr in H.
  destruct H as (keys & regressed & -> & _ & _ & _ & H). cbn [fst snd]. rewrite H. by setoid_rewrite Hrows.
Qed.
End MatrixItem.
Lemma matrix_item_regressed_witness :
  let it := {| Kind := "matrix"; i_Name := "m"; Line := 1; Keys := {["threshold" := "15"]} |} in
  let base := "mm/fork" +:+ tab +:+ "1" +:+ tab +:+ "pvm" +:+ tab +:+ "100" +:+ tab +:+ "90" +:+ tab +:+ "115" +:+ tab +:+
    "3" +:+ tab +:+ "ns" +:+ nl in
  (matrix_item sorted_floats demo_float "/tb" "host" "v6" (λ _, inr base) it demo_sweep).1.2 = true.
Proof.
  intros it base. apply matrix_item_regressed; [done|done|exact demo_good|done|by apply (demo_lines 1)|].
  exists ("mm/fork", "pvm", 1%Z), (Row (float64 120) (float64 100) (float64 140) 3 "ns"),
    (Row (float64 100) (float64 90) (float64 115) 3 "ns").
  Transparent max_token. repeat split; vm_compute; reflexivity.
Defined.
#[global] Opaque max_token.
