(* ===== verification/Exits.v ===== *)
(** * tools/pvmtest/exits.go: where a benchmark's exits go

    [exitCounts] over a log, the deltas of [ExitProfile], the resolution of
    guest instruction pointers by [ResolveExits] and the list of [Deps].  The
    boots, the output of nm and what the machine has are arguments.
    [sort.Slice] does not say how it orders symbols of one address: it is the
    parameter [sort_syms], with [sorts_syms] as its contract. *)
From Stdlib Require Import Ascii SpecFloat.
From S2P Require Import Prelude GoStrings Regexp ParseLog Run Float64.

#[local] Open Scope Z_scope.

(** ** Counting *)
Definition mmuLineRe : re := must_compile "^L1: mmu: *([0-9]+) *([a-z_]+:[a-z_]+)".
Definition pvmStatRe : re := must_compile "PVMSTATS: vcpu=[0-9]+ (.*)$".
Definition textRe : re := must_compile "PVMINIT: _text at 0x([0-9a-f]+)".
Lemma exits_compile_ok :
  Forall (λ p, is_Some (compile p))
    ["^L1: mmu: *([0-9]+) *([a-z_]+:[a-z_]+)"; "PVMSTATS: vcpu=[0-9]+ (.*)$"; "PVMINIT: _text at 0x([0-9a-f]+)"].
Proof. repeat constructor; vm_compute; eauto. Qed.

(** The map of counts and the names in the order they were first seen. *)
Record tally := { counts : gmap string Z; order : list string }.
Definition tally0 : tally := {| counts := ∅; order := [] |}.
Definition add (t : tally) (k : string) (v : Z) : tally :=
  {| counts := <[k := int64 (default 0 (counts t !! k) + v)]> (counts t);
     order := match counts t !! k with Some _ => order t | None => order t ++ [k] end |}.
Definition stat_field (t : tally) (kv : string) : tally :=
  match cut kv "=" with
  | Some (k, v) => match parse_int v with Some n => add t ("pvmstat:" +:+ k) n | None => t end
  | None => t
  end.
Definition count_line (t : tally) (text : string) : tally :=
  let line := trim_right (ceq ch_cr) text in
  match find mmuLineRe line with
  | Some m => add t (group 2 m) (atoi_lossy (group 1 m))
  | None =>
      if has_prefix line "L1: " then t else
      match find pvmStatRe line with
      | Some m => foldl stat_field t (fields (group 1 m))
      | None => t
      end
  end.
(** [None] is a log that cannot be opened. *)
Definition exitCounts (log : option string) : tally :=
  match log with
  | None => tally0
  | Some text => foldl count_line tally0 (scan_lines log_token text).1
  end.

(** ** The profile *)
Definition noCase : string := "__baseline_no_case__".
(** The maps from vendor to counts, the order of the events and the warnings. *)
Record profile := {
  base : gmap string (gmap string Z); cas : gmap string (gmap string Z); events : list string; warnings : list string
}.
Definition profile0 : profile := {| base := ∅; cas := ∅; events := []; warnings := [] |}.
Section ExitProfile.
(** The [k]th boot, of a vendor with a case filter: its error and its log, when
    the log can be read. *)
Context (BootL1 : nat → string → string → option string * option string).
Context (testCase : string).

Definition profile_run (p : profile) (k : nat) (v only : string) (into_base : bool) : profile :=
  let '(err, log) := BootL1 k v only in
  let p := match err with
           | Some e => {| base := base p; cas := cas p; events := events p; warnings := warnings p ++ [v +:+ ": " +:+ e] |}
           | None => p
           end in
  let t := exitCounts log in
  let p := if into_base
           then {| base := <[v := counts t]> (base p); cas := cas p; events := events p; warnings := warnings p |}
           else {| base := base p; cas := <[v := counts t]> (cas p); events := events p; warnings := warnings p |} in
  if negb (seqb only testCase) then p else
  {| base := base p; cas := cas p;
     events := match events p with [] => order t | _ => events p end;
     warnings := warnings p ++
       (if decide (counts t = ∅) then [v +:+ ": no counters in the run -- did perf stat work?"] else []) ++
       (if contains (default "" log) ("ok 1 - " +:+ testCase) then []
        else [v +:+ ": '" +:+ testCase +:+ "' did not report a pass; the delta is not the case"]) |}.
Definition profile_vendor (p : profile) (iv : nat * string) : profile :=
  let '(i, v) := iv in
  profile_run (profile_run p (2 * i) v noCase true) (2 * i + 1) v testCase false.
Definition run_profile (vendors : list string) : profile := foldl profile_vendor profile0 (imap pair vendors).

(** [cas[v][e] - base[v][e]]: an absent entry counts as zero. *)
Definition count_of (m : gmap string (gmap string Z)) (v e : string) : Z := default 0 (default ∅ (m !! v) !! e).
Definition delta (p : profile) (e v : string) : Z := int64 (count_of (cas p) v e - count_of (base p) v e).
Definition event_line (p : profile) (vendors : list string) (e : string) : string :=
  let d := delta p e <$> vendors in
  pad_right_to 28 e +:+ foldr String.append "" ((λ x, pad_left " " 14 (itoa x)) <$> d) +:+
  match d with
  | [a; b] => if 0 <? b then pad_left " " 9 (fmt_f 1 (fdiv (float64 a) (float64 b))) +:+ "x" else pad_left " " 10 "-"
  | _ => ""
  end.
Definition profile_head (vendors : list string) : string :=
  pad_right_to 28 "event" +:+ foldr String.append "" (pad_left " " 14 <$> vendors) +:+
  (if decide (length vendors = 2%nat) then pad_left " " 10 "ratio" else "").
Definition profile_note : list string :=
  ["";
   "Deltas: the case minus a run of the same guest with no case selected.";
   "A negative number is noise -- boot and teardown are not identical between";
   "two runs -- and says the case did not move that counter."].
(** What is printed, and the warnings. *)
Definition ExitProfile (vendors : list string) : string * list string :=
  let vendors := match vendors with [] => ["pvm"; "intel"] | _ => vendors end in
  let p := run_profile vendors in
  (unlines ("" :: profile_head vendors :: (event_line p vendors <$> events p) ++ profile_note), warnings p).
End ExitProfile.

(** ** Resolving *)
Record sym := Sym { addr : Z; sym_name : string }.
Definition nm_line (acc : list sym * Z) (l : string) : list sym * Z :=
  match fields l with
  | [a; kind; name] =>
      match parse_hex a with
      | None => acc
      | Some a =>
          let '(syms, link) := acc in
          (if existsb (λ c, in_set "tTwW" c) (bytes kind) then syms ++ [Sym a name] else syms,
           if seqb name "_text" then a else link)
      end
  | _ => acc
  end.
(** [sort.Search(n, f)]: a binary search for the first index with [f]. *)
Fixpoint search_loop (fuel : nat) (f : nat → bool) (i j : nat) : nat :=
  match fuel with
  | O => i
  | S fuel =>
      if (i <? j)%nat then
        let h := ((i + j) / 2)%nat in
        if negb (f h) then search_loop fuel f (S h) j else search_loop fuel f i h
      else i
  end.
Definition Search (n : nat) (f : nat → bool) : nat := search_loop (S n) f 0 n.

(** [strconv.ParseUint] of digits, its error dropped: too large is the
    largest. *)
Definition parse_hex_lossy (s : string) : Z :=
  match unradix 16 s with Some n => Z.min (Z.of_N n) (2 ^ 64 - 1) | None => 0 end.

Section Resolve.
Context (sort_syms : list sym → list sym).

(** The symbol of an address, if the first one is not already past it. *)
Definition symbol_of (syms : list sym) (want : Z) : option sym :=
  match Search (length syms) (λ i, match syms !! i with Some s => want <? addr s | None => false end) with
  | O => None
  | S i => syms !! i
  end.
(** One line of the log: what is printed and whether it was found. *)
Definition resolve_line (syms : list sym) (delta : Z) (l : string) : option (string * bool) :=
  match cut_prefix "L1: exitrip:" l with
  | None => None
  | Some rest =>
      let f := fields rest in
      if (length f <? 3)%nat then None else
      let count := nth 0 f "" in
      let rip := List.last f "" in
      let reason := join " " (drop 1 (take (length f - 1) f)) in
      match parse_hex (trim_prefix rip "0x") with
      | None => None
      | Some r =>
          let want := wrap64 (r - delta) in
          let front := pad_left " " 8 count +:+ "  " +:+ pad_right_to 22 reason +:+ " " +:+ pad_right_to 18 rip +:+ " " in
          match symbol_of syms want with
          | Some s => Some (front +:+ sym_name s +:+ "+" +:+ fmt_hash_x (wrap64 (want - addr s)), true)
          | None => Some (front +:+ "(not in vmlinux)", false)
          end
      end
  end.
(** [inl] is an error; [nm] is the command's output. *)
Definition ResolveExits (raw : string + string) (nm : string + string) : list string * option string :=
  match raw with
  | inl e => ([], Some e)
  | inr raw =>
  match find textRe raw with
  | None => ([], Some "the log has no 'PVMINIT: _text at' line; was it a guest run?")
  | Some m =>
  let runtime := parse_hex_lossy (group 1 m) in
  match nm with
  | inl e => ([], Some e)
  | inr out =>
  let '(syms, link) := foldl nm_line ([], 0) (split ch_nl out) in
  if link =? 0 then ([], Some "vmlinux has no _text symbol") else
  let syms := sort_syms syms in
  let delta := wrap64 (runtime - link) in
  let res := omap (resolve_line syms delta) (split ch_nl (replace_char ch_cr "" raw)) in
  (res.*1, if forallb (λ x, negb x.2) res then Some "no exitrip lines resolved -- is this an mmu-mode log?" else None)
  end end end.
End Resolve.

(** ** What is missing *)
Record machine := {
  LookPath : string → option string;   (** exec.LookPath *)
  preprocesses : string → bool;        (** gcc -E on an #include of the header *)
  kvm_writable : bool;
  proc_cpuinfo : string;               (** empty when it cannot be read *)
  meltdown : option string
}.
Definition build_tools : list (string * string) :=
  [("make", "apt install build-essential"); ("gcc", "apt install build-essential");
   ("bison", "apt install bison"); ("flex", "apt install flex"); ("bc", "apt install bc");
   ("go", "apt install golang-go, or from go.dev")].
Definition run_tools : list (string * string) :=
  [("qemu-system-x86_64", "apt install qemu-system-x86");
   ("mmdebstrap", "apt install mmdebstrap  (only needed for the L1 rootfs)");
   ("mkfs.ext4", "apt install e2fsprogs  (only needed for the L1 rootfs)")].
Definition needed_headers : list string := ["libelf.h"; "openssl/ssl.h"].
Definition cpu_feats : list string := ["fsgsbase"; "rdtscp"; "cx16"; "pcid"; "invpcid"].
Definition cpu_flags (cpuinfo : string) : string :=
  match list_find (λ l, has_prefix l "flags" = true) (split ch_nl cpuinfo) with
  | Some (_, l) => " " +:+ l +:+ " "
  | None => ""
  end.
Definition colour (n word : string) : string := str1 "027" +:+ "[" +:+ n +:+ "m" +:+ word +:+ str1 "027" +:+ "[0m".
Definition ok_mark : string := "  " +:+ colour "32" "ok" +:+ "   ".
Definition miss_mark (required : bool) : string := "  " +:+ colour (if required then "31" else "33") "miss" +:+ " ".
(** A line of the report, and what it adds to [missing]. *)
Definition have (m : machine) (tool hint : string) (required : bool) : string * nat :=
  match LookPath m tool with
  | Some p => (ok_mark +:+ pad_right_to 24 tool +:+ " " +:+ p, 0%nat)
  | None => (miss_mark required +:+ pad_right_to 24 tool +:+ " " +:+ hint, if required then 1%nat else 0%nat)
  end.
Definition haveHeader (m : machine) (h pkg what : string) : string * nat :=
  ((if preprocesses m h then ok_mark else miss_mark false) +:+ pad_right_to 24 pkg +:+ " " +:+ what, 0%nat).
Definition needHeader (m : machine) (h : string) : string * nat :=
  if preprocesses m h then (ok_mark +:+ h, 0%nat)
  else (miss_mark true +:+ pad_right_to 16 h +:+ " apt install libelf-dev libssl-dev", 1%nat).
Definition have_kvm (m : machine) : string * nat :=
  if kvm_writable m then (ok_mark +:+ "/dev/kvm writable", 0%nat)
  else (miss_mark true +:+ "/dev/kvm  -- sudo usermod -aG kvm $USER, then log in again", 1%nat).
Definition have_feat (m : machine) (feat : string) : string * nat :=
  if contains (cpu_flags (proc_cpuinfo m)) (" " +:+ feat +:+ " ") then (ok_mark +:+ "cpu has " +:+ feat, 0%nat)
  else (miss_mark true +:+ "cpu lacks " +:+ feat +:+ " -- kvm-pvm will refuse to load", 1%nat).
Definition have_kpti (m : machine) : list (string * nat) :=
  match meltdown m with
  | Some raw =>
      if contains raw "Not affected" then []
      else [(miss_mark true +:+ "this CPU needs KPTI (" +:+ trim_space raw +:+ ") -- kvm-pvm will refuse to load", 1%nat)]
  | None => []
  end.
Definition Deps_report (m : machine) : list (string * nat) :=
  ("build:", 0%nat) :: ((λ t, have m t.1 t.2 true) <$> build_tools) ++
  [have m "pahole" "apt install dwarves  (optional: BTF)" false; ("run:", 0%nat)] ++
  ((λ t, have m t.1 t.2 true) <$> run_tools) ++
  [("profiling and debugging (optional):", 0%nat);
   haveHeader m "traceevent/event-parse.h" "libtraceevent-dev"
     "REQUIRED for 'perf kvm stat' -- it is compiled out without this";
   haveHeader m "elfutils/libdw.h" "libdw-dev" "DWARF: symbol resolution and --call-graph dwarf";
   haveHeader m "libunwind.h" "libunwind-dev" "call graphs from a profile";
   haveHeader m "capstone/capstone.h" "libcapstone-dev" "perf annotate: which instructions are hot";
   have m "gdb" "attach to a guest kernel with qemu -s -S" false;
   have m "fakechroot" "lets the rootfs build run without sudo" false;
   ("kernel headers and libs:", 0%nat)] ++
  (needHeader m <$> needed_headers) ++ [("host:", 0%nat); have_kvm m] ++ (have_feat m <$> cpu_feats) ++ have_kpti m.
Definition missing_of (l : list (string * nat)) : nat := foldr (λ x n, (x.2 + n)%nat) 0%nat l.
(** What is printed, and the error. *)
Definition Deps (m : machine) : string * option string :=
  let l := Deps_report m in
  let missing := missing_of l in
  (unlines l.*1,
   if (0 <? missing)%nat then Some (itoa (Z.of_nat missing) +:+ " required item(s) missing") else None).

(** ** Binary search *)
Lemma search_loop_spec f n fuel i j :
  (i <= j)%nat → (j <= n)%nat → (j - i < fuel)%nat →
  (∀ a b, (a <= b < n)%nat → f a = true → f b = true) →
  (∀ k, (k < i)%nat → f k = false) → (∀ k, (j <= k < n)%nat → f k = true) →
  let r := search_loop fuel f i j in
  (r <= n)%nat ∧ (∀ k, (k < r)%nat → f k = false) ∧ (∀ k, (r <= k < n)%nat → f k = true).
Proof.
  revert i j. induction fuel as [|fuel IH]; intros i j Hij Hj Hf Hmono Hlo Hhi; [lia|]. cbn [search_loop].
  destruct (Nat.ltb_spec i j) as [H|H].
  - assert (i <= (i + j) / 2 < j)%nat as Hh.
    { split; [apply Nat.div_le_lower_bound; lia|apply Nat.Div0.div_lt_upper_bound; lia]. }
    set (h := ((i + j) / 2)%nat) in *. destruct (f h) eqn:E; cbn [negb].
    + apply IH; try lia; [done|done|]. intros k Hk. apply (Hmono h); [lia|done].
    + apply IH; try lia; [done| |done]. intros k Hk. destruct (f k) eqn:Ek; [|done].
      rewrite (Hmono k h) in E; [done|lia|done].
  - replace j with i in * by lia. done.
Qed.
Lemma Search_spec n f :
  (∀ a b, (a <= b < n)%nat → f a = true → f b = true) →
  (Search n f <= n)%nat ∧ (∀ k, (k < Search n f)%nat → f k = false) ∧ (∀ k, (Search n f <= k < n)%nat → f k = true).
Proof. intros H. apply search_loop_spec; try lia. done. Qed.

(** ** Symbols *)
(** The contract of [sort.Slice] on the symbols' addresses. *)
Definition sorts_syms (f : list sym → list sym) : Prop :=
  ∀ l, f l ≡ₚ l ∧ StronglySorted (λ a b, addr a <= addr b) (f l).
(** [s] is a symbol at or below [x], and none is nearer. *)
Definition nearest (syms : list sym) (x : Z) (s : sym) : Prop :=
  s ∈ syms ∧ addr s <= x ∧ ∀ s', s' ∈ syms → addr s' <= x → addr s' <= addr s.
Lemma sorted_addr l i j a b :
  StronglySorted (λ a b, addr a <= addr b) l → (i <= j)%nat → l !! i = Some a → l !! j = Some b → addr a <= addr b.
Proof.
  intros Hs. revert i j. induction Hs as [|y l Hs IH Hy]; intros [|i] [|j] Hij Hi Hj; try done; try lia; cbn in *.
  - simplify_eq. lia.
  - simplify_eq. rewrite Forall_forall in Hy. apply Hy. by eapply list_elem_of_lookup_2.
  - eapply (IH i j); [lia|done|done].
Qed.
Lemma symbol_of_nearest sort_syms syms x : sorts_syms sort_syms →
  match symbol_of (sort_syms syms) x with
  | Some s => nearest syms x s
  | None => ∀ s, s ∈ syms → x < addr s
  end.
Proof.
  intros Hsort. destruct (Hsort syms) as [Hp Hs]. unfold symbol_of, nearest.
  set (l := sort_syms syms) in *. clearbody l. set (f := λ i, match l !! i with Some s => x <? addr s | None => false end).
  destruct (Search_spec (length l) f) as (Hn & Hlo & Hhi).
  { intros a b Hab. unfold f. destruct (lookup_lt_is_Some_2 l a) as [sa Ha]; [lia|].
    destruct (lookup_lt_is_Some_2 l b) as [sb Hb]; [lia|]. rewrite Ha, Hb, !Z.ltb_lt.
    pose proof (sorted_addr l a b sa sb Hs ltac:(lia) Ha Hb). lia. }
  fold f. destruct (Search (length l) f) as [|i].
  - intros s Hin. rewrite <- Hp in Hin. apply list_elem_of_lookup_1 in Hin as [k Hk]. pose proof (lookup_lt_Some _ _ _ Hk).
    specialize (Hhi k ltac:(lia)). unfold f in Hhi. rewrite Hk in Hhi. by apply Z.ltb_lt.
  - destruct (lookup_lt_is_Some_2 l i) as [s Hi]; [lia|]. rewrite Hi.
    assert (addr s <= x) as Hle by (specialize (Hlo i ltac:(lia)); unfold f in Hlo; rewrite Hi in Hlo; by apply Z.ltb_ge).
    split; [rewrite <- Hp; by eapply list_elem_of_lookup_2|]. split; [done|].
    intros s' Hin Hx. rewrite <- Hp in Hin. apply list_elem_of_lookup_1 in Hin as [k Hk]. pose proof (lookup_lt_Some _ _ _ Hk) as Hkl.
    destruct (decide (k <= i)%nat); [by eapply (sorted_addr l k i)|].
    specialize (Hhi k ltac:(lia)). unfold f in Hhi. rewrite Hk, Z.ltb_lt in Hhi. lia.
Qed.
