(* ===== verification/ExitsRuns.v ===== *)
(** * What the exit reports say

    The counts and deltas of [ExitProfile], and the symbols [ResolveExits]
    gives for the lines the agent inside L1 wrote ([Trace.ripLine]). *)
From Stdlib Require Import Ascii SpecFloat.
From S2P Require Import Prelude GoStrings Regexp ParseLog Run Text Trace Float64 Exits.

#[local] Open Scope Z_scope.

(** ** Words of a padded line *)
Lemma fields_go_sep cur a s :
  fields_go is_space cur (a +:+ String " " s) = fields_go is_space cur a ++ fields_go is_space "" s.
Proof.
  revert cur. induction a as [|c a IH]; intros cur.
  - rewrite app_nil_l_s. cbn [fields_go]. by destruct (seqb cur "").
  - rewrite app_cons_s. cbn [fields_go]. destruct (is_space c); [|apply IH]. by rewrite IH, (assoc_L (++)).
Qed.
Lemma fields_sep a s : fields (a +:+ String " " s) = fields a ++ fields s.
Proof. apply fields_go_sep. Qed.
Lemma fields_spaces n s : fields (repeat_char " " n +:+ s) = fields s.
Proof.
  induction n as [|n IH]; [done|]. cbn [repeat_char]. rewrite app_cons_s.
  change (String " " ?x) with ("" +:+ String " " x). by rewrite fields_sep.
Qed.
Lemma fields_padded s n : fields (s +:+ repeat_char " " n) = fields s.
Proof.
  destruct n as [|n]; [by rewrite app_nil_r_s|]. cbn [repeat_char]. rewrite fields_sep.
  rewrite <- (app_nil_r_s (repeat_char " " n)), fields_spaces. by rewrite app_nil_r.
Qed.
Definition word (s : string) : Prop := all_bytes (λ c, negb (is_space c)) s = true ∧ s ≠ "".
Lemma fields_of_word s : word s → fields s = [s].
Proof. intros [H Hn]. apply (fields_join is_space " " [s]); [done|by repeat constructor]. Qed.
Lemma itoa_word n : 0 <= n → word (itoa n).
Proof.
  intros H. split; [|apply itoa_ne]. eapply all_bytes_impl; [|by apply itoa_digits].
  by intros [[] [] [] [] [] [] [] []].
Qed.
Lemma fields_ripLine reason rip n : 0 <= n → word rip →
  fields (" " +:+ ripLine ((reason, rip), n)) = itoa n :: fields reason ++ [rip].
Proof.
  intros Hn Hr. unfold ripLine, pad_left, padRight. cbn [fst snd].
  change (" " +:+ ?x) with (repeat_char " " 1 +:+ x) at 1. rewrite fields_spaces, !app_assoc_s, fields_spaces.
  change ("  " +:+ ?x) with (String " " (repeat_char " " 1 +:+ x)).
  rewrite fields_sep, fields_spaces, (fields_of_word (itoa n)) by by apply itoa_word.
  cbn [app]. f_equal. change (" " +:+ rip) with (String " " rip).
  rewrite fields_sep, (fields_of_word rip) by done. f_equal. case_match; [done|apply fields_padded].
Qed.

(** ** Resolving *)
Definition symbols (nm : string) : list sym := (foldl nm_line ([], 0) (split ch_nl nm)).1.
Lemma parse_hex_range s x : parse_hex s = Some x → 0 <= x < 2 ^ 64.
Proof. unfold parse_hex. destruct (unradix 16 s) as [n|]; [|done]. destruct (N.ltb_spec n (2 ^ 64)); [|done]. intros [= <-]. lia. Qed.
Lemma nm_line_addr l acc : Forall (λ s, 0 <= addr s) acc.1 → Forall (λ s, 0 <= addr s) (nm_line acc l).1.
Proof.
  destruct acc as [syms link]. cbn [fst]. intros H. unfold nm_line.
  repeat case_match; simplify_eq; try done.
  all: cbn [fst]; apply Forall_app; split; [done|]; apply Forall_cons_2; [by eapply parse_hex_range|apply Forall_nil_2].
Qed.
Lemma symbols_addr nm : Forall (λ s, 0 <= addr s) (symbols nm).
Proof.
  unfold symbols. assert (∀ l acc, Forall (λ s, 0 <= addr s) acc.1 → Forall (λ s, 0 <= addr s) (foldl nm_line acc l).1) as H.
  { induction l as [|x l IH]; intros acc Ha; [done|]. by apply IH, nm_line_addr. }
  by apply H, Forall_nil_2.
Qed.
Lemma relocate x d : 0 <= x < 2 ^ 64 → wrap64 (wrap64 (x + d) - d) = x.
Proof. intros H. unfold wrap64. rewrite Zminus_mod_idemp_l. replace (x + d - d) with x by lia. by apply Z.mod_small. Qed.

(** C27: A line of the agent's histogram of exits by guest instruction pointer
    is resolved to the symbol of vmlinux nearest at or below its link address,
    and to none only when every symbol is above it: the run-time address is
    the link address moved by the kernel's own relocation, modulo 2^64, and
    the order nm and the sort leave aliases in does not matter. *)
Theorem exitrip_resolves sort_syms nm d reason rip n x :
  sorts_syms sort_syms → 0 <= n → word rip → fields reason ≠ [] → 0 <= x < 2 ^ 64 →
  parse_hex (trim_prefix rip "0x") = Some (wrap64 (x + d)) →
  let syms := symbols nm in
  let line := "L1: exitrip: " +:+ ripLine ((reason, rip), n) in
  let front := pad_left " " 8 (itoa n) +:+ "  " +:+ pad_right_to 22 (join " " (fields reason)) +:+ " " +:+
    pad_right_to 18 rip +:+ " " in
  (∃ s, nearest syms x s ∧
     resolve_line (sort_syms syms) d line = Some (front +:+ sym_name s +:+ "+" +:+ fmt_hash_x (x - addr s), true)) ∨
  ((∀ s, s ∈ syms → x < addr s) ∧ resolve_line (sort_syms syms) d line = Some (front +:+ "(not in vmlinux)", false)).
Proof.
  intros Hsort Hn Hrip Hreason Hx Hr syms line front.
  pose proof (symbol_of_nearest sort_syms syms x Hsort) as Hs.
  assert (resolve_line (sort_syms syms) d line =
    match symbol_of (sort_syms syms) x with
    | Some s => Some (front +:+ sym_name s +:+ "+" +:+ fmt_hash_x (wrap64 (x - addr s)), true)
    | None => Some (front +:+ "(not in vmlinux)", false)
    end) as ->.
  { unfold resolve_line, line. change ("L1: exitrip: " +:+ ?y) with ("L1: exitrip:" +:+ (" " +:+ y)).
    rewrite cut_prefix_app, fields_ripLine by done. cbn [length]. rewrite length_app. cbn [length].
    destruct (Nat.ltb_spec (S (length (fields reason) + 1)) 3) as [H|_].
    { destruct (fields reason); [done|]. cbn [length] in H. lia. }
    replace (S (length (fields reason) + 1) - 1)%nat with (S (length (fields reason))) by lia.
    cbn [nth take drop]. rewrite take_app_length.
    assert (List.last (itoa n :: fields reason ++ [rip]) "" = rip) as ->.
    { change (itoa n :: fields reason ++ [rip]) with ((itoa n :: fields reason) ++ [rip]). apply last_last. }
    rewrite Hr, relocate by done. subst front. by rewrite !app_assoc_s. }
  destruct (symbol_of (sort_syms syms) x) as [s|]; [left|by right].
  exists s. split; [done|]. destruct Hs as (Hin & Hle & _).
  pose proof (symbols_addr nm) as Ha. rewrite Forall_forall in Ha. specialize (Ha s Hin).
  unfold wrap64. by rewrite Z.mod_small by lia.
Qed.
Definition sort_by_addr : list sym → list sym := sort_stable (λ a b, addr a <? addr b).
Lemma sort_by_addr_sorts : sorts_syms sort_by_addr.
Proof.
  intros l. split; [apply sort_stable_perm|].
  assert (StronglySorted (not_after (λ a b, addr a <? addr b)) (sort_by_addr l)) as H.
  { apply sort_stable_sorted. split; intros *; rewrite ?Z.ltb_lt, ?Z.ltb_ge; lia. }
  induction H as [|a k _ IH Ha]; constructor; [done|]. eapply Forall_impl; [exact Ha|]. intros b Hb. by apply Z.ltb_ge in Hb.
Qed.
Definition demo_nm : string := "ffffffff81000000 T _text" +:+ nl +:+ "ffffffff81002000 t later" +:+ nl +:+
  "ffffffff81001000 t do_it" +:+ nl +:+ "0000000000000001 A absolute" +:+ nl.
Lemma exitrip_resolves_witness :
  resolve_line (sort_by_addr (symbols demo_nm)) 0x3000000 ("L1: exitrip: " +:+ ripLine (("GP excp", "0xffffffff84001010"), 7)) =
  Some ("       7  GP excp                0xffffffff84001010 do_it+0x10", true).
Proof.
  destruct (exitrip_resolves sort_by_addr demo_nm 0x3000000 "GP excp" "0xffffffff84001010" 7 0xffffffff81001010)
    as [(s & (Hin & Hle & Hn) & ->)|[Hall _]]; [exact sort_by_addr_sorts|done|by split|done|done|reflexivity| |].
  - assert (symbols demo_nm = [Sym 0xffffffff81000000 "_text"; Sym 0xffffffff81002000 "later"; Sym 0xffffffff81001000 "do_it"]) as Es
      by (vm_compute; reflexivity).
    rewrite Es in Hin, Hn. assert (s = Sym 0xffffffff81001000 "do_it") as ->; [|vm_compute; reflexivity].
    specialize (Hn (Sym 0xffffffff81001000 "do_it") ltac:(do 2 right; left) ltac:(cbn; lia)). cbn in Hn.
    repeat (apply elem_of_cons in Hin as [->|Hin]; [cbn in *; first [lia|done]|]). by apply not_elem_of_nil in Hin.
  - specialize (Hall (Sym 0xffffffff81000000 "_text")). cbn in Hall.
    assert (0xffffffff81001010 < 0xffffffff81000000); [apply Hall; vm_compute; left|lia].
Defined.

(** ** Counting *)
Definition stat_counts (kv : string) : list (string * Z) :=
  match cut kv "=" with
  | Some (k, v) => match parse_int v with Some n => [("pvmstat:" +:+ k, n)] | None => [] end
  | None => []
  end.
(** What one line of a log counts: a perf line of the agent's mmu mode one
    event, a counters line of the console one for each of its fields, and a
    line the agent echoed nothing else. *)
Definition line_counts (text : string) : list (string * Z) :=
  let line := trim_right (ceq ch_cr) text in
  match find mmuLineRe line with
  | Some m => [(group 2 m, atoi_lossy (group 1 m))]
  | None =>
      if has_prefix line "L1: " then [] else
      match find pvmStatRe line with
      | Some m => fields (group 1 m) ≫= stat_counts
      | None => []
      end
  end.
Definition total (k : string) (l : list (string * Z)) : Z :=
  foldr (λ x s, (if seqb x.1 k then x.2 else 0) + s) 0 l.
Definition add_all (t : tally) (l : list (string * Z)) : tally := foldl (λ t x, add t x.1 x.2) t l.
Lemma add_all_app t l k : add_all t (l ++ k) = add_all (add_all t l) k.
Proof. apply foldl_app. Qed.
Lemma count_line_adds t text : count_line t text = add_all t (line_counts text).
Proof.
  unfold count_line, line_counts. destruct (find mmuLineRe _) as [m|]; [done|]. destruct (has_prefix _ _); [done|].
  destruct (find pvmStatRe _) as [m|]; [|done]. generalize (fields (group 1 m)). intros l. revert t.
  induction l as [|kv l IH]; intros t; [done|]. cbn [foldl mbind list_bind]. rewrite add_all_app, <- IH. f_equal.
  unfold stat_field, stat_counts. destruct (cut kv "=") as [[k v]|]; [|done]. by destruct (parse_int v).
Qed.
Lemma exitCounts_adds text : exitCounts (Some text) = add_all tally0 ((scan_lines log_token text).1 ≫= line_counts).
Proof.
  unfold exitCounts. generalize (scan_lines log_token text).1 tally0. intros l. induction l as [|x l IH]; intros t; [done|].
  cbn [foldl mbind list_bind]. by rewrite add_all_app, <- IH, <- count_line_adds.
Qed.
Lemma int64_add a b : int64 (int64 a + b) = int64 (a + b).
Proof.
  unfold int64. f_equal. replace ((a + 2 ^ 63) mod 2 ^ 64 - 2 ^ 63 + b + 2 ^ 63) with ((a + 2 ^ 63) mod 2 ^ 64 + b) by lia.
  rewrite Zplus_mod_idemp_l. f_equal. lia.
Qed.
(** The map and the list of names agree. *)
Definition tally_ok (t : tally) : Prop := NoDup (order t) ∧ ∀ k, k ∈ order t ↔ is_Some (counts t !! k).
Lemma add_ok t k v : tally_ok t → tally_ok (add t k v).
Proof.
  intros [Hn Ho]. unfold add, tally_ok. cbn [counts order]. destruct (counts t !! k) as [c|] eqn:E.
  - split; [done|]. intros k'. rewrite Ho. destruct (decide (k = k')) as [<-|]; [rewrite lookup_insert_eq, E|by rewrite lookup_insert_ne].
    split; eauto.
  - assert (k ∉ order t) as Hk by (rewrite Ho, E; by intros []). split.
    + apply NoDup_app. split; [done|]. split; [|apply NoDup_singleton]. by intros x Hx ->%list_elem_of_singleton.
    + intros k'. rewrite elem_of_app, list_elem_of_singleton, Ho. destruct (decide (k = k')) as [<-|].
      * rewrite lookup_insert_eq, E. split; eauto.
      * rewrite lookup_insert_ne by done. naive_solver.
Qed.
Lemma add_all_ok l t : tally_ok t → tally_ok (add_all t l).
Proof. revert t. induction l as [|x l IH]; intros t Ht; [done|]. by apply IH, add_ok. Qed.
Lemma total_absent k l : k ∉ l.*1 → total k l = 0.
Proof.
  induction l as [|[k' v] l IH]; [done|]. cbn [fmap list_fmap fst]. intros [Hk Hl]%not_elem_of_cons.
  cbn [total foldr fst snd]. fold (total k l). rewrite IH by done. by rewrite (proj2 (seqb_false k' k)) by done.
Qed.
Lemma add_all_counts l t k :
  counts (add_all t l) !! k =
    if decide (k ∈ l.*1) then Some (int64 (default 0 (counts t !! k) + total k l)) else counts t !! k.
Proof.
  revert t. induction l as [|[k' v] l IH]; intros t; [done|]. cbn [add_all foldl total foldr fst snd fmap list_fmap].
  fold (add_all (add t k' v) l). fold (total k l). rewrite IH. unfold add. cbn [counts].
  destruct (decide (k' = k)) as [->|Hne].
  - rewrite lookup_insert_eq, seqb_refl, (decide_True (P := k ∈ k :: l.*1)) by left. cbn [from_option]. unfold id.
    case_decide; [by rewrite int64_add, Z.add_assoc|]. rewrite (total_absent k l) by done. by rewrite Z.add_0_r.
  - rewrite lookup_insert_ne, (proj2 (seqb_false k' k)) by done. cbn [Z.add].
    destruct (decide (k ∈ l.*1)) as [H|H]; [by rewrite decide_True by by right|].
    rewrite decide_False; [done|]. by intros [?|?]%elem_of_cons.
Qed.

(** Whatever the log, the counts are the sums modulo 2^64 of what its lines
    count, line by line, and the list of names holds each counted name once. *)
Theorem exitCounts_sums text :
  let es := (scan_lines log_token text).1 ≫= line_counts in
  let t := exitCounts (Some text) in
  NoDup (order t) ∧ (∀ k, k ∈ order t ↔ k ∈ es.*1) ∧
  ∀ k, counts t !! k = if decide (k ∈ es.*1) then Some (int64 (total k es)) else None.
Proof.
  intros es t. subst t. rewrite exitCounts_adds. fold es.
  assert (∀ k, counts (add_all tally0 es) !! k = if decide (k ∈ es.*1) then Some (int64 (total k es)) else None) as Hc.
  { intros k. rewrite add_all_counts. cbn [counts tally0]. by rewrite lookup_empty. }
  destruct (add_all_ok es tally0) as [Hn Ho]; [split; [apply NoDup_nil_2|]|].
  { intros k. cbn. rewrite lookup_empty. split; [by intros ?%not_elem_of_nil|by intros []]. }
  split; [done|]. split; [|done]. intros k. rewrite Ho, Hc. case_decide; (split; [by intros ? || intros [? [=]]|try done]); by eexists.
Qed.

(** ** Deltas *)
Section Profile.
Context (BootL1 : nat → string → string → option string * option string) (testCase : string).
Definition log_counts (k : nat) (v only : string) : gmap string Z := counts (exitCounts (BootL1 k v only).2).
Lemma profile_vendor_maps p i v : testCase ≠ noCase →
  base (profile_vendor BootL1 testCase p (i, v)) = <[v := log_counts (2 * i) v noCase]> (base p) ∧
  cas (profile_vendor BootL1 testCase p (i, v)) = <[v := log_counts (2 * i + 1) v testCase]> (cas p).
Proof.
  intros Hne. unfold profile_vendor, profile_run, log_counts.
  destruct (BootL1 (2 * i) v noCase) as [[e|] log], (BootL1 (2 * i + 1) v testCase) as [[e'|] log']; cbn;
    rewrite (proj2 (seqb_false noCase testCase)), seqb_refl by done; done.
Qed.
Lemma profile_absent l p v : testCase ≠ noCase → v ∉ l.*2 →
  base (foldl (profile_vendor BootL1 testCase) p l) !! v = base p !! v ∧
  cas (foldl (profile_vendor BootL1 testCase) p l) !! v = cas p !! v.
Proof.
  intros Hne. revert p. induction l as [|[i x] l IH]; intros p; cbn [foldl fmap list_fmap snd]; [done|].
  intros [Hx Hl]%not_elem_of_cons. destruct (IH (profile_vendor BootL1 testCase p (i, x)) Hl) as [-> ->].
  destruct (profile_vendor_maps p i x Hne) as [-> ->]. by rewrite !lookup_insert_ne.
Qed.
Lemma profile_maps l p i v : testCase ≠ noCase → NoDup l.*2 → (i, v) ∈ l →
  base (foldl (profile_vendor BootL1 testCase) p l) !! v = Some (log_counts (2 * i) v noCase) ∧
  cas (foldl (profile_vendor BootL1 testCase) p l) !! v = Some (log_counts (2 * i + 1) v testCase).
Proof.
  intros Hne. revert p. induction l as [|[j x] l IH]; intros p; cbn [foldl fmap list_fmap snd]; [by intros _ ?%not_elem_of_nil|].
  intros [Hx Hn]%NoDup_cons [[= <- <-]|Hin]%elem_of_cons; [|by apply IH].
  destruct (profile_absent l (profile_vendor BootL1 testCase p (i, v)) v Hne Hx) as [-> ->].
  destruct (profile_vendor_maps p i v Hne) as [-> ->]. by rewrite !lookup_insert_eq.
Qed.
(** The delta printed for an event and a vendor is the event's count in the
    run of the case minus its count in the run of no case, each read from the
    log of its own boot, an event that a log does not have counting zero. *)
Theorem ExitProfile_deltas vendors i v e :
  testCase ≠ noCase → NoDup vendors → vendors !! i = Some v →
  delta (run_profile BootL1 testCase vendors) e v =
    int64 (default 0 (log_counts (2 * i + 1) v testCase !! e) - default 0 (log_counts (2 * i) v noCase !! e)).
Proof.
  intros Hne Hd Hv. unfold delta, count_of, run_profile.
  destruct (profile_maps (imap pair vendors) profile0 i v Hne) as [-> ->]; [| |done].
  - rewrite fmap_imap. change (NoDup (imap (const id) vendors)). by rewrite imap_const, list_fmap_id.
  - apply list_elem_of_lookup. exists i. by rewrite list_lookup_imap, Hv.
Qed.
(** A case that failed is not warned about: [not ok 1 - case] holds the text
    the profile looks for as a sign of a pass. *)
Theorem ExitProfile_failed_silent p i v log :
  testCase ≠ noCase → (BootL1 (2 * i) v noCase).1 = None → BootL1 (2 * i + 1) v testCase = (None, Some log) →
  contains log ("not ok 1 - " +:+ testCase) = true → log_counts (2 * i + 1) v testCase ≠ ∅ →
  warnings (profile_vendor BootL1 testCase p (i, v)) = warnings p.
Proof.
  intros Hne Hb Hc Hin Hcnt. unfold profile_vendor, profile_run. unfold log_counts in Hcnt. rewrite Hc in *.
  destruct (BootL1 (2 * i) v noCase) as [o log']. cbn [fst] in Hb. subst o. cbn [snd] in Hcnt.
  rewrite (proj2 (seqb_false noCase testCase)), seqb_refl by done. cbn [negb warnings default from_option].
  rewrite decide_False by done.
  assert (contains log ("ok 1 - " +:+ testCase) = true) as H.
  { apply contains_spec in Hin as (a & b & ->). apply contains_spec. exists (a +:+ "not "), b. by rewrite !app_assoc_s. }
  unfold id. rewrite H. by rewrite app_nil_r.
Qed.
End Profile.
Definition demo_boot (k : nat) (v only : string) : option string * option string :=
  (None, Some (if seqb only noCase
    then "L1: mmu: 100 kvm:kvm_exit" +:+ nl
    else "G[q35]: not ok 1 - " +:+ only +:+ nl +:+ "L1: mmu: 140 kvm:kvm_exit" +:+ nl +:+ "PVMSTATS: vcpu=0 switch=7" +:+ nl)).
Lemma ExitProfile_deltas_witness :
  delta (run_profile demo_boot "mm/fork" ["pvm"; "intel"]) "kvm:kvm_exit" "intel" = 40.
Proof.
  rewrite (ExitProfile_deltas demo_boot "mm/fork" ["pvm"; "intel"] 1); [|done|by apply (bool_decide_unpack _)|done].
  Transparent log_token. vm_compute. reflexivity.
Defined.
#[global] Opaque log_token.
Lemma ExitProfile_failed_silent_witness :
  warnings (run_profile demo_boot "mm/fork" ["pvm"]) = [].
Proof.
  unfold run_profile. cbn [imap foldl].
  eapply (ExitProfile_failed_silent demo_boot "mm/fork" profile0 0 "pvm"); [done|done|reflexivity|vm_compute; reflexivity|].
  Transparent log_token. vm_compute. discriminate.
Defined.
#[global] Opaque log_token.

(** ** What is missing *)
Lemma missing_of_zero l : missing_of l = 0%nat ↔ Forall (λ x, x.2 = 0%nat) l.
Proof.
  induction l as [|x l IH]; cbn [missing_of foldr]; [split; [intros _; apply Forall_nil_2|done]|]. fold (missing_of l).
  rewrite Forall_cons, <- IH. lia.
Qed.
Lemma have_zero m t h : (have m t h true).2 = 0%nat ↔ is_Some (LookPath m t).
Proof. rewrite <- not_eq_None_Some. unfold have. destruct (LookPath m t); cbn; naive_solver. Qed.
Lemma optional_zero m t h : (have m t h false).2 = 0%nat.
Proof. unfold have. by destruct (LookPath m t). Qed.
(** [pvmtest deps] finds nothing missing exactly when every required tool and
    header is there, /dev/kvm can be written, the CPU has every feature the
    module needs, as a whole word of its flags, and needs no page-table
    isolation. *)
Lemma Deps_ok m :
  (Deps m).2 = None ↔
  (∀ t, t ∈ build_tools ++ run_tools → is_Some (LookPath m t.1)) ∧
  (∀ h, h ∈ needed_headers → preprocesses m h = true) ∧ kvm_writable m = true ∧
  (∀ f, f ∈ cpu_feats → contains (cpu_flags (proc_cpuinfo m)) (" " +:+ f +:+ " ") = true) ∧
  (∀ t, meltdown m = Some t → contains t "Not affected" = true).
Proof.
  assert ((Deps m).2 = None ↔ missing_of (Deps_report m) = 0%nat) as ->.
  { unfold Deps. cbn [snd]. destruct (Nat.ltb_spec 0 (missing_of (Deps_report m))); split; try done; lia. }
  rewrite missing_of_zero. unfold Deps_report. rewrite !Forall_cons, !Forall_app, !Forall_cons, !Forall_fmap, !Forall_nil.
  unfold compose. setoid_rewrite have_zero. rewrite !Forall_forall. setoid_rewrite elem_of_app.
  assert ((∀ h, h ∈ needed_headers → (needHeader m h).2 = 0%nat) ↔ (∀ h, h ∈ needed_headers → preprocesses m h = true)) as ->.
  { apply forall_proper; intros h. unfold needHeader. destruct (preprocesses m h); naive_solver. }
  assert ((∀ f, f ∈ cpu_feats → (have_feat m f).2 = 0%nat) ↔
    (∀ f, f ∈ cpu_feats → contains (cpu_flags (proc_cpuinfo m)) (" " +:+ f +:+ " ") = true)) as ->.
  { apply forall_proper; intros f. unfold have_feat. destruct (contains _ _); naive_solver. }
  assert ((have_kvm m).2 = 0%nat ↔ kvm_writable m = true) as -> by (unfold have_kvm; destruct (kvm_writable m); naive_solver).
  assert ((∀ x, x ∈ have_kpti m → x.2 = 0%nat) ↔ (∀ t, meltdown m = Some t → contains t "Not affected" = true)) as ->.
  { unfold have_kpti. destruct (meltdown m) as [t|]; [|split; [done|by intros _ x ?%not_elem_of_nil]].
    destruct (contains t "Not affected") eqn:E; split.
    - by intros _ t' [= <-].
    - by intros _ x ?%not_elem_of_nil.
    - intros H. specialize (H _ ltac:(left)). done.
    - intros H. rewrite (H t) in E by done. done. }
  rewrite !optional_zero. cbn [snd haveHeader]. naive_solver.
Qed.
