(* ===== verification/Build.v ===== *)
(** * tools/pvmtest/build.go, BuildKUT of kut.go, and the tools of env.go

    The builds are programs ([Prog]) over the calls of [bop]: files, commands
    and what the machine has; every answer is the environment's.  A command
    that fails, or a file that cannot be read, answers an error text. *)
From Stdlib Require Import Ascii.
From S2P Require Import Prelude GoStrings Regexp Spec Checks Run Cpio Prog.

#[local] Open Scope Z_scope.

Inductive bop : Type → Type :=
| Logf (s : string) : bop unit                                        (* stderr *)
| LookPath (tool : string) : bop bool
| Getenv (k : string) : bop string
| StatDir (path : string) : bop (option bool)                         (* is it a directory, if it is there *)
| ReadFile (path : string) : bop (string + string)
| WriteFile (path data : string) (mode : Z) : bop (option string)
| MkdirAll (path : string) : bop (option string)
| MkdirTemp (pattern : string) : bop (string + string)
| RemoveAll (path : string) : bop unit                                (* its error is dropped *)
| Remove (path : string) : bop unit                                   (* its error is dropped *)
| Symlink (old new : string) : bop (option string)
| Glob (pattern : string) : bop (list string)
| Create (path : string) : bop (option string)
| Gzip (path data : string) : bop (option string)                     (* into the file just created *)
| SizeOf (path : string) : bop (option Z)
| Run (dir : string) (env : list string) (name : string) (args : list string) : bop (option string)
| RunTo (dir log name : string) (args : list string) : bop (option string) (* output into a file *)
| Exec (name : string) (args : list string) : bop (option string)     (* output dropped *)
| Output (name : string) (args : list string) : bop (option string * string)
| ElfOpen (path : string) : bop (string + bool * list string)         (* PT_INTERP, imported libraries *)
| Geteuid : bop Z
| OpenRW (path : string) : bop (option string)
| Executable : bop (option string)
| Getwd : bop string
| NumCPU : bop Z
| Eprint (s : string) : bop unit                                      (* a line on stderr *)
| Mode (path : string) : bop (option Z)                               (* permission bits, if it is there *)
| ReadDir (path : string) : bop (string + list (string * bool))       (* names in order, is it a directory *)
| WalkDir (path : string) : bop (list (string * (string * bool)))     (* paths visited without an error, with name and kind *)
| Qemu_ (argv : list string) (log : string) (echo : bool) (timeout : Z) : bop (bool * option (bool * string))
| Print (s : string) : bop unit                                       (* stdout *)
| Append (path text : string) : bop unit                              (* to a file held open, its error dropped *)
| CreateTemp (pattern : string) : bop string
| Now (layout : string) : bop string
| Seconds : bop SpecFloat.spec_float                                  (* since the boot was started *)
| Which (tool : string) : bop (option string)
| Preprocess (header : string) : bop bool                             (* gcc -E on an #include of it *)
| RunPool (c : Config) (results : string) (dry : bool) (boots : list Boot) (jobs : Z) :
    bop (string + list Status).                                       (* the goroutines of a pool: [Pool] *)
Abbreviation build := (prog bop).
Definition logf (s : string) : build unit := call (Logf s).
Definition warnf (s : string) : build unit :=
  call (Eprint (str1 "027" +:+ "[1;33m warn" +:+ str1 "027" +:+ "[0m " +:+ s)).
Definition println (s : string) : build unit := call (Print (s +:+ nl)).

(** A step that can fail: its error is the answer of the whole. *)
Definition andthen (p k : build (option string)) : build (option string) :=
  e ← p; match e with Some _ => Ret e | None => k end.
Definition with_val {A} (p : build (string + A)) (k : A → build (option string)) : build (option string) :=
  r ← p; match r with inl e => Ret (Some e) | inr x => k x end.
Definition fail (e : string) : build (option string) := Ret (Some e).
Definition done_ok : build (option string) := Ret None.
Notation "p '&&!' k" := (andthen p k) (at level 60, right associativity) : pvm_scope.
Fixpoint each_err {A} (l : list A) (f : A → build (option string)) : build (option string) :=
  match l with [] => done_ok | x :: l => f x &&! each_err l f end.
(** An error with text before it. *)
Definition wrap (f : string → string) (p : build (option string)) : build (option string) :=
  e ← p; Ret (option_map f e).

(** ** env.go *)
Definition need (tool hint : string) : build (option string) :=
  b ← call (LookPath tool);
  Ret (if b : bool then None
       else Some ("missing tool: " +:+ tool +:+ (if seqb hint "" then "" else "  (" +:+ hint +:+ ")"))).
Definition NeedKSRC (c : Config) : build (option string) :=
  if seqb (KSRC c) "" then fail "KSRC must name a kernel tree (the testbed carries none)" else
  st ← call (StatDir (KSRC c));
  match st with
  | Some true => done_ok
  | _ => fail ("KSRC=" +:+ KSRC c +:+ " is not a directory")
  end.
Definition fileExists (p : string) : build bool := st ← call (StatDir p); Ret (bool_decide (is_Some st)).
Definition runCmd (dir : string) (env : list string) (name : string) (args : list string) : build (option string) :=
  wrap (λ e, name +:+ " " +:+ join " " args +:+ ": " +:+ e) (call (Run dir env name args)).
Definition copyFile (src dst : string) (mode : Z) : build (option string) :=
  with_val (call (ReadFile src)) (λ raw, call (WriteFile dst raw mode)).
Definition envOr_b (k def : string) : build string := v ← call (Getenv k); Ret (if seqb v "" then def else v).
Definition CheckStatic (path : string) : build (option string) :=
  r ← call (ElfOpen path);
  match r with
  | inl e => fail (path +:+ ": " +:+ e)
  | inr (interp, libs) =>
      if interp : bool then fail (path +:+ " is dynamically linked (has a program interpreter)") else
      match libs with
      | [] => done_ok
      | _ => fail (path +:+ " needs shared libraries: " +:+ join " " libs)
      end
  end.
Definition static_env : list string := ["CGO_ENABLED=0"; "GOOS=linux"; "GOARCH=amd64"].
Definition goBuildStatic (dir pkg out : string) : build (option string) :=
  wrap (λ e, "go build " +:+ pkg +:+ ": " +:+ e)
    (call (Run dir static_env "go" ["build"; "-trimpath"; "-ldflags=-s -w"; "-o"; out; pkg])) &&!
  CheckStatic out.
Definition read_list (path : string) : build (string + list string) :=
  r ← call (ReadFile path); Ret (readList r).
Definition joins (l : list string) : string := join "/" l.

(** ** The kernels *)
Definition kernel_tools : list string := ["make"; "gcc"; "ld"; "bison"; "flex"; "bc"].
Definition pvm_option (l : string) : bool :=
  has_prefix l "CONFIG_PVM_GUEST=" || has_prefix l "CONFIG_X86_PIE=" || has_prefix l "CONFIG_KVM_PVM=".
Definition without_pvm (raw : string) : string :=
  join nl (filter (λ l, pvm_option l = false) (split ch_nl raw)).
(** How kconfig writes an option. *)
Definition config_line (opt : string) : string :=
  if has_suffix opt "=n" then "# " +:+ trim_suffix opt "=n" +:+ " is not set" else opt.
Definition wanted (role : string) (pvmTree : bool) (extra : list string) : list string :=
  "CONFIG_SERIAL_8250_CONSOLE=y" ::
  (if seqb role "guest" && pvmTree then ["CONFIG_PVM_GUEST=y"; "CONFIG_X86_PIE=y"; "CONFIG_PVH=y"]
   else if seqb role "guest" then ["CONFIG_PVH=y"]
   else if pvmTree then ["CONFIG_KVM_PVM=m"; "CONFIG_KVM_INTEL=m"]
   else ["CONFIG_KVM_INTEL=m"]) ++ extra.
(** The first option whose line the configuration does not have. *)
Definition lost (cfg : string) (want : list string) : option string :=
  head (filter (λ opt, config_line opt ∉ split ch_nl cfg) want).
Definition mk (c : Config) (b : string) (args : list string) : build (option string) :=
  runCmd "" [] "make" (["-C"; KSRC c; "O=" +:+ b] ++ args).
Definition jflag (c : Config) : string := "-j" +:+ itoa (Jobs c).

(** The fragment of a role, without the options a tree without PVM lacks. *)
Definition role_fragment (c : Config) (role b : string) (pvmTree : bool) (k : string → build (option string)) :
    build (option string) :=
  let roleFrag := joins [Testbed c; "configs"; role +:+ ".fragment"] in
  if pvmTree then k roleFrag else
  with_val (call (ReadFile roleFrag)) (λ raw,
  let roleFrag := path_join b ".role.fragment" in
  call (WriteFile roleFrag (without_pvm raw) 0x1a4) &&! k roleFrag).

(** From defconfig to a configuration that has what was asked for. *)
Definition configure (c : Config) (role b : string) (pvmTree : bool) (frags extra : list string) : build (option string) :=
  mk c b ["-s"; "defconfig"] &&!
  runCmd "" [] (joins [KSRC c; "scripts"; "kconfig"; "merge_config.sh"])
    (["-m"; "-O"; b; path_join b ".config"] ++ frags) &&!
  mk c b ["-s"; "olddefconfig"] &&!
  with_val (call (ReadFile (path_join b ".config"))) (λ cfg,
  match lost cfg (wanted role pvmTree extra) with
  | Some opt => fail (role +:+ ": " +:+ opt +:+ " did not survive olddefconfig")
  | None => done_ok
  end).

(** The images and, for the host, its modules. *)
Definition install (c : Config) (role b : string) : build (option string) :=
  let images := path_join (Out c) "images" in
  call (MkdirAll images) &&!
  copyFile (joins [b; "arch"; "x86"; "boot"; "bzImage"]) (path_join images (role +:+ "-bzImage")) 0x1a4 &&!
  copyFile (path_join b "vmlinux") (path_join images (role +:+ "-vmlinux.debug")) 0x1ed &&!
  runCmd "" [] "objcopy" ["--strip-debug"; path_join b "vmlinux"; path_join images (role +:+ "-vmlinux")] &&!
  (if seqb role "guest" then
     r ← call (Output "readelf" ["-n"; path_join images "guest-vmlinux"]);
     if contains r.2 "0x00000012" then done_ok
     else fail "the stripped guest image lost XEN_ELFNOTE_PHYS32_ENTRY"
   else done_ok) &&!
  (if seqb role "host" then
     let mods := path_join (Out c) "modules-host" in
     call (RemoveAll mods) ;;
     mk c b [jflag c; "-s"; "modules_install"; "INSTALL_MOD_PATH=" +:+ mods; "INSTALL_MOD_STRIP=1"]
   else done_ok) &&!
  (logf (role +:+ " kernel ready: " +:+ path_join images (role +:+ "-bzImage")) ;; done_ok).

Definition extra_fragment (extra : list string) : string := unlines (config_line <$> extra).
Definition BuildKernel (c : Config) (role : string) (extra : list string) : build (option string) :=
  NeedKSRC c &&!
  each_err kernel_tools (λ t, need t "") &&!
  (if negb (seqb role "guest") && negb (seqb role "host")
   then fail ("unknown role " +:+ quote role +:+ ": guest or host") else
   let b := path_join (Out c) ("build-" +:+ role) in
   call (MkdirAll b) &&!
   (pvmTree ← fileExists (joins [KSRC c; "arch"; "x86"; "kvm"; "pvm"]);
    role_fragment c role b pvmTree (λ roleFrag,
    let exFrag := path_join b ".extra.fragment" in
    call (WriteFile exFrag (extra_fragment extra) 0x1a4) &&!
    (logf ("configuring " +:+ role +:+ " kernel in " +:+ b +:+ " (KSRC=" +:+ KSRC c +:+ ")" +:+
           (if pvmTree : bool then "" else ", no PVM in this tree")) ;;
     configure c role b pvmTree [joins [Testbed c; "configs"; "common.fragment"]; roleFrag; exFrag] extra &&!
     (logf ("building " +:+ role +:+ " kernel with " +:+ jflag c) ;;
      mk c b [jflag c] &&!
      install c role b))))).

(** ** The guest's initrd *)
Definition BuildInitrd (c : Config) : build (option string) :=
  with_val (call (MkdirTemp "pvm-initrd.")) (λ stage,
  (* os.RemoveAll(stage) is deferred *)
  e ← (logf "building the Go init (static, no cgo)" ;;
       let init := path_join stage "init" in
       goBuildStatic (path_join (Testbed c) "initrd") "./cmd/pvminit" init &&!
       let images := path_join (Out c) "images" in
       call (MkdirAll images) &&!
       with_val (call (ReadFile init)) (λ raw,
       let img := path_join images "initrd.cpio.gz" in
       call (Create img) &&!
       call (Gzip img (initrd raw)) &&!
       (st ← call (SizeOf img);
        match st with
        | Some size => logf ("initrd ready: " +:+ img +:+ " (" +:+ itoa (size / 1024) +:+ "K)") ;; done_ok
        | None => Exit 2 (* a nil FileInfo *)
        end)));
  call (RemoveAll stage) ;; Ret e).

(** ** The programs of the testbed *)
Definition BuildHosttests (c : Config) : build (option string) :=
  let dir := joins [Testbed c; "tools"; "hosttests"] in
  let out := path_join (Out c) "hosttests" in
  call (RemoveAll out) ;;
  call (MkdirAll out) &&!
  (cmds ← call (Glob (joins [dir; "cmd"; "*"]));
   match cmds with
   | [] => fail ("no programs under " +:+ dir +:+ "/cmd")
   | _ =>
       each_err cmds (λ cmd,
         logf ("building " +:+ Base cmd) ;;
         goBuildStatic dir ("./cmd/" +:+ Base cmd) (path_join out (Base cmd))) &&!
       (logf ("host tests ready in " +:+ out) ;; done_ok)
   end).
Definition BuildAgent (c : Config) : build (option string) :=
  let out := path_join (Out c) "l1agent" in
  goBuildStatic (joins [Testbed c; "tools"; "l1agent"]) "." out &&!
  (logf ("L1 agent ready: " +:+ out) ;; done_ok).

(** ** The kernel's own selftests *)
Definition BuildSelftests (c : Config) : build (option string) :=
  NeedKSRC c &&!
  with_val (read_list (joins [Testbed c; "configs"; "kvm-selftests.txt"])) (λ tests,
  match tests with [] => fail "no tests listed in configs/kvm-selftests.txt" | _ =>
  let b := path_join (Out c) "build-host" in
  let hdr := joins [b; "usr"; "include"] in
  (h ← call (StatDir (joins [hdr; "linux"; "kvm.h"]));
   match h with
   | Some _ => done_ok
   | None =>
       logf ("installing uapi headers from " +:+ KSRC c) ;;
       runCmd "" [] "make" ["-C"; KSRC c; "O=" +:+ b; "headers_install"; "INSTALL_HDR_PATH=" +:+ path_join b "usr"; "-s"]
   end) &&!
  let src := joins [KSRC c; "tools"; "testing"; "selftests"; "kvm"] in
  (logf ("building " +:+ itoa (Z.of_nat (length tests)) +:+ " selftests (this takes a few minutes the first time)") ;;
   let args := ["-C"; src; "ARCH=x86"; "KHDR_INCLUDES=-isystem " +:+ hdr; jflag c] ++ (path_join src <$> tests) in
   let logPath := path_join (Out c) "kvm-selftests-build.log" in
   call (Create logPath) &&!
   wrap (λ _, "selftest build failed -- see " +:+ logPath) (call (RunTo "" logPath "make" args)) &&!
   let stage := path_join (Out c) "kvm-selftests" in
   (call (RemoveAll stage) ;;
    call (MkdirAll stage) &&!
    each_err tests (λ t,
      wrap (λ e, t +:+ " did not build: " +:+ e)
        (copyFile (path_join src t) (path_join stage (replace_char "/" "__" t)) 0x1ed)) &&!
    (logf ("staged " +:+ itoa (Z.of_nat (length tests)) +:+ " selftests") ;; done_ok)))
  end).

(** ** kvm-unit-tests *)
Definition kutUpstream : string := "https://gitlab.com/kvm-unit-tests/kvm-unit-tests.git".
(** The commit of a revision. *)
Definition rev_parse (gitDir rev : string) : build (string + string) :=
  r ← call (Output "git" ["-C"; gitDir; "rev-parse"; "--verify"; rev +:+ "^{commit}"]);
  Ret (match r.1 with
       | Some _ => inl (gitDir +:+ ": no revision " +:+ rev)
       | None => inr (trim_space r.2)
       end).
Definition sortedKeys (l : list string) : list string := sort_strings (remove_dups l).
Definition BuildKUT (c : Config) : build (option string) :=
  gitDir ← envOr_b "KUT_GIT" (path_join (Cache c) "kvm-unit-tests");
  rev ← envOr_b "KUT_REV" "master";
  ex ← fileExists gitDir;
  (if ex : bool then done_ok else
     logf ("cloning " +:+ kutUpstream +:+ " into " +:+ gitDir) ;;
     runCmd "" [] "git" ["clone"; "-q"; kutUpstream; gitDir]) &&!
  with_val (rev_parse gitDir rev) (λ sha,
  let root := path_join (Out c) "kut-build" in
  let src := path_join root "src" in
  (ex ← fileExists src;
   if ex : bool then runCmd "" [] "git" ["-C"; src; "checkout"; "-q"; "--detach"; sha] else
     call (MkdirAll root) ;; (* its error is dropped *)
     runCmd "" [] "git" ["-C"; gitDir; "worktree"; "add"; "-q"; "--detach"; src; sha]) &&!
  with_val (read_list (joins [Testbed c; "configs"; "kut-tests.txt"])) (λ names,
  with_val (r ← call (ReadFile (joins [src; "x86"; "unittests.cfg"])); Ret (parseUnittestsCfg r)) (λ all,
  match selectKUT all names with
  | inl e => fail ("configs/kut-tests.txt: " +:+ e)
  | inr tests =>
      logf ("building kvm-unit-tests " +:+ stake 12 sha) ;;
      let logPath := path_join root "build.log" in
      call (Create logPath) &&!
      each_err [("./configure", ["--arch=x86_64"]); ("make", [jflag c])] (λ argv,
        wrap (λ _, "kvm-unit-tests " +:+ argv.1 +:+ " failed -- see " +:+ logPath)
          (call (RunTo src logPath argv.1 argv.2))) &&!
      let stage := path_join (Out c) "kut" in
      (call (RemoveAll stage) ;;
       call (MkdirAll stage) &&!
       let files := sortedKeys (t_File <$> tests) in
       each_err files (λ f,
         wrap (λ e, f +:+ " did not build: " +:+ e)
           (copyFile (joins [src; "x86"; f]) (path_join stage f) 0x1a4)) &&!
       call (WriteFile (path_join stage "tests.txt") ("# kvm-unit-tests " +:+ sha +:+ nl +:+ kutManifest tests) 0x1a4) &&!
       (logf ("staged " +:+ itoa (Z.of_nat (length tests)) +:+ " kvm-unit-tests (" +:+
              itoa (Z.of_nat (length files)) +:+ " binaries) in " +:+ stage) ;; done_ok))
  end))).

(** ** A set of images from one revision *)
Definition shared_files : list string :=
  ["images/l1-rootfs.ext4"; "images/initrd.cpio.gz"; "hosttests"; "kvm-selftests"; "kut"; "l1agent"].
Definition share (c : Config) (refOut f : string) : build (option string) :=
  let from := path_join (Out c) f in
  ex ← fileExists from;
  if negb ex then done_ok else
  let to := path_join refOut f in
  call (Remove to) ;; call (Symlink from to).
(** Both kernels from the sources checked out at [sha]. *)
Definition build_ref (c : Config) (gitDir sha variant refOut src stamp : string) : build (option string) :=
  (ex ← fileExists src;
   if ex : bool then runCmd "" [] "git" ["-C"; src; "checkout"; "-q"; "--detach"; sha]
   else runCmd "" [] "git" ["-C"; gitDir; "worktree"; "add"; "-q"; "--detach"; src; sha]) &&!
  (stats ← (if seqb variant "stats" then fileExists (joins [src; "arch"; "x86"; "kvm"; "pvm"]) else Ret false);
   let extra := if stats : bool then ["CONFIG_KVM_PVM_STATS=y"] else [] in
   call (Remove (path_join refOut "built")) ;;
   let rc := With c refOut src in
   BuildKernel rc "guest" [] &&!
   BuildKernel rc "host" extra &&!
   call (WriteFile (path_join refOut "built") (stamp +:+ nl) 0x1a4)).
Definition BuildRef (c : Config) (name gitDir rev variant : string) : build (option string) :=
  if negb (seqb variant "timing") && negb (seqb variant "stats") then fail "variant: timing or stats" else
  let refOut := joins [Out c; "refs"; name] in
  let src := path_join refOut "src" in
  with_val (rev_parse gitDir rev) (λ sha,
  let stamp := sha +:+ " " +:+ variant in
  call (MkdirAll (path_join refOut "images")) ;; (* its error is dropped *)
  built ← call (ReadFile (path_join refOut "built"));
  h ← (if seqb (trim_space (match built with inr t => t | inl _ => "" end)) stamp
       then fileExists (joins [refOut; "images"; "host-bzImage"]) else Ret false);
  g ← (if h : bool then fileExists (joins [refOut; "images"; "guest-vmlinux"]) else Ret false);
  (if g : bool then
     logf (name +:+ ": " +:+ rev +:+ " (" +:+ stake 12 sha +:+ ") " +:+ variant +:+ " already built") ;; done_ok
   else build_ref c gitDir sha variant refOut src stamp) &&!
  each_err shared_files (share c refOut) &&!
  (logf (name +:+ ": images in " +:+ path_join refOut "images") ;; done_ok)).

(** ** The root filesystem of L1 *)
(** [osReleaseCodename]. *)
Definition osReleaseCodename : build string :=
  r ← call (ReadFile "/etc/os-release");
  let raw := match r with inr t => t | inl _ => "" end in
  Ret (default "" (head (omap (λ l, trim (in_set dq) <$> cut_prefix "VERSION_CODENAME=" l) (split ch_nl raw)))).
(** Suite, mirror and components. *)
Definition rootfs_suite : build (string + string * string * string) :=
  s ← call (Getenv "ROOTFS_SUITE");
  if negb (seqb s "") then
    suite ← call (Getenv "ROOTFS_SUITE");
    mirror ← call (Getenv "ROOTFS_MIRROR");
    if seqb mirror "" then Ret (inl "set ROOTFS_MIRROR alongside ROOTFS_SUITE") else
    components ← envOr_b "ROOTFS_COMPONENTS" "main";
    Ret (inr (suite, mirror, components))
  else
    u ← fileExists "/usr/share/keyrings/ubuntu-archive-keyring.gpg";
    if u : bool then
      suite ← osReleaseCodename;
      Ret (inr (suite, "http://archive.ubuntu.com/ubuntu", "main,universe"))
    else
      d ← fileExists "/usr/share/keyrings/debian-archive-keyring.gpg";
      Ret (if d : bool then inr ("trixie", "http://deb.debian.org/debian", "main")
           else inl "no usable archive keyring: apt install ubuntu-keyring or debian-archive-keyring").
(** The least privileged mode that works. *)
Definition rootfs_mode : build (string + string) :=
  e ← call (Exec "unshare" ["-Ur"; "true"]);
  match e with
  | None => Ret (inr "unshare")
  | Some _ =>
      e ← need "fakechroot" "";
      match e with
      | None => Ret (inr "fakechroot")
      | Some _ =>
          uid ← call Geteuid;
          Ret (if uid =? 0 then inr "root" else inl
            "unprivileged user namespaces are restricted on this machine, so mmdebstrap cannot run unprivileged.  Either apt install fakechroot and build as yourself, or run this one step with sudo -- the results are chowned back to you")
      end
  end.
Definition agent_unit : string := unlines
  ["[Unit]"; "Description=PVM testbed agent"; "After=multi-user.target"; "[Service]"; "Type=oneshot";
   "ExecStart=/opt/pvm/agent stub"; "StandardOutput=journal+console"; "StandardError=journal+console";
   "[Install]"; "WantedBy=multi-user.target"].
(** The files of the image; a Go map, so they are written in any order. *)
Definition stage_files : list (string * string) :=
  [("etc/systemd/system/pvm-agent.service", agent_unit); ("etc/hostname", "pvm-l1" +:+ nl);
   ("etc/fstab", "/dev/vda / ext4 defaults 0 1" +:+ nl);
   ("etc/modprobe.d/pvm-testbed.conf",
    unlines ["blacklist kvm"; "blacklist kvm_intel"; "blacklist kvm_amd"; "blacklist kvm_pvm"])].
(** [filepath.Dir] of a path with a slash. *)
Definition Dir (p : string) : string := join "/" (removelast (split "/" p)).
Definition stage_image (c : Config) (stage agent : string) (files : list (string * string)) : build (option string) :=
  each_err files (λ f,
    call (MkdirAll (Dir (path_join stage f.1))) ;;
    call (WriteFile (path_join stage f.1) f.2 0x1a4)) &&!
  let wants := joins [stage; "etc"; "systemd"; "system"; "multi-user.target.wants"] in
  (call (MkdirAll wants) ;;
   call (Symlink "../pvm-agent.service" (path_join wants "pvm-agent.service")) &&!
   (call (MkdirAll (joins [stage; "opt"; "pvm"])) ;;
    copyFile agent (joins [stage; "opt"; "pvm"; "agent"]) 0x1ed &&!
    (call (MkdirAll (path_join stage "lib")) ;;
     runCmd "" [] "cp" ["-a"; joins [Out c; "modules-host"; "lib"; "modules"]; path_join stage "lib" +:+ "/"]))).
Definition rootfs_packages : string := "systemd-sysv,qemu-system-x86,qemu-utils,kmod,iproute2,procps,less,strace".
Definition owned : string :=
  "--customize-hook=chroot " +:+ dq +:+ "$1" +:+ dq +:+ " chown -R root:root /opt/pvm /lib/modules /etc/systemd/system/pvm-agent.service /etc/systemd/system/multi-user.target.wants /etc/hostname /etc/fstab /etc/modprobe.d/pvm-testbed.conf".
Definition no_password : string := "--customize-hook=chroot " +:+ dq +:+ "$1" +:+ dq +:+ " passwd -d root".
Definition rootfs_image (c : Config) (stage img size mode suite mirror components : string) : build (option string) :=
  let tarball := path_join (Out c) "l1-root.tar" in
  call (Remove tarball) ;;
  call (RemoveAll (path_join (Out c) "l1-root")) ;;
  runCmd "" [] "mmdebstrap"
    ["--mode=" +:+ mode; "--variant=minbase"; "--components=" +:+ components; "--include=" +:+ rootfs_packages;
     "--customize-hook=sync-in " +:+ stage +:+ " /"; owned; no_password; suite; tarball; mirror] &&!
  (logf ("making " +:+ img +:+ " (" +:+ size +:+ ")") ;;
   call (MkdirAll (Dir img)) ;;
   call (Remove img) ;;
   runCmd "" [] "mkfs.ext4" ["-q"; "-L"; "pvm-l1"; "-d"; tarball; img; size] &&!
   (call (Remove tarball) ;; logf ("L1 rootfs ready: " +:+ img) ;; done_ok)).
Section Rootfs.
(** The order a range over the map of files takes. *)
Context (order : list (string * string) → list (string * string)).
Definition rootfs_body (c : Config) : build (option string) :=
  each_err [("mmdebstrap", "Debian/Ubuntu: apt install mmdebstrap"); ("mkfs.ext4", "Debian/Ubuntu: apt install e2fsprogs")]
    (λ t, need t.1 t.2) &&!
  (size ← envOr_b "L1_ROOTFS_SIZE" "4G";
   let img := joins [Out c; "images"; "l1-rootfs.ext4"] in
   m ← call (StatDir (path_join (Out c) "modules-host"));
   match m with None => fail "no host modules -- build the host kernel first" | Some _ =>
   with_val rootfs_suite (λ '(suite, mirror, components),
   with_val rootfs_mode (λ mode,
   logf ("bootstrapping " +:+ suite +:+ " from " +:+ mirror +:+ ", mode=" +:+ mode) ;;
   BuildAgent c &&!
   with_val (call (MkdirTemp "pvm-rootfs-stage.")) (λ stage,
     (* os.RemoveAll(stage) is deferred *)
     e ← (stage_image c stage (path_join (Out c) "l1agent") (order stage_files) &&!
          rootfs_image c stage img size mode suite mirror components);
     call (RemoveAll stage) ;; Ret e)))
   end).
(** The deferred return of out/ to the invoking user. *)
Definition give_back (c : Config) : build unit :=
  uid ← call (Getenv "SUDO_UID");
  gid ← call (Getenv "SUDO_GID");
  if negb (seqb uid "") && negb (seqb gid "")
  then call (Exec "chown" ["-R"; uid +:+ ":" +:+ gid; Out c]) ;; Ret tt else Ret tt.
Definition BuildRootfs (c : Config) : build (option string) :=
  e ← rootfs_body c; give_back c ;; Ret e.
End Rootfs.
