(* ===== verification/BuildRuns.v ===== *)
(** * What the builds guarantee

    Monitors over the calls of [Build]: a kernel is never compiled from a
    configuration that lost an option, an image set is never marked built before
    both of its kernels are, and what the builds leave when they succeed. *)
From Stdlib Require Import Ascii.
From S2P Require Import Prelude GoStrings Regexp Spec Checks Run Cpio Prog Build.

#[local] Open Scope Z_scope.

(** ** Rules *)
Section Rules.
Context (M : monitor bop).
Implicit Types (g : m_state M) (E : Z → m_state M → Prop).
Lemma wp_andthen p k Q E g :
  wp M p (λ e g, match e with Some e => Q (Some e) g | None => wp M k Q E g end) E g → wp M (p &&! k) Q E g.
Proof. intros H. apply wp_bind. eapply wp_mono; [exact H| |done]. by intros [e|] g'. Qed.
Lemma wp_with_val {A} (p : build (string + A)) k Q E g :
  wp M p (λ r g, match r with inl e => Q (Some e) g | inr x => wp M (k x) Q E g end) E g → wp M (with_val p k) Q E g.
Proof. intros H. apply wp_bind. eapply wp_mono; [exact H| |done]. by intros [e|x] g'. Qed.
Lemma wp_wrap f p Q E g : wp M p (λ e g, Q (option_map f e) g) E g → wp M (wrap f p) Q E g.
Proof. intros H. by apply wp_bind. Qed.
Lemma wp_each_err {A} (I : m_state M → Prop) (l : list A) f E g :
  I g → (∀ x g, x ∈ l → I g → wp M (f x) (λ _, I) E g) → wp M (each_err l f) (λ _, I) E g.
Proof.
  revert g. induction l as [|x l IH]; intros g HI Hf; [done|]. cbn [each_err]. apply wp_andthen.
  eapply wp_mono; [apply Hf; [left|done]| |done]. intros [e|] g' HI'; [done|]. apply IH; [done|]. intros. apply Hf; [by right|done].
Qed.

(** A program none of whose calls the monitor minds, in states with [I], and
    which keeps [I]. *)
Definition keeps (I : m_state M → Prop) {B} (o : bop B) : Prop :=
  ∀ g, I g → m_pre M o g ∧ ∀ b, I (m_obs M o b g).
Lemma wp_keeps {A} (I : m_state M → Prop) (p : build A) g :
  all_ops (@keeps I) p → I g → wp M p (λ _, I) (λ _ _, True) g.
Proof.
  intros Hp Hg. apply wp_all_ops; [|by apply exits_any|done].
  eapply all_ops_impl; [|exact Hp]. intros B o Ho g' Hg'. destruct (Ho g' Hg') as [? Hb]. split; [done|]. intros b _. apply Hb.
Qed.
End Rules.
(** A monitor that assumes nothing of the answers. *)
Lemma answered_any (M : monitor bop) tr g : (∀ B (o : bop B) b g, m_ans M o b g) → answered M tr g.
Proof. intros H. revert g. induction tr as [|[B o [b|]] tr IH]; intros g; cbn; auto. Qed.

Lemma all_ops_andthen P p k : all_ops P p → all_ops P k → all_ops (op := bop) P (p &&! k).
Proof. intros. apply all_ops_bind; [done|]. by intros [e|]. Qed.
Lemma all_ops_with_val {A} P (p : build (string + A)) k :
  all_ops P p → (∀ x, all_ops P (k x)) → all_ops (op := bop) P (with_val p k).
Proof. intros. apply all_ops_bind; [done|]. by intros [e|x]. Qed.
Lemma all_ops_wrap P f p : all_ops P p → all_ops (op := bop) P (wrap f p).
Proof. intros. by apply all_ops_bind. Qed.
Lemma all_ops_each_err {A} P (l : list A) f : (∀ x, all_ops P (f x)) → all_ops (op := bop) P (each_err l f).
Proof. intros H. induction l as [|x l IH]; cbn [each_err]; [done|]. by apply all_ops_andthen. Qed.
(** Walks a build down to its calls. *)
Ltac walk_build tac :=
  repeat (intros; first
    [ done | apply all_ops_andthen | apply all_ops_with_val | apply all_ops_wrap | apply all_ops_each_err
    | apply all_ops_bind | apply all_ops_call; tac
    | match goal with
      | |- all_ops _ (logf _) => unfold logf
      | |- all_ops _ (runCmd _ _ _ _) => unfold runCmd
      | |- all_ops _ (mk _ _ _) => unfold mk
      | |- all_ops _ (copyFile _ _ _) => unfold copyFile
      | |- all_ops _ (fileExists _) => unfold fileExists
      | |- all_ops _ (need _ _) => unfold need
      | |- all_ops _ (NeedKSRC _) => unfold NeedKSRC
      | |- all_ops _ (goBuildStatic _ _ _) => unfold goBuildStatic
      | |- all_ops _ (CheckStatic _) => unfold CheckStatic
      | |- all_ops _ (read_list _) => unfold read_list
      | |- all_ops _ (envOr_b _ _) => unfold envOr_b
      end
    | exact I | exact eq_refl | case_match ]).

(** Paths below one directory. *)
Lemma path_under a x y : path_join a x = path_join a y → x = y.
Proof. unfold path_join. intros H%app_inj_s. by apply (app_inj_s "/"). Qed.

Lemma joins_slash n a b l : no_byte "/" n = true → n ≠ joins (a :: b :: l).
Proof.
  intros H ->. unfold joins in H. rewrite join_cons in H. unfold no_byte in H. rewrite !all_bytes_app in H.
  change (all_bytes _ "/") with false in H. by rewrite andb_false_r in H.
Qed.

(** ** The configuration of a kernel *)
Section Kernel.
Context (c : Config) (role : string) (extra : list string).
Definition kernel_dir : string := path_join (Out c) ("build-" +:+ role).
Definition make_args (args : list string) : list string := ["-C"; KSRC c; "O=" +:+ kernel_dir] ++ args.
(** Whether the tree has PVM, whether olddefconfig has run since the last change
    to the configuration, what was then read of it, and whether the kernel was
    compiled. *)
Record kstate := KS { k_tree : bool; k_fresh : bool; k_cfg : option string; k_made : bool }.
Definition set_tree b g := KS b (k_fresh g) (k_cfg g) (k_made g).
Definition k_obs B (o : bop B) : B → kstate → kstate :=
  match o in bop B return B → kstate → kstate with
  | StatDir p => λ st g, if decide (p = joins [KSRC c; "arch"; "x86"; "kvm"; "pvm"]) then set_tree (bool_decide (is_Some st)) g else g
  | Build.Run _ _ name args => λ e g,
      if decide (args = make_args ["-s"; "olddefconfig"]) then KS (k_tree g) (bool_decide (e = None)) None (k_made g)
      else if decide (args = make_args [jflag c]) then KS (k_tree g) (k_fresh g) (k_cfg g) (bool_decide (e = None))
      else if decide (args = make_args ["-s"; "defconfig"] ∨ name = joins [KSRC c; "scripts"; "kconfig"; "merge_config.sh"])
      then KS (k_tree g) false None false else g
  | ReadFile p => λ r g,
      if decide (p = path_join kernel_dir ".config" ∧ k_fresh g = true)
      then match r with inr t => KS (k_tree g) true (Some t) (k_made g) | inl _ => g end else g
  | _ => λ _ g, g
  end.
(** The configuration read has the line of every option asked for. *)
Definition config_ok (g : kstate) : Prop :=
  ∃ cfg, k_cfg g = Some cfg ∧ ∀ opt, opt ∈ wanted role (k_tree g) extra → config_line opt ∈ split ch_nl cfg.
Definition k_pre B (o : bop B) (g : kstate) : Prop :=
  match o with
  | Build.Run _ _ _ args => if decide (args = make_args [jflag c]) then config_ok g else True
  | _ => True
  end.
Definition kM : monitor bop := {| m_state := kstate; m_obs := k_obs; m_pre := k_pre; m_ans := λ _ _ _ _, True |}.

Lemma lost_none cfg want : lost cfg want = None → ∀ opt, opt ∈ want → config_line opt ∈ split ch_nl cfg.
Proof.
  unfold lost. intros H opt Ho. destruct (decide (config_line opt ∈ split ch_nl cfg)) as [|Hn]; [done|].
  assert (opt ∈ filter (λ opt, config_line opt ∉ split ch_nl cfg) want) as Hf by by apply list_elem_of_filter.
  destruct (filter _ want); [by apply not_elem_of_nil in Hf|done].
Qed.
(** Before the configuration: nothing is fresh, and the tree is known. *)
Definition unread (t : bool) (g : kstate) : Prop := k_tree g = t ∧ k_fresh g = false.
Definition checked (t : bool) (g : kstate) : Prop := k_tree g = t ∧ config_ok g.
Definition compiled (t : bool) (g : kstate) : Prop := checked t g ∧ k_made g = true.

Lemma obs_run_tree d e n a b g : k_tree (k_obs _ (Build.Run d e n a) b g) = k_tree g.
Proof. cbn. by repeat case_decide. Qed.
Lemma make_args_inj a b : make_args a = make_args b → a = b.
Proof. unfold make_args. apply app_inv_head. Qed.
Lemma pre_run d e n a g : a ≠ make_args [jflag c] → k_pre _ (Build.Run d e n a) g.
Proof. intros H. cbn. by rewrite decide_False. Qed.
Ltac other_args := let H := fresh in intros H; unfold make_args in H; cbn in H; congruence.

Lemma configure_wp t frags g : k_tree g = t →
  wp kM (configure c role kernel_dir t frags extra) (λ e g, e = None → checked t g) (λ _ _, True) g.
Proof.
  intros Ht. unfold configure, mk, runCmd.
  apply wp_andthen, wp_wrap, wp_call; [apply pre_run; other_args|]. intros e1 _. destruct e1 as [|]; [done|]. cbn [option_map].
  apply wp_andthen, wp_wrap, wp_call; [apply pre_run; other_args|]. intros e2 _. destruct e2 as [|]; [done|]. cbn [option_map].
  apply wp_andthen, wp_wrap, wp_call; [apply pre_run; other_args|]. intros e3 _. destruct e3 as [|]; [done|]. cbn [option_map].
  match goal with |- wp _ _ _ _ (m_obs kM _ _ ?g0) => assert (k_tree g0 = t) as Ht0
    by (cbn [kM m_obs]; by rewrite !obs_run_tree); generalize dependent g0 end.
  intros g0 Ht0. cbn [kM m_obs k_obs]. rewrite decide_True by done. rewrite bool_decide_eq_true_2 by done.
  apply wp_with_val, wp_call; [done|]. intros [e|cfg] _; [done|]. cbn [kM m_obs k_obs k_fresh]. rewrite decide_True by done.
  destruct (lost cfg (wanted role t extra)) as [opt|] eqn:El; [done|]. intros _. split; [done|].
  exists cfg. split; [done|]. cbn [k_tree]. rewrite Ht0. by apply lost_none.
Qed.
(** A command that is none of those the monitor follows. *)
Lemma obs_other_run d e n a b g : a ≠ make_args ["-s"; "olddefconfig"] → a ≠ make_args [jflag c] →
  a ≠ make_args ["-s"; "defconfig"] → no_byte "/" n = true → k_obs _ (Build.Run d e n a) b g = g.
Proof. intros ? ? ? Hn. cbn. rewrite !decide_False; try done. intros [?|Hx]; [done|exact (joins_slash n (KSRC c) "scripts" ["kconfig"; "merge_config.sh"] Hn Hx)]. Qed.
Lemma obs_other_read p b g : p ≠ path_join kernel_dir ".config" → k_obs _ (ReadFile p) b g = g.
Proof. intros H. cbn. rewrite decide_False; [done|]. by intros []. Qed.
Ltac other_path := let H := fresh in intros H; unfold joins, path_join, kernel_dir in H; cbn [join] in H;
  rewrite ?app_assoc_s in H; repeat apply app_inj_s in H; try discriminate H.
Lemma install_wp t g : compiled t g → wp kM (install c role kernel_dir) (λ _, compiled t) (λ _ _, True) g.
Proof.
  apply wp_keeps. unfold install.
  walk_build ltac:(intros g' Hg; split; [first [done|apply pre_run; other_args]|
    intros b; first [exact Hg|cbn [kM m_obs]; first
      [rewrite obs_other_run; [exact Hg|other_args|other_args|other_args|done]
      |rewrite obs_other_read; [exact Hg|other_path]]]]).
Qed.
Lemma role_fragment_wp t k Q g : unread t g →
  (∀ f g, unread t g → wp kM (k f) Q (λ _ _, True) g) → (∀ e g, Q (Some e) g) →
  wp kM (role_fragment c role kernel_dir t k) Q (λ _ _, True) g.
Proof.
  intros Hg Hk HQ. unfold role_fragment. destruct t; [by apply Hk|].
  apply wp_with_val, wp_call; [done|]. intros [e|raw] _; [done|].
  apply wp_andthen, wp_call; [done|]. intros [e|] _; [done|]. apply Hk.
  cbn. destruct Hg as [? Hf]. by rewrite decide_False by (intros [_ Hx]; congruence).
Qed.
Lemma BuildKernel_wp :
  wp kM (BuildKernel c role extra) (λ e g, e = None → config_ok g ∧ k_made g = true) (λ _ _, True)
    (KS false false None false).
Proof.
  unfold BuildKernel. apply wp_andthen.
  eapply wp_mono; [apply (wp_keeps kM (λ g, k_fresh g = false)); [|done]| |done].
  { walk_build ltac:(intros g' Hg; split; [done|intros b; cbn; try case_decide; exact Hg]). }
  intros [e|] g Hg; [done|]. apply wp_andthen.
  eapply wp_mono; [apply (wp_keeps kM (λ g, k_fresh g = false)); [|exact Hg]| |done].
  { walk_build ltac:(intros g' Hg'; split; [done|intros b; exact Hg']). }
  clear g Hg. intros [e|] g Hg; [done|]. destruct (negb _ && negb _); [done|].
  apply wp_andthen, wp_call; [done|]. intros [e|] _; [done|].
  apply wp_bind. unfold fileExists. apply wp_bind, wp_call; [done|]. intros st _.
  cbn [kM m_obs k_obs]. rewrite decide_True by done. cbn [wp]. set (t := bool_decide (is_Some st)).
  fold kernel_dir. set (g1 := set_tree _ _). assert (unread t g1) as Hg1 by done. clearbody g1. clear g Hg.
  apply (role_fragment_wp t); [done| |by intros]. intros frag g [Ht Hf].
  apply wp_andthen, wp_call; [done|]. intros [e|] _; [done|].
  apply wp_bind, wp_call; [done|]. intros [] _. cbn [kM m_obs k_obs].
  apply wp_andthen. eapply wp_mono; [by apply (configure_wp t)| |done]. intros [e|] g' Hc; [done|]. specialize (Hc eq_refl).
  apply wp_bind, wp_call; [done|]. intros [] _. cbn [kM m_obs k_obs].
  apply wp_andthen, wp_wrap, wp_call; [cbn; rewrite decide_True by done; apply Hc|]. intros [e|] _; [done|].
  eapply wp_mono; [apply (install_wp t)| |done].
  - cbn [kM m_obs k_obs]. rewrite decide_False by other_args. rewrite decide_True by done. rewrite bool_decide_eq_true_2 by done.
    destruct Hc as [H1 H2]. done.
  - intros e g2 [[_ H1] H2] _. done.
Qed.
(** C18: A kernel is only compiled when the configuration that olddefconfig left
    was read and has the line of every option asked for, those of the role and
    the caller's, an option switched off by the comment kconfig writes for it;
    and a build that succeeds compiled one. *)
Theorem BuildKernel_config tr out :
  runs (BuildKernel c role extra) tr out →
  let g0 := KS false false None false in
  allowed kM tr g0 ∧ (out = Returned None → config_ok (observe kM tr g0) ∧ k_made (observe kM tr g0) = true).
Proof.
  intros Hr g0. destruct (wp_runs kM _ _ _ tr out g0 BuildKernel_wp Hr (answered_any kM tr g0 (λ _ _ _ _, I))) as [Ha Ho].
  split; [done|]. intros ->. by apply Ho.
Qed.
End Kernel.

(** ** The stamp of an image set *)
Section Ref.
Context (c : Config) (name gitDir rev variant : string).
Definition ref_out : string := joins [Out c; "refs"; name].
Definition ref_src : string := path_join ref_out "src".
Definition ref_cfg : Config := With c ref_out ref_src.
Definition stamp_path : string := path_join ref_out "built".
Definition checkout_args (sha : string) : list (list string) :=
  [["-C"; ref_src; "checkout"; "-q"; "--detach"; sha]; ["-C"; gitDir; "worktree"; "add"; "-q"; "--detach"; ref_src; sha]].
Definition modules_args : list string :=
  ["-C"; KSRC ref_cfg; "O=" +:+ path_join (Out ref_cfg) "build-host"; jflag ref_cfg; "-s"; "modules_install";
   "INSTALL_MOD_PATH=" +:+ path_join (Out ref_cfg) "modules-host"; "INSTALL_MOD_STRIP=1"].
Definition notes_args : list string := ["-n"; joins [ref_out; "images"; "guest-vmlinux"]].
(** The commit asked for; whether its sources are checked out, whether an old
    stamp is out of the way, and which kernels are installed since. *)
Record rstate := RS { r_sha : string; r_out : bool; r_clear : bool; r_guest : bool; r_host : bool }.
Definition r_obs B (o : bop B) : B → rstate → rstate :=
  match o in bop B return B → rstate → rstate with
  | Output _ args => λ r g,
      if decide (args = ["-C"; gitDir; "rev-parse"; "--verify"; rev +:+ "^{commit}"])
      then RS (trim_space r.2) false false false false
      else if decide (args = notes_args) then RS (r_sha g) (r_out g) (r_clear g) (contains r.2 "0x00000012") (r_host g)
      else g
  | Build.Run _ _ n args => λ e g,
      if decide (n = "git")
      then RS (r_sha g) (bool_decide (args ∈ checkout_args (r_sha g) ∧ e = None)) (r_clear g) false false
      else if decide (args = modules_args) then RS (r_sha g) (r_out g) (r_clear g) (r_guest g) (bool_decide (e = None))
      else g
  | Remove p => λ _ g, if decide (p = stamp_path) then RS (r_sha g) (r_out g) true (r_guest g) (r_host g) else g
  | _ => λ _ g, g
  end.
Definition r_pre B (o : bop B) (g : rstate) : Prop :=
  match o with
  | WriteFile p d _ =>
      if decide (p = stamp_path)
      then r_out g = true ∧ r_clear g = true ∧ r_guest g = true ∧ r_host g = true ∧ d = r_sha g +:+ " " +:+ variant +:+ nl
      else True
  | Build.Run _ _ n _ => if decide (n = "make") then r_out g = true ∧ r_clear g = true else True
  | _ => True
  end.
Definition rM : monitor bop := {| m_state := rstate; m_obs := r_obs; m_pre := r_pre; m_ans := λ _ _ _ _, True |}.

(** The sources are there and the old stamp is not; with [gb], the guest kernel
    is installed. *)
Definition ready (sha : string) (gb : bool) (g : rstate) : Prop :=
  r_sha g = sha ∧ r_out g = true ∧ r_clear g = true ∧ (gb = true → r_guest g = true).
Lemma ref_cfg_out : Out ref_cfg = ref_out ∧ KSRC ref_cfg = ref_src.
Proof.
  assert (ref_out ≠ "") as H1 by (unfold ref_out, joins; rewrite join_cons; by destruct (Out c)).
  assert (ref_src ≠ "") as H2 by (unfold ref_src, path_join; by destruct ref_out).
  unfold ref_cfg, With. cbn [Out KSRC]. by rewrite !(proj2 (seqb_false _ _)).
Qed.
Lemma keeps_read sha gb p : keeps rM (ready sha gb) (ReadFile p). Proof. intros g H. by split. Qed.
Lemma keeps_write sha gb p d m : p ≠ stamp_path → keeps rM (ready sha gb) (WriteFile p d m).
Proof. intros Hp g H. split; [cbn; by rewrite decide_False|done]. Qed.
Lemma keeps_run sha gb d e n a : n ≠ "git" → a ≠ modules_args → keeps rM (ready sha gb) (Build.Run d e n a).
Proof.
  intros Hn Ha g H. split; [cbn; case_decide; [by destruct H as (?&?&?&?)|done]|].
  intros b. cbn. by rewrite !decide_False.
Qed.
Ltac other_stamp := let H := fresh in intros H; unfold stamp_path, path_join, joins in H;
  rewrite ?(proj1 ref_cfg_out) in H; cbn [join] in H; rewrite ?app_assoc_s in H; repeat apply app_inj_s in H; try discriminate H.
Ltac other_list := let H := fresh in intros H; unfold modules_args in H; cbn in H; congruence.
Ltac ref_op := first
  [ apply keeps_read
  | apply keeps_write; other_stamp
  | apply keeps_run; [first [done|let H := fresh in intros H; symmetry in H; revert H; by apply joins_slash]|other_list]
  | intros ? ?; split; [done|intros ?; assumption] ].
Ltac keep_step Hg := apply wp_andthen; eapply wp_mono; [apply wp_keeps; [|exact Hg]; walk_build ref_op| |done].
Lemma ref_fragment_wp sha gb role t k R g : ready sha gb g → (∀ e g, ready sha gb g → R (Some e) g) →
  (∀ f g, ready sha gb g → wp rM (k f) R (λ _ _, True) g) →
  wp rM (role_fragment ref_cfg role (path_join (Out ref_cfg) ("build-" +:+ role)) t k) R (λ _ _, True) g.
Proof.
  intros Hg HR Hk. unfold role_fragment. destruct t; [by apply Hk|].
  apply wp_with_val, wp_call; [done|]. intros [e|raw] _; [by apply HR|].
  keep_step Hg. intros [e|] g' Hg'; [by apply HR|]. by apply Hk.
Qed.
Lemma kernel_wp sha gb role extra R g : ready sha gb g → (∀ e g, ready sha gb g → R (Some e) g) →
  (∀ g, ready sha gb g → wp rM (install ref_cfg role (path_join (Out ref_cfg) ("build-" +:+ role))) R (λ _ _, True) g) →
  wp rM (BuildKernel ref_cfg role extra) R (λ _ _, True) g.
Proof.
  intros Hg HR Hinst. unfold BuildKernel.
  keep_step Hg. clear g Hg. intros [e|] g Hg; [by apply HR|].
  keep_step Hg. clear g Hg. intros [e|] g Hg; [by apply HR|].
  destruct (negb _ && negb _); [by apply HR|].
  keep_step Hg. clear g Hg. intros [e|] g Hg; [by apply HR|].
  cbv zeta. apply wp_bind, wp_bind, wp_call; [done|]. intros st _. cbn [wp rM m_obs r_obs].
  apply (ref_fragment_wp sha gb); [done|done|]. clear g Hg. intros frag g Hg.
  keep_step Hg. clear g Hg. intros [e|] g Hg; [by apply HR|].
  apply wp_bind, wp_call; [done|]. intros [] _. cbn [rM m_obs r_obs]. unfold configure at 1.
  keep_step Hg. clear g Hg. intros [e|] g Hg; [by apply HR|].
  apply wp_bind, wp_call; [done|]. intros [] _. cbn [rM m_obs r_obs].
  keep_step Hg. clear g Hg. intros [e|] g Hg; [by apply HR|]. by apply Hinst.
Qed.
Definition both_ready (sha : string) (g : rstate) : Prop := ready sha true g ∧ r_host g = true.
(** The guest's kernel: its ELF note was seen in the image installed last. *)
Lemma guest_wp sha extra g : ready sha false g →
  wp rM (BuildKernel ref_cfg "guest" extra) (λ e g, match e with Some _ => ready sha false g | None => ready sha true g end)
    (λ _ _, True) g.
Proof.
  intros Hg. apply (kernel_wp sha false); [done|done|]. clear g Hg. intros g Hg. unfold install. cbv zeta.
  do 4 (keep_step Hg; clear g Hg; intros [e|] g Hg; [done|]).
  change (seqb "guest" "guest") with true. change (seqb "guest" "host") with false. cbv iota.
  apply wp_andthen, wp_bind, wp_call; [done|]. intros r _. cbn [rM m_obs r_obs].
  rewrite decide_False by other_list.
  rewrite (decide_True (P := _ = notes_args)).
  2: { unfold notes_args, joins, path_join. rewrite (proj1 ref_cfg_out). cbn [join]. by rewrite !app_assoc_s. }
  destruct (contains r.2 "0x00000012"); [|by destruct Hg as (?&?&?&?)]. cbn [wp done_ok].
  apply wp_andthen. cbn [wp done_ok]. apply wp_bind, wp_call; [done|]. intros [] _. cbn. by destruct Hg as (?&?&?&?).
Qed.
Lemma host_wp sha extra g : ready sha true g →
  wp rM (BuildKernel ref_cfg "host" extra) (λ e g, match e with Some _ => ready sha true g | None => both_ready sha g end)
    (λ _ _, True) g.
Proof.
  intros Hg. apply (kernel_wp sha true); [done|done|]. clear g Hg. intros g Hg. unfold install. cbv zeta.
  do 4 (keep_step Hg; clear g Hg; intros [e|] g Hg; [done|]).
  change (seqb "host" "guest") with false. change (seqb "host" "host") with true. cbv iota.
  apply wp_andthen. cbn [wp done_ok]. apply wp_andthen, wp_bind, wp_call; [done|]. intros [] _. cbn [rM m_obs r_obs].
  apply wp_wrap, wp_call; [cbn; by destruct Hg as (?&?&?&?)|]. intros e _. cbn [rM m_obs r_obs].
  rewrite decide_False by done. change (path_join (Out ref_cfg) ("build-" +:+ "host")) with (path_join (Out ref_cfg) "build-host").
  rewrite (decide_True (P := _ = modules_args)) by done.
  destruct e as [e|]; [by destruct Hg as (?&?&?&?)|]. cbn [option_map].
  apply wp_bind, wp_call; [done|]. intros [] _. cbn. by destruct Hg as (?&?&?&?).
Qed.

Lemma git_pre d e a g : r_pre _ (Build.Run d e "git" a) g.
Proof. done. Qed.
Lemma build_ref_wp sha g : r_sha g = sha →
  wp rM (build_ref c gitDir sha variant ref_out ref_src (sha +:+ " " +:+ variant)) (λ _ _, True) (λ _ _, True) g.
Proof.
  intros Hs. unfold build_ref. apply wp_andthen, wp_bind, wp_bind, wp_call; [done|]. intros st _. cbn [wp rM m_obs r_obs].
  eapply (wp_mono rM _ (λ e g, e = None → r_sha g = sha ∧ r_out g = true) _ (λ _ _, True)).
  { destruct (bool_decide (is_Some st)); (apply wp_wrap, wp_call; [done|]; intros [e|] _; [done|]; intros _; cbn;
      split; [done|]; apply bool_decide_eq_true_2; rewrite Hs; split; [|done]).
    - left.
    - right. left. }
  2: done.
  clear g Hs. intros [e|] g Hg; [done|]. destruct (Hg eq_refl) as [Hs Ho]. clear Hg.
  apply wp_bind. eapply (wp_mono rM _ (λ _ g, r_sha g = sha ∧ r_out g = true) _ (λ _ _, True)).
  { destruct (seqb variant "stats"); [|done]. apply wp_bind, wp_call; [done|]. by intros b _. }
  2: done.
  clear g Hs Ho. intros stats g [Hs Ho]. apply wp_bind, wp_call; [done|]. intros [] _. cbn [rM m_obs r_obs].
  rewrite decide_True by done. cbv zeta. fold ref_cfg.
  apply wp_andthen. eapply wp_mono; [apply (guest_wp sha); by repeat split| |done].
  clear g Hs Ho. intros [e|] g Hg; [done|]. apply wp_andthen. eapply wp_mono; [by apply (host_wp sha)| |done].
  clear g Hg. intros [e|] g Hg; [done|]. destruct Hg as [(Hs & Ho & Hc & Hg) Hh].
  apply wp_call; [|done]. cbn. rewrite decide_True by done. rewrite Hs, app_assoc_s. by auto.
Qed.
Lemma BuildRef_wp g : wp rM (BuildRef c name gitDir rev variant) (λ _ _, True) (λ _ _, True) g.
Proof.
  unfold BuildRef. destruct (_ && _); [done|]. fold ref_out ref_src. cbv zeta. fold ref_src.
  apply wp_with_val, wp_bind, wp_call; [done|]. intros [e r] _. cbn [rM m_obs r_obs fst snd]. rewrite decide_True by done.
  cbn [wp]. destruct e as [e|]; [done|]. set (sha := trim_space r).
  set (g0 := RS _ _ _ _ _). assert (r_sha g0 = sha) as Hs by done. clearbody g0.
  apply wp_bind, wp_call; [done|]. intros e _. cbn [rM m_obs r_obs].
  apply wp_bind, wp_call; [done|]. intros built _. cbn [rM m_obs r_obs].
  apply wp_bind. eapply (wp_mono rM _ (λ _ g, r_sha g = sha) _ (λ _ _, True)); [by case_match| |done]. clear g0 Hs. intros h g0 Hs.
  apply wp_bind. eapply (wp_mono rM _ (λ _ g, r_sha g = sha) _ (λ _ _, True)); [by destruct h| |done]. clear g0 Hs. intros b g0 Hs.
  apply wp_andthen. eapply (wp_mono rM _ (λ _ _, True) _ (λ _ _, True)); [|clear g0 Hs; intros [e'|] g0 _; [done|]|done].
  { destruct b; [|by apply build_ref_wp]. by apply wp_bind, wp_call. }
  apply wp_andthen. eapply (wp_mono rM _ (λ _ _, True) _ (λ _ _, True)); [|clear g0; intros [e'|] g0 _; [done|]|done].
  { apply (wp_keeps rM (λ _, True)); [|done]. unfold share.
    walk_build ltac:(intros g' _; split; [done|done]). }
  by apply wp_bind, wp_call.
Qed.

(** C28: Whatever happens on the way, the stamp that marks an image set as built
    is only written after an old one was removed, with the sources checked out
    at the commit the revision names, both kernels installed from them since,
    and says that commit and the variant; and nothing is compiled while the
    old stamp is there. *)
Theorem BuildRef_stamp tr out :
  runs (BuildRef c name gitDir rev variant) tr out → allowed rM tr (RS "" false false false false).
Proof.
  intros Hr. set (g0 := RS _ _ _ _ _).
  by destruct (wp_runs rM _ _ _ tr out g0 (BuildRef_wp g0) Hr (answered_any rM tr g0 (λ _ _ _ _, I))) as [Ha _].
Qed.
End Ref.

(** ** A machine on which everything works *)
Definition demo_config : Config := {|
  Testbed := "/tb"; Out := "/out"; Cache := "/cache"; KSRC := "/linux"; Jobs := 4; Qemu := "qemu"; c_GuestCPUs := "2";
  c_GuestMem := "1G"; L1CPUs := "8"; L1Mem := "8G"; BootTimeout := 180 |}.
Definition demo_lines : list string :=
  ["CONFIG_SERIAL_8250_CONSOLE=y"; "CONFIG_PVM_GUEST=y"; "CONFIG_X86_PIE=y"; "CONFIG_PVH=y"; "CONFIG_KVM_PVM=m";
   "CONFIG_KVM_INTEL=m"; "CONFIG_KVM_PVM_STATS=y"; "# CONFIG_DEBUG_INFO is not set"].
Definition demo_machine B (o : bop B) : option B :=
  match o in bop B return option B with
  | Logf _ => Some tt
  | LookPath _ => Some true
  | Getenv k => Some (if has_prefix k "SUDO_" then "1000" else "")
  | StatDir p => Some (Some true)
  | ReadFile p => Some (inr (if has_suffix p ".config" then unlines demo_lines else if has_suffix p "built" then "" else p +:+ nl))
  | WriteFile _ _ _ => Some None
  | MkdirAll _ => Some None
  | MkdirTemp p => Some (inr ("/tmp/" +:+ p))
  | RemoveAll _ => Some tt
  | Remove _ => Some tt
  | Symlink _ _ => Some None
  | Glob _ => Some []
  | Create _ => Some None
  | Gzip _ _ => Some None
  | SizeOf _ => Some (Some 2048)
  | Build.Run _ _ _ _ => Some None
  | RunTo _ _ _ _ => Some None
  | Exec _ _ => Some None
  | Output n _ => Some (None, if seqb n "git" then "0123456789abcdef" +:+ nl else "  0x00000012")
  | ElfOpen _ => Some (inr (false, []))
  | Geteuid => Some 1000
  | OpenRW _ => Some None
  | Executable => Some (Some "/tb/out/bin/pvmtest")
  | Getwd => Some "/work"
  | NumCPU => Some 8
  | Eprint _ => Some tt
  | Mode _ => Some (Some 0x1ed)
  | ReadDir _ => Some (inr [("a", false); ("sub", true); ("b", false)])
  | WalkDir p => Some [(p, ("modules-host", true)); (p +:+ "/kvm.ko", ("kvm.ko", false))]
  | Qemu_ _ _ _ _ => Some (false, None)
  | Print _ => Some tt
  | Append _ _ => Some tt
  | CreateTemp p => Some ("/tmp/" +:+ p)
  | Now _ => Some "20260101-000000"
  | Seconds => Some (SpecFloat.S754_zero false)
  | Which t => Some (Some ("/usr/bin/" +:+ t))
  | Preprocess _ => Some true
  | RunPool _ _ _ _ _ => Some (inr [])
  end.
Lemma BuildKernel_config_witness :
  let p := BuildKernel demo_config "guest" ["CONFIG_DEBUG_INFO=n"] in
  let g0 := KS false false None false in
  let M := kM demo_config "guest" ["CONFIG_DEBUG_INFO=n"] in
  (drive demo_machine p).2 = Returned None ∧ allowed M (drive demo_machine p).1 g0 ∧
  k_made (observe M (drive demo_machine p).1 g0) = true.
Proof.
  cbv zeta. set (p := BuildKernel _ _ _). assert ((drive demo_machine p).2 = Returned None) as Hp by (vm_compute; reflexivity).
  split; [exact Hp|].
  destruct (BuildKernel_config demo_config "guest" ["CONFIG_DEBUG_INFO=n"] (drive demo_machine p).1 (drive demo_machine p).2)
    as [Ha Ho]; [exact (drive_runs demo_machine p)|]. split; [exact Ha|]. destruct (Ho Hp) as [_ Hm]. exact Hm.
Defined.
Lemma BuildRef_stamp_witness :
  let p := BuildRef demo_config "v6" "/linux" "v6.1" "stats" in
  (drive demo_machine p).2 = Returned None ∧
  allowed (rM demo_config "v6" "/linux" "v6.1" "stats") (drive demo_machine p).1 (RS "" false false false false).
Proof.
  cbv zeta. set (p := BuildRef _ _ _ _ _). split; [vm_compute; reflexivity|].
  apply (BuildRef_stamp _ _ _ _ _ _ (drive demo_machine p).2). exact (drive_runs demo_machine p).
Defined.

(** ** The initrd *)
Section Initrd.
Context (c : Config).
(** The temporary directory while it exists; whether the init in it was found
    static since it was built, what was then read of it, and what was
    compressed into the image. *)
Record istate := IS { i_tmp : option string; i_static : bool; i_raw : option string; i_gz : option string }.
Definition i_init (g : istate) : option string := option_map (λ s, path_join s "init") (i_tmp g).
Definition i_obs B (o : bop B) : B → istate → istate :=
  match o in bop B return B → istate → istate with
  | MkdirTemp _ => λ r g, match r with inr s => IS (Some s) false None None | inl _ => g end
  | RemoveAll p => λ _ g, if decide (i_tmp g = Some p) then IS None (i_static g) (i_raw g) (i_gz g) else g
  | Build.Run _ _ n _ => λ _ g, if decide (n = "go") then IS (i_tmp g) false None (i_gz g) else g
  | ElfOpen p => λ r g, if decide (i_init g = Some p) then IS (i_tmp g) (bool_decide (r = inr (false, []))) (i_raw g) (i_gz g) else g
  | ReadFile p => λ r g,
      if decide (i_init g = Some p)
      then IS (i_tmp g) (i_static g) (match r with inr t => Some t | inl _ => None end) (i_gz g) else g
  | Gzip _ d => λ e g, match e with None => IS (i_tmp g) (i_static g) (i_raw g) (Some d) | Some _ => g end
  | _ => λ _ g, g
  end.
Definition iM : monitor bop := {| m_state := istate; m_obs := i_obs; m_pre := λ _ _ _, True; m_ans := λ _ _ _ _, True |}.
Definition packed (g : istate) : Prop :=
  ∃ raw, i_static g = true ∧ i_raw g = Some raw ∧ i_gz g = Some (initrd raw).
Lemma BuildInitrd_wp :
  wp iM (BuildInitrd c) (λ e g, i_tmp g = None ∧ (e = None → packed g)) (λ _ _, True) (IS None false None None).
Proof.
  unfold BuildInitrd. apply wp_with_val, wp_call; [done|]. intros [e|stage] _; [done|]. cbn [iM m_obs i_obs].
  apply wp_bind. eapply (wp_mono iM _ (λ e g, i_tmp g = Some stage ∧ (e = None → packed g)) _ (λ _ _, True)).
  2: { intros e g [Ht Hp]. apply wp_bind, wp_call; [done|]. intros [] _. cbn [iM m_obs i_obs]. rewrite decide_True by done.
       cbn [wp]. split; [done|]. exact Hp. }
  2: done.
  apply wp_bind, wp_call; [done|]. intros [] _. cbn [iM m_obs i_obs]. cbv zeta. unfold goBuildStatic.
  apply wp_andthen, wp_andthen, wp_wrap, wp_call; [done|]. intros [e|] _; [done|]. cbn [option_map iM m_obs i_obs].
  rewrite decide_True by done. unfold CheckStatic. apply wp_bind, wp_call; [done|].
  intros r _. cbn [iM m_obs i_obs]. rewrite decide_True by done. destruct r as [e|[interp libs]]; [done|].
  destruct interp; [done|]. destruct libs as [|]; [|done]. cbn [wp done_ok]. rewrite bool_decide_eq_true_2 by done.
  apply wp_andthen, wp_call; [done|]. intros [e|] _; [done|]. cbn [iM m_obs i_obs].
  apply wp_with_val, wp_call; [done|]. intros [e|raw] _; cbn [iM m_obs i_obs]; rewrite decide_True by done; [done|].
  apply wp_andthen, wp_call; [done|]. intros [e|] _; [done|]. cbn [iM m_obs i_obs].
  apply wp_andthen, wp_call; [done|]. intros [e|] _; [done|]. cbn [iM m_obs i_obs].
  apply wp_bind, wp_call; [done|]. intros [size|] _; [|done]. cbn [iM m_obs i_obs].
  apply wp_bind, wp_call; [done|]. intros [] _. cbn [wp done_ok iM m_obs i_obs]. split; [done|]. intros _. by exists raw.
Qed.
(** When the initrd was built, what was compressed into the image is the
    archive of the init that was read after it was found to be static; and
    the temporary directory is gone however the build returns. *)
Theorem BuildInitrd_image tr e :
  runs (BuildInitrd c) tr (Returned e) →
  let g := observe iM tr (IS None false None None) in i_tmp g = None ∧ (e = None → packed g).
Proof.
  intros Hr g. set (g0 := IS None false None None) in *.
  by destruct (wp_runs iM _ _ _ tr _ g0 BuildInitrd_wp Hr (answered_any iM tr g0 (λ _ _ _ _, I))) as [_ Ho].
Qed.
End Initrd.
Lemma BuildInitrd_image_witness :
  let p := BuildInitrd demo_config in
  (drive demo_machine p).2 = Returned None ∧ packed (observe iM (drive demo_machine p).1 (IS None false None None)).
Proof.
  cbv zeta. set (p := BuildInitrd _). assert ((drive demo_machine p).2 = Returned None) as Hp by (vm_compute; reflexivity).
  split; [exact Hp|]. pose proof (drive_runs demo_machine p) as Hr. rewrite Hp in Hr.
  destruct (BuildInitrd_image demo_config _ _ Hr) as [_ H]. exact (H eq_refl).
Defined.

(** ** The root filesystem *)
(** However the build of the root filesystem leaves, with an image, an
    error, or before it did anything, the last thing it does is to look who
    invoked it through sudo and, if someone did, to give them all of out/. *)
Theorem BuildRootfs_gives_back order c tr e :
  runs (BuildRootfs order c) tr (Returned e) →
  ∃ tr' uid gid, runs (rootfs_body order c) tr' (Returned e) ∧
    if negb (seqb uid "") && negb (seqb gid "")
    then ∃ r, tr = tr' ++ [Ev (Getenv "SUDO_UID") (Some uid); Ev (Getenv "SUDO_GID") (Some gid);
                           Ev (Exec "chown" ["-R"; uid +:+ ":" +:+ gid; Out c]) (Some r)]
    else tr = tr' ++ [Ev (Getenv "SUDO_UID") (Some uid); Ev (Getenv "SUDO_GID") (Some gid)].
Proof.
  unfold BuildRootfs. intros [(a & tr1 & tr2 & -> & H1 & H2)|[(n & _ & [=])|[_ [=]]]]%runs_bind.
  exists tr1. unfold give_back in H2. apply runs_bind in H2 as [([] & tr3 & tr4 & -> & H2 & [-> [= ->]])|[(n & _ & [=])|[_ [=]]]].
  apply runs_bind in H2 as [(uid & t1 & t2 & -> & H2 & H3)|[(n & _ & [=])|[_ [=]]]].
  apply runs_call in H2 as [[_ [=]]|(uid' & -> & [= <-])].
  apply runs_bind in H3 as [(gid & t3 & t4 & -> & H3 & H4)|[(n & _ & [=])|[_ [=]]]].
  apply runs_call in H3 as [[_ [=]]|(gid' & -> & [= <-])].
  exists uid, gid. split; [done|]. destruct (negb (seqb uid "") && negb (seqb gid "")).
  - apply runs_bind in H4 as [(r & t5 & t6 & -> & H4 & [-> _])|[(n & _ & [=])|[_ [=]]]].
    apply runs_call in H4 as [[_ [=]]|(r' & -> & [= <-])]. exists r. by rewrite app_nil_r.
  - destruct H4 as [-> _]. by rewrite app_nil_r.
Qed.
Lemma BuildRootfs_gives_back_witness :
  let p := BuildRootfs id demo_config in
  (drive demo_machine p).2 = Returned None ∧
  ∃ tr', runs (rootfs_body id demo_config) tr' (Returned None).
Proof.
  cbv zeta. set (p := BuildRootfs _ _). assert ((drive demo_machine p).2 = Returned None) as Hp by (vm_compute; reflexivity).
  split; [exact Hp|]. pose proof (drive_runs demo_machine p) as Hr. rewrite Hp in Hr.
  destruct (BuildRootfs_gives_back id demo_config _ _ Hr) as (tr' & uid & gid & H & _). exists tr'. exact H.
Defined.
