(* ===== verification/BuildStages.v ===== *)
(** * What the payload of L1 is built from

    [BuildKUT] and [BuildSelftests] leave the staged files the agent inside L1
    runs: the manifest it parses back, and a file for every test. *)
From Stdlib Require Import Ascii.
From S2P Require Import Prelude GoStrings Regexp Params Agent Spec Checks Run EndToEnd Cpio Prog Build BuildRuns.

#[local] Open Scope Z_scope.

(** What was read so far, the revision git named last, and the files written
    since the stage was last emptied. *)
Record fstate := FS { f_reads : list (string * string); f_sha : string; f_staged : gmap string string }.
Definition f_obs (stage : string) B (o : bop B) : B → fstate → fstate :=
  match o in bop B return B → fstate → fstate with
  | ReadFile p => λ r g, match r with inr t => FS ((p, t) :: f_reads g) (f_sha g) (f_staged g) | inl _ => g end
  | Output _ _ => λ r g, FS (f_reads g) (trim_space r.2) (f_staged g)
  | WriteFile p d _ => λ e g, match e with None => FS (f_reads g) (f_sha g) (<[p := d]> (f_staged g)) | Some _ => g end
  | RemoveAll p => λ _ g, if decide (p = stage) then FS (f_reads g) (f_sha g) ∅ else g
  | _ => λ _ g, g
  end.
Definition fM (stage : string) : monitor bop :=
  {| m_state := fstate; m_obs := f_obs stage; m_pre := λ _ _ _, True; m_ans := λ _ _ _ _, True |}.
Definition f_start : fstate := FS [] "" ∅.
(** What is known of the readings and of the revision stays so. *)
Definition knows (rs : list (string * string)) (sha : string) (g : fstate) : Prop :=
  (∀ x, x ∈ rs → x ∈ f_reads g) ∧ f_sha g = sha.
Definition has (g : fstate) (p : string) : Prop := is_Some (f_staged g !! p).

Lemma wp_each_all (M : monitor bop) {A} (I : m_state M → Prop) (P : A → m_state M → Prop) (l : list A) f g : I g →
  (∀ x g, x ∈ l → I g → wp M (f x) (λ e g', I g' ∧ (∀ y, P y g → P y g') ∧ (e = None → P x g')) (λ _ _, True) g) →
  wp M (each_err l f) (λ e g', I g' ∧ (∀ y, P y g → P y g') ∧ (e = None → ∀ x, x ∈ l → P x g')) (λ _ _, True) g.
Proof.
  revert g. induction l as [|x l IH]; intros g HI Hf; cbn [each_err]; [by split_and!; [..|intros _ x ?%not_elem_of_nil]|].
  apply wp_andthen. eapply wp_mono; [apply Hf; [left|done]| |done]. intros [e|] g1 (HI1 & Hs & Hx); [done|].
  eapply wp_mono; [apply IH; [done|]; intros; apply Hf; [by right|done]| |done]. intros e g2 (HI2 & Hs2 & Hl).
  split_and!; [done|by auto|]. intros He y [->|Hy]%elem_of_cons; [by apply Hs2, Hx|by apply Hl].
Qed.

Lemma staged_insert (g : gmap string string) p d y : is_Some (g !! y) → is_Some (<[p := d]> g !! y).
Proof. intros Hy. destruct (decide (p = y)) as [->|]; [by rewrite lookup_insert_eq; eexists|by rewrite lookup_insert_ne]. Qed.
Lemma staged_here (g : gmap string string) p d : is_Some (<[p := d]> g !! p).
Proof. rewrite lookup_insert_eq. by eexists. Qed.
Lemma staged_at (g : gmap string string) p d : <[p := d]> g !! p = Some d.
Proof. apply lookup_insert_eq. Qed.

Section Stage.
Context (stage : string) (rs : list (string * string)) (sha : string).
(** Copying into the stage: the copy is there, and nothing goes. *)
Lemma copy_wp f src dst mode g : knows rs sha g →
  wp (fM stage) (wrap f (copyFile src dst mode))
    (λ e g', knows rs sha g' ∧ (∀ y, has g y → has g' y) ∧ (e = None → has g' dst)) (λ _ _, True) g.
Proof.
  intros [Hk Hs]. apply wp_wrap. unfold copyFile. apply wp_with_val, wp_call; [done|]. intros [e|raw] _; [done|].
  apply wp_call; [done|]. intros [e|] _; cbn [option_map fM m_obs f_obs].
  - split_and!; [|done..]. split; [|done]. intros x Hx. right. by apply Hk.
  - split_and!; [split; [intros x Hx; right; by apply Hk|done]|intros y; apply staged_insert|intros _; apply staged_here].
Qed.
Lemma copies_wp {A} (l : list A) (src dst : A → string) (f : A → string → string) mode g : knows rs sha g →
  wp (fM stage) (each_err l (λ x, wrap (f x) (copyFile (src x) (dst x) mode)))
    (λ e g', knows rs sha g' ∧ (e = None → ∀ x, x ∈ l → has g' (dst x))) (λ _ _, True) g.
Proof.
  intros Hg. eapply wp_mono; [apply (wp_each_all (fM stage) (knows rs sha) (λ x g, has g (dst x))); [exact Hg|]| |done].
  - intros x g' _ Hk. eapply wp_mono; [by apply copy_wp| |done]. intros e g2 (H0 & H1 & H2).
    by split_and!; [|intros y; apply H1|].
  - by intros e g' (H0 & _ & H).
Qed.
Lemma keeps_wp {A} (p : build A) g : all_ops (@keeps (fM stage) (knows rs sha)) p → knows rs sha g →
  wp (fM stage) p (λ _, knows rs sha) (λ _ _, True) g.
Proof. apply wp_keeps. Qed.
End Stage.
Lemma knows_read rs sha g p t : knows rs sha g → knows ((p, t) :: rs) sha (FS ((p, t) :: f_reads g) (f_sha g) (f_staged g)).
Proof. intros [Hk Hs]. split; [|done]. intros x [->|Hx]%elem_of_cons; [by left|right; by apply Hk]. Qed.
(** Calls that change nothing of what is known. *)
Ltac idle_op := let Hk := fresh in let b := fresh in
  intros ? Hk; split; [exact I|intros b; cbn; repeat case_match; try exact Hk; destruct Hk as [? ?]; split; [|done]; try done;
    intros ? ?; right; auto].
Ltac idle_step := apply wp_andthen; eapply wp_mono; [apply keeps_wp; [walk_build idle_op|eassumption]| |done];
  let Hk := fresh "Hk" in let g := fresh "g" in intros [?|] g Hk; [done|].
Ltac idle_call := apply wp_bind, wp_call; [done|]; intros ? _; cbn [fM m_obs f_obs].

(** ** kvm-unit-tests *)
Definition kut_stage (c : Config) : string := path_join (Out c) "kut".
Definition kut_list (c : Config) : string := joins [Testbed c; "configs"; "kut-tests.txt"].
Definition kut_cfg (c : Config) : string := joins [path_join (path_join (Out c) "kut-build") "src"; "x86"; "unittests.cfg"].
(** The tests selected from the two files read are staged. *)
Definition kut_ready (c : Config) (g : fstate) : Prop :=
  ∃ listed cfg names all tests, (kut_list c, listed) ∈ f_reads g ∧ (kut_cfg c, cfg) ∈ f_reads g ∧
    readList (inr listed) = inr names ∧ parseUnittestsCfg (inr cfg) = inr all ∧ selectKUT all names = inr tests ∧
    f_staged g !! path_join (kut_stage c) "tests.txt" = Some ("# kvm-unit-tests " +:+ f_sha g +:+ nl +:+ kutManifest tests) ∧
    ∀ t, t ∈ tests → has g (path_join (kut_stage c) (t_File t)).
Lemma sortedKeys_spec l x : x ∈ sortedKeys l ↔ x ∈ l.
Proof. unfold sortedKeys, sort_strings. rewrite sort_stable_perm. apply elem_of_remove_dups. Qed.
Lemma stage_files_wp c tests rs sha g : knows rs sha g →
  wp (fM (kut_stage c))
    (each_err (sortedKeys (t_File <$> tests)) (λ f,
       wrap (λ e, f +:+ " did not build: " +:+ e)
         (copyFile (joins [path_join (path_join (Out c) "kut-build") "src"; "x86"; f]) (path_join (kut_stage c) f) 0x1a4)))
    (λ e g, knows rs sha g ∧ (e = None → ∀ t, t ∈ tests → has g (path_join (kut_stage c) (t_File t)))) (λ _ _, True) g.
Proof.
  intros Hg. eapply wp_mono; [by apply (copies_wp (kut_stage c) rs sha)| |done]. intros e g' [H1 H2]. split; [done|].
  intros He t Ht. apply (H2 He), sortedKeys_spec, list_elem_of_fmap. by exists t.
Qed.
Lemma BuildKUT_wp c : wp (fM (kut_stage c)) (BuildKUT c) (λ e g, e = None → kut_ready c g) (λ _ _, True) f_start.
Proof.
  unfold BuildKUT, envOr_b, fileExists.
  do 3 (apply wp_bind, wp_bind, wp_call; [done|]; intros ? _; cbn [wp fM m_obs f_obs]).
  assert (knows [] "" f_start) as Hk0 by done.
  idle_step. unfold rev_parse. apply wp_with_val, wp_bind, wp_call; [done|]. intros [[e|] out] _; [done|]. cbn [wp fM m_obs f_obs fst snd].
  match goal with |- context [FS ?a ?b ?x] => assert (knows [] b (FS a b x)) as Hk1 by (split; [exact (proj1 Hk)|done]); set (sha := b) in *; generalize dependent (FS a sha x) end.
  clear g Hk Hk0. intros g1 Hk1. cbv zeta. idle_step.
  unfold read_list. apply wp_with_val, wp_bind, wp_call; [done|]. intros [e|listed] _; [done|]. cbn [wp fM m_obs f_obs].
  destruct (readList (inr listed)) as [e|names] eqn:En; [done|].
  pose proof (knows_read [] sha _ (joins [Testbed c; "configs"; "kut-tests.txt"]) listed Hk) as Hk2; clear Hk Hk1.
  apply wp_with_val, wp_bind, wp_call; [done|]. intros [e|cfg] _; [done|]. cbn [wp fM m_obs f_obs].
  destruct (parseUnittestsCfg (inr cfg)) as [e|all] eqn:Ea; [done|].
  pose proof (knows_read _ sha _ (kut_cfg c) cfg Hk2) as Hk3; clear Hk2.
  destruct (selectKUT all names) as [e|tests] eqn:Et; [done|].
  idle_call. idle_step. idle_step. idle_call. fold (kut_stage c). rewrite decide_True by done.
  match goal with Hk : knows ?rs sha ?g |- context [FS (f_reads ?g) (f_sha ?g) ∅] =>
    assert (knows rs sha (FS (f_reads g) (f_sha g) ∅)) by exact Hk end.
  idle_step. apply wp_andthen. eapply wp_mono; [by eapply stage_files_wp| |done]. intros [e|] gs [Hk4 Hs]; [done|]. specialize (Hs eq_refl).
  apply wp_andthen, wp_call; [done|]. intros [e|] _; [done|]. idle_call. intros _.
  destruct Hk4 as [Hr Hsha]. exists listed, cfg, names, all, tests. cbn [f_reads f_sha f_staged].
  split_and!; [apply Hr; by right; left|apply Hr; by left|done..| |].
  - rewrite staged_at. by rewrite Hsha.
  - intros t Ht. by apply staged_insert, Hs.
Qed.
(** When kvm-unit-tests were built, the agent inside L1 reads from the staged
    manifest exactly the tests that configs/kut-tests.txt selects of the
    checkout's unittests.cfg, and the binary of each of them is staged beside
    it. *)
Theorem BuildKUT_staged c tr :
  runs (BuildKUT c) tr (Returned None) →
  let g := observe (fM (kut_stage c)) tr f_start in
  ∃ listed cfg names all tests text, (kut_list c, listed) ∈ f_reads g ∧ (kut_cfg c, cfg) ∈ f_reads g ∧
    readList (inr listed) = inr names ∧ parseUnittestsCfg (inr cfg) = inr all ∧ selectKUT all names = inr tests ∧
    f_staged g !! path_join (kut_stage c) "tests.txt" = Some text ∧
    (no_byte ch_nl (f_sha g) = true → Forall manifest_ok tests → ParseKUTManifest text = to_agent <$> tests) ∧
    ∀ t, t ∈ tests → has g (path_join (kut_stage c) (t_File t)).
Proof.
  intros Hr g. destruct (wp_runs (fM (kut_stage c)) _ _ _ tr _ f_start (BuildKUT_wp c) Hr
    (answered_any (fM (kut_stage c)) tr f_start (λ _ _ _ _, I))) as [_ Ho].
  destruct (Ho eq_refl) as (listed & cfg & names & all & tests & H1 & H2 & H3 & H4 & H5 & Hm & Hs).
  exists listed, cfg, names, all, tests. eexists. do 6 (split; [eassumption|]). split; [|exact Hs].
  intros Hsha Hok. apply (manifest_comment_read tests (" kvm-unit-tests " +:+ _)); [done|].
  unfold no_byte in *. rewrite all_bytes_app. apply andb_true_iff. split; [done|exact Hsha].
Qed.

(** The machine of the other demonstrations, whose lists select one test. *)
Definition kut_machine B (o : bop B) : option B :=
  match o in bop B return option B with
  | ReadFile p => Some (inr (if has_suffix p "kut-tests.txt" then "apic" +:+ nl
                             else if has_suffix p "kvm-selftests.txt" then "x86/smm_test" +:+ nl
                             else if has_suffix p "unittests.cfg" then unlines ["[vmexit]"; "file = vmexit.flat"; "[apic]"; "file = apic.flat"; "smp = 2"]
                             else "binary"))
  | o => demo_machine _ o
  end.
Lemma BuildKUT_staged_witness :
  let p := BuildKUT demo_config in
  let g := observe (fM (kut_stage demo_config)) (drive kut_machine p).1 f_start in
  (drive kut_machine p).2 = Returned None ∧ has g "/out/kut/apic.flat" ∧
  ∃ tests text, f_staged g !! "/out/kut/tests.txt" = Some text ∧ ParseKUTManifest text = to_agent <$> tests ∧
    (t_Name <$> tests) = ["apic"].
Proof.
  cbv zeta. set (p := BuildKUT _). assert ((drive kut_machine p).2 = Returned None) as Hp by (vm_compute; reflexivity).
  split; [exact Hp|]. pose proof (drive_runs kut_machine p) as Hr. rewrite Hp in Hr. split; [vm_compute; by eexists|].
  destruct (BuildKUT_staged demo_config _ Hr) as (listed & cfg & names & all & tests & text & H1 & H2 & H3 & H4 & H5 & H6 & H7 & H8).
  set (g := observe _ _ _) in *.
  assert (f_reads g = [("/out/kut-build/src/x86/apic.flat", "binary");
    ("/out/kut-build/src/x86/unittests.cfg", unlines ["[vmexit]"; "file = vmexit.flat"; "[apic]"; "file = apic.flat"; "smp = 2"]);
    ("/tb/configs/kut-tests.txt", "apic" +:+ nl)]) as Er by (vm_compute; reflexivity).
  rewrite Er in H1, H2. rewrite !elem_of_cons in H1, H2.
  destruct H1 as [[=]|[[=]|[[= ->]|H1]]]; [|by apply not_elem_of_nil in H1].
  destruct H2 as [[=]|[[= ->]|[[=]|H2]]]; [|by apply not_elem_of_nil in H2].
  vm_compute in H3. injection H3 as <-. vm_compute in H4. injection H4 as <-. vm_compute in H5. injection H5 as <-.
  match type of H7 with _ → Forall _ ?l → _ => exists l, text end. split; [exact H6|]. split; [|reflexivity]. apply H7; [vm_compute; reflexivity|].
  repeat constructor.
Defined.

(** ** The selftests *)
Definition selftests_stage (c : Config) : string := path_join (Out c) "kvm-selftests".
Definition selftests_list (c : Config) : string := joins [Testbed c; "configs"; "kvm-selftests.txt"].
Definition selftest_file (c : Config) (t : string) : string := path_join (selftests_stage c) (replace_char "/" "__" t).
Lemma BuildSelftests_wp c :
  wp (fM (selftests_stage c)) (BuildSelftests c)
    (λ e g, e = None → ∃ listed tests, (selftests_list c, listed) ∈ f_reads g ∧ readList (inr listed) = inr tests ∧
      tests ≠ [] ∧ ∀ t, t ∈ tests → has g (selftest_file c t)) (λ _ _, True) f_start.
Proof.
  unfold BuildSelftests. assert (knows [] "" f_start) as Hk0 by done.
  idle_step. clear Hk0. unfold read_list. apply wp_with_val, wp_bind, wp_call; [done|]. intros [e|listed] _; [done|]. cbn [wp fM m_obs f_obs].
  destruct (readList (inr listed)) as [e|tests] eqn:En; [done|].
  pose proof (knows_read [] "" _ (selftests_list c) listed Hk) as Hk2; clear Hk.
  destruct tests as [|t0 ts] eqn:Et; [done|]. rewrite <-Et in *. cbv zeta.
  idle_step. clear Hk2. idle_call. idle_step. clear Hk. idle_step. clear Hk0. idle_call. fold (selftests_stage c). rewrite decide_True by done.
  match goal with Hk : knows ?rs "" ?g |- context [FS (f_reads ?g) (f_sha ?g) ∅] =>
    assert (knows rs "" (FS (f_reads g) (f_sha g) ∅)) as Hk0 by exact Hk; clear Hk end.
  idle_step. clear Hk0. apply wp_andthen.
  eapply wp_mono; [by apply (copies_wp (selftests_stage c) [(selftests_list c, listed)] "" _ _ (selftest_file c))| |done].
  intros [e|] gs [[Hr _] Hs]; [done|]. specialize (Hs eq_refl). idle_call. intros _.
  exists listed, tests. split; [apply Hr; by left|]. split; [done|]. split; [by rewrite Et|done].
Qed.
(** Every selftest listed is staged, under its name with the slashes doubled to
    underscores, and something was listed. *)
Theorem BuildSelftests_staged c tr :
  runs (BuildSelftests c) tr (Returned None) →
  let g := observe (fM (selftests_stage c)) tr f_start in
  ∃ listed tests, (selftests_list c, listed) ∈ f_reads g ∧ readList (inr listed) = inr tests ∧
    tests ≠ [] ∧ ∀ t, t ∈ tests → has g (selftest_file c t).
Proof.
  intros Hr g. destruct (wp_runs (fM (selftests_stage c)) _ _ _ tr _ f_start (BuildSelftests_wp c) Hr
    (answered_any (fM (selftests_stage c)) tr f_start (λ _ _ _ _, I))) as [_ Ho]. exact (Ho eq_refl).
Qed.
