(* ===== verification/Checkers.v ===== *)
(** * The log checkers as programs

    [Sanitize], [checkExpected] and the [logChecks] of run.go over the calls of
    [Build]: which files they open and what they print.  What they answer is
    [Checks]'s, for the contents the files have. *)
From Stdlib Require Import Ascii.
From S2P Require Import Prelude GoStrings Regexp Spec Checks Run Prog Build.

#[local] Open Scope Z_scope.

Definition red (s : string) : string := str1 "027" +:+ "[1;31m" +:+ s +:+ str1 "027" +:+ "[0m".
Definition eprint (s : string) : build unit := call (Eprint s).
Definition loadPatterns (path : string) : build (string + list re) :=
  r ← call (ReadFile path); Ret (Checks.loadPatterns path r).

(** ** Sanitize *)
Definition print_group (g : group_) : build unit :=
  eprint ("  " +:+ pad_left " " 3 (itoa (g_n g)) +:+ "x  " +:+ g_line g).
Definition sanitize_log (quiet : bool) (fail allow : list re) (st : scan_state) (f : string) : build scan_state :=
  if contains (Base f) "qemu-debug" then Ret st else
  r ← call (ReadFile f);
  match r with
  | inl _ => warnf ("no such log: " +:+ f) ;; Ret st
  | inr text =>
      let '(known, unknown) := scan_log fail allow text in
      (match unknown with
       | [] => if negb quiet && (0 <? known) then logf (Base f +:+ ": " +:+ itoa known +:+ " known, 0 unknown") else Ret tt
       | _ =>
           eprint "" ;;
           eprint (red (Base f) +:+ "  " +:+ itoa (Z.of_nat (length unknown)) +:+ " unknown, " +:+ itoa known +:+ " known") ;;
           each (collapse unknown) print_group
       end) ;;
      Ret (sanitize_file fail allow (λ _, Some text) st f)
  end.
Definition scan0 : scan_state := {| totalHit := 0; totalKnown := 0; scanned := 0; reports := [] |}.
Definition sanitize_logs (quiet : bool) (fail allow : list re) (files : list string) : build (option string) :=
  st ← each_with files scan0 (sanitize_log quiet fail allow);
  if 0 <? totalHit st then
    eprint "" ;;
    eprint (red ("sanitize-log: " +:+ itoa (totalHit st) +:+ " unexplained kernel complaints in " +:+ itoa (scanned st) +:+ " logs")) ;;
    eprint "If one of them is understood and expected, add it to" ;;
    eprint "  configs/log-allow.txt  -- with the reason." ;;
    Build.fail (itoa (totalHit st) +:+ " unexplained kernel complaints")
  else
    (if quiet then Ret tt else
     eprint (str1 "027" +:+ "[32msanitize-log: " +:+ itoa (scanned st) +:+ " logs clean (" +:+ itoa (totalKnown st) +:+
             " known lines allowed)" +:+ str1 "027" +:+ "[0m")) ;;
    done_ok.
Definition Sanitize (c : Config) (files : list string) (quiet : bool) : build (option string) :=
  with_val (loadPatterns (joins [Testbed c; "configs"; "log-fail.txt"])) (λ fail,
  with_val (loadPatterns (joins [Testbed c; "configs"; "log-allow.txt"])) (λ allow,
    files ← match files with [] => call (Glob (joins [Out c; "logs"; "*.log"])) | _ => Ret files end;
    match files with
    | [] => Build.fail "no logs to scan -- run something first"
    | _ => sanitize_logs quiet fail allow files
    end)).

(** ** Expectations *)
Definition print_note (expectName key : string) (n : note) : build unit :=
  match n with
  | NoExpectation name verdict =>
      warnf (name +:+ ": no expectation recorded for " +:+ key +:+ " (got " +:+ verdict +:+ ")")
  | Changed name want verdict =>
      eprint (str1 "027" +:+ "[1;33mCHANGED" +:+ str1 "027" +:+ "[0m " +:+ pad_right_to 34 name +:+ " " +:+ want +:+ " -> " +:+
              verdict +:+ "  (a gap may have closed; update configs/" +:+ expectName +:+ ")")
  | Regressed name want verdict =>
      eprint (red "REGRESSED" +:+ " " +:+ pad_right_to 32 name +:+ " " +:+ want +:+ " -> " +:+ verdict)
  | DidNotRun name => warnf (name +:+ " is expected for " +:+ key +:+ " but did not run")
  end.
(** The tests the log has a verdict of. *)
Definition tests_seen (prefix raw : string) : nat := size (list_to_set (log_verdicts prefix raw).*1 : gset string).
Definition checkExpected (expectPath logPath prefix key : string) : build (option string) :=
  expect ← call (ReadFile expectPath);
  match readList expect with
  | inl e => Build.fail e
  | inr _ =>
      log ← call (ReadFile logPath);
      let '(notes, err) := Checks.checkExpected expectPath expect log prefix key in
      each notes (print_note (Base expectPath) key) ;;
      match err, log with
      | Some e, _ => Build.fail e
      | None, inl e => Build.fail e
      | None, inr raw =>
          logf (trim_suffix prefix ": " +:+ " (" +:+ key +:+ "): " +:+ itoa (Z.of_nat (tests_seen prefix raw)) +:+
                " tests, all as recorded") ;;
          done_ok
      end
  end.
Definition CheckSelftests (c : Config) (logPath vendor : string) : build (option string) :=
  checkExpected (joins [Testbed c; "configs"; "kvm-selftests-expect.txt"]) logPath "SELFTEST: " vendor.
Definition CheckKUT (c : Config) (logPath config : string) : build (option string) :=
  checkExpected (joins [Testbed c; "configs"; "kut-expect.txt"]) logPath "KUT: " config.

(** ** run.go: the checkers a boot's log goes through *)
Definition prefixed (p : string) (e : option string) : list string := match e with Some e => [p +:+ e] | None => [] end.
Definition logChecks (c : Config) (b : Boot) (log : string) : build (list string) :=
  ex ← fileExists log;
  if negb ex then Ret [] else
  e ← Sanitize c [log] true;
  let suite := Get (b_Item b) "suite" "" in
  more ← (if seqb suite "hosttests" then e ← CheckSelftests c log (Vendor b); Ret (prefixed "selftests: " e)
          else if seqb suite "kut" then e ← CheckKUT c log (kutConfig (b_Item b)); Ret (prefixed "kvm-unit-tests: " e)
          else Ret []);
  Ret (prefixed "sanitize: " e ++ more).
