(* ===== verification/CheckersRuns.v ===== *)
(** * The checkers answer what the files say

    The programs of [Checkers] return what the functions of [Checks] compute
    from the contents of the files they open. *)
From Stdlib Require Import Ascii.
From S2P Require Import Prelude GoStrings Regexp Spec Checks Run Prog Build Checkers.

#[local] Open Scope Z_scope.

(** A file system at rest. *)
Record disk := { content : string → string + string; matching : string → list string; present : string → bool }.
Definition on_disk (d : disk) B (o : bop B) : option B :=
  match o in bop B return option B with
  | ReadFile p => Some (content d p)
  | Glob g => Some (matching d g)
  | StatDir p => Some (if present d p then Some false else None)
  | _ => None
  end.
Definition text_at (d : disk) (p : string) : option string := match content d p with inr t => Some t | inl _ => None end.

(** What the checkers find on a disk. *)
Definition sanitized (d : disk) (c : Config) (files : list string) : option string :=
  let failPath := joins [Testbed c; "configs"; "log-fail.txt"] in
  let allowPath := joins [Testbed c; "configs"; "log-allow.txt"] in
  (Checks.Sanitize failPath allowPath (content d failPath) (content d allowPath) (text_at d)
     (matching d (joins [Out c; "logs"; "*.log"])) files).2.
Definition expected (d : disk) (expectPath logPath prefix key : string) : option string :=
  (Checks.checkExpected expectPath (content d expectPath) (content d logPath) prefix key).2.

Section Answers.
(** Any machine that reads this disk: its other calls answer anything. *)
Context (d : disk) (h : ∀ B, bop B → option B) (Hh : ∀ B (o : bop B) b, on_disk d B o = Some b → h B o = Some b).

Lemma gives_file {C} p (k : string + string → build C) Q : gives h (k (content d p)) Q → gives h (call (ReadFile p) ≫= k) Q.
Proof. apply gives_read. by apply Hh. Qed.
Lemma gives_exists {C} p (k : bool → build C) Q : gives h (k (present d p)) Q → gives h (fileExists p ≫= k) Q.
Proof.
  intros H. apply gives_bind. unfold fileExists. eapply gives_read; [by apply Hh|]. apply gives_ret.
  by destruct (present d p).
Qed.
Lemma gives_val {A} (p : build (string + A)) k (x : string + A) Q :
  gives h p (λ r, r = x) → match x with inl e => Q (Some e) | inr a => gives h (k a) Q end → gives h (with_val p k) Q.
Proof. intros Hp Hk. apply gives_bind. eapply gives_mono; [exact Hp|]. intros r ->. by destruct x. Qed.
Lemma gives_patterns path : gives h (loadPatterns path) (λ r, r = Checks.loadPatterns path (content d path)).
Proof. unfold loadPatterns. by apply gives_file. Qed.

Lemma sanitize_file_text fail allow st f :
  sanitize_file fail allow (text_at d) st f =
  match content d f with
  | inr t => sanitize_file fail allow (λ _, Some t) st f
  | inl _ => st
  end.
Proof. unfold sanitize_file, text_at. destruct (content d f); by destruct (contains _ _). Qed.
Lemma sanitize_log_gives quiet fail allow st f :
  gives h (sanitize_log quiet fail allow st f) (λ st', st' = sanitize_file fail allow (text_at d) st f).
Proof.
  unfold sanitize_log. destruct (contains (Base f) "qemu-debug") eqn:E.
  { apply gives_ret. unfold sanitize_file. by rewrite E. }
  apply gives_file. rewrite sanitize_file_text. destruct (content d f) as [e|t].
  - by apply gives_skip.
  - destruct (scan_log fail allow t) as [known unknown]. by apply gives_skip.
Qed.
Lemma sanitize_logs_gives quiet fail allow files :
  gives h (sanitize_logs quiet fail allow files) (λ e,
    let st := foldl (sanitize_file fail allow (text_at d)) scan0 files in
    e = if 0 <? totalHit st then Some (itoa (totalHit st) +:+ " unexplained kernel complaints") else None).
Proof.
  unfold sanitize_logs. apply gives_bind. eapply gives_each_with; [intros; apply sanitize_log_gives|].
  destruct (0 <? totalHit _); repeat (apply gives_skip; intros ?); by apply gives_ret.
Qed.
Lemma Sanitize_gives c files quiet : gives h (Sanitize c files quiet) (λ e, e = sanitized d c files).
Proof.
  unfold Sanitize, sanitized, Checks.Sanitize. cbv zeta.
  eapply gives_val; [apply gives_patterns|]. destruct (Checks.loadPatterns _ _) as [e|fail]; [done|].
  eapply gives_val; [apply gives_patterns|]. destruct (Checks.loadPatterns _ _) as [e|allow]; [done|].
  apply gives_bind. eapply (gives_mono _ _ (λ l, l = if (length files =? 0)%nat then matching d (joins [Out c; "logs"; "*.log"]) else files)).
  { destruct files as [|f files]; [|by apply gives_ret]. by eapply gives_known; [by apply Hh|]. }
  intros l ->. destruct (if (length files =? 0)%nat then _ else files) as [|f l]; [done|].
  cbn [length Nat.eqb]. apply sanitize_logs_gives.
Qed.
Lemma checkExpected_gives expectPath logPath prefix key :
  gives h (checkExpected expectPath logPath prefix key) (λ e, e = expected d expectPath logPath prefix key).
Proof.
  unfold checkExpected, expected. apply gives_file. destruct (readList (content d expectPath)) as [e|l] eqn:El.
  { apply gives_ret. unfold Checks.checkExpected. by rewrite El. }
  apply gives_file. destruct (Checks.checkExpected _ _ _ _ _) as [notes err] eqn:E. apply gives_skip. intros _. cbn [snd].
  destruct err as [e|]; [by apply gives_ret|]. destruct (content d logPath) as [e|raw].
  { unfold Checks.checkExpected in E. rewrite El in E. by destruct (foldl _ _ l). }
  by apply gives_skip.
Qed.

(** [logChecks] is the list [Run.logChecks] makes of the checkers' answers. *)
Definition checked (c : Config) (b : Boot) (log : string) : list string :=
  Run.logChecks b (present d log) (sanitized d c [log])
    (expected d (joins [Testbed c; "configs"; "kvm-selftests-expect.txt"]) log "SELFTEST: " (Vendor b))
    (expected d (joins [Testbed c; "configs"; "kut-expect.txt"]) log "KUT: " (kutConfig (b_Item b))).
Lemma logChecks_gives c b log : gives h (logChecks c b log) (λ l, l = checked c b log).
Proof.
  unfold logChecks, checked, Run.logChecks. apply gives_exists. destruct (present d log); cbn [negb]; [|by apply gives_ret].
  apply gives_bind. eapply gives_mono; [apply Sanitize_gives|]. intros e ->. apply gives_bind.
  destruct (seqb _ "hosttests").
  { apply gives_bind. eapply gives_mono; [apply checkExpected_gives|]. intros e ->. by apply gives_ret. }
  destruct (seqb _ "kut").
  { apply gives_bind. eapply gives_mono; [apply checkExpected_gives|]. intros e ->. by apply gives_ret. }
  by apply gives_ret.
Qed.
End Answers.
