(* ===== verification/QemuRun.v ===== *)
(** * tools/pvmtest/boot.go: how [runQemu] waits for qemu and ends it

    The processes of the group, the goroutine that waits, the function itself
    and the clock are four actors; a step is one of theirs.  Times are
    nanoseconds since the process was started.  [cmd.Wait] returns when the
    process that was started, the leader of the group, has ended and the
    copying of its output to the log is over; the output is a pipe, since the
    log is a MultiWriter, so a child that outlives the leader and holds the pipe
    keeps [Wait] from returning.  After SIGKILL to the group the leader has ended
    and nothing holds the pipe: the kernel's promise, and that nothing leaves the
    group.  What [runQemu] does before the process is there is in [Payload]. *)
From S2P Require Import Prelude GoStrings Regexp Spec Run.

#[local] Open Scope Z_scope.

Inductive signal := SIGTERM | SIGKILL.
(** What [cmd.Wait] says of a process. *)
Abbreviation status := (option string).
(** Where [runQemu] is: at the first [select], about to send SIGTERM, at the
    second [select] with its timer, about to send SIGKILL, at the last receive,
    or back with an answer. *)
Inductive qmain :=
| AtSelect
| AtTerm
| AtGrace (timer : Z)
| AtKill
| AtReceive
| Back (timedOut : bool) (err : status).
(** The goroutine: in [cmd.Wait], about to send what it returned, done. *)
Inductive qwait := Waits | Sends (st : status) | Gone.
Record qstate := {
  q_main : qmain; q_wait : qwait;
  q_done : option status;          (* the buffered channel *)
  q_leader : option status;        (* what the leader ended with *)
  q_copy : option (option string); (* how the copying of the output ended *)
  q_now : Z;
  q_sent : list (signal * Z) }.    (* newest first *)
Definition grace : Z := 5 * second.
Definition killed : status := Some "signal: killed".

Definition set_main m s := {| q_main := m; q_wait := q_wait s; q_done := q_done s; q_leader := q_leader s; q_copy := q_copy s; q_now := q_now s; q_sent := q_sent s |}.
Definition take_done m s := {| q_main := m; q_wait := q_wait s; q_done := None; q_leader := q_leader s; q_copy := q_copy s; q_now := q_now s; q_sent := q_sent s |}.
Definition kill sg m s := {|
  q_main := m; q_wait := q_wait s; q_done := q_done s;
  q_leader := match sg, q_leader s with SIGKILL, None => Some killed | _, st => st end;
  q_copy := match sg, q_copy s with SIGKILL, None => Some None | _, e => e end;
  q_now := q_now s; q_sent := (sg, q_now s) :: q_sent s |}.
Definition set_wait w d s := {| q_main := q_main s; q_wait := w; q_done := d; q_leader := q_leader s; q_copy := q_copy s; q_now := q_now s; q_sent := q_sent s |}.
Definition set_leader st s := {| q_main := q_main s; q_wait := q_wait s; q_done := q_done s; q_leader := Some st; q_copy := q_copy s; q_now := q_now s; q_sent := q_sent s |}.
Definition set_copy x s := {| q_main := q_main s; q_wait := q_wait s; q_done := q_done s; q_leader := q_leader s; q_copy := Some x; q_now := q_now s; q_sent := q_sent s |}.
Definition set_now t s := {| q_main := q_main s; q_wait := q_wait s; q_done := q_done s; q_leader := q_leader s; q_copy := q_copy s; q_now := t; q_sent := q_sent s |}.

Inductive actor := Main | Waiter | Group | Clock.
#[export] Instance actor_eq_dec : EqDecision actor.
Proof. solve_decision. Defined.

(** What [cmd.Wait] returns once it does: the leader's status, or how the
    copying failed when there is nothing to say of the leader. *)
Definition q_group (s : qstate) : option status :=
  match q_leader s, q_copy s with
  | Some None, Some x => Some x
  | Some (Some e), Some _ => Some (Some e)
  | _, _ => None
  end.
(** A [select] with several cases ready takes any of them. *)
Inductive qstep (timeout : Z) : actor → qstate → qstate → Prop :=
| q_ended s st : q_main s = AtSelect → q_done s = Some st → qstep timeout Main s (take_done (Back false st) s)
| q_timeout s : q_main s = AtSelect → timeout <= q_now s → qstep timeout Main s (set_main AtTerm s)
| q_term s : q_main s = AtTerm → qstep timeout Main s (kill SIGTERM (AtGrace (q_now s + grace)) s)
| q_heeded s t st : q_main s = AtGrace t → q_done s = Some st → qstep timeout Main s (take_done (Back true None) s)
| q_late s t : q_main s = AtGrace t → t <= q_now s → qstep timeout Main s (set_main AtKill s)
| q_kill s : q_main s = AtKill → qstep timeout Main s (kill SIGKILL AtReceive s)
| q_receive s st : q_main s = AtReceive → q_done s = Some st → qstep timeout Main s (take_done (Back true None) s)
| q_waited s st : q_wait s = Waits → q_group s = Some st → qstep timeout Waiter s (set_wait (Sends st) (q_done s) s)
| q_send s st : q_wait s = Sends st → q_done s = None → qstep timeout Waiter s (set_wait Gone (Some st) s)
| q_exit s st : q_leader s = None → qstep timeout Group s (set_leader st s)
| q_copied s x : q_copy s = None → qstep timeout Group s (set_copy x s)
| q_tick s t : q_now s <= t → qstep timeout Clock s (set_now t s).
Definition qstate0 : qstate :=
  {| q_main := AtSelect; q_wait := Waits; q_done := None; q_leader := None; q_copy := None; q_now := 0; q_sent := [] |}.
Inductive qreach (timeout : Z) : qstate → Prop :=
| qr_start : qreach timeout qstate0
| qr_step a s s' : qreach timeout s → qstep timeout a s s' → qreach timeout s'.

(** ** What holds at every moment *)
(** The status is in one place: with the processes, the goroutine, the channel, or
    received. *)
Definition received (m : qmain) : bool := match m with Back _ _ => true | _ => false end.
Definition status_inv (s : qstate) : Prop :=
  match q_wait s with
  | Waits => q_done s = None ∧ received (q_main s) = false
  | Sends st => q_done s = None ∧ received (q_main s) = false ∧ q_group s = Some st
  | Gone => ∃ st, q_group s = Some st ∧
      if received (q_main s) then q_done s = None else q_done s = Some st
  end.
(** The signals sent are those of the place reached. *)
Definition termed (timeout : Z) (s : qstate) (t : Z) : Prop := timeout <= t ∧ t <= q_now s.
Definition signals_inv (timeout : Z) (s : qstate) : Prop :=
  match q_main s with
  | AtSelect | Back false _ => q_sent s = []
  | AtTerm => q_sent s = [] ∧ timeout <= q_now s
  | AtGrace d => ∃ t, q_sent s = [(SIGTERM, t)] ∧ termed timeout s t ∧ d = t + grace
  | AtKill => ∃ t, q_sent s = [(SIGTERM, t)] ∧ termed timeout s t ∧ t + grace <= q_now s
  | AtReceive => ∃ t t', q_sent s = [(SIGKILL, t'); (SIGTERM, t)] ∧ termed timeout s t ∧ t + grace <= t' ∧ is_Some (q_group s)
  | Back true _ => ∃ t, termed timeout s t ∧
      (q_sent s = [(SIGTERM, t)] ∨ ∃ t', q_sent s = [(SIGKILL, t'); (SIGTERM, t)] ∧ t + grace <= t')
  end.
Definition answer_inv (s : qstate) : Prop :=
  match q_main s with Back false st => q_group s = Some st | Back true e => e = None | _ => True end.
Definition qinv (timeout : Z) (s : qstate) : Prop := status_inv s ∧ signals_inv timeout s ∧ answer_inv s.

Ltac qstep_cases H := inversion H; subst; clear H; unfold qinv, status_inv, signals_inv, answer_inv, termed, q_group in *; cbn in *.
Lemma qinv_step timeout a s s' : qinv timeout s → qstep timeout a s s' → qinv timeout s'.
Proof.
  destruct s as [m w d ld cp n l]. intros (H1 & H2 & H3) H. qstep_cases H.
  all: simplify_eq; try destruct m as [| | | | |[] e]; try destruct w; try destruct ld as [[?|]|]; try destruct cp; simplify_eq/=;
    try tauto; try solve [naive_solver lia].
  all: destruct H2 as (t & -> & ? & ?); split; [done|]; split; [|done]; exists t, n; by split_and!; [|lia..|].
Qed.
Lemma qinv_reach timeout s : qreach timeout s → qinv timeout s.
Proof. induction 1; [done|by eapply qinv_step]. Qed.

(** What [Wait] will say does not change. *)
Lemma says_stays timeout a s s' : qstep timeout a s s' → is_Some (q_group s) → is_Some (q_group s').
Proof. unfold q_group. intros H. inversion H; subst; cbn; try done; repeat case_match; naive_solver. Qed.

(** ** It comes back *)
(** What an actor can do, it could do on. *)
Definition can (timeout : Z) (a : actor) (s : qstate) : Prop :=
  match a with
  | Main => match q_main s with
            | AtSelect => is_Some (q_done s) ∨ timeout <= q_now s
            | AtTerm | AtKill => True
            | AtGrace t => is_Some (q_done s) ∨ t <= q_now s
            | AtReceive => is_Some (q_done s)
            | Back _ _ => False
            end
  | Waiter => match q_wait s with Waits => is_Some (q_group s) | Sends _ => q_done s = None | Gone => False end
  | Group => q_leader s = None ∨ q_copy s = None
  | Clock => True
  end.
Lemma can_step timeout a s : can timeout a s ↔ ∃ s', qstep timeout a s s'.
Proof.
  destruct s as [m w d ld cp n l]. split.
  - destruct a; cbn; [destruct m as [| |z| | |b z]|destruct w as [|z|]| |]; intros H; try contradiction; cbn in *; subst; try match type of H with _ ∨ _ => destruct H as [H|H] end;
      try match type of H with is_Some _ => destruct H as [x H] end;
      eexists; first [by eapply q_ended|by eapply q_timeout|by eapply q_term|by eapply q_heeded|by eapply q_late|by eapply q_kill
        |by eapply q_receive|by eapply q_waited|by eapply q_send|by apply q_exit with (st := None)|by apply q_copied with (x := None)|apply (q_tick _ _ n); cbn; lia].
  - intros [s' H]. inversion H; subst; cbn in *; simplify_eq/=; eauto; try by left.
Qed.
(** An endless run, each step by the actor named; time does not stop short. *)
Record execution (timeout : Z) (e : nat → qstate) (by_ : nat → actor) : Prop := {
  x_start : e O = qstate0;
  x_next n : qstep timeout (by_ n) (e n) (e (S n));
  x_time T : ∃ n, T <= q_now (e n) }.
(** An actor that can go on is not passed over for ever. *)
Definition fair (timeout : Z) (e : nat → qstate) (by_ : nat → actor) (a : actor) : Prop :=
  ∀ n, ∃ k, (n <= k)%nat ∧ (by_ k = a ∨ ¬ can timeout a (e k)).

Section Ends.
Context (timeout : Z) (e : nat → qstate) (by_ : nat → actor).
Context (X : execution timeout e by_).
Lemma x_inv n : qinv timeout (e n).
Proof. apply qinv_reach. induction n as [|n IH]; [rewrite (x_start _ _ _ X); constructor|econstructor; [exact IH|apply X]]. Qed.
Lemma now_mono n k : (n <= k)%nat → q_now (e n) <= q_now (e k).
Proof.
  induction 1 as [|k _ IH]; [lia|]. etrans; [exact IH|]. pose proof (x_next _ _ _ X k) as H. inversion H; cbn; lia.
Qed.
(** A fair actor that can act until it does, does. *)
Lemma acts a (P Q : qstate → Prop) :
  fair timeout e by_ a → (∀ s, P s → can timeout a s) →
  (∀ s s' b, qinv timeout s → P s → b ≠ a → qstep timeout b s s' → P s' ∨ Q s') →
  (∀ s s', qinv timeout s → P s → qstep timeout a s s' → Q s') →
  ∀ n, P (e n) → ∃ k, (n <= k)%nat ∧ Q (e k).
Proof.
  intros Hf Hc Hother Hact n HP. destruct (Hf n) as (k & Hk & Hfk).
  assert (∀ j, (n + j <= k)%nat → P (e (n + j)%nat) ∨ ∃ k, (n <= k)%nat ∧ Q (e k)) as Hj.
  { induction j as [|j IH]; intros Hj; [left; by rewrite Nat.add_0_r|].
    destruct IH as [IH|IH]; [lia| |by right]. pose proof (x_next _ _ _ X (n + j)) as Hs.
    replace (n + S j)%nat with (S (n + j))%nat by lia. destruct (decide (by_ (n + j)%nat = a)) as [Ha|Ha].
    - right. exists (S (n + j)). split; [lia|]. rewrite Ha in Hs. by eapply Hact, Hs; [apply x_inv|].
    - destruct (Hother _ _ _ (x_inv _) IH Ha Hs); [by left|]. right. exists (S (n + j)). split; [lia|done]. }
  destruct (Hj (k - n)%nat) as [HP'|?]; [lia| |done]. replace (n + (k - n))%nat with k in HP' by lia.
  destruct Hfk as [Ha|Hn]; [|by destruct Hn; apply Hc]. pose proof (x_next _ _ _ X k) as Hs. rewrite Ha in Hs.
  exists (S k). split; [lia|]. by eapply Hact, Hs; [apply x_inv|].
Qed.
Context (FM : fair timeout e by_ Main) (FW : fair timeout e by_ Waiter).
Definition reaches (n : nat) (R : qmain → Prop) : Prop := ∃ k, (n <= k)%nat ∧ R (q_main (e k)).
Definition back (m : qmain) : Prop := received m = true.
Lemma reaches_then n (R R' : qmain → Prop) :
  reaches n R → (∀ k, R (q_main (e k)) → reaches k R') → reaches n R'.
Proof. intros (k & Hk & HR) H. destruct (H k HR) as (j & Hj & HR'). exists j. split; [lia|done]. Qed.
Lemma reaches_now n (R : qmain → Prop) : R (q_main (e n)) → reaches n R.
Proof. intros H. by exists n. Qed.
Lemma main_only a s s' : qstep timeout a s s' → a ≠ Main → q_main s' = q_main s.
Proof. by intros H; inversion H. Qed.
(** With a timer that has gone off, or none, [runQemu] leaves where it is. *)
Lemma leaves n (m : qmain) (R : qmain → Prop) :
  q_main (e n) = m → (∀ s, q_main s = m → q_now (e n) <= q_now s → can timeout Main s) →
  (∀ s s', qinv timeout s → q_main s = m → qstep timeout Main s s' → R (q_main s')) → reaches n R.
Proof.
  intros Hm Hc Hs. apply (acts Main (λ s, q_main s = m ∧ q_now (e n) <= q_now s) (λ s, R (q_main s))); [done|..].
  - intros s []. by apply Hc.
  - intros s s' b _ [H1 H2] Hb H. left. split; [by rewrite (main_only _ _ _ H Hb)|]. inversion H; cbn; lia.
  - intros s s' Hi [H1 H2] H. by eapply Hs.
  - done.
Qed.
(** Places are only left for later ones. *)
Definition place (m : qmain) : nat :=
  match m with AtSelect => 0 | AtTerm => 1 | AtGrace _ => 2 | AtKill => 3 | AtReceive => 4 | Back _ _ => 5 end.
Lemma place_step a s s' : qstep timeout a s s' → q_main s' = q_main s ∨ (place (q_main s) < place (q_main s'))%nat.
Proof. intros H. inversion H; subst; cbn; try (by left); right; destruct (q_main s); simplify_eq/=; lia. Qed.
Lemma place_mono n k : (n <= k)%nat → q_main (e k) = q_main (e n) ∨ (place (q_main (e n)) < place (q_main (e k)))%nat.
Proof.
  induction 1 as [|k _ IH]; [by left|]. destruct (place_step _ _ _ (x_next _ _ _ X k)) as [->|H]; [done|].
  right. destruct IH as [<-|]; lia.
Qed.
Definition later (m m' : qmain) : Prop := (place m < place m')%nat.
Lemma waits_until n m T (R : ∀ k, q_main (e k) = m → T <= q_now (e k) → reaches k (later m)) :
  q_main (e n) = m → reaches n (later m).
Proof.
  intros Hm. destruct (x_time _ _ _ X T) as (k & Hk). set (j := (n + k)%nat).
  assert (T <= q_now (e j)) as Hj by (etrans; [exact Hk|apply now_mono; lia]).
  destruct (place_mono n j) as [He|He]; [lia| |exists j; split; [lia|by rewrite Hm in He]].
  rewrite Hm in He. destruct (R j He Hj) as (i & Hi & HR). exists i. split; [lia|done].
Qed.
Lemma main_later a s s' : qstep timeout a s s' → a = Main → later (q_main s) (q_main s').
Proof. intros H. inversion H; subst; try done; intros _; unfold later; cbn; destruct (q_main s); simplify_eq/=; lia. Qed.
Lemma leaves_later n m :
  q_main (e n) = m → (∀ s, q_main s = m → q_now (e n) <= q_now s → can timeout Main s) → reaches n (later m).
Proof. intros Hm Hc. eapply leaves; [exact Hm|exact Hc|]. intros s s' _ <- H. by eapply main_later. Qed.

(** At the last receive [Wait] has an answer, so the goroutine sends. *)
Definition unsent (w : qwait → Prop) (s : qstate) : Prop :=
  q_main s = AtReceive ∧ w (q_wait s) ∧ q_done s = None ∧ is_Some (q_group s).
Definition sent (s : qstate) : Prop := q_main s = AtReceive ∧ is_Some (q_done s).
Definition is_sends (w : qwait) : Prop := ∃ st, w = Sends st.
Ltac step_inv H := inversion H; subst; cbn in *; simplify_eq/=; try done.
Lemma unsent_waits n : unsent (λ w, w = Waits) (e n) → ∃ k, (n <= k)%nat ∧ unsent is_sends (e k).
Proof.
  apply (acts Waiter (unsent (λ w, w = Waits)) (unsent is_sends)); [done|..]; unfold unsent.
  - intros s (_ & Hw & _ & Hg). cbn. by rewrite Hw.
  - intros s s' b _ (H1 & H2 & H3 & H4) Hb H. left. pose proof (says_stays _ _ _ _ H H4) as H5. destruct s. step_inv H.
  - intros s s' _ (H1 & H2 & H3 & H4) H. destruct s. step_inv H. refine (conj eq_refl (conj _ (conj eq_refl H4))). by eexists.
Qed.
Lemma unsent_sends n : unsent is_sends (e n) → ∃ k, (n <= k)%nat ∧ sent (e k).
Proof.
  apply (acts Waiter (unsent is_sends) sent); [done|..]; unfold unsent, sent, is_sends.
  - intros s (_ & [st Hw] & Hd & _). cbn. by rewrite Hw.
  - intros s s' b _ (H1 & H2 & H3 & H4) Hb H. left. pose proof (says_stays _ _ _ _ H H4) as H5. destruct s. step_inv H.
  - intros s s' _ (H1 & [st H2] & H3 & H4) H. destruct s. by step_inv H.
Qed.
Lemma sent_leaves n : sent (e n) → reaches n (later AtReceive).
Proof.
  apply (acts Main sent (λ s, later AtReceive (q_main s))); [done|..]; unfold sent.
  - intros s (Hm & Hd). cbn. by rewrite Hm.
  - intros s s' b _ (H1 & H2) Hb H. left. destruct s. step_inv H; by destruct H2.
  - intros s s' _ (<- & _) H. by eapply main_later.
Qed.
Lemma receives n : q_main (e n) = AtReceive → reaches n (later AtReceive).
Proof.
  intros Hm. destruct (x_inv n) as (Hs & Hg & _). unfold status_inv, signals_inv in *. rewrite Hm in Hs, Hg. cbn in Hs.
  destruct Hg as (_ & _ & _ & _ & _ & Hg). assert (∀ k, (n <= k)%nat → sent (e k) → reaches n (later AtReceive)) as Hlast.
  { intros k Hk Hr. destruct (sent_leaves k Hr) as (j & Hj & HR). exists j. split; [lia|done]. }
  assert (∀ k, (n <= k)%nat → unsent is_sends (e k) → reaches n (later AtReceive)) as Hmid.
  { intros k Hk Hu. destruct (unsent_sends k Hu) as (j & Hj & Hr). apply (Hlast j); [lia|done]. }
  destruct (q_wait (e n)) as [|st|] eqn:Ew.
  - destruct (unsent_waits n) as (k & Hk & Hu); [by split_and!; [..|apply Hs|]|by apply (Hmid k)].
  - apply (Hmid n); [lia|]. split_and!; [done|by eexists|apply Hs|done].
  - apply (Hlast n); [lia|]. split; [done|]. destruct Hs as (st & _ & ->). by eexists.
Qed.
Lemma moves_on n m : q_main (e n) = m → received m = false → reaches n (later m).
Proof.
  destruct m as [| |d| | |b st]; intros Hm Hb; [..|done].
  - apply (waits_until n _ timeout); [|done]. intros k Hk Ht. apply leaves_later; [done|].
    intros s Hs Hn. cbn. rewrite Hs. right. lia.
  - apply leaves_later; [done|]. intros s Hs _. cbn. by rewrite Hs.
  - apply (waits_until n _ d); [|done]. intros k Hk Ht. apply leaves_later; [done|].
    intros s Hs Hn. cbn. rewrite Hs. right. lia.
  - apply leaves_later; [done|]. intros s Hs _. cbn. by rewrite Hs.
  - by apply receives.
Qed.
Lemma comes_back n : reaches n (λ m, received m = true).
Proof.
  assert (∀ d n, (5 - place (q_main (e n)) <= d)%nat → reaches n (λ m, received m = true)) as H; [|by eapply H].
  clear n. induction d as [|d IH]; intros n Hd.
  - exists n. split; [lia|]. destruct (q_main (e n)); cbn in *; [lia..|done].
  - destruct (received (q_main (e n))) eqn:Er; [by exists n|].
    destruct (moves_on n _ eq_refl Er) as (k & Hk & Hl). unfold later in Hl.
    destruct (IH k) as (j & Hj & HR); [lia|]. exists j. split; [lia|done].
Qed.
End Ends.

(** C16: When [runQemu] is back, the leader has ended, its output is copied, both
    were waited for, and neither the goroutine nor a status is left over.  It
    says that qemu was not timed out exactly when it sent no signal, and then it
    returns what [Wait] said; otherwise it sent SIGTERM once, not before the
    timeout, and after it nothing, or SIGKILL once and at least five seconds
    later, and it returns no error of qemu.  (Nothing is claimed about a qemu that
    ends while the timer goes off: a select with both ready takes either.) *)
Theorem runQemu_answers timeout s b st :
  qreach timeout s → q_main s = Back b st →
  is_Some (q_leader s) ∧ is_Some (q_copy s) ∧ q_wait s = Gone ∧ q_done s = None ∧
  if b then
    st = None ∧ ∃ t, timeout <= t ∧
      (q_sent s = [(SIGTERM, t)] ∨ ∃ t', t + grace <= t' ∧ q_sent s = [(SIGKILL, t'); (SIGTERM, t)])
  else q_sent s = [] ∧ q_group s = Some st.
Proof.
  intros Hr Hm. destruct (qinv_reach _ _ Hr) as (Hs & Hg & Ha). unfold status_inv, signals_inv, answer_inv, termed in *.
  rewrite Hm in *. cbn in Hs. destruct (q_wait s); [naive_solver..|]. destruct Hs as (x & Hx & Hd).
  assert (is_Some (q_leader s) ∧ is_Some (q_copy s)) as [Hl Hc].
  { unfold q_group in Hx. repeat case_match; simplify_eq; eauto. }
  split_and!; [done..|]. destruct b; [|done]. split; [done|]. naive_solver.
Qed.
(** C34: [runQemu] comes back: on any endless run on which time goes on and
    neither the function nor its goroutine is passed over for ever while it can
    go on, even when qemu never ends by itself and ignores SIGTERM. *)
Theorem runQemu_returns timeout e by_ :
  execution timeout e by_ → fair timeout e by_ Main → fair timeout e by_ Waiter →
  ∃ n b st, q_main (e n) = Back b st.
Proof.
  intros X FM FW. destruct (comes_back timeout e by_ X FM FW 0) as (n & _ & H).
  destruct (q_main (e n)) as [| | | | |b st] eqn:E; [done..|]. by exists n, b, st.
Qed.

(** A qemu that does not end, and is killed. *)
Definition stubborn_steps : list (actor * (qstate → qstate)) :=
  [(Clock, set_now 10); (Main, set_main AtTerm); (Main, kill SIGTERM (AtGrace (10 + grace))); (Clock, set_now (10 + grace));
   (Main, set_main AtKill); (Main, kill SIGKILL AtReceive); (Waiter, set_wait (Sends killed) None);
   (Waiter, set_wait Gone (Some killed)); (Main, take_done (Back true None))].
Definition stubborn_end : qstate := foldl (λ s f, f.2 s) qstate0 stubborn_steps.
Definition stubborn (n : nat) : qstate :=
  if (n <=? 9)%nat then foldl (λ s f, f.2 s) qstate0 (take n stubborn_steps)
  else set_now (10 + grace + Z.of_nat n) stubborn_end.
Definition stubborn_by (n : nat) : actor := nth n (stubborn_steps.*1) Clock.
Lemma stubborn_execution : execution 10 stubborn stubborn_by.
Proof.
  split; [done| |].
  - intros n. do 9 (destruct n as [|n]; [econstructor; cbn; first [done|unfold grace, second; lia]|]).
    change (stubborn_by _) with (nth n [] Clock). replace (nth n [] Clock) with Clock by by destruct n.
    destruct n as [|n].
    + apply (q_tick 10 stubborn_end (10 + grace + 10)). vm_compute. discriminate.
    + apply (q_tick 10 (set_now (10 + grace + Z.of_nat (10 + n)) stubborn_end) (10 + grace + Z.of_nat (11 + n))). cbn. lia.
  - intros T. exists (10 + Z.to_nat T)%nat. change (stubborn _) with (set_now (10 + grace + Z.of_nat (10 + Z.to_nat T)) stubborn_end).
    cbn. unfold grace, second. lia.
Qed.
Lemma stubborn_fair a : (a = Main ∨ a = Waiter) → fair 10 stubborn stubborn_by a.
Proof.
  intros Ha n. exists (10 + n)%nat. split; [lia|]. right.
  change (stubborn _) with (set_now (10 + grace + Z.of_nat (10 + n)) stubborn_end).
  destruct Ha as [-> | ->]; intros H; exact H.
Qed.
Lemma runQemu_answers_witness :
  let s := stubborn 9 in
  q_main s = Back true None ∧ is_Some (q_leader s) ∧ is_Some (q_copy s) ∧ q_wait s = Gone ∧ q_done s = None ∧
  ∃ t, 10 <= t ∧ (q_sent s = [(SIGTERM, t)] ∨ ∃ t', t + grace <= t' ∧ q_sent s = [(SIGKILL, t'); (SIGTERM, t)]).
Proof.
  cbv zeta. split; [reflexivity|].
  assert (∀ n, qreach 10 (stubborn n)) as Hr.
  { induction n as [|n IH]; [constructor|econstructor; [exact IH|apply stubborn_execution]]. }
  destruct (runQemu_answers 10 (stubborn 9) true None (Hr 9%nat) eq_refl) as (H1 & H2 & H3 & H4 & H5).
  split; [exact H1|]. split; [exact H2|]. split; [exact H3|]. split; [exact H4|]. exact (proj2 H5).
Defined.
Lemma runQemu_returns_witness : ∃ n b st, q_main (stubborn n) = Back b st.
Proof.
  apply (runQemu_returns 10 stubborn stubborn_by); [exact stubborn_execution|apply stubborn_fair; by left|apply stubborn_fair; by right].
Defined.
