(* ===== verification/Payload.v ===== *)
(** * tools/pvmtest/boot.go: what a boot of L1 is given

    [stagePayload] fills a directory with what the agent inside L1 reads, and
    [BootL1] starts qemu on it: programs over the calls of [Build].  [Qemu_]
    is the part of [runQemu] that waits ([QemuRun]): its answer is whether it
    timed out and the error, marked when it is qemu's exit status. *)
From Stdlib Require Import Ascii.
From S2P Require Import Prelude GoStrings Regexp Spec Checks Run Boot Prog Build.

#[local] Open Scope Z_scope.

(** ** filepath.Match *)
Inductive gitem :=
| GByte (c : ascii)
| GAny                                             (* ? *)
| GStar
| GClass (neg : bool) (ranges : list (ascii * ascii)).
(** One bound of a range, [getEsc]: not '-' or ']' unless escaped, and not the
    end of the pattern. *)
Definition get_esc (s : list ascii) : option (ascii * list ascii) :=
  match s with
  | c :: s' =>
      if ceq c "-" || ceq c "]" then None else
      let r := if ceq c "\" then match s' with d :: s'' => Some (d, s'') | [] => None end else Some (c, s') in
      match r with Some (_, []) | None => None | r => r end
  | [] => None
  end.
Fixpoint get_ranges (fuel : nat) (acc : list (ascii * ascii)) (s : list ascii) : option (list (ascii * ascii) * list ascii) :=
  match fuel with
  | O => None
  | S fuel =>
      match s, acc with
      | c :: s', _ :: _ =>
          if ceq c "]" then Some (reverse acc, s') else get_range fuel acc s
      | _, _ => get_range fuel acc s
      end
  end
with get_range (fuel : nat) (acc : list (ascii * ascii)) (s : list ascii) : option (list (ascii * ascii) * list ascii) :=
  match fuel with
  | O => None
  | S fuel =>
      match get_esc s with
      | Some (lo, c :: s') =>
          if ceq c "-" then
            match get_esc s' with Some (hi, s'') => get_ranges fuel ((lo, hi) :: acc) s'' | None => None end
          else get_ranges fuel ((lo, lo) :: acc) (c :: s')
      | _ => None
      end
  end.
Fixpoint parse_glob (fuel : nat) (s : list ascii) : option (list gitem) :=
  match fuel with
  | O => None
  | S fuel =>
      match s with
      | [] => Some []
      | c :: s =>
          if ceq c "*" then cons GStar <$> parse_glob fuel s else
          if ceq c "?" then cons GAny <$> parse_glob fuel s else
          if ceq c "[" then
            let '(neg, s) := match s with d :: s' => if ceq d "^" then (true, s') else (false, s) | [] => (false, s) end in
            match get_ranges (2 * length s + 2) [] s with
            | Some (rs, s) => cons (GClass neg rs) <$> parse_glob fuel s
            | None => None
            end else
          if ceq c "\" then match s with d :: s => cons (GByte d) <$> parse_glob fuel s | [] => None end else
          cons (GByte c) <$> parse_glob fuel s
      end
  end.
Definition in_class (neg : bool) (rs : list (ascii * ascii)) (c : ascii) : bool :=
  negb (Bool.eqb (existsb (λ r, in_range r.1 r.2 c) rs) neg).
(** '*' and '?' do not match a slash.  The names matched are those of a
    directory and hold none, so that taking the leftmost place a chunk between
    two stars matches, as the library does, finds a match when there is one. *)
Fixpoint glob_match (p : list gitem) (s : list ascii) : bool :=
  match p with
  | [] => match s with [] => true | _ => false end
  | GStar :: p =>
      (fix star (s : list ascii) : bool :=
         glob_match p s || match s with c :: s => negb (ceq c "/") && star s | [] => false end) s
  | GAny :: p => match s with c :: s => negb (ceq c "/") && glob_match p s | [] => false end
  | GByte d :: p => match s with c :: s => ceq c d && glob_match p s | [] => false end
  | GClass neg rs :: p => match s with c :: s => in_class neg rs c && glob_match p s | [] => false end
  end.
(** A malformed pattern matches nothing. *)
Definition Match (pattern name : string) : bool :=
  match parse_glob (S (slen pattern)) (bytes pattern) with
  | Some p => glob_match p (bytes name)
  | None => false
  end.

Example Match_examples :
  Match "x86__*" "x86__smm_test" = true ∧ Match "*_test" "x86__smm" = false ∧ Match "[a-c]?" "b7" = true ∧
  Match "[^a-c]*" "b" = false ∧ Match "[a-" "a" = false ∧ Match "\*" "*" = true ∧ Match "a*b*c" "axxbyybzc" = true.
Proof. vm_compute. done. Qed.

(** ** env.go: what running needs *)
Definition needRun (c : Config) : build (option string) :=
  need (Qemu c) "Debian/Ubuntu: apt install qemu-system-x86" &&!
  wrap (λ _, "/dev/kvm is not writable: add yourself to the kvm group") (call (OpenRW "/dev/kvm")).

(** ** The payload *)
Definition copyTree (from to glob : string) : build (option string) :=
  es ← call (ReadDir from);
  match es with
  | inl _ => done_ok                             (* nothing to stage *)
  | inr es =>
      call (MkdirAll to) &&!
      each_err es (λ e,
        if e.2 : bool then done_ok else
        if negb (seqb glob "") && negb (Match glob e.1) then done_ok else
        copyFile (path_join from e.1) (path_join to e.1) 0x1ed)
  end.
Definition ld_line (lib l : string) : option string :=
  let f := GoStrings.fields l in
  if (4 <=? length f)%nat && seqb (nth 0 f "") lib then Some (List.last f "") else None.
Definition ldconfigPath (lib : string) : build string :=
  r ← call (Output "ldconfig" ["-p"]);
  Ret (match r.1 with
       | Some _ => ""
       | None => default "" (head (omap (ld_line lib) (split ch_nl r.2)))
       end).
Definition is_module (name : string) : bool := has_prefix name "kvm" && contains name ".ko".
(** What is copied when it can be. *)
Definition try_copy (src dst : string) (mode : Z) : build unit := copyFile src dst mode ;; Ret tt.
Definition stage_modules (c : Config) (dir : string) : build unit :=
  es ← call (WalkDir (path_join (Out c) "modules-host"));
  each es (λ e, if negb e.2.2 && is_module e.2.1 then try_copy e.1 (path_join dir e.2.1) 0x1a4 else Ret tt).
Definition perf_libs : list string := ["libtraceevent.so.1"; "libdw.so.1"].
Definition stage_perf (c : Config) (dir : string) : build unit :=
  perf ← envOr_b "PERF" (joins [Dir (Testbed c); "build-perf-lean"; "perf"]);
  st ← call (Mode perf);
  match st with
  | Some m =>
      if Z.land m 0x49 =? 0 then Ret tt else
      try_copy perf (path_join dir "perf") 0x1ed ;;
      each perf_libs (λ lib,
        p ← ldconfigPath lib;
        if seqb p "" then Ret tt else try_copy p (path_join dir lib) 0x1a4) ;;
      let h := joins [Out c; "images"; "host-vmlinux"] in
      ex ← fileExists h;
      if ex : bool then try_copy h (path_join dir "host-vmlinux") 0x1a4 else Ret tt
  | None => Ret tt
  end.
Definition boot_files : list string := ["guest-vmlinux"; "initrd.cpio.gz"].
Definition stagePayload (c : Config) (dir : string) : build (option string) :=
  let img := path_join (Out c) "images" in
  each_err boot_files (λ f, copyFile (path_join img f) (path_join dir f) 0x1a4) &&!
  let agent := path_join (Out c) "l1agent" in
  (ex ← fileExists agent;
   if negb ex then fail ("no L1 agent at " +:+ agent +:+ " -- pvmtest build agent") else done_ok) &&!
  CheckStatic agent &&!
  copyFile agent (path_join dir "l1agent") 0x1ed &&!
  copyTree (path_join (Out c) "hosttests") (path_join dir "hosttests") "" &&!
  (glob ← call (Getenv "SELFTESTS");
   copyTree (path_join (Out c) "kvm-selftests") (path_join dir "kvm-selftests") glob) &&!
  copyTree (path_join (Out c) "kut") (path_join dir "kut") "" &&!
  (stage_modules c dir ;; stage_perf c dir ;; done_ok).

(** ** Starting qemu *)
Definition runQemu (argv : list string) (log : string) (echo : bool) (timeout : Z) : build (bool * option (bool * string)) :=
  e ← call (MkdirAll (Dir log));
  match e with Some e => Ret (false, Some (false, e)) | None =>
  e ← call (Create log);
  match e with Some e => Ret (false, Some (false, e)) | None => call (Qemu_ argv log echo timeout) end end.

Section BootL1.
Context (ParseFloat : string → option SpecFloat.spec_float).
Definition cpu_freq (d : string) : build (string * option string) :=
  r ← call (ReadFile (joins [d; "cpufreq"; "cpuinfo_max_freq"]));
  Ret (d, match r with inl _ => None | inr t => Some t end).
Fixpoint cpu_freqs (ds : list string) : build (list (string * option string)) :=
  match ds with
  | [] => Ret []
  | d :: ds => x ← cpu_freq d; xs ← cpu_freqs ds; Ret (x :: xs)
  end.
Definition pin_list : build string :=
  v ← call (Getenv "PIN_CPUS");
  if seqb v "none" then Ret "" else
  if negb (seqb v "") then Ret v else
  ds ← call (Glob "/sys/devices/system/cpu/cpu[0-9]*");
  xs ← cpu_freqs ds;
  Ret (PinCPUList ParseFloat v xs).
Definition boot_payload (c : Config) (o : L1Opts) (payload : string) : build (string * option string) :=
  e ← stagePayload c payload;
  match e with Some e => Ret ("", Some e) | None =>
  let o := BootL1_defaults c o in
  pins ← (if Pin o && seqb (Accel o) "kvm" then pin_list else Ret "");
  let argv := L1Argv pins c o payload in
  logf ("booting L1 (KVM vendor=" +:+ o_Vendor o +:+ "), suite=" +:+ o_Suite o) ;;
  r ← runQemu argv (Log o) (Echo o) (o_Timeout o);
  Ret (Log o,
       if r.1 : bool then Some ("L1 timed out after " +:+ Duration_String (o_Timeout o) +:+ " -- see " +:+ Log o) else
       match r.2 with Some (false, e) => Some e | _ => None end)
  end.
Definition boot_l1 (c : Config) (o : L1Opts) : build (string * option string) :=
  e ← needRun c;
  match e with Some e => Ret ("", Some e) | None =>
  let img := path_join (Out c) "images" in
  host ← fileExists (path_join img "host-bzImage");
  if negb host then Ret ("", Some ("no host kernel in " +:+ img +:+ " -- build it first")) else
  rootfs ← fileExists (path_join img "l1-rootfs.ext4");
  if negb rootfs then Ret ("", Some ("no L1 rootfs in " +:+ img +:+ " -- pvmtest build rootfs")) else
  t ← call (MkdirTemp "pvm-payload.");
  match t with inl e => Ret ("", Some e) | inr payload =>
  r ← boot_payload c o payload;
  call (RemoveAll payload) ;; Ret r
  end end.
End BootL1.
