(* ===== verification/PayloadRuns.v ===== *)
(** * What a boot of L1 is given, and what it leaves

    A monitor over the calls of [Payload]: qemu is only started on a directory
    that holds what the agent inside L1 reads, each file a copy of what the
    builds made. *)
From Stdlib Require Import Ascii.
From S2P Require Import Prelude GoStrings Regexp Params Agent Spec Run Boot Prog Build BuildRuns Payload.

#[local] Open Scope Z_scope.

Section Payload.
Context (c : Config).
(** The temporary directory while it exists, and since it was made: the last
    file read, the directories listed, what SELFTESTS was, the files found
    static, and of what each file written is a copy. *)
Record pstate := PS {
  p_tmp : option string; p_last : option (string * string); p_dirs : list (string * list (string * bool)); p_glob : string;
  p_static : list string; p_from : gmap string string }.
Definition p_obs B (o : bop B) : B → pstate → pstate :=
  match o in bop B return B → pstate → pstate with
  | MkdirTemp _ => λ r g, match r with inr d => PS (Some d) None [] "" [] ∅ | inl _ => g end
  | RemoveAll p => λ _ g, if decide (p_tmp g = Some p) then PS None None [] "" [] ∅ else g
  | ReadFile p => λ r g, PS (p_tmp g) (match r with inr t => Some (p, t) | inl _ => None end) (p_dirs g) (p_glob g) (p_static g) (p_from g)
  | WriteFile p d _ => λ e g, PS (p_tmp g) (p_last g) (p_dirs g) (p_glob g) (p_static g)
      (match e, p_last g with
       | None, Some (src, t) => if decide (t = d) then <[p := src]> (p_from g) else delete p (p_from g)
       | _, _ => delete p (p_from g)
       end)
  | ReadDir p => λ r g, match r with
      | inr es => PS (p_tmp g) (p_last g) ((p, es) :: p_dirs g) (p_glob g) (p_static g) (p_from g) | inl _ => g end
  | Getenv k => λ v g, if decide (k = "SELFTESTS") then PS (p_tmp g) (p_last g) (p_dirs g) v (p_static g) (p_from g) else g
  | ElfOpen p => λ r g, match r with
      | inr (false, []) => PS (p_tmp g) (p_last g) (p_dirs g) (p_glob g) (p :: p_static g) (p_from g) | _ => g end
  | _ => λ _ g, g
  end.
(** What a file of the payload is a copy of. *)
Definition source (r : string) : string :=
  if decide (r ∈ boot_files) then path_join (path_join (Out c) "images") r else path_join (Out c) r.
Definition copied (dir : string) (g : pstate) (r : string) : Prop := p_from g !! path_join dir r = Some (source r).
(** The files of a tree that are to be there: all that a glob takes. *)
Definition taken (glob : string) (D : list (string * list (string * bool))) (sub r : string) : Prop :=
  ∃ es n, (path_join (Out c) sub, es) ∈ D ∧ (n, false) ∈ es ∧ (glob = "" ∨ Match glob n = true) ∧ r = path_join sub n.
Definition ready (dir : string) (g : pstate) : Prop :=
  p_tmp g = Some dir ∧ path_join (Out c) "l1agent" ∈ p_static g ∧
  ∀ r, r ∈ "l1agent" :: boot_files ∨ taken "" (p_dirs g) "hosttests" r ∨ taken (p_glob g) (p_dirs g) "kvm-selftests" r ∨
       taken "" (p_dirs g) "kut" r → copied dir g r.
Definition virtfs (dir : string) : string := "local,path=" +:+ dir +:+ ",mount_tag=payload,security_model=none,readonly=on".
Definition p_pre B (o : bop B) (g : pstate) : Prop :=
  match o with Qemu_ argv _ _ _ => ∃ dir, virtfs dir ∈ argv ∧ ready dir g | _ => True end.
Definition p_ans B (o : bop B) : B → pstate → Prop :=
  match o in bop B return B → pstate → Prop with
  | WalkDir _ => λ es _, ∀ e, e ∈ es → no_byte "/" e.2.1 = true
  | _ => λ _ _, True
  end.
Definition pM : monitor bop := {| m_state := pstate; m_obs := p_obs; m_pre := p_pre; m_ans := p_ans |}.

Section Stage.
Context (dir : string).
(** What is known while the payload is staged: the files of [P] are there. *)
Definition at_ (P : string → Prop) (D : list (string * list (string * bool))) (G : string) (S : string → Prop) (g : pstate) : Prop :=
  p_tmp g = Some dir ∧ p_dirs g = D ∧ p_glob g = G ∧ (∀ x, S x → x ∈ p_static g) ∧ ∀ r, P r → copied dir g r.
Lemma path_inj r r' : path_join dir r = path_join dir r' → r = r'.
Proof. apply path_under. Qed.
Lemma copied_insert g r r' D l : copied dir g r' → copied dir (PS (p_tmp g) l (p_dirs g) (p_glob g) D (<[path_join dir r := source r]> (p_from g))) r'.
Proof.
  unfold copied. cbn. intros H. destruct (decide (r = r')) as [->|Hn]; [by rewrite lookup_insert_eq|].
  rewrite lookup_insert_ne; [done|]. by intros ?%path_inj.
Qed.
Lemma copied_here g r D l : copied dir (PS (p_tmp g) l (p_dirs g) (p_glob g) D (<[path_join dir r := source r]> (p_from g))) r.
Proof. unfold copied. cbn. by rewrite lookup_insert_eq. Qed.
(** Copying a file to its place. *)
Lemma copy_at P D G S r src mode g : src = source r → at_ P D G S g →
  wp pM (copyFile src (path_join dir r) mode) (λ e g', e = None → at_ (λ x, P x ∨ x = r) D G S g') (λ _ _, True) g.
Proof.
  intros -> (Ht & HD & HG & HS & HP). unfold copyFile. apply wp_with_val, wp_call; [done|]. intros [e|t] _; [done|].
  apply wp_call; [done|]. intros [e|] _; [done|]. intros _. cbn [pM m_obs p_obs p_last p_from p_tmp p_dirs p_glob p_static].
  rewrite decide_True by done. split_and!; [done..|]. intros x [Hx| ->].
  - by apply (copied_insert g), HP.
  - apply (copied_here g).
Qed.
(** A copy that may fail, of a file that is not among them. *)
Lemma try_at P D G S r src mode g : ¬ P r → at_ P D G S g →
  wp pM (try_copy src (path_join dir r) mode) (λ _ g', at_ P D G S g') (λ _ _, True) g.
Proof.
  intros Hr (Ht & HD & HG & HS & HP). unfold try_copy, copyFile.
  assert (∀ x (m : gmap string string), P x → m !! path_join dir x = p_from g !! path_join dir x → m !! path_join dir x = Some (source x)) as Hkeep.
  { intros x m Hx ->. by apply HP. }
  apply wp_bind, wp_with_val, wp_call; [done|]. intros [e|t] _; [by split_and!|].
  apply wp_call; [done|]. intros e _. cbn [wp pM m_obs p_obs p_last p_from p_tmp p_dirs p_glob p_static].
  split_and!; [done..|]. intros x Hx. unfold copied. cbn [p_from]. apply Hkeep; [done|].
  assert (path_join dir r ≠ path_join dir x) by (by intros <-%path_inj).
  destruct e; [by rewrite lookup_delete_ne|]. rewrite decide_True by done. by rewrite lookup_insert_ne.
Qed.

Lemma at_weaken (P P' : string → Prop) D G S g : (∀ r, P' r → P r) → at_ P D G S g → at_ P' D G S g.
Proof. intros H (?&?&?&?&HP). split_and!; [done..|]. intros r Hr. by apply HP, H. Qed.
(** Calls that change nothing of it. *)
Ltac idle_at := let b := fresh in let H := fresh in
  intros ? H; split; [exact I|intros b; cbn [pM m_obs p_obs]; rewrite ?decide_False by done; repeat case_match; try exact H;
    destruct H as (?&?&?&?&?); split_and!; done].
Lemma idle_wp P D G S {A} (p : build A) g :
  all_ops (@keeps pM (at_ P D G S)) p → at_ P D G S g → wp pM p (λ _, at_ P D G S) (λ _ _, True) g.
Proof. apply wp_keeps. Qed.

Definition taken_of (glob sub : string) (es : list (string * bool)) (r : string) : Prop :=
  ∃ n, (n, false) ∈ es ∧ (glob = "" ∨ Match glob n = true) ∧ r = path_join sub n.
Lemma source_tree sub n : ¬ path_join sub n ∈ boot_files → path_join (path_join (Out c) sub) n = source (path_join sub n).
Proof. intros H. unfold source. rewrite decide_False by done. unfold path_join. by rewrite <-!app_assoc_s. Qed.
Lemma slash_in sub n : no_byte "/" (path_join sub n) = false.
Proof. unfold path_join, no_byte. rewrite !all_bytes_app. change (all_bytes _ "/") with false. apply andb_false_r. Qed.
Lemma tree_not_boot sub n : ¬ path_join sub n ∈ boot_files.
Proof. intros H. pose proof (slash_in sub n) as Hs. unfold boot_files in H. rewrite !elem_of_cons in H. destruct H as [H|[H|H]]; [by rewrite H in Hs..|by apply not_elem_of_nil in H]. Qed.
Lemma tree_loop glob sub D G S es P g : at_ P D G S g →
  wp pM (each_err es (λ e,
        if e.2 : bool then done_ok else
        if negb (seqb glob "") && negb (Match glob e.1) then done_ok else
        copyFile (path_join (path_join (Out c) sub) e.1) (path_join (path_join dir sub) e.1) 0x1ed))
    (λ e g', e = None → at_ (λ r, P r ∨ taken_of glob sub es r) D G S g') (λ _ _, True) g.
Proof.
  revert P g. induction es as [|[n d] es IH]; intros P g Hg; cbn [each_err].
  { intros _. eapply at_weaken, Hg. by intros r [?|(n & H%not_elem_of_nil & _)]. }
  apply wp_andthen. cbn [fst snd].
  eapply (wp_mono pM _ (λ e g', e = None → at_ (λ r, P r ∨ taken_of glob sub [(n, d)] r) D G S g') _ (λ _ _, True)); [| |done].
  - destruct d; [intros _; eapply at_weaken, Hg; by intros r [?|(m & [=]%list_elem_of_singleton & _)]|].
    destruct (negb (seqb glob "") && negb (Match glob n)) eqn:E.
    + intros _. eapply at_weaken, Hg. intros r [?|(m & [= ->]%list_elem_of_singleton & Hm & _)]; [done|].
      apply andb_true_iff in E as [E1%negb_true_iff E2%negb_true_iff]. unfold seqb in E1. apply bool_decide_eq_false in E1.
      destruct Hm; congruence.
    + assert (path_join (path_join dir sub) n = path_join dir (path_join sub n)) as -> by (unfold path_join; by rewrite <-!app_assoc_s).
      eapply wp_mono; [eapply copy_at; [apply source_tree, tree_not_boot|exact Hg]| |done].
      intros e g' He Hn. eapply at_weaken, (He Hn). intros r [?|(m & [= ->]%list_elem_of_singleton & _ & ->)]; [by left|by right].
  - intros [e|] g' He; [done|]. eapply wp_mono; [apply IH, He; done| |done]. intros e g2 H2 Hn. eapply at_weaken, (H2 Hn).
    intros r [?|(m & [[= <- <-]|Hm]%elem_of_cons & Hok & ->)]; [by left; left| |].
    + left. right. eexists; split; [by left|done].
    + right. by exists m.
Qed.
Lemma copyTree_wp glob sub P D G S g : at_ P D G S g →
  wp pM (copyTree (path_join (Out c) sub) (path_join dir sub) glob)
    (λ e g', e = None → ∃ new, (∀ x, x ∈ new → x.1 = path_join (Out c) sub) ∧
       at_ (λ r, P r ∨ taken glob new sub r) (new ++ D) G S g') (λ _ _, True) g.
Proof.
  intros Hg. unfold copyTree. apply wp_bind, wp_call; [done|]. intros [e|es] _; cbn [pM m_obs p_obs].
  { intros _. exists []. split; [by intros x ?%not_elem_of_nil|]. eapply at_weaken, Hg. by intros r [?|(? & ? & H%not_elem_of_nil & _)]. }
  apply wp_andthen, wp_call; [done|]. intros [e|] _; [done|]. cbn [pM m_obs p_obs].
  eapply wp_mono; [eapply (tree_loop glob sub ((path_join (Out c) sub, es) :: D) G S es P)| |done].
  { destruct Hg as (?&HD&?&?&?). split_and!; try done. cbn. by rewrite HD. }
  intros e g' H Hn. exists [(path_join (Out c) sub, es)]. split; [by intros x ->%list_elem_of_singleton|].
  eapply at_weaken, (H Hn). intros r [?|(es' & n & [= ->]%list_elem_of_singleton & Hin & Hok & ->)]; [by left|]. right. by exists n.
Qed.

(** All that is to be there. *)
Definition wanted_files (D : list (string * list (string * bool))) (G r : string) : Prop :=
  r ∈ "l1agent" :: boot_files ∨ taken "" D "hosttests" r ∨ taken G D "kvm-selftests" r ∨ taken "" D "kut" r.
Lemma taken_slash glob D sub r : taken glob D sub r → no_byte "/" r = false.
Proof. intros (es & n & _ & _ & _ & ->). apply slash_in. Qed.
Lemma not_wanted D G r : no_byte "/" r = true → r ∉ "l1agent" :: boot_files → ¬ wanted_files D G r.
Proof. intros Hs Hn [H|[H|[H|H]]]; [done|apply taken_slash in H; congruence..]. Qed.
Lemma not_wanted_name D G r :
  no_byte "/" r && negb (bool_decide (r ∈ "l1agent" :: boot_files)) = true → ¬ wanted_files D G r.
Proof. intros [Hs Hn%negb_true_iff]%andb_true_iff. apply not_wanted; [done|by apply bool_decide_eq_false in Hn]. Qed.
Lemma module_not_wanted D G n : no_byte "/" n = true → is_module n = true → ¬ wanted_files D G n.
Proof.
  intros Hs [Hk _]%andb_true_iff. apply not_wanted; [done|]. unfold boot_files. rewrite !elem_of_cons.
  by intros [->|[->|[->|?%not_elem_of_nil]]].
Qed.
Definition staged_at D G S : pstate → Prop := at_ (wanted_files D G) D G S.
Lemma stage_modules_wp D G S g : staged_at D G S g → wp pM (stage_modules c dir) (λ _, staged_at D G S) (λ _ _, True) g.
Proof.
  intros Hg. unfold stage_modules. apply wp_bind, wp_call; [done|]. intros es Hans. cbn [pM m_obs p_obs].
  apply (wp_each pM (staged_at D G S)); [exact Hg|]. intros [p [n d]] g' Hin Hg'. cbn [fst snd].
  destruct (negb d && is_module n) eqn:E; [|exact Hg']. apply andb_true_iff in E as [_ Hm].
  apply try_at; [|exact Hg']. apply module_not_wanted; [|done]. exact (Hans _ Hin).
Qed.
Lemma stage_perf_wp D G S g : staged_at D G S g → wp pM (stage_perf c dir) (λ _, staged_at D G S) (λ _ _, True) g.
Proof.
  intros Hg. unfold stage_perf, envOr_b. apply wp_bind, wp_bind, wp_call; [done|]. intros v _. cbn [wp pM m_obs p_obs].
  rewrite decide_False by done. apply wp_bind, wp_call; [done|]. intros [m|] _; [|exact Hg]. cbn [pM m_obs p_obs].
  destruct (_ =? 0); [exact Hg|]. apply wp_bind. eapply wp_mono; [apply try_at; [|exact Hg]| |done].
  { by apply not_wanted_name. }
  intros [] g1 Hg1. apply wp_bind. eapply wp_mono; [apply (wp_each pM (staged_at D G S)); [exact Hg1|]| |done].
  - intros lib g2 Hin Hg2. unfold ldconfigPath. apply wp_bind, wp_bind, wp_call; [done|]. intros r _. cbn [wp pM m_obs p_obs].
    destruct (seqb _ ""); [exact Hg2|]. apply try_at; [|exact Hg2].
    unfold perf_libs in Hin. rewrite !elem_of_cons in Hin. destruct Hin as [->|[->|[]%not_elem_of_nil]]; by apply not_wanted_name.
  - intros [] g2 Hg2. cbv zeta. unfold fileExists. apply wp_bind, wp_bind, wp_call; [done|]. intros st _. cbn [wp pM m_obs p_obs].
    destruct (bool_decide _); [|exact Hg2]. apply try_at; [|exact Hg2]. by apply not_wanted_name.
Qed.

Definition agent_static (x : string) : Prop := x = path_join (Out c) "l1agent".
Lemma source_boot f : f ∈ boot_files → path_join (path_join (Out c) "images") f = source f.
Proof. intros H. unfold source. by rewrite decide_True. Qed.
Lemma source_agent : path_join (Out c) "l1agent" = source "l1agent".
Proof. reflexivity. Qed.
Lemma taken_app glob n D sub r : taken glob (n ++ D) sub r ↔ taken glob n sub r ∨ taken glob D sub r.
Proof. unfold taken. setoid_rewrite elem_of_app. naive_solver. Qed.
Lemma taken_other glob n sub sub' r : sub ≠ sub' → (∀ x, x ∈ n → x.1 = path_join (Out c) sub') → ¬ taken glob n sub r.
Proof. intros Hn Hx (es & m & Hin & _). apply Hx in Hin. by apply path_under in Hin. Qed.
Lemma check_agent_wp P D G g : at_ P D G (λ _, False) g →
  wp pM (CheckStatic (path_join (Out c) "l1agent")) (λ e g', e = None → at_ P D G agent_static g') (λ _ _, True) g.
Proof.
  intros (?&?&?&_&?). unfold CheckStatic. apply wp_bind, wp_call; [done|].
  intros [e|[[] [|l ls]]] _; [done..| |done]. cbn [pM m_obs p_obs]. intros _. split_and!; [done..| |done]. by intros x ->; left.
Qed.
Lemma stage_boot_wp g : at_ (λ _, False) [] "" (λ _, False) g →
  wp pM (each_err boot_files (λ f, copyFile (path_join (path_join (Out c) "images") f) (path_join dir f) 0x1a4))
    (λ e g', e = None → at_ (λ r, r ∈ boot_files) [] "" (λ _, False) g') (λ _ _, True) g.
Proof.
  intros Hg. unfold boot_files. cbn [each_err]. apply wp_andthen.
  eapply wp_mono; [eapply copy_at; [apply source_boot; by left|exact Hg]| |done]. intros [e|] g1 H1; [done|]. specialize (H1 eq_refl).
  apply wp_andthen. eapply wp_mono; [eapply copy_at; [apply source_boot; right; by left|exact H1]| |done].
  intros [e|] g2 H2; [done|]. specialize (H2 eq_refl). intros _. eapply at_weaken, H2.
  intros r [->|[->|[]%not_elem_of_nil]%elem_of_cons]%elem_of_cons; [by left; right|by right].
Qed.
Lemma stage_selftests_wp P D S g : at_ P D "" S g →
  wp pM (glob ← call (Getenv "SELFTESTS"); copyTree (path_join (Out c) "kvm-selftests") (path_join dir "kvm-selftests") glob)
    (λ e g', e = None → ∃ G new, (∀ x, x ∈ new → x.1 = path_join (Out c) "kvm-selftests") ∧
       at_ (λ r, P r ∨ taken G new "kvm-selftests" r) (new ++ D) G S g') (λ _ _, True) g.
Proof.
  intros (?&?&?&?&?). apply wp_bind, wp_call; [done|]. intros v _. cbn [pM m_obs p_obs]. rewrite decide_True by done.
  eapply wp_mono; [apply (copyTree_wp v "kvm-selftests" P D v S)| |done]; [by split_and!|].
  intros e g' Hw Hn. destruct (Hw Hn) as (new & Hw1 & Hw2). by exists v, new.
Qed.
Lemma stagePayload_wp g : at_ (λ _, False) [] "" (λ _, False) g →
  wp pM (stagePayload c dir) (λ e g', e = None → ∃ D G, staged_at D G agent_static g') (λ _ _, True) g.
Proof.
  intros Hg. unfold stagePayload. cbv zeta. apply wp_andthen. eapply wp_mono; [by apply stage_boot_wp| |done].
  intros [e|] g1 H1; [done|]. specialize (H1 eq_refl). unfold fileExists. apply wp_andthen, wp_bind, wp_bind, wp_call; [done|].
  intros st _. cbn [wp pM m_obs p_obs]. destruct (negb _); [done|]. cbn [wp done_ok].
  apply wp_andthen. eapply wp_mono; [by apply check_agent_wp| |done]. intros [e|] g2 H2; [done|]. specialize (H2 eq_refl).
  apply wp_andthen. eapply wp_mono; [eapply copy_at; [apply source_agent|exact H2]| |done]. intros [e|] g3 H3; [done|]. specialize (H3 eq_refl).
  apply wp_andthen. eapply wp_mono; [by eapply copyTree_wp| |done]. intros [e|] g4 H4; [done|]. destruct (H4 eq_refl) as (n1 & N1 & A1).
  apply wp_andthen. eapply wp_mono; [by eapply stage_selftests_wp| |done]. intros [e|] g5 H5; [done|]. destruct (H5 eq_refl) as (G & n2 & N2 & A2).
  apply wp_andthen. eapply wp_mono; [by eapply copyTree_wp| |done]. intros [e|] g6 H6; [done|]. destruct (H6 eq_refl) as (n3 & N3 & A3).
  assert (staged_at (n3 ++ n2 ++ n1 ++ []) G agent_static g6) as Hs.
  { eapply at_weaken, A3. intros r. unfold wanted_files. rewrite !taken_app.
    pose proof (λ glob, taken_other glob n1 "kvm-selftests" "hosttests" r) as X1. pose proof (λ glob, taken_other glob n1 "kut" "hosttests" r) as X2.
    pose proof (λ glob, taken_other glob n2 "hosttests" "kvm-selftests" r) as X3. pose proof (λ glob, taken_other glob n2 "kut" "kvm-selftests" r) as X4.
    pose proof (λ glob, taken_other glob n3 "hosttests" "kut" r) as X5. pose proof (λ glob, taken_other glob n3 "kvm-selftests" "kut" r) as X6.
    assert (∀ glob sub, ¬ taken glob [] sub r) as X7 by by intros ? ? (? & ? & ?%not_elem_of_nil & _).
    rewrite elem_of_cons. naive_solver. }
  apply wp_bind. eapply wp_mono; [apply stage_modules_wp, Hs| |done]. intros [] g7 H7.
  apply wp_bind. eapply wp_mono; [apply stage_perf_wp, H7| |done]. intros [] g8 H8. intros _. by eexists _, _.
Qed.
End Stage.

Section Boots.
Context (ParseFloat : string → option SpecFloat.spec_float) (o : L1Opts).
Definition p_start : pstate := PS None None [] "" [] ∅.
Lemma virtfs_in pins o' dir : virtfs dir ∈ L1Argv pins c o' dir.
Proof. unfold L1Argv. cbv zeta. rewrite !elem_of_app. right. left. rewrite !elem_of_cons. unfold virtfs. tauto. Qed.
Lemma staged_ready dir D G g : staged_at dir D G agent_static g → ready dir g.
Proof. intros (Ht & <- & <- & HS & HP). split_and!; [done|by apply HS|]. intros r Hr. by apply HP. Qed.
Lemma pin_list_wp dir D G S g : staged_at dir D G S g → wp pM (pin_list ParseFloat) (λ _, staged_at dir D G S) (λ _ _, True) g.
Proof.
  intros Hg. unfold pin_list. apply wp_bind, wp_call; [done|]. intros v _. cbn [pM m_obs p_obs]. rewrite decide_False by done.
  destruct (seqb v "none"); [exact Hg|]. destruct (negb _); [exact Hg|]. apply wp_bind, wp_call; [done|]. intros ds _. cbn [pM m_obs p_obs].
  apply wp_bind. eapply (wp_mono pM _ (λ _, staged_at dir D G S) _ (λ _ _, True)); [|by intros|done].
  revert g Hg. induction ds as [|d ds IH]; intros g Hg; cbn [cpu_freqs]; [exact Hg|].
  apply wp_bind. unfold cpu_freq. apply wp_bind, wp_call; [done|]. intros r _. cbn [wp].
  apply wp_bind. eapply wp_mono; [apply IH|by intros|done]. destruct Hg as (?&?&?&?&?). by split_and!.
Qed.
Lemma boot_payload_wp dir g : at_ dir (λ _, False) [] "" (λ _, False) g →
  wp pM (boot_payload ParseFloat c o dir) (λ _ _, True) (λ _ _, True) g.
Proof.
  intros Hg. unfold boot_payload. apply wp_bind. eapply wp_mono; [by apply stagePayload_wp| |done].
  intros [e|] g1 H1; [done|]. destruct (H1 eq_refl) as (D & G & Hs). cbv zeta. apply wp_bind.
  eapply (wp_mono pM _ (λ _, staged_at dir D G agent_static) _ (λ _ _, True)); [|intros pins g2 H2|done].
  { destruct (_ && _); [by apply pin_list_wp|exact Hs]. }
  apply wp_bind, wp_call; [done|]. intros [] _. cbn [pM m_obs p_obs]. apply wp_bind. unfold runQemu.
  apply wp_bind, wp_call; [done|]. intros [e|] _; [done|]. apply wp_bind, wp_call; [done|]. intros [e|] _; [done|].
  apply wp_call; [|done]. exists dir. split; [apply virtfs_in|by eapply staged_ready].
Qed.
Ltac no_tmp := let b := fresh in intros ? ?; split; [exact I|intros b; cbn; repeat case_match; try case_decide; done].
Lemma boot_l1_wp : wp pM (boot_l1 ParseFloat c o) (λ _ _, True) (λ _ _, True) p_start.
Proof.
  unfold boot_l1, needRun. apply wp_bind. eapply wp_mono; [apply (wp_keeps pM (λ _, True)); [|done]| |done].
  { walk_build no_tmp. }
  intros [e|] g1 _; [done|]. cbv zeta. unfold fileExists. apply wp_bind, wp_bind, wp_call; [done|]. intros st _. cbn [wp].
  destruct (negb _); [done|]. apply wp_bind, wp_bind, wp_call; [done|]. intros st' _. cbn [wp].
  destruct (negb _); [done|]. apply wp_bind, wp_call; [done|]. intros [e|dir] _; [done|]. cbn [pM m_obs p_obs].
  apply wp_bind. eapply wp_mono; [apply (boot_payload_wp dir)| |done]; [by split_and!|].
  intros r g _. apply wp_bind, wp_call; [done|]. by intros [] _.
Qed.

(** The same calls, none of them minded: the directory. *)
Definition tM : monitor bop := {| m_state := pstate; m_obs := p_obs; m_pre := λ _ _ _, True; m_ans := λ _ _ _ _, True |}.
Ltac keep_tmp := let H := fresh in let b := fresh in
  intros ? H; split; [exact I|intros b; cbn; repeat case_match; try case_decide; first [exact H|done]].
Lemma freqs_ops dir ds : all_ops (@keeps tM (λ g, p_tmp g = Some dir)) (cpu_freqs ds).
Proof.
  induction ds as [|d ds IH]; cbn [cpu_freqs]; [done|]. unfold cpu_freq. apply all_ops_bind; [walk_build keep_tmp|].
  intros x. apply all_ops_bind; [exact IH|done].
Qed.
Lemma boot_l1_tmp : wp tM (boot_l1 ParseFloat c o) (λ _ g, p_tmp g = None) (λ _ _, True) p_start.
Proof.
  unfold boot_l1, needRun. apply wp_bind. eapply wp_mono; [apply (wp_keeps tM (λ g, p_tmp g = None)); [|done]| |done].
  { walk_build keep_tmp. }
  intros [e|] g1 Hg1; [done|]. cbv zeta. unfold fileExists. apply wp_bind, wp_bind, wp_call; [done|]. intros st _. cbn [wp tM m_obs p_obs].
  destruct (negb _); [done|]. apply wp_bind, wp_bind, wp_call; [done|]. intros st' _. cbn [wp tM m_obs p_obs].
  destruct (negb _); [done|]. apply wp_bind, wp_call; [done|]. intros [e|dir] _; [done|]. cbn [tM m_obs p_obs].
  apply wp_bind. eapply wp_mono; [apply (wp_keeps tM (λ g, p_tmp g = Some dir)); [|done]| |done].
  - unfold boot_payload, stagePayload, copyTree, stage_modules, stage_perf, ldconfigPath, runQemu, pin_list, try_copy.
    cbv zeta. walk_build keep_tmp.
    + intros es. apply all_ops_each. intros e. walk_build keep_tmp.
    + apply freqs_ops.
  - intros r g Ht. apply wp_bind, wp_call; [done|]. intros [] _. cbn [wp tM m_obs p_obs]. by rewrite decide_True.
Qed.
(** C17: qemu is only started for L1 on a temporary directory of its own that
    holds the guest kernel and initrd, an agent found to be static, every file
    of the host tests and of the staged kvm-unit-tests, and every selftest that
    SELFTESTS takes, each a copy of what was built; and the directory is gone
    however [BootL1] returns. *)
Theorem boot_l1_payload tr r :
  runs (boot_l1 ParseFloat c o) tr (Returned r) → answered pM tr p_start →
  allowed pM tr p_start ∧ p_tmp (observe pM tr p_start) = None.
Proof.
  intros Hr Ha. split.
  - apply (wp_runs pM _ _ _ tr _ p_start boot_l1_wp Hr Ha).
  - change (observe pM tr p_start) with (observe tM tr p_start).
    apply (wp_runs tM _ _ _ tr _ p_start boot_l1_tmp Hr (answered_any tM tr p_start (λ _ _ _ _, I))).
Qed.
End Boots.
End Payload.

Definition demo_opts : L1Opts := {|
  o_Suite := "default"; o_Vendor := "pvm"; Guest := []; Mod := []; o_CPUs := ""; Mem := ""; Profile := ""; L1Args := [];
  Accel := ""; CPU := ""; o_Timeout := 0; Log := ""; Echo := false; Pin := true; QMP := ""; Debug_ := "" |}.
Definition is_start B (o : bop B) : bool := match o with Qemu_ _ _ _ _ => true | _ => false end.
Lemma boot_l1_payload_witness :
  let p := boot_l1 (λ _, None) demo_config demo_opts in
  let tr := (drive demo_machine p).1 in
  (drive demo_machine p).2 = Returned ("/out/logs/l1-default-pvm.log", None) ∧
  existsb (λ '(Ev o _), is_start _ o) tr = true ∧ allowed (pM demo_config) tr p_start ∧
  p_tmp (observe (pM demo_config) tr p_start) = None.
Proof.
  cbv zeta. set (p := boot_l1 _ _ _).
  assert ((drive demo_machine p).2 = Returned ("/out/logs/l1-default-pvm.log", None)) as Hp by (vm_compute; reflexivity).
  split; [exact Hp|]. split; [vm_compute; reflexivity|]. pose proof (drive_runs demo_machine p) as Hr. rewrite Hp in Hr.
  apply (boot_l1_payload demo_config (λ _, None) demo_opts _ _ Hr).
  vm_compute. repeat split. intros e He. repeat (apply elem_of_cons in He as [->|He]); [..|by apply not_elem_of_nil in He]; reflexivity.
Defined.
