(* ===== verification/GuestBoots.v ===== *)
(** * tools/pvmtest/boot.go: the boots on this machine, as programs

    [BootGuest], [HostSelftest] and [Regress] over the calls of [Build], with
    what they print; and that they answer what the functions of [Boot] compute
    from what qemu does and the disk holds. *)
From Stdlib Require Import Ascii.
From S2P Require Import Prelude GoStrings Regexp Spec ParseLog Checks Run Boot Prog Build Checkers CheckersRuns Payload.

#[local] Open Scope Z_scope.

Definition shade (n word : string) : string := str1 "027" +:+ "[" +:+ n +:+ "m" +:+ word +:+ str1 "027" +:+ "[0m".
Section GuestBoots.
Context (ParseFloat : string → option SpecFloat.spec_float).
Definition or_empty (r : string + string) : string := match r with inr t => t | inl _ => "" end.
(** The end of [BootGuest], from the log. *)
Definition report_guest (c : Config) (name log : string) : build (option string) :=
  san ← Sanitize c [log] true;
  raw ← call (ReadFile log);
  match find resultRe0 (or_empty raw) with
  | Some x =>
      if seqb (group 1 x) "ok" then
        logf (name +:+ ": " +:+ trim_space (group 0 x)) ;;
        match san with
        | Some _ => fail (name +:+ ": every case passed, but the kernel log did not")
        | None => done_ok
        end
      else
        warnf (name +:+ ": " +:+ trim_space (group 0 x)) ;;
        fail (name +:+ " failed")
  | None => fail (name +:+ ": the guest never reported a result -- see " +:+ log)
  end.
Definition boot_guest (c : Config) (o : GuestOpts) (kernel initrd log : string) : build (option string) :=
  pins ← pin_list ParseFloat;
  logf ("booting " +:+ g_Name o +:+ " (" +:+ Base kernel +:+ ")") ;;
  r ← runQemu (guest_argv pins c o kernel initrd) log (g_Echo o) (int64 (BootTimeout c * second));
  if r.1 : bool then fail (g_Name o +:+ ": timed out after " +:+ itoa (BootTimeout c) +:+ "s -- see " +:+ log) else
  report_guest c (g_Name o) log.
Definition BootGuest (c : Config) (o : GuestOpts) : build (option string) :=
  needRun c &&!
  let o := guest_defaults o in
  let img := path_join (Out c) "images" in
  match guest_kernel img o with
  | inl e => fail e
  | inr kernel =>
      ex ← fileExists kernel;
      if negb ex then fail ("no " +:+ kernel +:+ " -- build the guest kernel first") else
      let initrd := path_join img "initrd.cpio.gz" in
      ex ← fileExists initrd;
      if negb ex then fail "no initrd -- pvmtest build initrd" else
      boot_guest c o kernel initrd (path_join (path_join (Out c) "logs") (g_Name o +:+ ".log"))
  end.

Definition opsRe : re := must_compile "WARNING:.*kvm-x86-(nested-|pmu-)?ops\.h".
(** How many matches [FindAll] finds; the pattern matches no empty text, so the
    length of the text is fuel enough. *)
Fixpoint count_matches (fuel : nat) (r : re) (prev : option ascii) (s : string) : nat :=
  match fuel with
  | O => O
  | S fuel =>
      match find_from r prev "" s with
      | None => O
      | Some x => S (count_matches fuel r (m_prev (r_end x)) (m_rest (r_end x)))
      end
  end.
Example count_matches_ops :
  count_matches 200 opsRe None (unlines ["WARNING: CPU: 0 at kvm-x86-ops.h:3"; "x WARNING: kvm-x86-pmu-ops.h"; "kvm-x86-ops.h"]) = 2%nat.
Proof. vm_compute. reflexivity. Qed.
Definition report_host (c : Config) (log : string) : build (option string) :=
  raw ← call (ReadFile log);
  let raw := or_empty raw in
  if negb (is_match upRe raw) then fail ("the host kernel never reached user space -- see " +:+ log) else
  logf ("host kernel reached user space; " +:+ itoa (Z.of_nat (count_matches (S (slen raw)) opsRe None raw)) +:+
        " missing-kvm_x86_ops warnings") ;;
  Sanitize c [log] true.
Definition HostSelftest (c : Config) : build (option string) :=
  needRun c &&!
  let log := path_join (path_join (Out c) "logs") "host-selftest.log" in
  (r ← runQemu (host_argv c) log false (int64 (BootTimeout c * second));
   if r.1 : bool then fail ("host kernel timed out -- see " +:+ log) else report_host c log).

(** One step of [Regress]: the number of failures after it. *)
Definition regress_step (n : nat) (s : string * build (option string)) : build nat :=
  eprint "" ;;
  eprint (shade "1" ("--- " +:+ s.1)) ;;
  e ← s.2;
  match e with
  | Some e => eprint (shade "31" "FAIL" +:+ " " +:+ s.1 +:+ ": " +:+ e) ;; Ret (S n)
  | None => eprint (shade "32" "PASS" +:+ " " +:+ s.1) ;; Ret n
  end.
Definition Regress (c : Config) : build (option string) :=
  failed ← each_with
    [("guest / PVH / smoke", BootGuest c (regress_guest "pvh" "smoke"));
     ("guest / bzImage / smoke", BootGuest c (regress_guest "bzimage" "smoke"));
     ("guest / PVH / default", BootGuest c (regress_guest "pvh" "default"));
     ("host kernel boots", HostSelftest c)] 0%nat regress_step;
  if (0 <? failed)%nat then fail (itoa (Z.of_nat failed) +:+ " regression check(s) failed") else
  eprint "" ;; eprint (shade "32" "all regression checks passed") ;; done_ok.
End GuestBoots.

(** ** The programs answer what [Boot] computes *)
Section Refines.
Context (ParseFloat : string → option SpecFloat.spec_float).
Context (d : disk) (h : ∀ B, bop B → option B) (Hh : ∀ B (o : bop B) b, on_disk d B o = Some b → h B o = Some b).
(** Whether this machine can run qemu, the CPUs it pins to and which of its
    qemus time out. *)
Context (c : Config) (need : option string) (pins : string) (late : list string → string → Z → bool).
Context (Hneed : gives h (needRun c) (λ e, e = need)) (Hpins : gives h (pin_list ParseFloat) (λ p, p = pins)).
Context (Hqemu : ∀ argv log echo t, gives h (runQemu argv log echo t) (λ r, r.1 = late argv log t)).
Definition qemu_of (argv : list string) (log : string) (t : Z) : qemu_run :=
  {| timedOut := late argv log t; startErr := None; rawLog := or_empty (content d log) |}.
Definition clean_of (log : string) : option string := sanitized d c [log].

Lemma report_guest_gives name log :
  gives h (report_guest c name log) (λ e, e = guest_verdict clean_of name log (or_empty (content d log))).
Proof.
  unfold report_guest, guest_verdict. apply gives_bind. eapply gives_mono; [by apply Sanitize_gives|]. intros san ->.
  eapply gives_file; [done|]. destruct (find resultRe0 _) as [x|]; [|by apply gives_ret].
  destruct (seqb (group 1 x) "ok"); apply gives_skip; intros _; [|by apply gives_ret].
  unfold clean_of. destruct (sanitized d c [log]); by apply gives_ret.
Qed.
Lemma after_needRun (k : build (option string)) Q :
  match need with Some e => Q (Some e) | None => gives h k Q end → gives h (needRun c &&! k) Q.
Proof. intros Hk. apply gives_bind. eapply gives_mono; [exact Hneed|]. intros e ->. by destruct need. Qed.
Lemma BootGuest_gives o : gives h (BootGuest ParseFloat c o) (λ e, e = Boot.BootGuest need (present d) pins qemu_of clean_of c o).
Proof.
  unfold BootGuest, Boot.BootGuest. apply after_needRun. destruct need as [e|]; [done|]. cbv zeta.
  destruct (guest_kernel _ _) as [e|kernel]; [by apply gives_ret|].
  eapply gives_exists; [done|]. destruct (present d kernel); cbn [negb]; [|by apply gives_ret].
  eapply gives_exists; [done|]. destruct (present d _); cbn [negb]; [|by apply gives_ret].
  unfold boot_guest. apply gives_bind. eapply gives_mono; [exact Hpins|]. intros p ->. apply gives_skip. intros _.
  apply gives_bind. eapply gives_mono; [apply Hqemu|]. intros [t r] Ht. cbn [fst] in *. subst t.
  unfold qemu_of at 1. cbn [timedOut]. destruct (late _ _ _); [by apply gives_ret|]. apply report_guest_gives.
Qed.
Lemma HostSelftest_gives : gives h (HostSelftest c) (λ e, e = Boot.HostSelftest need qemu_of clean_of c).
Proof.
  unfold HostSelftest, Boot.HostSelftest. apply after_needRun. destruct need as [e|]; [done|]. cbv zeta.
  apply gives_bind. eapply gives_mono; [apply Hqemu|]. intros [t r] Ht. cbn [fst] in *. subst t.
  unfold qemu_of at 1. cbn [timedOut]. destruct (late _ _ _); [by apply gives_ret|].
  unfold report_host. eapply gives_file; [done|]. unfold qemu_of. cbn [rawLog].
  destruct (is_match upRe _); cbn [negb]; [|by apply gives_ret]. apply gives_skip. intros _. by apply Sanitize_gives.
Qed.
Lemma regress_step_gives n s r : gives h s.2 (λ e, e = r) →
  gives h (regress_step n s) (λ n', n' = match r with Some _ => n + 1 | None => n end)%nat.
Proof.
  intros Hs. unfold regress_step. apply gives_skip. intros _. apply gives_skip. intros _. apply gives_bind.
  eapply gives_mono; [exact Hs|]. intros e ->. destruct r; apply gives_skip; intros _; apply gives_ret; lia.
Qed.
Lemma step_then {B} n s r (k : nat → build B) Q : gives h s.2 (λ e, e = r) →
  gives h (k (match r with Some _ => n + 1 | None => n end)%nat) Q → gives h (regress_step n s ≫= k) Q.
Proof. intros Hs Hk. apply gives_bind. eapply gives_mono; [by apply regress_step_gives|]. by intros ? ->. Qed.

(** C10: [pvmtest regress] answers what [Boot.Regress] computes from what its
    machine holds, whatever else it answers; so it succeeds exactly when the
    machine can run qemu, each of the three guest boots ended in time with an ok
    result and a clean kernel log, and the host kernel reached user space with a
    clean log. *)
Theorem regress_program tr e :
  runs (Regress ParseFloat c) tr (Returned e) → answered (given h) tr tt →
  e = Boot.Regress need (present d) pins qemu_of clean_of c ∧
  (e = None ↔ need = None ∧
     guest_passed (present d) pins qemu_of clean_of c (regress_guest "pvh" "smoke") ∧
     guest_passed (present d) pins qemu_of clean_of c (regress_guest "bzimage" "smoke") ∧
     guest_passed (present d) pins qemu_of clean_of c (regress_guest "pvh" "default") ∧ host_passed qemu_of clean_of c).
Proof.
  intros Hr Ha.
  assert (e = Boot.Regress need (present d) pins qemu_of clean_of c) as He.
  { refine (gives_runs h _ (λ e, e = _) tr e _ Hr Ha). unfold Regress, Boot.Regress. cbv zeta. apply gives_bind. cbn [each_with].
    do 3 (eapply step_then; [apply BootGuest_gives|]). eapply step_then; [apply HostSelftest_gives|]. apply gives_ret. cbn [foldl].
    destruct (0 <? _)%nat; [by apply gives_ret|]. apply gives_skip; intros _. apply gives_skip; intros _. by apply gives_ret. }
  split; [exact He|]. rewrite He. apply Boot.Regress_ok.
Qed.
End Refines.

(** ** A machine on which everything passes *)
Definition demo_log_text : string := unlines ["PVMINIT: up  tag=t suite=smoke pid=1"; "PVMTEST-RESULT: ok tag=t suite=smoke pass=3 fail=0"].
Definition demo_disk : disk := {|
  content := λ p, if has_suffix p "log-fail.txt" then inr (unlines ["# complaints"; "BUG:"; "WARNING:"])
                  else if has_suffix p "log-allow.txt" then inr ""
                  else if has_suffix p ".log" then inr demo_log_text else inl "no such file";
  matching := λ _, []; present := λ _, true |}.
Definition demo_host B (o : bop B) : option B :=
  match on_disk demo_disk B o with
  | Some b => Some b
  | None =>
      match o in bop B return option B with
      | LookPath _ => Some true
      | OpenRW _ => Some None
      | Getenv _ => Some "none"
      | MkdirAll _ => Some None
      | Create _ => Some None
      | Qemu_ _ _ _ _ => Some (false, None)
      | Logf _ => Some tt
      | Eprint _ => Some tt
      | _ => None
      end
  end.
Definition no_floats (s : string) : option SpecFloat.spec_float := None.
Definition demo_boot_config : Config := {|
  Testbed := "/tb"; Out := "/out"; Cache := "/cache"; KSRC := ""; Jobs := 4; Qemu := "qemu"; c_GuestCPUs := "2";
  c_GuestMem := "1G"; L1CPUs := "8"; L1Mem := "8G"; BootTimeout := 180 |}.
Lemma regress_program_witness :
  let r := drive demo_host (Regress no_floats demo_boot_config) in
  r.2 = Returned None ∧
  guest_passed (present demo_disk) "" (qemu_of demo_disk (λ _ _ _, false)) (clean_of demo_disk demo_boot_config) demo_boot_config
    (regress_guest "pvh" "smoke").
Proof.
  intros r. assert (r.2 = Returned None) as Hr by (vm_compute; reflexivity). split; [exact Hr|].
  refine (proj1 (proj2 (proj1 (proj2 (regress_program no_floats demo_disk demo_host _ demo_boot_config None "" (λ _ _ _, false) _ _ _
    r.1 None _ _)) eq_refl))).
  - intros B o b Ho. unfold demo_host. by rewrite Ho.
  - apply gives_bind. unfold Build.need. eapply gives_read; [reflexivity|]. apply gives_ret. unfold wrap. by eapply gives_read.
  - unfold pin_list. by eapply gives_read.
  - intros argv log echo t. unfold runQemu. eapply gives_read; [reflexivity|]. eapply gives_read; [reflexivity|]. by eapply gives_known.
  - rewrite <- Hr. apply drive_runs.
  - vm_compute. repeat split; reflexivity.
Defined.
