(* ===== verification/Profile.v ===== *)
(** * tools/pvmtest/exits.go as programs

    [ExitProfile], [ResolveExits] and [Deps] over the calls of [Build], with the
    tables and verdicts of [Exits]. *)
From Stdlib Require Import Ascii.
From S2P Require Import Prelude GoStrings Regexp Spec ParseLog Checks Run Exits Prog Build Checkers CheckersRuns Payload.

#[local] Open Scope Z_scope.

Definition text_of (r : string + string) : option string := match r with inr t => Some t | inl _ => None end.

(** ** ExitProfile *)
Section ExitProfile.
Context (ParseFloat : string → option SpecFloat.spec_float).
Definition profile_opts (v only log : string) : L1Opts := {|
  o_Suite := "mmu"; o_Vendor := v; Guest := ["pvmtest.only=" +:+ only]; Mod := []; o_CPUs := ""; Mem := ""; Profile := "";
  L1Args := []; Accel := ""; CPU := ""; o_Timeout := 0; Log := log; Echo := false; Pin := true; QMP := ""; Debug_ := "" |}.
Definition profile_log (tmp v only : string) : string :=
  path_join tmp (v +:+ "-" +:+ replace_char "/" "_" only +:+ ".log").
(** What [base] or [cas] becomes. *)
Definition store_counts (p : profile) (into_base : bool) (v : string) (m : gmap string Z) : profile :=
  if into_base then {| base := <[v := m]> (base p); cas := cas p; events := events p; warnings := warnings p |}
  else {| base := base p; cas := <[v := m]> (cas p); events := events p; warnings := warnings p |}.
Definition warned (p : profile) (w : string) : build profile :=
  warnf w ;; Ret {| base := base p; cas := cas p; events := events p; warnings := warnings p ++ [w] |}.
Definition profile_run (c : Config) (tmp testCase : string) (p : profile) (v only : string) (into_base : bool) : build profile :=
  logf (v +:+ ": " +:+ (if seqb only noCase then "baseline (boot and teardown, no case)" else testCase)) ;;
  let log := profile_log tmp v only in
  r ← boot_l1 ParseFloat c (profile_opts v only log);
  p ← match r.2 with Some e => warned p (v +:+ ": " +:+ e) | None => Ret p end;
  raw ← call (ReadFile log);
  let t := exitCounts (text_of raw) in
  let p := store_counts p into_base v (counts t) in
  if negb (seqb only testCase) then Ret p else
  let p := {| base := base p; cas := cas p; events := match events p with [] => order t | l => l end; warnings := warnings p |} in
  p ← (if decide (counts t = ∅) then warned p (v +:+ ": no counters in the run -- did perf stat work?") else Ret p);
  raw ← call (ReadFile log);
  if contains (default "" (text_of raw)) ("ok 1 - " +:+ testCase) then Ret p
  else warned p (v +:+ ": '" +:+ testCase +:+ "' did not report a pass; the delta is not the case").
Definition profile_vendor (c : Config) (tmp testCase : string) (p : profile) (v : string) : build profile :=
  p ← profile_run c tmp testCase p v noCase true;
  profile_run c tmp testCase p v testCase false.
Definition default_vendors (vendors : list string) : list string := match vendors with [] => ["pvm"; "intel"] | _ => vendors end.
Definition profile_table (vendors : list string) (p : profile) : string :=
  unlines ("" :: profile_head vendors :: (event_line p vendors <$> events p) ++ profile_note).
Definition ExitProfile (c : Config) (testCase : string) (vendors : list string) : build (option string) :=
  let vendors := default_vendors vendors in
  t ← call (MkdirTemp "pvm-exits.");
  match t with
  | inl e => fail e
  | inr tmp =>
      p ← each_with vendors profile0 (profile_vendor c tmp testCase);
      call (Print (profile_table vendors p)) ;;
      call (RemoveAll tmp) ;;
      done_ok
  end.
End ExitProfile.

(** ** ResolveExits *)
Section ResolveExits.
Context (sort_syms : list sym → list sym).
Definition ResolveExits (c : Config) (log vmlinux : string) : build (option string) :=
  let vmlinux := if seqb vmlinux "" then joins [Out c; "build-guest"; "vmlinux"] else vmlinux in
  raw ← call (ReadFile log);
  match raw with
  | inl e => fail e
  | inr t =>
  match find textRe t with
  | None => fail "the log has no 'PVMINIT: _text at' line; was it a guest run?"
  | Some m =>
  r ← call (Output "nm" ["-n"; vmlinux]);
  match r.1 with
  | Some e => fail ("nm " +:+ vmlinux +:+ ": " +:+ e)
  | None =>
      let runtime := parse_hex_lossy (group 1 m) in
      let link := (foldl nm_line ([], 0) (split ch_nl r.2)).2 in
      (if link =? 0 then Ret tt else
       logf ("guest _text: runtime " +:+ fmt_hash_x runtime +:+ ", link " +:+ fmt_hash_x link +:+ ", delta " +:+
             fmt_hash_x (wrap64 (runtime - link)))) ;;
      let '(lines, err) := Exits.ResolveExits sort_syms (inr t) (inr r.2) in
      each lines println ;;
      Ret err
  end end end.
End ResolveExits.

(** ** Deps *)
(** A machine of which one fact is asked. *)
Definition found (w : option string) : machine :=
  {| Exits.LookPath := λ _, w; preprocesses := λ _, false; kvm_writable := false; proc_cpuinfo := ""; meltdown := None |}.
Definition compiles (b : bool) : machine :=
  {| Exits.LookPath := λ _, None; preprocesses := λ _, b; kvm_writable := false; proc_cpuinfo := ""; meltdown := None |}.
Definition opens (b : bool) : machine :=
  {| Exits.LookPath := λ _, None; preprocesses := λ _, false; kvm_writable := b; proc_cpuinfo := ""; meltdown := None |}.
Definition kernel_files (cpuinfo : string) (meltdown : option string) : machine :=
  {| Exits.LookPath := λ _, None; preprocesses := λ _, false; kvm_writable := false; proc_cpuinfo := cpuinfo; meltdown := meltdown |}.
(** A question and the lines it prints, each with what it adds to [missing]. *)
Definition told (s : string) : build (list (string * nat)) := Ret [(s, 0%nat)].
Definition ask_tool (tool hint : string) (required : bool) : build (list (string * nat)) :=
  w ← call (Which tool); Ret [have (found w) tool hint required].
Definition ask_header (h pkg what : string) : build (list (string * nat)) :=
  b ← call (Preprocess h); Ret [haveHeader (compiles b) h pkg what].
Definition ask_needed (h : string) : build (list (string * nat)) :=
  b ← call (Preprocess h); Ret [needHeader (compiles b) h].
Definition ask_kvm : build (list (string * nat)) :=
  e ← call (OpenRW "/dev/kvm"); Ret [have_kvm (opens (match e with Some _ => false | None => true end))].
Definition ask_cpu : build (list (string * nat)) :=
  r ← call (ReadFile "/proc/cpuinfo"); Ret (have_feat (kernel_files (default "" (text_of r)) None) <$> cpu_feats).
Definition ask_kpti : build (list (string * nat)) :=
  r ← call (ReadFile "/sys/devices/system/cpu/vulnerabilities/meltdown"); Ret (have_kpti (kernel_files "" (text_of r))).
Definition questions : list (build (list (string * nat))) :=
  told "build:" :: ((λ t, ask_tool t.1 t.2 true) <$> build_tools) ++
  [ask_tool "pahole" "apt install dwarves  (optional: BTF)" false; told "run:"] ++
  ((λ t, ask_tool t.1 t.2 true) <$> run_tools) ++
  [told "profiling and debugging (optional):";
   ask_header "traceevent/event-parse.h" "libtraceevent-dev" "REQUIRED for 'perf kvm stat' -- it is compiled out without this";
   ask_header "elfutils/libdw.h" "libdw-dev" "DWARF: symbol resolution and --call-graph dwarf";
   ask_header "libunwind.h" "libunwind-dev" "call graphs from a profile";
   ask_header "capstone/capstone.h" "libcapstone-dev" "perf annotate: which instructions are hot";
   ask_tool "gdb" "attach to a guest kernel with qemu -s -S" false;
   ask_tool "fakechroot" "lets the rootfs build run without sudo" false;
   told "kernel headers and libs:"] ++
  (ask_needed <$> needed_headers) ++ [told "host:"; ask_kvm; ask_cpu; ask_kpti].
Definition answer (missing : nat) (q : build (list (string * nat))) : build nat :=
  l ← q; each l (λ x, println x.1) ;; Ret (missing + missing_of l)%nat.
Definition Deps : build (option string) :=
  missing ← each_with questions 0%nat answer;
  Ret (if (0 <? missing)%nat then Some (itoa (Z.of_nat missing) +:+ " required item(s) missing") else None).

(** ** What [deps] finds *)
Section Answers.
Context (m : machine) (h : ∀ B, bop B → option B).
(** A machine that answers as [m] says. *)
Record answers_as : Prop := {
  as_tool t : h _ (Which t) = Some (Exits.LookPath m t);
  as_header f : h _ (Preprocess f) = Some (preprocesses m f);
  as_kvm : h _ (OpenRW "/dev/kvm") = Some (if kvm_writable m then None else Some "permission denied");
  as_cpuinfo : h _ (ReadFile "/proc/cpuinfo") = Some (inr (proc_cpuinfo m));
  as_meltdown : h _ (ReadFile "/sys/devices/system/cpu/vulnerabilities/meltdown") =
    Some (match meltdown m with Some t => inr t | None => inl "no such file or directory" end) }.
Context (Hm : answers_as).
Definition asks (q : build (list (string * nat))) (l : list (string * nat)) : Prop := gives h q (λ x, x = l).
Lemma asks_told s : asks (told s) [(s, 0%nat)].
Proof. done. Qed.
Lemma asks_tool t hint r : asks (ask_tool t hint r) [have m t hint r].
Proof. unfold asks, ask_tool. eapply gives_read; [apply (as_tool Hm)|]. by apply gives_ret. Qed.
Lemma asks_header f p w : asks (ask_header f p w) [haveHeader m f p w].
Proof. unfold asks, ask_header. eapply gives_read; [apply (as_header Hm)|]. by apply gives_ret. Qed.
Lemma asks_needed f : asks (ask_needed f) [needHeader m f].
Proof. unfold asks, ask_needed. eapply gives_read; [apply (as_header Hm)|]. by apply gives_ret. Qed.
Lemma asks_kvm : asks ask_kvm [have_kvm m].
Proof. unfold asks, ask_kvm. eapply gives_read; [apply (as_kvm Hm)|]. apply gives_ret. unfold have_kvm. by destruct (kvm_writable m). Qed.
Lemma asks_cpu : asks ask_cpu (have_feat m <$> cpu_feats).
Proof. unfold asks, ask_cpu. eapply gives_read; [apply (as_cpuinfo Hm)|]. by apply gives_ret. Qed.
Lemma asks_kpti : asks ask_kpti (have_kpti m).
Proof. unfold asks, ask_kpti. eapply gives_read; [apply (as_meltdown Hm)|]. apply gives_ret. unfold have_kpti. by destruct (meltdown m). Qed.
Lemma questions_answered : ∃ ls, Forall2 asks questions ls ∧ concat ls = Deps_report m.
Proof.
  eexists. split.
  - unfold questions, build_tools, run_tools, needed_headers. cbn [app fmap list_fmap fst snd].
    repeat (first [constructor | apply asks_told | apply asks_tool | apply asks_header | apply asks_needed | apply asks_kvm
      | apply asks_cpu | apply asks_kpti]).
  - unfold Deps_report, build_tools, run_tools, needed_headers. cbn [app fmap list_fmap fst snd concat]. rewrite app_nil_r. reflexivity.
Qed.
Lemma missing_of_app l l' : missing_of (l ++ l') = (missing_of l + missing_of l')%nat.
Proof. unfold missing_of. induction l as [|x l IH]; cbn; [done|]. rewrite IH. lia. Qed.
Lemma answer_all qs ls n : Forall2 asks qs ls →
  gives h (each_with qs n answer) (λ k, k = (n + missing_of (concat ls))%nat).
Proof.
  intros H. revert n. induction H as [|q l qs ls Hq _ IH]; intros n; cbn [each_with concat]; [apply gives_ret; cbn; lia|].
  apply gives_bind. unfold answer at 1. apply gives_bind. eapply gives_mono; [exact Hq|]. intros x ->. apply gives_skip. intros _.
  apply gives_ret. eapply gives_mono; [apply IH|]. intros k ->. rewrite missing_of_app. lia.
Qed.
(** [deps] answers the error of [Exits.Deps]. *)
Lemma Deps_gives : gives h Deps (λ e, e = (Exits.Deps m).2).
Proof.
  destruct questions_answered as (ls & Hq & Hc). unfold Deps. apply gives_bind. eapply gives_mono; [by apply answer_all|].
  intros k ->. apply gives_ret. by rewrite Hc.
Qed.
End Answers.
