(* ===== verification/Flags.v ===== *)
(** * The flag package, as pvmtest uses it

    A flag set gives each name a kind and a value; [Parse] walks the arguments
    up to the first that is not a flag.  With [flag.ExitOnError] a mistake ends
    the program with status 2 and a request for help with status 0. *)
From Stdlib Require Import Ascii.
From S2P Require Import Prelude GoStrings.

#[local] Open Scope Z_scope.

(** ** Values *)
(** [strconv.ParseBool]. *)
Definition parse_bool (s : string) : option bool :=
  if bool_decide (s ∈ ["1"; "t"; "T"; "TRUE"; "true"; "True"]) then Some true else
  if bool_decide (s ∈ ["0"; "f"; "F"; "FALSE"; "false"; "False"]) then Some false else None.
Definition lower (c : ascii) : ascii := if in_range "A" "Z" c then ascii_of_N (code c + 32) else c.
Definition is_hex (c : ascii) : bool := is_digit c || in_range "a" "f" (lower c).
Definition base_prefix (c : ascii) : option N :=
  if ceq (lower c) "b" then Some 2%N else if ceq (lower c) "o" then Some 8%N else if ceq (lower c) "x" then Some 16%N else None.
(** Underscores only between digits, or a base prefix and a digit. *)
Inductive saw := SawNothing | SawDigit | SawUnderscore | SawOther.
Fixpoint underscores (hex : bool) (st : saw) (s : list ascii) : bool :=
  match s with
  | [] => match st with SawUnderscore => false | _ => true end
  | c :: s =>
      if is_digit c || (hex && is_hex c) then underscores hex SawDigit s else
      if ceq c "_" then match st with SawDigit => underscores hex SawUnderscore s | _ => false end else
      match st with SawUnderscore => false | _ => underscores hex SawOther s end
  end.
Definition underscoreOK (s : list ascii) : bool :=
  let s := match s with c :: r => if ceq c "-" || ceq c "+" then r else s | [] => s end in
  match s with
  | z :: p :: r =>
      if ceq z "0" then
        match base_prefix p with Some b => underscores (b =? 16)%N SawDigit r | None => underscores false SawNothing s end
      else underscores false SawNothing s
  | _ => underscores false SawNothing s
  end.
Definition digits_of (b : N) (l : list ascii) : option N :=
  match filter (λ c, ceq c "_" = false) l with [] => Some 0%N | l => unradix b (unbytes l) end.
(** [strconv.ParseUint] in base 0, of at most [bits] bits. *)
Definition parse_uint0 (bits : Z) (s : string) : option Z :=
  let l := bytes s in
  match l with
  | [] => None
  | c :: r =>
      let '(b, ds) :=
        if ceq c "0" then
          match r with
          | p :: (_ :: _) as ds => match base_prefix p with Some b => (b, drop 1 r) | None => (8%N, r) end
          | _ => (8%N, r)
          end
        else (10%N, l) in
      if existsb (λ c, ceq c "_") l && negb (underscoreOK l) then None else
      match digits_of b ds with
      | Some n => if Z.of_N n <? 2 ^ bits then Some (Z.of_N n) else None
      | None => None
      end
  end.
(** [strconv.ParseInt] in base 0, of 64 bits. *)
Definition parse_int0 (s : string) : option Z :=
  let '(neg, u) :=
    match s with
    | String c r => if ceq c "-" then (true, r) else if ceq c "+" then (false, r) else (false, s)
    | _ => (false, s)
    end in
  match parse_uint0 64 u with
  | Some n =>
      let z := if neg : bool then - n else n in
      if (int_min <=? z) && (z <=? int_max) then Some z else None
  | None => None
  end.
Example parse_int0_examples :
  parse_int0 "42" = Some 42 ∧ parse_int0 "-0x1F" = Some (-31) ∧ parse_int0 "010" = Some 8 ∧ parse_int0 "0b101" = Some 5 ∧
  parse_int0 "1_000" = Some 1000 ∧ parse_int0 "1__0" = None ∧ parse_int0 "" = None ∧ parse_int0 "0" = Some 0 ∧ parse_int0 "0x" = None ∧
  parse_int0 "9223372036854775808" = None ∧ parse_int0 "-9223372036854775808" = Some int_min ∧ parse_int0 "9s" = None ∧
  parse_uint0 32 "0x4b564d2f" = Some 0x4b564d2f.
Proof. vm_compute. done. Qed.

(** ** Flag sets *)
Inductive fval := FBool (b : bool) | FInt (z : Z) | FString (s : string) | FList (l : list string).
Abbreviation flagset := (gmap string fval).
(** [Value.Set]; a list is the [listFlag] of cli.go. *)
Definition Set_ (v : fval) (s : string) : option fval :=
  match v with
  | FBool _ => FBool <$> parse_bool s
  | FInt _ => FInt <$> parse_int0 s
  | FString _ => Some (FString s)
  | FList l => Some (FList (l ++ split "," s))
  end.
Inductive parsed :=
| Parsed (fs : flagset) (args : list string)
| Help
| Bad (err : string).
(** The name of a flag and the value after '=', when there is one. *)
Fixpoint cut_eq (s : string) : string * option string :=
  match s with
  | String c r => if ceq c "=" then ("", Some r) else let '(n, v) := cut_eq r in (String c n, v)
  | EmptyString => ("", None)
  end.
(** The name must not be empty or begin with '-' or '='. *)
Definition flag_name (s : string) : option string :=
  match s with
  | String c _ => if ceq c "-" || ceq c "=" then None else Some s
  | EmptyString => None
  end.
Fixpoint Parse (fs : flagset) (args : list string) {struct args} : parsed :=
  match args with
  | [] => Parsed fs []
  | s :: rest =>
      let flag_ (body : string) :=
        match flag_name body with
        | None => Bad ("bad flag syntax: " +:+ s)
        | Some body =>
            let '(name, value) := cut_eq body in
            match fs !! name with
            | None =>
                if seqb name "help" || seqb name "h" then Help
                else Bad ("flag provided but not defined: -" +:+ name)
            | Some v =>
                let set v' x rest := match Set_ v x with
                  | Some y => Parse (<[name := y]> fs) rest
                  | None => Bad ("invalid value " +:+ quote x +:+ " for flag -" +:+ v')
                  end in
                match v, value with
                | FBool _, None => set name "true" rest
                | _, Some x => set name x rest
                | _, None => match rest with
                             | x :: rest => set name x rest
                             | [] => Bad ("flag needs an argument: -" +:+ name)
                             end
                end
            end
        end in
      match s with
      | String c r =>
          if ceq c "-" then
            match r with
            | EmptyString => Parsed fs (s :: rest)
            | String d r' =>
                if ceq d "-" then (if seqb r' "" then Parsed fs rest else flag_ r') else flag_ r
            end
          else Parsed fs (s :: rest)
      | EmptyString => Parsed fs (s :: rest)
      end
  end.

(** ** Flags as they are written *)
Inductive written :=
| WSwitch (dashes : bool) (name : string)                  (* -name, of a bool *)
| WEq (dashes : bool) (name value : string)                (* -name=value *)
| WArg (dashes : bool) (name value : string).              (* -name value *)
Definition dash (two : bool) : string := if two then "--" else "-".
Definition write (w : written) : list string :=
  match w with
  | WSwitch two n => [dash two +:+ n]
  | WEq two n v => [dash two +:+ n +:+ "=" +:+ v]
  | WArg two n v => [dash two +:+ n; v]
  end.
Definition name_ok (n : string) : bool :=
  no_byte "=" n && match n with String c _ => negb (ceq c "-") | EmptyString => false end.
(** What a flag as written does to a set, if it can. *)
Definition set_flag (fs : flagset) (n v : string) : option flagset :=
  x ← fs !! n; y ← Set_ x v; Some (<[n := y]> fs).
Definition is_switch (v : fval) : bool := match v with FBool _ => true | _ => false end.
Definition meant (fs : flagset) (w : written) : option flagset :=
  match w with
  | WSwitch _ n => v ← fs !! n; if name_ok n && is_switch v then set_flag fs n "true" else None
  | WEq _ n x => if name_ok n then set_flag fs n x else None
  | WArg _ n x => v ← fs !! n; if name_ok n && negb (is_switch v) then set_flag fs n x else None
  end.
Definition all_meant (fs : flagset) (ws : list written) : option flagset :=
  foldl (λ o w, fs ← o; meant fs w) (Some fs) ws.

Lemma cut_eq_name n : no_byte "=" n = true → cut_eq n = (n, None).
Proof.
  induction n as [|c n IH]; cbn [cut_eq]; [done|]. intros [Hc Hn]%andb_true_iff. apply negb_true_iff in Hc.
  rewrite Hc. by rewrite IH.
Qed.
Lemma cut_eq_value n v : no_byte "=" n = true → cut_eq (n +:+ "=" +:+ v) = (n, Some v).
Proof.
  induction n as [|c n IH]; [done|]. intros [Hc Hn]%andb_true_iff. apply negb_true_iff in Hc. rewrite app_cons_s. cbn [cut_eq].
  rewrite Hc. by rewrite IH.
Qed.
Lemma flag_name_ok n x : name_ok n = true → flag_name (n +:+ x) = Some (n +:+ x).
Proof.
  intros [He Hd]%andb_true_iff. destruct n as [|c n]; [done|]. rewrite app_cons_s. cbn [flag_name].
  apply negb_true_iff in Hd. rewrite Hd. unfold no_byte in He. cbn in He. apply andb_true_iff in He as [He _]. apply negb_true_iff in He. by rewrite He.
Qed.
Lemma Parse_flag two body fs rest :
  flag_name body = Some body →
  Parse fs ((dash two +:+ body) :: rest) =
  let '(name, value) := cut_eq body in
  match fs !! name with
  | None => if seqb name "help" || seqb name "h" then Help else Bad ("flag provided but not defined: -" +:+ name)
  | Some v =>
      let set x rest := match Set_ v x with
        | Some y => Parse (<[name := y]> fs) rest
        | None => Bad ("invalid value " +:+ quote x +:+ " for flag -" +:+ name)
        end in
      match v, value with
      | FBool _, None => set "true" rest
      | _, Some x => set x rest
      | _, None => match rest with x :: rest => set x rest | [] => Bad ("flag needs an argument: -" +:+ name) end
      end
  end.
Proof.
  intros Hb. destruct body as [|c body]; [done|]. assert (ceq c "-" = false) as Hc.
  { cbn in Hb. by destruct (ceq c "-"). }
  destruct two; cbn [dash]; rewrite !app_cons_s, app_nil_l_s; cbn [Parse].
  - change (ceq "-" "-") with true. cbv iota. change (seqb (String c body) "") with false. cbv iota. rewrite Hb. done.
  - change (ceq "-" "-") with true. cbv iota. rewrite Hc, Hb. done.
Qed.
Lemma Parse_written fs w fs' rest : meant fs w = Some fs' → Parse fs (write w ++ rest) = Parse fs' rest.
Proof.
  assert (∀ n, name_ok n = true → flag_name n = Some n ∧ cut_eq n = (n, None)) as Hn.
  { intros n H. split; [rewrite <-(app_nil_r_s n); rewrite (flag_name_ok n ""); [done|done]|].
    apply cut_eq_name. by apply andb_true_iff in H as [? _]. }
  destruct w as [two n|two n x|two n x]; cbn [meant write]; unfold set_flag; intros H.
  - destruct (fs !! n) as [v|] eqn:E; [|done]. cbn in H. destruct (name_ok n) eqn:Ho; [|done]. destruct v as [b|z|s|l]; try done.
    destruct (Hn n Ho) as [H1 H2]. cbn [app]. rewrite Parse_flag by done. rewrite H2, E. cbv zeta. cbn in H. by injection H as <-.
  - destruct (name_ok n) eqn:Ho; [|done]. destruct (fs !! n) as [v|] eqn:E; [|done]. cbn in H.
    cbn [app]. rewrite Parse_flag by by apply flag_name_ok. rewrite cut_eq_value by by apply andb_true_iff in Ho as [? _].
    rewrite E. cbv zeta. destruct (Set_ v x) as [y|] eqn:Es; [|done]. injection H as <-. destruct v; cbv beta iota; by rewrite Es.
  - destruct (fs !! n) as [v|] eqn:E; [|done]. cbn in H. destruct (name_ok n) eqn:Ho; [|done].
    destruct (Hn n Ho) as [H1 H2]. cbn [app]. rewrite Parse_flag by done. rewrite H2, E. cbv zeta.
    destruct v as [b|z|s|l]; [done|..]; cbv beta iota; cbn [mbind option_bind negb is_switch andb] in H;
      destruct (Set_ _ x) as [y|]; try done; by injection H as <-.
Qed.
(** Where the flags end: nothing more, a word that is none, or "--". *)
Definition ends_flags (args : list string) : bool :=
  match args with [] => true | s :: _ => seqb s "-" || negb (has_prefix s "-") end.
Lemma Parse_end fs args : ends_flags args = true → Parse fs args = Parsed fs args.
Proof.
  destruct args as [|s args]; [done|]. unfold ends_flags. destruct s as [|c s]; [done|]. cbn [Parse].
  intros [H|H]%orb_true_iff.
  - unfold seqb in H. apply bool_decide_eq_true in H as [= -> ->]. done.
  - apply negb_true_iff in H. unfold has_prefix in H. cbn [cut_prefix] in H.
    destruct (ceq c "-") eqn:E; [|done]. unfold ceq in *. apply Ascii.eqb_eq in E as ->. done.
Qed.
Lemma Parse_dashes fs args : Parse fs ("--" :: args) = Parsed fs args.
Proof. reflexivity. Qed.
Lemma all_meant_none ws : foldl (λ o w, fs ← o; meant fs w) None ws = None.
Proof. by induction ws. Qed.
Lemma Parse_all_written ws : ∀ fs fs' rest,
  all_meant fs ws = Some fs' → Parse fs ((ws ≫= write) ++ rest) = Parse fs' rest.
Proof.
  induction ws as [|w ws IH]; intros fs fs' rest; unfold all_meant; cbn [foldl].
  - by intros [= ->].
  - destruct (meant fs w) as [f1|] eqn:E; cbn; rewrite E; [|by rewrite all_meant_none].
    intros H. rewrite <-(app_assoc (write w)). rewrite (Parse_written _ _ _ _ E). by apply IH.
Qed.
