(* ===== verification/Cli.v ===== *)
(** * tools/pvmtest/cli.go and main of main.go: the command line

    The sub-commands that build and boot are programs over the calls of
    [Build]; the others, which other files model as functions of what they
    read, are the operations of [commands].  The listing of a flag set's
    defaults after a mistake is left out. *)
From Stdlib Require Import Ascii.
From S2P Require Import Prelude GoStrings Regexp Spec ParseLog Checks Run Boot Prog Build Payload Flags.

#[local] Open Scope Z_scope.

(** ** Configuration *)
Definition testbedDir : build string :=
  d ← call (Getenv "TESTBED");
  if negb (seqb d "") then Ret d else
  exe ← call Executable;
  match exe with
  | Some exe =>
      let d := Dir (Dir (Dir exe)) in
      ex ← fileExists (joins [d; "scripts"; "run-l1.sh"]);
      if ex : bool then Ret d else call Getwd
  | None => call Getwd
  end.
Definition config_vars : list string :=
  ["JOBS"; "BOOT_TIMEOUT"; "OUT"; "CACHE"; "KSRC"; "QEMU"; "GUEST_CPUS"; "GUEST_MEM"; "L1_CPUS"; "L1_MEM"].
Fixpoint getenvs (ks : list string) : build (gmap string string) :=
  match ks with
  | [] => Ret ∅
  | k :: ks => v ← call (Getenv k); m ← getenvs ks; Ret (<[k := v]> m)
  end.
Definition load_config : build Config :=
  tb ← testbedDir;
  env ← getenvs config_vars;
  n ← call NumCPU;
  Ret (LoadConfig (λ k, default "" (env !! k)) tb n).

(** ** Flags *)
(** [flag.ExitOnError]. *)
Definition with_flags {A} (fs : flagset) (args : list string) (k : flagset → list string → build A) : build A :=
  match Parse fs args with
  | Parsed fs rest => k fs rest
  | Help => Exit 0
  | Bad e => call (Eprint e) ;; Exit 2
  end.
Definition get_bool (fs : flagset) (n : string) : bool := match fs !! n with Some (FBool b) => b | _ => false end.
Definition get_int (fs : flagset) (n : string) : Z := match fs !! n with Some (FInt z) => z | _ => 0 end.
Definition get_string (fs : flagset) (n : string) : string := match fs !! n with Some (FString s) => s | _ => "" end.
Definition get_list (fs : flagset) (n : string) : list string := match fs !! n with Some (FList l) => l | _ => [] end.

(** ** build *)
Definition build_flags : flagset := {["stats" := FBool false; "extra" := FList []]}.
Definition stats_option : string := "CONFIG_KVM_PVM_STATS=y".
Definition build_usage : string :=
  "pvmtest build guest|host [-stats] [-extra CONFIG_X=y]|initrd|rootfs|hosttests|agent|selftests|kut|ref <name> <git> <rev> [timing|stats]|all".

(** What other files model: each takes the configuration and its arguments. *)
Record commands := {
  order : list (string * string) → list (string * string);       (* the order a map is walked in *)
  ParseFloat : string → option SpecFloat.spec_float;
  do_regress : Config → build (option string);
  do_deps : Config → build (option string);
  do_sanitize : Config → list string → bool → build (option string);
  do_selftests : Config → string → string → build (option string);
  do_exits : Config → string → list string → build (option string);
  do_resolve : Config → string → string → build (option string);
  do_guest : Config → GuestOpts → build (option string);
  do_host_selftest : Config → build (option string);
  log_checks : Config → Boot → string → build (list string);
  do_run : list string → bool → build Z;
  do_stats : list string → build Z;
  do_check : list string → build Z;
  do_compare : string → string → build (bool * option string) }.

Section Cli.
Context (X : commands).
Definition build_target (c : Config) (what : string) (extra args : list string) : build (option string) :=
  if seqb what "guest" || seqb what "host" then BuildKernel c what extra else
  if seqb what "initrd" then BuildInitrd c else
  if seqb what "rootfs" then BuildRootfs (order X) c else
  if seqb what "hosttests" then BuildHosttests c else
  if seqb what "agent" then BuildAgent c else
  if seqb what "selftests" then BuildSelftests c else
  if seqb what "kut" then BuildKUT c else
  if seqb what "ref" then
    match args with
    | name :: git :: rev :: more => BuildRef c name git rev (match more with v :: _ => v | [] => "timing" end)
    | _ => fail "pvmtest build ref <name> <git-dir> <rev> [timing|stats]"
    end else
  if seqb what "all" then
    BuildKernel c "guest" [] &&! BuildKernel c "host" extra &&! BuildInitrd c &&! BuildAgent c &&! BuildHosttests c &&! done_ok
  else fail ("build: unknown target " +:+ quote what).
Definition cmdBuild (args : list string) : build (option string) :=
  match args with
  | [] => fail build_usage
  | what :: args =>
      c ← load_config;
      with_flags build_flags args (λ fs rest,
        let extra := get_list fs "extra" ++ (if get_bool fs "stats" then [stats_option] else []) in
        build_target c what extra rest)
  end.

(** ** boot *)
Definition l1_flags (cpus mem : string) : flagset := list_to_map [
  ("suite", FString "default"); ("vendor", FString "pvm"); ("cpus", FString cpus); ("mem", FString mem);
  ("guest", FList []); ("mod", FList []); ("l1append", FList []); ("profile", FString ""); ("l1", FString "kvm");
  ("pti", FBool false); ("timeout", FInt 0); ("log", FString ""); ("kernel", FString ""); ("nopin", FBool false)].
(** The options of a boot from its flags; [qmp] and [debug] are from the
    environment. *)
Definition l1_opts (fs : flagset) (qmp debug : string) : string + L1Opts :=
  let l1 := get_string fs "l1" in
  let tcg := seqb l1 "tcg" || seqb l1 "tcg-la57" in
  if negb (seqb l1 "kvm" || tcg) then inl "-l1: kvm, tcg or tcg-la57" else
  let t := get_int fs "timeout" in
  inr {| o_Suite := get_string fs "suite"; o_Vendor := get_string fs "vendor"; Guest := get_list fs "guest"; Mod := get_list fs "mod";
         o_CPUs := get_string fs "cpus"; Mem := get_string fs "mem"; Profile := get_string fs "profile";
         L1Args := get_list fs "l1append" ++ (if get_bool fs "pti" then ["pti=on"] else []) ++
                   (if tcg then ["pvmtest.guest_timeout=15000"] else []);
         Accel := if tcg then "tcg" else "";
         CPU := if tcg then (if seqb l1 "tcg-la57" then "max,la57=on" else "max") else "";
         o_Timeout := if 0 <? t then int64 (t * second) else if tcg then 20000 * second else 0;
         Log := get_string fs "log"; Echo := true; Pin := negb (get_bool fs "nopin"); QMP := qmp; Debug_ := debug |}.
(** The boot that [judge] is asked about. *)
Definition l1_boot (o : L1Opts) : Boot :=
  {| b_Item := {| Kind := "run"; i_Name := "boot"; Line := 0; Keys := {["suite" := o_Suite o]} |};
     Vendor := o_Vendor o; CPUs := 0; Rep := 0; Side := ""; LogName := "" |}.
Definition with_kernel (c : Config) (kernel : string) : Config :=
  if seqb kernel "" then c else With c (joins [Out c; "refs"; kernel]) "".
(** The log of a boot, judged; one on which [ParseLog] panics ends the program
    with status 2. *)
Definition judge_log (c : Config) (o : L1Opts) (log : string) : build (option string) :=
  raw ← call (ReadFile log);
  let text := match raw with inr t => t | inl _ => "" end in
  match ParseLog.ParseLog (ParseFloat X) text with
  | None => Exit 2
  | Some oc =>
      checks ← log_checks X c (l1_boot o) log;
      let '(verdict, why) := judge (l1_boot o) oc text 0 checks in
      logf (verdict +:+ ": " +:+ why +:+ " (" +:+ log +:+ ")") ;;
      if seqb verdict "ok" then done_ok else fail why
  end.
Definition boot_judged (c : Config) (o : L1Opts) : build (option string) :=
  r ← boot_l1 (ParseFloat X) c o;
  match r with
  | (_, Some e) => Ret (Some e)
  | (log, None) => judge_log c o log
  end.
Definition guest_flags : flagset := {["boot" := FString "pvh"; "suite" := FString "default"; "name" := FString ""]}.
Definition cmdBoot (args : list string) : build (option string) :=
  match args with
  | [] => fail "pvmtest boot l1|guest|host-selftest [flags]"
  | what :: args =>
      c ← load_config;
      if seqb what "l1" then
        cpus ← call (Getenv "GUEST_CPUS");
        mem ← call (Getenv "GUEST_MEM");
        with_flags (l1_flags cpus mem) args (λ fs _,
          qmp ← call (Getenv "L1_QMP");
          debug ← call (Getenv "L1_QEMU_DEBUG");
          match l1_opts fs qmp debug with
          | inl e => fail e
          | inr o => boot_judged (with_kernel c (get_string fs "kernel")) o
          end)
      else if seqb what "guest" then
        with_flags guest_flags args (λ fs rest,
          do_guest X c {| g_Boot := get_string fs "boot"; g_Suite := get_string fs "suite"; g_Name := get_string fs "name";
                          g_Kernel := ""; Extra := rest; g_Echo := true |})
      else if seqb what "host-selftest" then do_host_selftest X c
      else fail ("boot: unknown target " +:+ quote what)
  end.

(** ** The rest *)
Definition runSub (name : string) (args : list string) : build (option (option string)) :=
  c ← load_config;
  let handled p : build (option (option string)) := e ← p; Ret (Some e) in
  if seqb name "build" then handled (cmdBuild args) else
  if seqb name "boot" then handled (cmdBoot args) else
  if seqb name "regress" then handled (do_regress X c) else
  if seqb name "deps" then handled (do_deps X c) else
  if seqb name "sanitize" then
    match args with
    | q :: rest => if seqb q "-q" then handled (do_sanitize X c rest true) else handled (do_sanitize X c args false)
    | [] => handled (do_sanitize X c [] false)
    end else
  if seqb name "selftests" then
    match args with
    | [log; vendor] => handled (do_selftests X c log vendor)
    | _ => handled (fail "pvmtest selftests <log> <vendor>")
    end else
  if seqb name "exits" then
    match args with
    | case :: vendors => handled (do_exits X c case vendors)
    | [] => handled (fail "pvmtest exits <case> [vendor...]")
    end else
  if seqb name "resolve-exits" then
    match args with
    | log :: more => handled (do_resolve X c log (match more with vm :: _ => vm | [] => "" end))
    | [] => handled (fail "pvmtest resolve-exits <log> [vmlinux]")
    end
  else Ret None.
(** "fail", in bold red. *)
Definition failed_mark : string := str1 "027" +:+ "[1;31mfail" +:+ str1 "027" +:+ "[0m ".
Definition usage_text : string := join nl
  ["usage:";
   "  pvmtest deps";
   "  pvmtest build guest|host [-stats] [-extra CONFIG_X=y] | initrd | rootfs | hosttests | agent | selftests | all";
   "  pvmtest build ref <name> <git-dir> <rev> [timing|stats]";
   "  pvmtest boot  l1 [-suite s] [-vendor v] [-cpus n] [-guest a,b] [-mod a,b] [-l1 kvm|tcg|tcg-la57] [-pti] [-kernel name] ...";
   "  pvmtest boot  guest [-boot pvh|bzimage] [-suite s] [-name tag]";
   "  pvmtest boot  host-selftest";
   "  pvmtest regress";
   "  pvmtest sanitize [-q] [log...]";
   "  pvmtest selftests <log> <vendor>";
   "  pvmtest exits <case> [vendor...]";
   "  pvmtest resolve-exits <log> [vmlinux]";
   "  pvmtest run   [-n] [-j N] [-only item,...] <battery>";
   "  pvmtest list  <battery>";
   "  pvmtest stats [-filter regexp] <log>";
   "  pvmtest check <log> [allow-fail,...]";
   "  pvmtest compare <matrix.tsv> <baseline.tsv>"].
Definition usage {A} : build A := call (Eprint usage_text) ;; Exit 2.
Definition exits_with (p : build Z) : build unit := n ← p; Exit n.
Definition main (argv : list string) : build unit :=
  match argv with
  | _ :: name :: args =>
      r ← runSub name args;
      match r with
      | Some (Some e) => call (Eprint (failed_mark +:+ e)) ;; Exit 1
      | Some None => Ret tt
      | None =>
          if seqb name "run" then exits_with (do_run X args false) else
          if seqb name "list" then exits_with (do_run X args true) else
          if seqb name "stats" then exits_with (do_stats X args) else
          if seqb name "check" then exits_with (do_check X args) else
          if seqb name "compare" then
            match args with
            | [m; b] =>
                r ← do_compare X m b;
                match r with
                | (_, Some e) => call (Eprint e) ;; Exit 2
                | (regressed, None) => if regressed : bool then Exit 1 else Ret tt
                end
            | _ => usage
            end
          else usage
      end
  | _ => usage
  end.
End Cli.
