(* ===== verification/RunCmd.v ===== *)
(** * tools/pvmtest: a boot of a battery and the run command, as programs

    [runBoot] and [record] of run.go, and cmdRun, cmdStats and cmdCheck of
    main.go, over the calls of [Build], with what they print and the files they
    write.  A pool is one call, [RunPool]: its goroutines are [Pool]'s, each of
    them [runBoot] and then, under the mutex, [finish]. *)
From Stdlib Require Import Ascii SpecFloat.
From S2P Require Import Prelude GoStrings Regexp Spec ParseLog Checks Run Pool Cmd Float64 Report Prog Build Checkers Payload Flags Cli.

#[local] Open Scope Z_scope.

(** ** Small tools of run.go, compare.go and main.go *)
Definition or_empty (r : string + string) : string := match r with inr t => t | inl _ => "" end.
Definition file_text (r : string + string) : option string := match r with inr t => Some t | inl _ => None end.
Definition gitDescribe (dir : string) : build string :=
  if seqb dir "" then Ret "unset" else
  r ← call (Output "git" ["-C"; dir; "describe"; "--always"; "--dirty"]);
  Ret (match r.1 with Some _ => "unknown" | None => trim_space r.2 end).
Definition envID : build string :=
  rel ← call (ReadFile "/proc/sys/kernel/osrelease");
  cpu ← call (ReadFile "/proc/cpuinfo");
  Ret (Report.envID (or_empty rel) (file_text cpu)).
Definition host_variant (out : string) : build string :=
  built ← call (ReadFile (path_join out "built"));
  match GoStrings.fields (or_empty built) with
  | [_; v] => Ret v
  | _ => cfg ← call (ReadFile (joins [out; "build-host"; ".config"])); Ret (hostVariant None (file_text cfg))
  end.
Definition printTSV (path : string) : build unit := r ← call (ReadFile path); call (Print (Report.printTSV (file_text r))).
Definition writeStats (path : string) (pairs : list StatsPair) (ks : list string) : build unit :=
  e ← call (Create path);
  match e with Some _ => Ret tt | None => call (Append path (Run.writeStats pairs ks)) end.
(** [filepath.Ext]. *)
Definition Ext (path : string) : string :=
  let r := reverse (bytes path) in
  match list_find (λ c, in_set "./" c = true) r with
  | Some (i, c) => if ceq c "." then unbytes (reverse (take (S i) r)) else ""
  | None => ""
  end.
Definition battery_name (path : string) : string := trim_suffix (Base path) (Ext path).
Example battery_name_ex : battery_name "batteries/ci.d/full.battery" = "full" ∧ battery_name "x/noext" = "noext" ∧ battery_name "a.b.c" = "a.b".
Proof. vm_compute. done. Qed.

(** [os.Getenv] for the variables a battery names.  They are read at once, before
    the first line is parsed; the source reads each when it expands its line. *)
Fixpoint env_names (fuel : nat) (prev : option ascii) (s : string) : list string :=
  match fuel with
  | O => []
  | S fuel =>
      match find_from envRe prev "" s with
      | Some x => group 1 x :: env_names fuel (m_prev (r_end x)) (m_rest (r_end x))
      | None => []
      end
  end.
Definition ParseBattery (path : string) : build (string + Battery) :=
  raw ← call (ReadFile path);
  env ← getenvs (let t := or_empty raw in env_names (S (slen t)) None t);
  Ret (Spec.ParseBattery (λ k, default "" (env !! k)) path raw).

(** [%g] of fmt is a parameter: the shortest decimal that reads back. *)
Section RunCmd.
Context (ParseFloat : string → option spec_float) (value_of : string → spec_float)
  (Float64s : list spec_float → list spec_float) (fmt_g : spec_float → string).

(** ** One boot *)
Section Boot.
Context (c : Config) (results : string) (dry : bool).
Definition placed (o : L1Opts) (pin : bool) (log : string) : L1Opts := {|
  o_Suite := o_Suite o; o_Vendor := o_Vendor o; Guest := Guest o; Mod := Mod o; o_CPUs := o_CPUs o; Mem := Mem o;
  Profile := Profile o; L1Args := L1Args o; Accel := Accel o; CPU := CPU o; o_Timeout := o_Timeout o; Log := log;
  Echo := Echo o; Pin := pin; QMP := QMP o; Debug_ := Debug_ o |}.
(** [l1Opts], which reads the environment last. *)
Definition boot_opts (b : Boot) : build (string + L1Opts) :=
  match l1Opts (λ _, "") b with
  | inl e => Ret (inl e)
  | inr _ =>
      qmp ← call (Getenv "L1_QMP");
      debug ← call (Getenv "L1_QEMU_DEBUG");
      Ret (l1Opts (λ k, if seqb k "L1_QMP" then qmp else if seqb k "L1_QEMU_DEBUG" then debug else "") b)
  end.
Definition dry_status (b : Boot) : Status := {| s_Boot := b; s_Outcome := empty_outcome; Verdict := "dry"; Why := "" |}.
Definition dry_text (b : Boot) (o : L1Opts) (out : string) : string :=
  "  " +:+ LogName b +:+ nl +:+ "    suite=" +:+ o_Suite o +:+ " vendor=" +:+ o_Vendor o +:+ " out=" +:+ out +:+ nl +:+
  "    " +:+ join " " (L1Argv "" (With c out "") o "<payload>") +:+ nl.
(** The judgement of a boot from its log; a panic of [ParseLog] ends the
    program. *)
Definition judged (b : Boot) (log : string) (bootErr : option string) : build (string + Status) :=
  raw ← call (ReadFile log);
  match ParseLog.ParseLog ParseFloat (or_empty raw) with
  | None => Exit 2
  | Some oc => checks ← logChecks c b log; Ret (inr (runBoot_end b oc (or_empty raw) checks bootErr))
  end.
Definition runBoot (b : Boot) (unpinned : bool) : build (string + Status) :=
  o ← boot_opts b;
  match o with
  | inl e => Ret (inl e)
  | inr o =>
      let out := outFor (Out c) (b_Item b) in
      if dry then call (Print (dry_text b o out)) ;; Ret (inr (dry_status b)) else
      let o := placed o (negb unpinned) (joins [results; "logs"; LogName b +:+ ".log"]) in
      r ← boot_l1 ParseFloat (With c out "") o;
      judged b (Log o) r.2
  end.

(** ** What is recorded of it *)
Definition boot_cells (b : Boot) : list string :=
  [LogName b; i_Name (b_Item b); Vendor b; itoa (CPUs b); itoa (Rep b); Side b].
Definition summary_line (s : Status) (secs : spec_float) : string :=
  cells (boot_cells (s_Boot s) ++ [Verdict s; fmt_f 0 secs; Why s]).
Definition metric_line (b : Boot) (m : Metric) : string := cells (boot_cells b ++ [m_Name m; fmt_g (Value m); Unit_ m]).
Definition summary_path : string := path_join results "summary.tsv".
Definition metrics_path : string := path_join results "metrics.tsv".
Definition record (s : Status) (secs : spec_float) : build unit :=
  call (Append summary_path (summary_line s secs +:+ nl)) ;;
  each (Metrics (s_Outcome s)) (λ m, call (Append metrics_path (metric_line (s_Boot s) m +:+ nl))) ;;
  let '(pairs, ks) := StatsPairs (s_Outcome s) in
  match pairs with
  | [] => Ret tt
  | _ => writeStats (path_join results ("stats-" +:+ LogName (s_Boot s) +:+ ".tsv")) pairs ks
  end.
Definition status_line (s : Status) (secs : spec_float) : string :=
  "  " +:+ pad_right_to 4 (Verdict s) +:+ " " +:+ pad_right_to 48 (LogName (s_Boot s)) +:+ " " +:+
  pad_left " " 5 (fmt_f 0 secs) +:+ "s  " +:+ Why s.
(** What a goroutine does under the mutex. *)
Definition finish (r : string + Status) (secs : spec_float) : build unit :=
  match r with
  | inl _ => Ret tt
  | inr s => if dry then Ret tt else record s secs ;; println (status_line s secs)
  end.
End Boot.

(** ** Before anything boots *)
Definition refuse (s : string) : build (option Z) := eprint s ;; Ret (Some 2).
Definition at_line (bat : Battery) (n : nat) (s : string) : string := Path bat +:+ ":" +:+ itoa (Z.of_nat n) +:+ ": " +:+ s.
(** A step that may end the command with a status. *)
Fixpoint each_code {A} (l : list A) (f : A → build (option Z)) : build (option Z) :=
  match l with
  | [] => Ret None
  | x :: l => r ← f x; match r with Some n => Ret (Some n) | None => each_code l f end
  end.
Definition build_kernel (c : Config) (dry : bool) (bat : Battery) (k : Kernel) : build (option Z) :=
  if dry then
    println ("kernel " +:+ k_Name k +:+ ": " +:+ Git k +:+ " at " +:+ Rev k +:+ ", " +:+ Host k +:+ " host") ;; Ret None
  else
    e ← BuildRef c (k_Name k) (Git k) (Rev k) (Host k);
    match e with
    | Some e => refuse (at_line bat (k_Line k) ("building kernel " +:+ k_Name k +:+ ": " +:+ e))
    | None => Ret None
    end.
Definition stats_flag (need : string) : string := if seqb need "stats" then " -stats" else "".
Definition check_item (c : Config) (dry : bool) (bat : Battery) (it : Item) : build (option Z) :=
  host ← host_variant (outFor (Out c) it);
  let need := Get it "host" "" in
  if negb (seqb need "") && negb (seqb need host) && negb dry then
    refuse (at_line bat (Line it) (i_Name it +:+ " needs a " +:+ need +:+ " host build, out/build-host is " +:+ host +:+ ":" +:+ nl +:+
      "  pvmtest build host" +:+ stats_flag need))
  else
  let k := Get it "kernel" "" in
  if negb (seqb k "") && negb dry && negb (existsb (λ kk, seqb (k_Name kk) k) (Kernels bat)) then
    refuse (at_line bat (Line it) ("kernel=" +:+ k +:+ " is not declared"))
  else
  if seqb (Get it "stats" "") "on" && negb (seqb host "stats") && negb dry then
    refuse (at_line bat (Line it) (i_Name it +:+ " has stats=on but the host is a " +:+ host +:+ " build"))
  else Ret None.

(** ** The results directory *)
Definition boot_columns : list string := ["boot"; "item"; "vendor"; "cpus"; "rep"; "side"].
Definition kernel_row (c : Config) (k : Kernel) : build string :=
  d ← gitDescribe (joins [Out c; "refs"; k_Name k; "src"]);
  Ret ("kernel " +:+ k_Name k +:+ tab +:+ Git k +:+ " " +:+ Rev k +:+ " = " +:+ d +:+ nl).
Definition open_results (c : Config) (tb ksrc host : string) (bat : Battery) : build (string + string) :=
  stamp ← call (Now "20060102-150405");
  let results := joins [Out c; "results"; battery_name (Path bat) +:+ "-" +:+ stamp] in
  e ← call (MkdirAll (path_join results "logs"));
  match e with
  | Some e => Ret (inl e)
  | None =>
      k ← gitDescribe ksrc;
      t ← gitDescribe tb;
      now ← call (Now "2006-01-02T15:04:05Z07:00");
      let head := unlines [cells ["battery"; Path bat]; cells ["kernel"; k +:+ " (KSRC=" +:+ ksrc +:+ ")"]; cells ["testbed"; t];
                           cells ["host-build"; host]; cells ["started"; now]] in
      manifest ← each_with (Kernels bat) head (λ m k, row ← kernel_row c k; Ret (m +:+ row));
      call (WriteFile (path_join results "manifest.txt") (manifest +:+ nl +:+ Text bat) 0x1a4) ;;
      call (Create (summary_path results)) ;;
      call (Create (metrics_path results)) ;;
      call (Append (summary_path results) (cells (boot_columns ++ ["verdict"; "seconds"; "why"]) +:+ nl)) ;;
      call (Append (metrics_path results) (cells (boot_columns ++ ["metric"; "value"; "unit"]) +:+ nl)) ;;
      println ("results: " +:+ results) ;;
      Ret (inr results)
  end.

(** ** The loop over the items *)
(** The unexpected results so far, and the boots of run items not yet run. *)
Record rstate := { r_bad : nat; r_pend : list Boot }.
Section Loop.
Context (c : Config) (tb ksrc results : string) (dry : bool) (jobs : Z) (bat : Battery).
Definition pooled (boots : list Boot) (j : Z) : build (option (list Status)) :=
  ans ← call (RunPool c results dry boots j);
  match ans with inl e => eprint e ;; Ret None | inr l => Ret (Some l) end.
(** [flush]; [None] is -1. *)
Definition flush (pending : list Boot) : build (option nat) :=
  match pending with
  | [] => Ret (Some 0%nat)
  | _ => l ← pooled pending jobs; Ret (option_map count_unexpected l)
  end.
Definition baseline_of (it : Item) (env : string) : string :=
  let b := Get it "baseline" "auto" in
  if seqb b "auto" then joins [tb; "baselines"; env +:+ ".tsv"] else if seqb b "none" then "" else b.
Definition compare (path baseline : string) (threshold : spec_float) : build (bool * option string) :=
  now ← call (ReadFile path);
  match readMatrix value_of now with
  | inl e => Ret (false, Some e)
  | inr _ =>
      base ← (if seqb baseline "" then Ret (inl "") else call (ReadFile baseline));
      let '(text, regressed, err) := CompareMatrix value_of now baseline base threshold in
      call (Print text) ;; Ret (regressed, err)
  end.
Definition report_matrix (it : Item) (statuses : list Status) : build nat :=
  let path := path_join results ("matrix-" +:+ i_Name it +:+ ".tsv") in
  call (Create path) ;;
  env ← envID;
  k ← gitDescribe ksrc;
  call (Append path (WriteMatrix Float64s env k (atoiDef (Get it "reps" "1") 1) statuses)) ;;
  call (MkdirAll (path_join (Out c) "perf")) ;;
  raw ← call (ReadFile path);
  (match raw with
   | inr t => env ← envID; call (WriteFile (joins [Out c; "perf"; env +:+ ".tsv"]) t 0x1a4) ;; Ret tt
   | inl _ => Ret tt
   end) ;;
  baseline ← (if seqb (Get it "baseline" "auto") "auto" then env ← envID; Ret (baseline_of it env) else Ret (baseline_of it ""));
  let threshold := value_of (Get it "threshold" "15") in
  r ← compare path baseline threshold;
  (match r.2 with Some e => eprint e | None => Ret tt end) ;;
  if r.1 : bool then
    println (i_Name it +:+ ": at least one PVM timing is more than " +:+ fmt_g threshold +:+ "% worse than the baseline") ;;
    Ret 1%nat
  else Ret 0%nat.
Definition report_ab (it : Item) (statuses : list Status) : build unit :=
  let path := path_join results ("ab-" +:+ i_Name it +:+ ".tsv") in
  call (Create path) ;;
  call (Append path (WriteAB Float64s statuses)) ;;
  printTSV path.
Definition dropped (it : Item) (s : Status) : build unit :=
  if seqb (Verdict s) "ok" then Ret tt else
  println ("  (dropped from " +:+ i_Name it +:+ ": " +:+ LogName (s_Boot s) +:+ ": " +:+ Why s +:+ ")").
(** What a measured item adds to the unexpected results. *)
Definition report_item (it : Item) (statuses : list Status) : build nat :=
  if seqb (Kind it) "matrix" then report_matrix it statuses else
  if seqb (Kind it) "ab" then (report_ab it statuses ;; Ret 0%nat) else Ret 0%nat.
(** A matrix or ab item, after the run items before it: a status that ends the
    command, or the state after it. *)
Definition measure (st : rstate) (it : Item) (boots : list Boot) : build (Z + rstate) :=
  n ← flush (r_pend st);
  match n with
  | None => Ret (inl 2)
  | Some n =>
      l ← pooled boots 1;
      match l with
      | None => Ret (inl 2)
      | Some statuses =>
          let bad := (r_bad st + n)%nat in
          if dry then Ret (inr {| r_bad := bad; r_pend := [] |}) else
          k ← report_item it statuses;
          each statuses (dropped it) ;;
          Ret (inr {| r_bad := (bad + k)%nat; r_pend := [] |})
      end
  end.
Definition item_line (it : Item) (boots : list Boot) : string :=
  "== " +:+ String_ it +:+ " (" +:+ itoa (Z.of_nat (length boots)) +:+ " boot" +:+
  (if (length boots =? 1)%nat then "" else "s") +:+ ")".
Fixpoint items_loop (items : list Item) (st : rstate) : build (Z + rstate) :=
  match items with
  | [] => Ret (inr st)
  | it :: items =>
      match Boots it with
      | inl e => eprint (at_line bat (Line it) e) ;; Ret (inl 2)
      | inr boots =>
          println (item_line it boots) ;;
          if seqb (Kind it) "run" then items_loop items {| r_bad := r_bad st; r_pend := r_pend st ++ boots |} else
          r ← measure st it boots;
          match r with inl n => Ret (inl n) | inr st => items_loop items st end
      end
  end.
Definition run_items (items : list Item) : build Z :=
  r ← items_loop items {| r_bad := 0; r_pend := [] |};
  match r with
  | inl n => Ret n
  | inr st =>
      n ← flush (r_pend st);
      match n with
      | None => Ret 2
      | Some n =>
          if dry then Ret 0 else
          println ("results: " +:+ results) ;;
          let bad := (r_bad st + n)%nat in
          if (0 <? bad)%nat then println (itoa (Z.of_nat bad) +:+ " unexpected result(s)") ;; Ret 1 else Ret 0
      end
  end.
End Loop.

(** ** cmdRun *)
Definition run_flags : flagset := {["n" := FBool false; "only" := FString ""; "j" := FInt 1]}.
Definition run_battery (dry : bool) (only : string) (jobs : Z) (path : string) : build Z :=
  r ← ParseBattery path;
  match r with
  | inl e => eprint e ;; Ret 2
  | inr bat =>
      tb ← testbedDir;
      c ← load_config;
      ksrc ← call (Getenv "KSRC");
      let items := Cmd.selected only (Items bat) in
      k ← each_code (Kernels bat) (build_kernel c dry bat);
      match k with Some n => Ret n | None =>
      host ← host_variant (Out c);
      k ← each_code (checked_items items) (check_item c dry bat);
      match k with Some n => Ret n | None =>
      if dry then run_items c tb ksrc "" dry jobs bat items else
      r ← open_results c tb ksrc host bat;
      match r with
      | inl e => eprint e ;; Ret 2
      | inr results => run_items c tb ksrc results dry jobs bat items
      end end end
  end.
Definition cmdRun (args : list string) (listOnly : bool) : build Z :=
  with_flags run_flags args (λ fs rest,
    match rest with
    | [path] => run_battery (get_bool fs "n" || listOnly) (get_string fs "only") (get_int fs "j") path
    | _ => usage
    end).

(** ** cmdStats, cmdCheck and compare *)
Definition stats_flags : flagset := {["filter" := FString "."]}.
Definition cmdStats (args : list string) : build Z :=
  with_flags stats_flags args (λ fs rest,
    match rest with
    | [path] =>
        raw ← call (ReadFile path);
        match raw with
        | inl e => eprint e ;; Ret 2
        | inr text =>
            match compile (get_string fs "filter") with
            | None => eprint ("error parsing regexp: " +:+ get_string fs "filter") ;; Ret 2
            | Some re =>
                match ParseLog.ParseLog ParseFloat text with
                | None => Exit 2
                | Some oc =>
                    match StatsPairs oc with
                    | ([], _) => eprint "no complete mark pairs: stats=on on a stats host?" ;; Ret 1
                    | (pairs, ks) =>
                        tmp ← call (CreateTemp "pvmtest-stats");
                        writeStats tmp pairs (cmdStats_sel re ks) ;;
                        printTSV tmp ;;
                        call (Remove tmp) ;;
                        Ret 0
                    end
                end
            end
        end
    | _ => usage
    end).
Definition cmdCheck (args : list string) : build Z :=
  match args with
  | [] => usage
  | path :: more =>
      opened ← call (ReadFile path);
      match opened with
      | inl e => eprint e ;; Ret 2
      | inr _ =>
          raw ← call (ReadFile path);
          match ParseLog.ParseLog ParseFloat (or_empty raw) with
          | None => Exit 2
          | Some oc =>
              let '(verdict, why) := cmdCheck_verdict path (head more) oc (or_empty raw) in
              println (verdict +:+ ": " +:+ why) ;;
              Ret (if seqb verdict "ok" then 0 else 1)
          end
      end
  end.
Definition compare_default (m b : string) : build (bool * option string) := compare m b (float64 15).
End RunCmd.
