(* ===== verification/CliRuns.v ===== *)
(** * What the command line promises

    A boot of a battery hands [BootL1] what the flags that spell it do, and the status
    pvmtest exits with is that of the sub-command. *)
From Stdlib Require Import Ascii.
From S2P Require Import Prelude GoStrings Regexp Spec ParseLog Checks Run Boot Prog Build BuildRuns Payload PayloadRuns Flags Cli RunCmd.

#[local] Open Scope Z_scope.

(** ** A decimal number is read in base 10 *)
Lemma radix_go_head fuel n acc : (n < 10 ^ N.of_nat fuel)%N → n ≠ 0%N →
  ∃ c r, radix_go fuel false 10 n acc = String c r ∧ c ≠ "0"%char.
Proof.
  revert n acc. induction fuel as [|fuel IH]; intros n acc Hn H0; [cbn in Hn; lia|]. cbn [radix_go].
  destruct (N.eqb_spec (n / 10) 0) as [E|E].
  - eexists _, _. split; [done|]. rewrite N.mod_small by (apply N.div_small_iff in E; lia).
    assert (n < 10)%N as Hn9 by (apply N.div_small_iff in E; lia).
    assert (Forall (λ d, d ≠ 0%N → digit_char false d ≠ "0"%char) (N.of_nat <$> seq 0 10)) as Hall by (repeat constructor; done).
    rewrite Forall_forall in Hall. apply Hall; [|done]. apply list_elem_of_fmap. exists (N.to_nat n). split; [lia|].
    apply elem_of_seq. lia.
  - apply IH; [|done]. apply N.Div0.div_lt_upper_bound. rewrite Nat2N.inj_succ, N.pow_succ_r' in Hn. lia.
Qed.
Lemma parse_int0_itoa z : 0 < z <= int_max → parse_int0 (itoa z) = Some z.
Proof.
  intros Hz. pose proof (atoi_itoa z ltac:(unfold int_min; lia)) as Ha.
  pose proof (itoa_digits z ltac:(lia)) as Hd. unfold itoa in *. rewrite (proj2 (Z.ltb_ge _ _)) in * by lia.
  assert (∃ c r, radix false 10 (Z.to_N z) = String c r ∧ c ≠ "0"%char) as (c & r & Er & Hc).
  { apply radix_go_head; [|lia]. set (n := Z.to_N z). rewrite Nat2N.inj_succ, N2Nat.id.
    pose proof (N.size_gt n). eapply N.lt_le_trans; [exact H|]. etrans; [apply N.pow_le_mono_l with (b := 10%N); lia|].
    apply N.pow_le_mono_r; lia. }
  rewrite Er in *. unfold parse_int0.
  assert (is_digit c = true ∧ all_bytes is_digit r = true) as [Hdc Hdr] by by rewrite all_bytes_cons in Hd; apply andb_true_iff in Hd.
  assert (ceq c "-" = false ∧ ceq c "+" = false ∧ ceq c "0" = false) as (E1 & E2 & E3).
  { unfold ceq. rewrite !Ascii.eqb_neq. split_and!; [intros ->; done..|done]. }
  rewrite E1, E2. unfold parse_uint0. cbn [bytes]. rewrite E3.
  assert (∀ l, all_bytes is_digit l = true → existsb (λ c, ceq c "_") (bytes l) = false ∧ filter (λ c, ceq c "_" = false) (bytes l) = bytes l) as Hl.
  { induction l as [|x l IH]; [done|]. rewrite all_bytes_cons. intros [Hx Hl]%andb_true_iff. destruct (IH Hl) as [I1 I2].
    assert (ceq x "_" = false) as Ex by (unfold ceq; rewrite Ascii.eqb_neq; by intros ->).
    cbn [bytes existsb]. rewrite Ex. split; [done|]. rewrite filter_cons_True by done. by rewrite I2. }
  destruct (Hl (String c r) Hd) as [H1 H2]. cbn [bytes] in H1, H2. rewrite H1. cbn [andb]. unfold digits_of. rewrite H2.
  unfold atoi, parse_int in Ha. change (unbytes (c :: bytes r)) with (String c (unbytes (bytes r))). rewrite unbytes_bytes.
  assert (∀ A (x y w : A), match c with "-"%char => x | "+"%char => y | _ => w end = w) as Hm.
  { intros A x y w. destruct c as [[] [] [] [] [] [] [] []]; done. }
  rewrite Hm in Ha. destruct (unradix 10 (String c r)) as [n|]; [|done].
  destruct (_ && _) eqn:Eb; [|done]. injection Ha as Ha. rewrite Ha in Eb |- *.
  rewrite (proj2 (Z.ltb_lt _ _)) by (unfold int_max in *; lia). by rewrite Eb.
Qed.

(** ** Flags that are repeated *)
Lemma all_meant_app fs ws ws' : all_meant fs (ws ++ ws') = f1 ← all_meant fs ws; all_meant f1 ws'.
Proof.
  unfold all_meant. rewrite foldl_app. destruct (foldl _ (Some fs) ws); cbn; [done|]. apply all_meant_none.
Qed.
Lemma all_meant_cons fs w ws : all_meant fs (w :: ws) = f1 ← meant fs w; all_meant f1 ws.
Proof. unfold all_meant. cbn [foldl]. cbn. destruct (meant fs w); [done|]. apply all_meant_none. Qed.
Lemma meant_string fs n old x : name_ok n = true → fs !! n = Some (FString old) →
  meant fs (WEq false n x) = Some (<[n := FString x]> fs).
Proof. intros Hn Hl. cbn [meant]. rewrite Hn. unfold set_flag. by rewrite Hl. Qed.
Lemma meant_list fs n old x : name_ok n = true → fs !! n = Some (FList old) → no_byte "," x = true →
  meant fs (WEq false n x) = Some (<[n := FList (old ++ [x])]> fs).
Proof. intros Hn Hl Hx. cbn [meant]. rewrite Hn. unfold set_flag. rewrite Hl. cbn. by rewrite split_nosep_id. Qed.
Lemma all_meant_list l : ∀ fs n old, name_ok n = true → fs !! n = Some (FList old) → Forall (λ x, no_byte "," x = true) l →
  ∃ fs', all_meant fs (WEq false n <$> l) = Some fs' ∧ fs' !! n = Some (FList (old ++ l)) ∧ ∀ m, m ≠ n → fs' !! m = fs !! m.
Proof.
  induction l as [|x l IH]; intros fs n old Hn Hl Hf; cbn [fmap list_fmap].
  - exists fs. split; [done|]. by rewrite app_nil_r.
  - apply Forall_cons in Hf as [Hx Hf]. rewrite all_meant_cons, (meant_list fs n old x Hn Hl Hx). cbn.
    destruct (IH (<[n := FList (old ++ [x])]> fs) n (old ++ [x]) Hn (lookup_insert_eq _ _ _) Hf) as (fs' & H1 & H2 & H3).
    exists fs'. split; [exact H1|]. split; [by rewrite H2, <-app_assoc|]. intros m Hm. rewrite H3 by done. by rewrite lookup_insert_ne.
Qed.

(** ** The flags of a battery's boot *)
Definition by_hand (it : Item) (o : L1Opts) (pin : bool) (log : string) : list written :=
  [WEq false "suite" (o_Suite o); WEq false "vendor" (o_Vendor o); WEq false "cpus" (o_CPUs o); WEq false "mem" (Mem o);
   WEq false "profile" (Profile o); WEq false "l1" (Get it "l1" "kvm"); WEq false "log" log;
   WEq false "kernel" (Get it "kernel" "")] ++
  (WEq false "guest" <$> Guest o) ++ (WEq false "mod" <$> Mod o) ++ (WEq false "l1append" <$> default [] (List_ it "l1append")) ++
  (if seqb (Get it "pti" "") "on" then [WSwitch false "pti"] else []) ++
  (match atoi (Get it "timeout" "") with Some n => [WArg false "timeout" (itoa n)] | None => [] end) ++
  (if pin then [] else [WSwitch false "nopin"]).
(** Two boots that differ at most in the order of the words added to L1's
    command line and in who watches. *)
Definition same_boot (o o' : L1Opts) : Prop :=
  o_Suite o = o_Suite o' ∧ o_Vendor o = o_Vendor o' ∧ Guest o = Guest o' ∧ Mod o = Mod o' ∧ o_CPUs o = o_CPUs o' ∧ Mem o = Mem o' ∧
  Profile o = Profile o' ∧ L1Args o ≡ₚ L1Args o' ∧ Accel o = Accel o' ∧ CPU o = CPU o' ∧ o_Timeout o = o_Timeout o' ∧
  Log o = Log o' ∧ Pin o = Pin o' ∧ QMP o = QMP o' ∧ Debug_ o = Debug_ o'.
Lemma no_byte_app c a b : no_byte c (a +:+ b) = no_byte c a && no_byte c b.
Proof. apply all_bytes_app. Qed.
Lemma no_byte_join c sep l : no_byte c sep = true → Forall (λ x, no_byte c x = true) l → no_byte c (join sep l) = true.
Proof.
  intros Hs. induction l as [|x l IH]; [done|]. intros [Hx Hl]%Forall_cons. destruct l as [|y l]; [done|].
  rewrite join_cons, !no_byte_app, Hx, Hs, IH; done.
Qed.
Lemma List_no_comma it k : Forall (λ x, no_byte "," x = true) (default [] (List_ it k)).
Proof. unfold List_. destruct (seqb _ ""); [by constructor|]. apply split_no_sep. Qed.
Definition l1_ok (l1 : string) : bool := seqb l1 "kvm" || (seqb l1 "tcg" || seqb l1 "tcg-la57").
(** What [l1Opts] makes of an item it accepts. *)
Lemma l1Opts_inv getenv b o : l1Opts getenv b = inr o →
  let it := b_Item b in let l1 := Get it "l1" "kvm" in
  let tcg := seqb l1 "tcg" || seqb l1 "tcg-la57" in
  l1_ok l1 = true ∧ Mem o = "" ∧ Mod o = default [] (List_ it "mod") ∧ Forall (λ x, no_byte "," x = true) (Guest o) ∧
  L1Args o = (if seqb (Get it "pti" "") "on" then ["pti=on"] else []) ++ (if tcg then ["pvmtest.guest_timeout=15000"] else []) ++
             default [] (List_ it "l1append") ∧
  Accel o = (if tcg then "tcg" else "") ∧
  CPU o = (if tcg then (if seqb l1 "tcg-la57" then "max,la57=on" else "max") else "") ∧
  Log o = "" ∧ Pin o = false ∧ QMP o = getenv "L1_QMP" ∧ Debug_ o = getenv "L1_QEMU_DEBUG" ∧
  (if seqb (Get it "timeout" "") "" then o_Timeout o = (if tcg then 20000 * second else 0)
   else ∃ n, atoi (Get it "timeout" "") = Some n ∧ o_Timeout o = int64 (n * second)).
Proof.
  cbv zeta. set (it := b_Item b).
  assert (seqb (Get it "l1" "") "tcg-la57" = seqb (Get it "l1" "kvm") "tcg-la57") as Hl1.
  { unfold Get. by destruct (Keys it !! "l1") as [v|]; [destruct (negb (seqb v ""))|]. }
  assert (Forall (λ x, no_byte "," x = true)
    (match List_ it "cases" with Some cases => ["pvmtest.only=" +:+ join "|" cases] | None => [] end)) as Hcases.
  { pose proof (List_no_comma it "cases") as Hc. destruct (List_ it "cases") as [cs|]; [|by constructor].
    constructor; [|by constructor]. rewrite no_byte_app, no_byte_join; done. }
  unfold l1Opts, l1_ok. cbv zeta. fold it. rewrite Hl1.
  destruct (seqb (Get it "l1" "kvm") "kvm" || _) eqn:Eok; cbn [negb]; [|done].
  destruct (seqb (Get it "timeout" "") "") eqn:Et.
  - intros [= <-]. cbn. split_and!; try done. repeat apply Forall_app_2; [done| |apply List_no_comma].
    destruct (seqb _ "on"); by repeat constructor.
  - destruct (atoi (Get it "timeout" "")) as [n|]; [|done]. intros [= <-]. cbn. split_and!; try done; [|by exists n].
    repeat apply Forall_app_2; [done| |apply List_no_comma]. destruct (seqb _ "on"); by repeat constructor.
Qed.
(** The flag set once the single flags are given. *)
Definition singles (cpus mem : string) (it : Item) (o : L1Opts) (log : string) : flagset :=
  <["kernel" := FString (Get it "kernel" "")]> (<["log" := FString log]> (<["l1" := FString (Get it "l1" "kvm")]> (<["profile" := FString (Profile o)]> (<["mem" := FString (Mem o)]>
  (<["cpus" := FString (o_CPUs o)]> (<["vendor" := FString (o_Vendor o)]> (<["suite" := FString (o_Suite o)]> (l1_flags cpus mem)))))))).
Lemma singles_meant cpus mem it o log :
  all_meant (l1_flags cpus mem)
    [WEq false "suite" (o_Suite o); WEq false "vendor" (o_Vendor o); WEq false "cpus" (o_CPUs o); WEq false "mem" (Mem o);
     WEq false "profile" (Profile o); WEq false "l1" (Get it "l1" "kvm"); WEq false "log" log;
     WEq false "kernel" (Get it "kernel" "")] = Some (singles cpus mem it o log).
Proof.
  unfold singles. repeat (rewrite all_meant_cons; erewrite meant_string; [cbn [mbind option_bind]|done|reflexivity]). done.
Qed.
Lemma not_three (n a b c : string) : bool_decide (n ∈ [a; b; c]) = false → n ≠ a ∧ n ≠ b ∧ n ≠ c.
Proof. intros H%bool_decide_eq_false. split_and!; intros ->; apply H; [by left|by right; left|by right; right; left]. Qed.
Lemma lists_meant cpus mem it o log :
  Forall (λ x, no_byte "," x = true) (Guest o) → Forall (λ x, no_byte "," x = true) (Mod o) →
  ∃ fs, all_meant (singles cpus mem it o log)
      ((WEq false "guest" <$> Guest o) ++ (WEq false "mod" <$> Mod o) ++ (WEq false "l1append" <$> default [] (List_ it "l1append"))) = Some fs ∧
    fs !! "guest" = Some (FList (Guest o)) ∧ fs !! "mod" = Some (FList (Mod o)) ∧
    fs !! "l1append" = Some (FList (default [] (List_ it "l1append"))) ∧
    ∀ n, bool_decide (n ∈ ["guest"; "mod"; "l1append"]) = false → fs !! n = singles cpus mem it o log !! n.
Proof.
  intros Hg Hm.
  destruct (all_meant_list (Guest o) (singles cpus mem it o log) "guest" [] eq_refl eq_refl Hg) as (f1 & A1 & B1 & C1).
  destruct (all_meant_list (Mod o) f1 "mod" [] eq_refl (C1 "mod" ltac:(done)) Hm) as (f2 & A2 & B2 & C2).
  destruct (all_meant_list (default [] (List_ it "l1append")) f2 "l1append" [] eq_refl) as (f3 & A3 & B3 & C3).
  { rewrite C2, C1 by done. done. } { apply List_no_comma. }
  exists f3. rewrite all_meant_app, A1. cbn. rewrite all_meant_app, A2. cbn. split; [exact A3|].
  split; [by rewrite C3, C2 by done|]. split; [by rewrite C3 by done|]. split; [done|].
  intros n Hn. destruct (not_three _ _ _ _ Hn) as (N1 & N2 & N3). by rewrite C3, C2, C1.
Qed.
Lemma atoi_max s n : atoi s = Some n → n <= int_max.
Proof.
  unfold atoi, parse_int. intros H. repeat case_match; simplify_eq.
  all: match goal with H : (_ <=? _) && (_ <=? _) = true |- _ => apply andb_true_iff in H as [_ ?%Z.leb_le] end; assumption.
Qed.
Definition timeout_flag (t : string) : list written := match atoi t with Some n => [WArg false "timeout" (itoa n)] | None => [] end.
Lemma rest_meant fs it (pin : bool) :
  fs !! "pti" = Some (FBool false) → fs !! "timeout" = Some (FInt 0) → fs !! "nopin" = Some (FBool false) →
  (Get it "timeout" "" = "" ∨ ∃ n, atoi (Get it "timeout" "") = Some n ∧ 0 < n) →
  ∃ fs', all_meant fs ((if seqb (Get it "pti" "") "on" then [WSwitch false "pti"] else []) ++
      timeout_flag (Get it "timeout" "") ++ (if pin then [] else [WSwitch false "nopin"])) = Some fs' ∧
    fs' !! "pti" = Some (FBool (seqb (Get it "pti" "") "on")) ∧
    fs' !! "timeout" = Some (FInt (default 0 (atoi (Get it "timeout" "")))) ∧ fs' !! "nopin" = Some (FBool (negb pin)) ∧
    ∀ n, bool_decide (n ∈ ["pti"; "timeout"; "nopin"]) = false → fs' !! n = fs !! n.
Proof.
  intros Hp Ht Hn Hto.
  set (f1 := if seqb (Get it "pti" "") "on" then <["pti" := FBool true]> fs else fs).
  assert (all_meant fs (if seqb (Get it "pti" "") "on" then [WSwitch false "pti"] else []) = Some f1) as A1.
  { unfold f1. destruct (seqb _ "on"); [|done]. rewrite all_meant_cons. cbn [meant]. rewrite Hp. cbn. unfold set_flag. rewrite Hp. done. }
  set (f2 := match atoi (Get it "timeout" "") with Some n => <["timeout" := FInt n]> f1 | None => f1 end).
  assert (f1 !! "timeout" = Some (FInt 0)) as Ht1 by (unfold f1; destruct (seqb _ "on"); by rewrite ?lookup_insert_ne).
  assert (all_meant f1 (timeout_flag (Get it "timeout" "")) = Some f2) as A2.
  { unfold timeout_flag, f2. destruct (atoi _) as [n|] eqn:Ea; [|done]. rewrite all_meant_cons. cbn [meant]. rewrite Ht1. cbn.
    unfold set_flag. rewrite Ht1. cbn. destruct Hto as [Ht0|(m & [= <-] & Hm)]; [by rewrite Ht0 in Ea|].
    rewrite parse_int0_itoa; [done|]. split; [done|by eapply atoi_max]. }
  assert (f2 !! "nopin" = Some (FBool false)) as Hn2.
  { unfold f2, f1. destruct (atoi _), (seqb _ "on"); by rewrite ?lookup_insert_ne. }
  set (f3 := if pin then f2 else <["nopin" := FBool true]> f2).
  assert (all_meant f2 (if pin then [] else [WSwitch false "nopin"]) = Some f3) as A3.
  { unfold f3. destruct pin; [done|]. rewrite all_meant_cons. cbn [meant]. rewrite Hn2. cbn. unfold set_flag. by rewrite Hn2. }
  exists f3. rewrite all_meant_app, A1. cbn. rewrite all_meant_app, A2. cbn. split; [exact A3|].
  unfold f3, f2, f1. split_and!.
  - destruct pin, (atoi _), (seqb _ "on"); rewrite ?lookup_insert_ne by done; by rewrite ?lookup_insert_eq.
  - destruct pin, (atoi _), (seqb _ "on"); rewrite ?lookup_insert_ne by done; by rewrite ?lookup_insert_eq, ?lookup_insert_ne.
  - destruct pin; [|by rewrite lookup_insert_eq]. exact Hn2.
  - intros n Hnn. destruct (not_three _ _ _ _ Hnn) as (N1 & N2 & N3).
    destruct pin, (atoi _), (seqb _ "on"); by rewrite ?lookup_insert_ne.
Qed.
(** The command lines of two such boots: one word is two orders of the same
    words of L1's command line, the others are the same. *)
Definition same_command (l l' : list string) : Prop :=
  ∃ pre post a a', l = pre ++ [join " " a] ++ post ∧ l' = pre ++ [join " " a'] ++ post ∧ a ≡ₚ a'.
Lemma L1Append_same o o' : same_boot o o' → L1Append o ≡ₚ L1Append o'.
Proof.
  intros (E1&E2&E3&E4&E5&E6&E7&E8&_). unfold L1Append. rewrite E1, E2, E3, E4, E5, E6, E7. by rewrite E8.
Qed.
Lemma defaults_same c o o' : same_boot o o' → same_boot (BootL1_defaults c o) (BootL1_defaults c o').
Proof.
  intros (E1&E2&E3&E4&E5&E6&E7&E8&E9&E10&E11&E12&E13&E14&E15). unfold same_boot, BootL1_defaults.
  cbn [o_Suite o_Vendor Guest Mod o_CPUs Mem Profile L1Args Accel CPU o_Timeout Log Pin QMP Debug_].
  rewrite E1, E2, E9, E10, E11, E12. by split_and!.
Qed.
Lemma L1Argv_same pins c o o' payload : same_boot o o' → same_command (L1Argv pins c o payload) (L1Argv pins c o' payload).
Proof.
  intros H. pose proof (L1Append_same _ _ H) as Ha. destruct H as (_&_&_&_&_&_&_&_&E9&E10&_&_&E13&E14&E15).
  unfold L1Argv. rewrite E9, E10, E13, E14, E15. set (img := path_join (Out c) "images").
  exists ((if Pin o' && seqb (Accel o') "kvm" && negb (seqb pins "") then ["taskset"; "-c"; pins] else []) ++
    [Qemu c; "-machine"; "q35,accel=" +:+ Accel o'; "-cpu"; CPU o'; "-smp"; L1CPUs c; "-m"; L1Mem c;
     "-kernel"; path_join img "host-bzImage"; "-drive";
     "file=" +:+ path_join img "l1-rootfs.ext4" +:+ ",if=virtio,format=raw,snapshot=on"; "-append"]).
  eexists _, (L1Append o), (L1Append o'). split; [by rewrite <-app_assoc|]. split; [by rewrite <-app_assoc|exact Ha].
Qed.
Lemma kernel_config c it : with_kernel c (Get it "kernel" "") = With c (outFor (Out c) it) "".
Proof.
  unfold with_kernel, outFor. destruct (seqb (Get it "kernel" "") ""); [|unfold joins, path_join; cbn [join]; by rewrite !app_assoc_s].
  unfold With. destruct c as [? out ? ? ? ? ? ? ? ? ?]. cbn. by destruct (seqb out "").
Qed.

Definition tcg_item : Item := {| Kind := "run"; i_Name := "la57"; Line := 3;
  Keys := list_to_map [("suite", "full"); ("vendor", "pvm"); ("l1", "tcg-la57"); ("pti", "on"); ("guest", "nopti,quiet"); ("timeout", "0900");
                       ("l1append", "clearcpuid=pcid"); ("kernel", "base")] |}.
Definition tcg_boot : Boot := {| b_Item := tcg_item; Vendor := "pvm"; CPUs := 4; Rep := 0; Side := ""; LogName := "la57" |}.
Definition no_env (k : string) : string := "".

(** ** What a boot by hand answers *)
(** What the agent writes in suite failclosed when the module refused. *)
Definition refused_log : string := unlines
  ["L1: === expecting pvm to refuse to load ==="; "FAILCLOSED: ok reason=refused"; "L1: --- what it said ---";
   "L1: dmesg: [    3.141592] kvm_pvm: cannot load without KPTI"].
Section Judged.
Context (X : commands) (c : Config) (o : L1Opts).
Definition text_of (r : string + string) : string := match r with inr t => t | inl _ => "" end.
(** [pvmtest boot l1] fails with the error of the boot when it could not be
    done, and otherwise exactly when the log it left is not judged ok, for the
    reason judged; the log was read after the boot and the checkers asked. *)
Theorem boot_judged_status tr e :
  runs (boot_judged X c o) tr (Returned e) →
  ∃ tr1 tr2 log err, tr = tr1 ++ tr2 ∧ runs (boot_l1 (ParseFloat X) c o) tr1 (Returned (log, err)) ∧
  match err with
  | Some err => e = Some err ∧ tr2 = []
  | None => ∃ r oc tr3 checks why verdict msg, tr2 = Ev (ReadFile log) (Some r) :: tr3 ++ [Ev (Logf msg) (Some tt)] ∧
      ParseLog.ParseLog (ParseFloat X) (text_of r) = Some oc ∧ runs (log_checks X c (l1_boot o) log) tr3 (Returned checks) ∧
      judge (l1_boot o) oc (text_of r) 0 checks = (verdict, why) ∧ e = if seqb verdict "ok" then None else Some why
  end.
Proof.
  unfold boot_judged, judge_log. intros H. apply runs_bind in H as [([log err] & tr1 & tr2 & -> & H1 & H2)|[(? & _ & [=])|(_ & [=])]].
  exists tr1, tr2, log, err. split; [done|]. split; [done|]. destruct err as [err|].
  { cbn in H2. destruct H2 as [-> [= ->]]. done. }
  apply runs_bind in H2 as [(r & t1 & t2 & -> & H2 & H3)|[(? & _ & [=])|(_ & [=])]].
  apply runs_call in H2 as [[_ [=]]|(r' & -> & [= <-])].
  destruct (ParseLog.ParseLog _ _) as [oc|] eqn:Ep; [|by cbn in H3; destruct H3].
  apply runs_bind in H3 as [(checks & t3 & t4 & -> & H3 & H4)|[(? & _ & [=])|(_ & [=])]].
  destruct (judge _ _ _ _ _) as [verdict why] eqn:Ej.
  apply runs_bind in H4 as [([] & t5 & t6 & -> & H4 & H5)|[(? & _ & [=])|(_ & [=])]].
  apply runs_call in H4 as [[_ [=]]|(u & -> & [= <-])].
  exists r, oc, t3, checks, why, verdict. eexists.
  assert (t6 = [] ∧ e = if seqb verdict "ok" then None else Some why) as [-> ->].
  { destruct (seqb verdict "ok"); cbn in H5; destruct H5 as [-> [= ->]]; done. }
  split_and!; try done.
Qed.
(** What [judge] says of a boot by hand that left no result. *)
Lemma judge_by_hand oc text checks : ¬ has_results oc → (judge (l1_boot o) oc text 0 checks).1 = "FAIL".
Proof.
  intros Hn. unfold judge. cbv zeta.
  assert (∀ k d, k ≠ "suite" → Get (b_Item (l1_boot o)) k d = d) as Hget.
  { intros k d Hk. unfold Get. cbn [l1_boot b_Item Keys]. by rewrite lookup_singleton_ne. }
  rewrite Hget by done. change (seqb "pass" "refuse-load") with false. cbv iota.
  destruct (LoadFailed oc); [done|]. destruct (0 <? length _)%nat; [done|]. destruct (0 <? HostFail oc); [done|].
  destruct (_ && _) eqn:E; [done|]. exfalso. apply Hn. unfold has_results.
  destruct (Passed oc) as [|]; [|by left]. destruct (Z.eqb_spec (HostPass oc) 0) as [E1|]; [|by right; left].
  destruct (Z.eqb_spec (Selftests oc) 0) as [E2|]; [|by right; right; left].
  destruct (Z.eqb_spec (KUT oc) 0) as [E3|]; [|by right; right; right; left].
  destruct (Metrics oc) as [|]; [by cbn in E|by right; right; right; right].
Qed.
(** [pvmtest boot l1] only succeeds when the log it read after the boot has
    a result; so it fails after a boot of suite failclosed on which the module
    refused to load as it should, whose log has none. *)
Theorem judge_log_needs_results log tr :
  runs (judge_log X c o log) tr (Returned None) →
  (∃ r tr' oc, tr = Ev (ReadFile log) (Some r) :: tr' ∧ ParseLog.ParseLog (ParseFloat X) (text_of r) = Some oc ∧ has_results oc) ∧
  (∃ oc, ParseLog.ParseLog (ParseFloat X) refused_log = Some oc ∧ FailClosed oc = "ok" ∧ ¬ has_results oc).
Proof.
  intros H. split.
  - unfold judge_log in H. apply runs_bind in H as [(r & t1 & t2 & -> & H2 & H3)|[(? & _ & [=])|(_ & [=])]].
    apply runs_call in H2 as [[_ [=]]|(r' & -> & [= <-])].
    destruct (ParseLog.ParseLog _ _) as [oc|] eqn:Ep; [|by cbn in H3; destruct H3].
    apply runs_bind in H3 as [(checks & t3 & t4 & -> & H3 & H4)|[(? & _ & [=])|(_ & [=])]].
    exists r, (t3 ++ t4), oc. split; [done|]. split; [exact Ep|].
    pose proof (judge_by_hand oc (text_of r) checks) as Hj. unfold text_of in Hj.
    destruct (judge _ _ _ _ _) as [verdict why]. cbn in Hj.
    apply runs_bind in H4 as [(u & t5 & t6 & -> & H4 & H5)|[(? & _ & [=])|(_ & [=])]].
    destruct (seqb_spec verdict "ok") as [->|]; [|by cbn in H5; destruct H5].
    unfold has_results. destruct (decide (Passed oc = [])); [|by left]. right.
    destruct (decide (HostPass oc = 0)); [|by left]. right. destruct (decide (Selftests oc = 0)); [|by left]. right.
    destruct (decide (KUT oc = 0)); [|by left]. right. intros Hm. discriminate Hj. unfold has_results. tauto.
  - eexists. split; [vm_compute; reflexivity|]. split; [reflexivity|]. unfold has_results. cbn. tauto.
Qed.
End Judged.

(** ** Where pvmtest exits *)
(** A panic ends the program with status 2. *)
Section Stays.
Context (E : Z → Prop) (E2 : E 2).
Lemma exits_andthen p k : exits E p → exits E k → exits (op := bop) E (p &&! k).
Proof. intros. apply exits_bind; [done|]. by intros [e|]. Qed.
Lemma exits_with_val {A} (p : build (string + A)) k : exits E p → (∀ x, exits E (k x)) → exits (op := bop) E (with_val p k).
Proof. intros. apply exits_bind; [done|]. by intros [e|x]. Qed.
Lemma exits_wrap f p : exits E p → exits (op := bop) E (wrap f p).
Proof. intros. by apply exits_bind. Qed.
Lemma exits_each_err {A} (l : list A) f : (∀ x, exits E (f x)) → exits (op := bop) E (each_err l f).
Proof. intros H. induction l as [|x l IH]; cbn [each_err]; [done|]. by apply exits_andthen. Qed.
Lemma exits_getenvs ks : exits (op := bop) E (getenvs ks).
Proof. induction ks as [|k ks IH]; cbn [getenvs]; [done|]. apply exits_bind; [done|]. intros v. by apply exits_bind. Qed.
Lemma exits_cpu_freqs ds : exits (op := bop) E (cpu_freqs ds).
Proof. induction ds as [|d ds IH]; cbn [cpu_freqs]; [done|]. apply exits_bind; [done|]. intros x. by apply exits_bind. Qed.
(** Walks a build down to where it exits. *)
Ltac walk_exits :=
  repeat (intros; first
    [ done | exact E2 | apply exits_andthen | apply exits_with_val | apply exits_wrap | apply exits_each_err | apply exits_each
    | apply exits_getenvs | apply exits_cpu_freqs | apply exits_bind | apply exits_call
    | progress unfold logf, runCmd, mk, copyFile, fileExists, need, NeedKSRC, goBuildStatic, CheckStatic, read_list, envOr_b,
        rev_parse, fail, done_ok
    | case_match ]).
Lemma exits_BuildKernel c role extra : exits E (BuildKernel c role extra).
Proof. unfold BuildKernel, role_fragment, configure, install. cbv zeta. walk_exits. Qed.
Lemma exits_BuildRef c name git rev v : exits E (BuildRef c name git rev v).
Proof. unfold BuildRef, build_ref, share. cbv zeta. walk_exits; apply exits_BuildKernel. Qed.
Lemma exits_target X c what extra args : exits E (build_target X c what extra args).
Proof.
  assert (exits E (BuildInitrd c)) as Hi by (unfold BuildInitrd; cbv zeta; walk_exits).
  assert (exits E (BuildHosttests c)) as Hh by (unfold BuildHosttests; cbv zeta; walk_exits).
  assert (exits E (BuildAgent c)) as Ha by (unfold BuildAgent; cbv zeta; walk_exits).
  assert (exits E (BuildSelftests c)) as Hs by (unfold BuildSelftests; cbv zeta; walk_exits).
  assert (exits E (BuildKUT c)) as Hk by (unfold BuildKUT; cbv zeta; walk_exits).
  assert (exits E (BuildRootfs (order X) c)) as Hr.
  { unfold BuildRootfs, rootfs_body, rootfs_suite, rootfs_mode, stage_image, rootfs_image, give_back, osReleaseCodename. cbv zeta. walk_exits. }
  pose proof (exits_BuildRef c) as Hf.
  unfold build_target. repeat case_match; try done; try apply exits_BuildKernel; auto.
  repeat (apply exits_andthen; [by first [apply exits_BuildKernel|auto]|]). done.
Qed.
Lemma exits_boot_l1 pf c o : exits E (boot_l1 pf c o).
Proof.
  unfold boot_l1, needRun, boot_payload, stagePayload, copyTree, stage_modules, stage_perf, ldconfigPath, runQemu, pin_list, try_copy.
  cbv zeta. walk_exits.
Qed.
End Stays.
(** The statuses a command may end the program with by itself: 0 when asked for
    help, 2 on wrong flags or a panic. *)
Definition own_status (n : Z) : Prop := n = 0 ∨ n = 2.
Record well_behaved (X : commands) : Prop := {
  wb_config c : exits own_status (do_regress X c) ∧ exits own_status (do_deps X c) ∧ exits own_status (do_host_selftest X c);
  wb_sanitize c l q : exits own_status (do_sanitize X c l q);
  wb_selftests c l v : exits own_status (do_selftests X c l v);
  wb_exits c k vs : exits own_status (do_exits X c k vs);
  wb_resolve c l v : exits own_status (do_resolve X c l v);
  wb_guest c o : exits own_status (do_guest X c o);
  wb_checks c b l : exits own_status (log_checks X c b l) }.
Lemma exits_with_flags {A} fs args (k : flagset → list string → build A) :
  (∀ fs rest, exits own_status (k fs rest)) → exits own_status (with_flags fs args k).
Proof.
  intros Hk. unfold with_flags. destruct (Parse fs args); [apply Hk|by left|]. apply exits_bind; [done|]. intros _. by right.
Qed.
Lemma exits_load_config : exits own_status load_config.
Proof.
  unfold load_config, testbedDir, fileExists. apply exits_bind.
  - apply exits_bind; [done|]. intros d. destruct (negb _); [done|]. apply exits_bind; [done|]. intros [exe|]; [|done].
    cbv zeta. apply exits_bind; [by apply exits_bind|]. by intros [].
  - intros tb. apply exits_bind; [apply exits_getenvs|]. intros env. by apply exits_bind.
Qed.
Lemma exits_judged X c o : well_behaved X → exits own_status (boot_judged X c o).
Proof.
  intros W. unfold boot_judged, judge_log. apply exits_bind; [apply exits_boot_l1; by right|].
  intros [log [e|]]; [done|]. apply exits_bind; [done|]. intros raw. cbv zeta. destruct (ParseLog.ParseLog _ _); [|by right].
  apply exits_bind; [apply W|]. intros checks. destruct (judge _ _ _ _ _) as [v why]. apply exits_bind; [done|].
  intros _. by destruct (seqb v "ok").
Qed.
Lemma exits_runSub X name args : well_behaved X → exits own_status (runSub X name args).
Proof.
  intros W. unfold runSub. apply exits_bind; [apply exits_load_config|]. intros c. cbv zeta.
  assert (∀ p, exits own_status p → exits own_status (e ← p; Ret (Some e) : build (option (option string)))) as Hh.
  { intros p Hp. by apply exits_bind. }
  assert (exits own_status (cmdBuild X args)) as Hb.
  { unfold cmdBuild. destruct args; [done|]. apply exits_bind; [apply exits_load_config|]. intros c'. apply exits_with_flags.
    intros fs rest. cbv zeta. apply exits_target. by right. }
  assert (exits own_status (cmdBoot X args)) as Hboot.
  { unfold cmdBoot. destruct args as [|what args]; [done|]. apply exits_bind; [apply exits_load_config|]. intros c'.
    destruct (seqb what "l1"); [|destruct (seqb what "guest"); [|destruct (seqb what "host-selftest"); [apply W|done]]].
    - apply exits_bind; [done|]. intros cpus. apply exits_bind; [done|]. intros mem. apply exits_with_flags. intros fs rest.
      apply exits_bind; [done|]. intros qmp. apply exits_bind; [done|]. intros debug.
      destruct (l1_opts fs qmp debug); [done|by apply exits_judged].
    - apply exits_with_flags. intros fs rest. apply W. }
  repeat case_match; try done; apply Hh; first [done|apply W].
Qed.
(** ** The status of pvmtest *)
Definition sub_names : list string := ["build"; "boot"; "regress"; "deps"; "sanitize"; "selftests"; "exits"; "resolve-exits"].
Lemma fail_returns {A} (v : A) tr out : runs (op := bop) (Ret v) tr out → tr = [] ∧ out = Returned v.
Proof. done. Qed.
(** Every command but these is left to [main]. *)
Lemma runSub_handled X name args tr r : runs (runSub X name args) tr (Returned r) → (is_Some r ↔ name ∈ sub_names).
Proof.
  unfold runSub. intros H. apply runs_bind in H as [(c & t1 & t2 & -> & _ & H)|[(? & _ & [=])|(_ & [=])]].
  assert (∀ p, runs (e ← p; Ret (Some e)) t2 (Returned r) → is_Some r) as Hs.
  { intros p Hp. apply runs_bind in Hp as [(e & t3 & t4 & -> & _ & Hp)|[(? & _ & [=])|(_ & [=])]]. cbn in Hp. destruct Hp as [_ [= ->]]. by eexists. }
  cbv zeta in H. unfold sub_names. rewrite !elem_of_cons.
  repeat match type of H with
  | runs (if seqb name ?s then _ else _) _ _ => destruct (seqb_spec name s) as [->|]
  end.
  all: try (split; [tauto|]; intros _; repeat case_match; by eapply Hs).
  cbn in H. destruct H as [_ [= ->]]. split; [by intros []|]. intros Hn. exfalso. destruct_or?; try done. by apply not_elem_of_nil in Hn.
Qed.
(** For a sub-command that builds, boots or reads logs, pvmtest ends with
    status 0 when the command has no error, and with status 1 after one line on
    stderr when it has one; and it ends otherwise only where the command does
    by itself, with status 0 when asked for help and with status 2 on wrong
    flags or a panic, as long as the commands modelled elsewhere keep to this. *)
Lemma main_status X prog name args tr out :
  well_behaved X → name ∈ sub_names → runs (main X (prog :: name :: args)) tr out →
  (∃ tr' e, runs (runSub X name args) tr' (Returned (Some e)) ∧
     match e with
     | None => tr = tr' ∧ out = Returned tt
     | Some e => (tr = tr' ++ [Ev (Eprint (failed_mark +:+ e)) (Some tt)] ∧ out = Exited 1) ∨
                 (tr = tr' ++ [Ev (Eprint (failed_mark +:+ e)) None] ∧ out = Stopped)
     end) ∨
  (∃ n, own_status n ∧ runs (runSub X name args) tr (Exited n) ∧ out = Exited n) ∨
  (runs (runSub X name args) tr Stopped ∧ out = Stopped).
Proof.
  intros W Hn H. unfold main in H. apply runs_bind in H as [(r & t1 & t2 & -> & H1 & H2)|[(n & H1 & ->)|(H1 & ->)]].
  2: { right. left. exists n. split; [|done]. by eapply exits_runs; [apply (exits_runSub X name args W)|]. }
  2: by right; right.
  left. destruct (proj2 (runSub_handled _ _ _ _ _ H1) Hn) as [e ->]. exists t1, e. split; [exact H1|].
  destruct e as [e|].
  - apply runs_bind in H2 as [(u & t3 & t4 & -> & H3 & H4)|[(n & H3 & ->)|(H3 & ->)]].
    + apply runs_call in H3 as [[_ [=]]|(u' & -> & [= <-])]. destruct H4 as [-> ->]. left. rewrite app_nil_r. by destruct u.
    + by apply runs_call in H3 as [[_ [=]]|(u' & _ & [=])].
    + apply runs_call in H3 as [[-> _]|(u' & _ & [=])]. by right.
  - cbn in H2. destruct H2 as [-> ->]. by rewrite app_nil_r.
Qed.

(** Commands that answer nothing but success. *)
Definition demo_commands : commands := {|
  order := id; ParseFloat := λ _, None; do_regress := λ _, done_ok; do_deps := λ _, fail "missing tool: qemu";
  do_sanitize := λ _ _ _, done_ok; do_selftests := λ _ _ _, done_ok; do_exits := λ _ _ _, done_ok; do_resolve := λ _ _ _, done_ok;
  do_guest := λ _ _, done_ok; do_host_selftest := λ _, done_ok; log_checks := λ _ _ _, Ret []; do_run := λ _ _, Ret 0;
  do_stats := λ _, Ret 0; do_check := λ _, Ret 0; do_compare := λ _ _, Ret (false, None) |}.
(** A machine on which a boot passes one case. *)
Definition cli_machine B (o : bop B) : option B :=
  match o in bop B return option B with
  | ReadFile p => Some (inr (if has_suffix p ".log" then "G[q35]: ok 1 - boot/up" +:+ nl else "binary"))
  | o => demo_machine _ o
  end.
Lemma boot_judged_status_witness :
  let p := boot_judged demo_commands demo_config demo_opts in
  (drive cli_machine p).2 = Returned None ∧
  ∃ tr1 log, runs (boot_l1 (λ _, None) demo_config demo_opts) tr1 (Returned (log, None)).
Proof.
  cbv zeta. set (p := boot_judged _ _ _). assert ((drive cli_machine p).2 = Returned None) as Hp by (vm_compute; reflexivity).
  split; [exact Hp|]. pose proof (drive_runs cli_machine p) as Hr. rewrite Hp in Hr.
  destruct (boot_judged_status demo_commands demo_config demo_opts _ _ Hr) as (tr1 & tr2 & log & err & _ & H & Herr).
  destruct err as [err|]; [by destruct Herr|]. by exists tr1, log.
Defined.
Lemma judge_log_needs_results_witness :
  let p := judge_log demo_commands demo_config demo_opts "/out/logs/x.log" in
  (drive cli_machine p).2 = Returned None ∧
  ∃ oc, ParseLog.ParseLog (λ _, None) refused_log = Some oc ∧ FailClosed oc = "ok" ∧ ¬ has_results oc.
Proof.
  cbv zeta. set (p := judge_log _ _ _ _). assert ((drive cli_machine p).2 = Returned None) as Hp by (vm_compute; reflexivity).
  split; [exact Hp|]. pose proof (drive_runs cli_machine p) as Hr. rewrite Hp in Hr.
  destruct (judge_log_needs_results demo_commands demo_config demo_opts _ _ Hr) as [_ H]. exact H.
Defined.
