(* ===== verification/RunRuns.v ===== *)
(** * What the run command promises

    A dry run changes nothing; and when a run ends with status 0, every boot of
    every run item it selected was done and judged ok. *)
From Stdlib Require Import Ascii SpecFloat.
From S2P Require Import Prelude GoStrings Regexp Spec ParseLog Checks Run Pool Cmd Float64 Report Prog Build BuildRuns Checkers Payload Flags Cli CliRuns RunCmd.

#[local] Open Scope Z_scope.

Section RunRuns.
Context (ParseFloat : string → option spec_float) (value_of : string → spec_float)
  (Float64s : list spec_float → list spec_float) (fmt_g : spec_float → string).

(** ** Dry runs *)
(** Calls that look and print; a pool only of dry boots. *)
Definition looks B (o : bop B) : Prop :=
  match o with
  | Getenv _ | StatDir _ | ReadFile _ | Glob _ | Executable | Getwd | NumCPU | Eprint _ | Print _ | Logf _ => True
  | RunPool _ _ dry _ _ => dry = true
  | _ => False
  end.
Lemma looks_getenvs ks : all_ops looks (getenvs ks).
Proof. induction ks as [|k ks IH]; cbn [getenvs]; [exact I|]. walk ltac:(exact I). Qed.
Lemma looks_each_code {A} (l : list A) (f : A → build (option Z)) :
  (∀ x, all_ops looks (f x)) → all_ops looks (each_code l f).
Proof.
  intros H. induction l as [|x l IH]; cbn [each_code]; [exact I|]. apply all_ops_bind; [apply H|]. intros [n|]; [exact I|exact IH].
Qed.
Lemma looks_load_config : all_ops looks load_config.
Proof. unfold load_config, testbedDir, fileExists. walk ltac:(exact I). Qed.
Lemma looks_ParseBattery path : all_ops looks (RunCmd.ParseBattery path).
Proof. unfold RunCmd.ParseBattery. walk ltac:(exact I). apply looks_getenvs. Qed.
Lemma looks_check c bat it : all_ops looks (check_item c true bat it).
Proof.
  unfold check_item, host_variant. cbv zeta. rewrite !andb_false_r. walk ltac:(exact I).
Qed.
Lemma looks_pooled c results boots j : all_ops looks (pooled c results true boots j).
Proof. unfold pooled, eprint. walk ltac:(first [exact I|reflexivity]). Qed.
Lemma looks_flush c results jobs l : all_ops looks (flush c results true jobs l).
Proof. unfold flush. destruct l; [exact I|]. apply all_ops_bind; [apply looks_pooled|]. intros r. exact I. Qed.
Lemma looks_measure c tb ksrc results jobs st it boots :
  all_ops looks (measure value_of Float64s fmt_g c tb ksrc results true jobs st it boots).
Proof.
  unfold measure. apply all_ops_bind; [apply looks_flush|]. intros [n|]; [|exact I].
  apply all_ops_bind; [apply looks_pooled|]. intros [l|]; exact I.
Qed.
Lemma looks_items c tb ksrc results jobs bat items st :
  all_ops looks (items_loop value_of Float64s fmt_g c tb ksrc results true jobs bat items st).
Proof.
  revert st. induction items as [|it items IH]; intros st; cbn [items_loop]; [exact I|].
  destruct (Boots it); [unfold eprint; walk ltac:(exact I)|]. apply all_ops_bind; [by split|]. intros _.
  destruct (seqb _ "run"); [apply IH|]. apply all_ops_bind; [apply looks_measure|]. intros [n|st']; [exact I|apply IH].
Qed.
Lemma looks_run c tb ksrc results jobs bat items :
  all_ops looks (run_items value_of Float64s fmt_g c tb ksrc results true jobs bat items).
Proof.
  unfold run_items. apply all_ops_bind; [apply looks_items|]. intros [n|st]; [exact I|].
  apply all_ops_bind; [apply looks_flush|]. by intros [n|].
Qed.
Lemma looks_battery only jobs path : all_ops looks (run_battery value_of Float64s fmt_g true only jobs path).
Proof.
  unfold run_battery. apply all_ops_bind; [apply looks_ParseBattery|]. intros [e|bat]; [unfold eprint; walk ltac:(exact I)|].
  apply all_ops_bind; [unfold testbedDir, fileExists; walk ltac:(exact I)|]. intros tb.
  apply all_ops_bind; [apply looks_load_config|]. intros c. apply all_ops_bind; [by split|]. intros ksrc. cbv zeta.
  apply all_ops_bind; [apply looks_each_code; intros k; unfold build_kernel, println; walk ltac:(exact I)|]. intros [n|]; [exact I|].
  apply all_ops_bind; [unfold host_variant; walk ltac:(exact I)|]. intros host.
  apply all_ops_bind; [apply looks_each_code; intros it; apply looks_check|]. intros [n|]; [exact I|]. apply looks_run.
Qed.
Lemma looks_runBoot c results b u : all_ops looks (runBoot ParseFloat c results true b u).
Proof. unfold runBoot, boot_opts. walk ltac:(exact I). Qed.

(** C9: [pvmtest list], and [pvmtest run -n], change nothing: whatever the
    machine answers, every call of the command looks at a file, the environment
    or the machine, or prints, and the pools it starts are of dry boots, each of
    which does no more; nothing is written, made, built or started. *)
Theorem dry_run_looks args listOnly tr out :
  listOnly = true ∨ (∃ fs rest, Parse run_flags args = Parsed fs rest ∧ get_bool fs "n" = true) →
  runs (cmdRun value_of Float64s fmt_g args listOnly) tr out →
  Forall (λ e, looks _ (ev_op e)) tr ∧
  ∀ c results b unpinned tr' r, runs (runBoot ParseFloat c results true b unpinned) tr' r → Forall (λ e, looks _ (ev_op e)) tr'.
Proof.
  intros Hdry H. split; [|intros ?????? Hb; eapply all_ops_runs; [apply looks_runBoot|exact Hb]].
  eapply all_ops_runs; [|exact H]. unfold cmdRun, with_flags.
  destruct (Parse run_flags args) as [fs rest| |e] eqn:Ep; [|exact I|by repeat split].
  destruct rest as [|path [|]]; [by repeat split| |by repeat split].
  assert (get_bool fs "n" || listOnly = true) as ->; [|apply looks_battery].
  destruct Hdry as [->|(fs' & rest' & [= <- <-] & ->)]; [by rewrite orb_true_r|done].
Qed.

(** ** A boot that passed *)
Definition boot_log (results : string) (b : Boot) : string := joins [results; "logs"; LogName b +:+ ".log"].
(** L1 was booted with the item's options, in time and without an error, and
    its log, read afterwards, was judged ok with the checkers' answers. *)
Definition boot_passed (c : Config) (results : string) (b : Boot) : Prop :=
  ∃ getenv o pin before tr1 tr2 tr log r oc checks why s,
    l1Opts getenv b = inr o ∧
    runs (boot_l1 ParseFloat (With c (outFor (Out c) (b_Item b)) "") (placed o pin (boot_log results b))) tr1 (Returned (log, None)) ∧
    ParseLog.ParseLog ParseFloat (or_empty r) = Some oc ∧ runs (logChecks c b (boot_log results b)) tr2 (Returned checks) ∧
    judge b oc (or_empty r) 0 checks = ("ok", why) ∧
    tr = before ++ tr1 ++ Ev (ReadFile (boot_log results b)) (Some r) :: tr2 ∧
    runs (runBoot ParseFloat c results false b (negb pin)) tr (Returned (inr s)).
Lemma judge_verdict b o text n checks : (judge b o text n checks).1 = "ok" ∨ (judge b o text n checks).1 = "FAIL".
Proof. unfold judge. cbv zeta. repeat case_match; cbn; auto. Qed.
Lemma runs_returned_bind {A B} (p : build A) (f : A → build B) tr b :
  runs (p ≫= f) tr (Returned b) → ∃ a tr1 tr2, tr = tr1 ++ tr2 ∧ runs p tr1 (Returned a) ∧ runs (f a) tr2 (Returned b).
Proof. by intros [?|[(n & _ & [=])|(_ & [=])]]%runs_bind. Qed.
Lemma boot_opts_l1Opts b tr o : runs (boot_opts b) tr (Returned (inr o)) → ∃ getenv, l1Opts getenv b = inr o.
Proof.
  unfold boot_opts. destruct (l1Opts _ b) as [e|o']; [by intros [_ [=]]|].
  intros (qmp & t1 & t2 & -> & _ & H)%runs_returned_bind. apply runs_returned_bind in H as (dbg & t3 & t4 & -> & _ & [_ H]).
  injection H as H. by eexists.
Qed.
Lemma runBoot_ends c results b u tr s : runs (runBoot ParseFloat c results false b u) tr (Returned (inr s)) →
  (Verdict s = "ok" ∨ Verdict s = "FAIL") ∧ (Verdict s = "ok" → boot_passed c results b).
Proof.
  intros H. pose proof H as Hall. unfold runBoot in H. apply runs_returned_bind in H as (o & t0 & t & -> & Ho & H).
  destruct o as [e|o]; [by destruct H|]. cbv zeta in H.
  apply runs_returned_bind in H as ([log err] & t1 & t2 & -> & Hb & H). cbn [snd] in H. unfold judged in H.
  apply runs_returned_bind in H as (r & t3 & t4 & -> & Hr & H). apply runs_call in Hr as [[_ [=]]|(r' & -> & [= <-])].
  destruct (ParseLog.ParseLog ParseFloat (or_empty r)) as [oc|] eqn:Ep; [|by destruct H].
  apply runs_returned_bind in H as (checks & t5 & t6 & -> & Hc & [-> [= ->]]). rewrite app_nil_r in *.
  unfold runBoot_end in *. destruct (judge b oc (or_empty r) 0 checks) as [v why] eqn:Ej.
  pose proof (judge_verdict b oc (or_empty r) 0 checks) as Hv. rewrite Ej in Hv. cbn [fst] in Hv.
  destruct err as [e|].
  { destruct (seqb_spec v "ok") as [->|Hne]; cbn [Verdict]; (split; [auto|]); [done|]. by intros ->. }
  cbn [Verdict]. split; [done|]. intros ->. apply boot_opts_l1Opts in Ho as [getenv Ho].
  exists getenv, o, (negb u), t0, t1, t5, (t0 ++ t1 ++ Ev (ReadFile (boot_log results b)) (Some r) :: t5), log, r, oc, checks, why.
  eexists. rewrite negb_involutive. split_and!; try done.
Qed.

(** ** Status 0 *)
(** The answer of a pool is one that [Pool.runPool] can give for its boots. *)
Definition pool_answers B (o : bop B) : B → unit → Prop :=
  match o with
  | RunPool c results dry boots jobs => λ ans _,
      ∃ log, runPool dry (λ b r, ∃ tr, runs (runBoot ParseFloat c results dry b (1 <? jobs)) tr (Returned r)) boots jobs ans log
  | _ => λ _ _, True
  end.
Definition poolM : monitor bop := Monitor bop unit (λ _ _ _ _, tt) (λ _ _ _, True) pool_answers.
Lemma pool_any {A} (p : build A) (Q : A → unit → Prop) : (∀ a, Q a tt) → wp poolM p Q (λ _ _, True) tt.
Proof.
  intros HQ. generalize tt as g. induction p as [a|n|B o k IH]; intros []; cbn [wp]; [apply HQ|done|].
  split; [exact I|]. auto.
Qed.
Lemma pool_skip {A B} (p : build A) (k : A → build B) (Q : B → unit → Prop) :
  (∀ a, wp poolM (k a) Q (λ _ _, True) tt) → wp poolM (p ≫= k) Q (λ _ _, True) tt.
Proof. intros H. apply wp_bind. by apply pool_any. Qed.

Section Loop.
Context (c : Config) (tb ksrc results : string) (jobs : Z) (bat : Battery).
Abbreviation passed := (boot_passed c results).
Definition done_by (b : Boot) (s : Status) : Prop :=
  (Verdict s = "ok" ∨ Verdict s = "FAIL") ∧ (Verdict s = "ok" → passed b).
Lemma pooled_wp boots j :
  wp poolM (pooled c results false boots j) (λ l _, ∀ l', l = Some l' → Forall2 done_by boots l') (λ _ _, True) tt.
Proof.
  unfold pooled. apply wp_bind, wp_call; [exact I|]. intros ans (log & (rs & Hrs & ->)%runPool_results). cbn [poolM m_obs].
  destruct (Pool.collect _) as [e|l] eqn:El; [by apply pool_skip|]. intros l' [= <-].
  eapply Forall2_impl; [exact (collect_statuses _ _ _ _ Hrs El)|]. intros b s [tr Htr]. by eapply runBoot_ends.
Qed.
Lemma all_passed boots l : Forall2 done_by boots l → count_unexpected l = 0%nat → Forall passed boots.
Proof.
  intros H. rewrite count_unexpected_0. intros Hl. induction H as [|b s boots l Hb _ IH]; [done|].
  apply Forall_cons in Hl as [Hv Hl]. constructor; [|by apply IH]. destruct Hb as [Hw Hp]. apply Hp.
  destruct Hw as [?|Hw]; [done|]. rewrite Hw in Hv. by destruct Hv.
Qed.
Lemma flush_wp l :
  wp poolM (RunCmd.flush c results false jobs l) (λ n _, n = Some 0%nat → Forall passed l) (λ _ _, True) tt.
Proof.
  unfold RunCmd.flush. destruct l as [|b l]; [intros _; constructor|]. apply wp_bind. eapply wp_mono; [apply pooled_wp| |done].
  intros [l'|] [] H; [|done]. intros [= Hc]. by eapply all_passed; [apply H|].
Qed.
(** Of the boots [D], each still waits or has passed, unless something
    unexpected was counted. *)
Definition covers (D : Boot → Prop) (st : rstate) : Prop :=
  r_bad st = 0%nat → ∀ b, D b → b ∈ r_pend st ∨ passed b.
Lemma measure_wp D st it boots : covers D st →
  wp poolM (measure value_of Float64s fmt_g c tb ksrc results false jobs st it boots)
    (λ r _, match r with inl n => n = 2 | inr st' => covers D st' end) (λ _ _, True) tt.
Proof.
  intros Hst. unfold measure. apply wp_bind. eapply wp_mono; [apply flush_wp| |done]. intros [n|] [] Hn; [|done].
  apply pool_skip. intros [l|]; [|done]. cbv zeta. apply pool_skip. intros k. apply pool_skip. intros _.
  intros Hz b Hb. cbn in *. right. assert (r_bad st = 0 ∧ n = 0)%nat as [H1 ->] by lia.
  destruct (Hst H1 b Hb) as [Hp|]; [|done]. specialize (Hn eq_refl). by eapply Forall_forall in Hn.
Qed.
Definition expands (it : Item) : Prop := ∃ bs, Boots it = inr bs.
Lemma items_wp D items st : covers D st →
  wp poolM (items_loop value_of Float64s fmt_g c tb ksrc results false jobs bat items st)
    (λ r _, match r with inl n => n = 2 | inr st' => covers (λ b, D b ∨ of_run items b) st' ∧ Forall expands items end)
    (λ _ _, True) tt.
Proof.
  revert D st. induction items as [|it items IH]; intros D st Hst; cbn [items_loop].
  { split; [|done]. intros Hz b [Hb|(it & bs & Hit & _)]; [by apply Hst|by apply not_elem_of_nil in Hit]. }
  destruct (Boots it) as [e|boots] eqn:Eb; [by apply pool_skip|]. apply pool_skip. intros _.
  assert (∀ b, of_run (it :: items) b → (Kind it = "run" ∧ b ∈ boots) ∨ of_run items b) as Hof.
  { intros b (it' & bs & [-> |Hit]%elem_of_cons & Hk & Hb & Hin); [left|right; by exists it', bs].
    rewrite Eb in Hb. by injection Hb as ->. }
  destruct (seqb_spec (Kind it) "run") as [Hk|Hk].
  - eapply wp_mono; [apply (IH (λ b, D b ∨ b ∈ boots))| |done].
    { intros Hz b [Hb|Hb]; cbn; rewrite elem_of_app; [|by auto]. destruct (Hst Hz b Hb); auto. }
    intros [n|st'] [] H; [done|]. destruct H as [Hc Hx]. split; [|constructor; [by eexists|done]].
    intros Hz b Hb. apply Hc; [done|]. destruct Hb as [?|Hb]; [tauto|]. apply Hof in Hb. tauto.
  - apply wp_bind. eapply wp_mono; [by apply (measure_wp D)| |done]. intros [n|st1] [] H1; [done|].
    eapply wp_mono; [by apply (IH D)| |done].
    intros [n|st'] [] H; [done|]. destruct H as [Hc Hx]. split; [|constructor; [by eexists|done]].
    intros Hz b Hb. apply Hc; [done|]. destruct Hb as [?|Hb]; [tauto|]. apply Hof in Hb. tauto.
Qed.
Lemma run_items_wp items :
  wp poolM (run_items value_of Float64s fmt_g c tb ksrc results false jobs bat items)
    (λ code _, code = 0 → Forall expands items ∧ ∀ b, of_run items b → passed b) (λ _ _, True) tt.
Proof.
  unfold run_items. apply wp_bind. eapply wp_mono; [apply (items_wp (λ _, False)); by intros _ b []| |done].
  intros [n|st] [] H; [by rewrite H|]. destruct H as [Hc Hx]. apply wp_bind. eapply wp_mono; [apply flush_wp| |done]. intros [n|] [] Hn; [|done].
  apply pool_skip. intros _. cbv zeta. destruct (Nat.ltb_spec 0 (r_bad st + n)) as [Hlt|Hle].
  { by apply pool_skip. }
  intros _. split; [done|]. intros b Hb. destruct (Hc ltac:(lia) b (or_intror Hb)) as [Hp|]; [|done].
  assert (n = 0%nat) as -> by lia. specialize (Hn eq_refl). by eapply Forall_forall in Hn.
Qed.
End Loop.

(** The steps before the loop end the command with status 2 or not at all. *)
Lemma each_code_wp {A} (l : list A) (f : A → build (option Z)) :
  (∀ x, wp poolM (f x) (λ r _, r = None ∨ r = Some 2) (λ _ _, True) tt) →
  wp poolM (each_code l f) (λ r _, r = None ∨ r = Some 2) (λ _ _, True) tt.
Proof.
  intros H. induction l as [|x l IH]; cbn [each_code]; [by left|]. apply wp_bind. eapply wp_mono; [apply H| |done].
  intros [n|] [] Hn; [destruct Hn as [[=]|Hn]; by right|exact IH].
Qed.
Lemma refuse_wp s : wp poolM (refuse s) (λ r _, r = None ∨ r = Some 2) (λ _ _, True) tt.
Proof. apply pool_skip. by right. Qed.
Lemma build_kernel_2 c bat k : wp poolM (build_kernel c false bat k) (λ r _, r = None ∨ r = Some 2) (λ _ _, True) tt.
Proof. unfold build_kernel. apply pool_skip. intros [e|]; [apply refuse_wp|by left]. Qed.
Lemma check_item_2 c bat it : wp poolM (check_item c false bat it) (λ r _, r = None ∨ r = Some 2) (λ _ _, True) tt.
Proof. unfold check_item. apply pool_skip. intros host. cbv zeta. repeat case_match; first [apply refuse_wp|by left]. Qed.
Lemma answered_suffix tr1 tr2 : answered poolM (tr1 ++ tr2) tt → answered poolM tr2 tt.
Proof. induction tr1 as [|[B o [b|]] tr1 IH]; cbn; [done| |exact IH]. intros [_ H]. by apply IH. Qed.
Lemma ParseBattery_reads path tr r :
  runs (RunCmd.ParseBattery path) tr (Returned r) →
  ∃ raw tr' getenv, tr = Ev (ReadFile path) (Some raw) :: tr' ∧ r = Spec.ParseBattery getenv path raw.
Proof.
  unfold RunCmd.ParseBattery. intros (raw & t1 & t2 & -> & H1 & H)%runs_returned_bind.
  apply runs_call in H1 as [[_ [=]]|(raw' & -> & [= <-])].
  apply runs_returned_bind in H as (env & t3 & t4 & -> & _ & [-> [= ->]]). by eexists raw, _, _.
Qed.

(** When a battery is run and the status is 0, whatever the machine answers and
    however the goroutines of its pools interleave, the battery file it read was
    accepted, every selected item expanded into its boots, and every boot of
    every selected run item passed: L1 was booted for it with the item's
    options, ended in time, and its log, read after that, was judged ok with
    what the log checkers answered. *)
Lemma run_battery_0 only jobs path tr :
  runs (run_battery value_of Float64s fmt_g false only jobs path) tr (Returned 0) → answered poolM tr tt →
  ∃ raw tr' getenv bat c results,
    tr = Ev (ReadFile path) (Some raw) :: tr' ∧ Spec.ParseBattery getenv path raw = inr bat ∧
    let items := Cmd.selected only (Items bat) in
    Forall expands items ∧ ∀ b, of_run items b → boot_passed c results b.
Proof.
  intros (r & t1 & t2 & -> & H1 & H2)%runs_returned_bind Ha. apply answered_suffix in Ha.
  apply ParseBattery_reads in H1 as (raw & tr' & getenv & -> & ->).
  destruct (Spec.ParseBattery getenv path raw) as [e|bat] eqn:Eb.
  { apply runs_returned_bind in H2 as (u & t3 & t4 & -> & _ & [_ [=]]). }
  assert (wp poolM (tb ← testbedDir; c ← load_config; ksrc ← call (Getenv "KSRC");
      let items := Cmd.selected only (Items bat) in
      k ← each_code (Kernels bat) (build_kernel c false bat);
      match k with Some n => Ret n | None =>
      host ← host_variant (Out c);
      k ← each_code (checked_items items) (check_item c false bat);
      match k with Some n => Ret n | None =>
      r ← open_results c tb ksrc host bat;
      match r with
      | inl e => eprint e ;; Ret 2
      | inr results => run_items value_of Float64s fmt_g c tb ksrc results false jobs bat items
      end end end) (λ code _, code = 0 → ∃ c results, Forall expands (Cmd.selected only (Items bat)) ∧
        ∀ b, of_run (Cmd.selected only (Items bat)) b → boot_passed c results b) (λ _ _, True) tt) as Hw.
  { apply pool_skip; intros tb. apply pool_skip; intros c. apply pool_skip; intros ksrc. cbv zeta.
    apply wp_bind. eapply wp_mono; [apply each_code_wp; intros k; apply build_kernel_2| |done].
    intros [n|] [] Hn; [by destruct Hn as [[=]|[= ->]]|]. apply pool_skip; intros host.
    apply wp_bind. eapply wp_mono; [apply each_code_wp; intros it; apply check_item_2| |done].
    intros [n|] [] Hn'; [by destruct Hn' as [[=]|[= ->]]|]. apply pool_skip; intros [e|results]; [by apply pool_skip|].
    eapply wp_mono; [apply run_items_wp| |done]. intros code [] H Hc. exists c, results. by apply H. }
  destruct (wp_runs poolM _ _ _ _ _ _ Hw H2 Ha) as [_ H]. destruct (H eq_refl) as (c & results & He & Hp).
  by exists raw, (tr' ++ t2), getenv, bat, c, results.
Qed.
End RunRuns.

(** ** A battery of one boot *)
Definition nothing (s : string) : option spec_float := None.
Definition zero_of (s : string) : spec_float := S754_zero false.
Definition plain (f : spec_float) : string := "0".
Definition one_boot_machine B (o : bop B) : option B :=
  match o in bop B return option B with
  | ReadFile p => Some (if has_suffix p ".battery" then inr ("run up suite=smoke" +:+ nl) else
                        if has_suffix p ".log" then inr ("G[q35]: ok 1 - boot/up" +:+ nl) else
                        if has_suffix p "built" then inl "no such file" else inr (unlines ["BUG:"]))
  | RunPool _ _ _ _ _ => None
  | o => demo_machine _ o
  end.
Definition one_boot_pool B (o : bop B) : option B :=
  match o in bop B return option B with
  | RunPool c results false [b] jobs =>
      match (drive one_boot_machine (runBoot nothing c results false b (1 <? jobs))).2 with
      | Returned (inr s) => Some (inr [s])
      | _ => None
      end
  | o => one_boot_machine _ o
  end.
Lemma one_boot_answers B (o : bop B) b : one_boot_pool B o = Some b → pool_answers nothing B o b tt.
Proof.
  destruct o; try done. cbn. destruct dry; [done|]. destruct boots as [|b1 [|]]; [done| |done].
  set (p := runBoot _ _ _ _ _ _). destruct (drive one_boot_machine p).2 as [[e|s]|n|] eqn:E; try done. intros [= <-].
  exists [0%nat]. apply runPool_one. exists (drive one_boot_machine p).1. rewrite <- E. apply drive_runs.
Qed.
Lemma drive_answered {A} (p : build A) : answered (poolM nothing) (drive one_boot_pool p).1 tt.
Proof.
  induction p as [a|n|B o k IH]; cbn [drive]; [done..|]. destruct (one_boot_pool B o) as [b|] eqn:E; [|done].
  specialize (IH b). destruct (drive one_boot_pool (k b)) as [tr out]. split; [by apply one_boot_answers|exact IH].
Qed.
Definition read_text (e : event bop) : option (string + string) :=
  match ev_op e in bop B return option B → option (string + string) with ReadFile _ => id | _ => λ _, None end (ev_ans e).
Lemma dry_run_looks_witness :
  let r := drive one_boot_pool (cmdRun zero_of id plain ["-n"; "x.battery"] false) in
  Forall (λ e, looks _ (ev_op e)) r.1 ∧ (0 < length r.1)%nat.
Proof.
  intros r. split; [|vm_compute; lia].
  apply (dry_run_looks nothing zero_of id plain ["-n"; "x.battery"] false r.1 r.2); [|apply drive_runs].
  right. eexists _, _. split; vm_compute; reflexivity.
Defined.
