(* ===== verification/Pvmtest.v ===== *)
(** * pvmtest

    The whole program: [Cli.main] with the commands the other files model, and
    what its runs promise at the command line. *)
From Stdlib Require Import Ascii SpecFloat.
From S2P Require Import Prelude GoStrings Regexp Spec ParseLog Checks Run Boot Pool Cmd Float64 Report Exits Prog Build BuildRuns Checkers Payload GuestBoots Profile Flags Cli CliRuns RunCmd RunRuns.

#[local] Open Scope Z_scope.

(** What is taken from Go's library without a definition: the parsing and the
    shortest printing of floats, and the orders [sort] leaves open. *)
Record library := {
  ParseFloat : string → option spec_float;     (* strconv.ParseFloat *)
  value_of : string → spec_float;              (* the same, its error dropped *)
  Float64s : list spec_float → list spec_float;
  fmt_g : spec_float → string;
  map_order : list (string * string) → list (string * string);
  sort_syms : list sym → list sym }.

Section Pvmtest.
Context (L : library).
Definition pvmtest_commands : commands := {|
  order := map_order L; Cli.ParseFloat := ParseFloat L;
  do_regress := Regress (ParseFloat L); do_deps := λ _, Profile.Deps; do_sanitize := Checkers.Sanitize;
  do_selftests := Checkers.CheckSelftests; do_exits := Profile.ExitProfile (ParseFloat L);
  do_resolve := Profile.ResolveExits (sort_syms L); do_guest := GuestBoots.BootGuest (ParseFloat L);
  do_host_selftest := GuestBoots.HostSelftest; log_checks := Checkers.logChecks;
  do_run := cmdRun (value_of L) (Float64s L) (fmt_g L); do_stats := cmdStats (ParseFloat L);
  do_check := RunCmd.cmdCheck (ParseFloat L); do_compare := compare_default (value_of L) |}.
Definition pvmtest (argv : list string) : build unit := Cli.main pvmtest_commands argv.

(** ** Where the commands end the program by themselves *)
Abbreviation own := (exits (op := bop) own_status).
Lemma own_Sanitize c l q : own (Checkers.Sanitize c l q).
Proof.
  unfold Checkers.Sanitize, loadPatterns, sanitize_logs, sanitize_log, print_group, warnf, eprint, Build.fail, done_ok, logf.
  apply exits_with_val; [walk ltac:(exact I)|]. intros f. apply exits_with_val; [walk ltac:(exact I)|]. intros a. walk ltac:(exact I).
Qed.
Lemma own_expected e l p k : own (checkExpected e l p k).
Proof.
  unfold checkExpected. apply exits_bind; [done|]. intros expect. destruct (readList expect); [done|].
  apply exits_bind; [done|]. intros log. destruct (Checks.checkExpected _ _ _ _ _) as [notes err].
  apply exits_bind; [apply exits_each; intros []; done|]. intros _. by destruct err, log.
Qed.
Lemma CheckSelftests_own c l v : own (Checkers.CheckSelftests c l v).
Proof. apply own_expected. Qed.
Lemma own_checks c b l : own (Checkers.logChecks c b l).
Proof.
  unfold Checkers.logChecks, Build.fileExists. apply exits_bind; [by apply exits_bind|]. intros ex. destruct (negb ex); [done|].
  apply exits_bind; [apply own_Sanitize|]. intros e. cbv zeta. apply exits_bind; [|done].
  destruct (seqb _ "hosttests"); [apply exits_bind; [apply own_expected|done]|].
  destruct (seqb _ "kut"); [apply exits_bind; [apply own_expected|done]|done].
Qed.
Lemma own_qemu argv log echo t : own (runQemu argv log echo t).
Proof. unfold runQemu. walk ltac:(exact I). Qed.
Lemma own_needRun c : own (needRun c).
Proof. unfold needRun, need, wrap. apply exits_andthen; [walk ltac:(exact I)|]. by apply exits_bind. Qed.
Lemma own_pin_list pf : own (pin_list pf).
Proof.
  unfold pin_list. apply exits_bind; [done|]. intros v. destruct (seqb v "none"); [done|]. destruct (negb _); [done|].
  apply exits_bind; [done|]. intros ds. apply exits_bind; [apply exits_cpu_freqs|done].
Qed.
Lemma own_guest pf c o : own (GuestBoots.BootGuest pf c o).
Proof.
  unfold GuestBoots.BootGuest. apply exits_andthen; [apply own_needRun|]. cbv zeta. destruct (guest_kernel _ _) as [e|kernel]; [done|].
  apply exits_bind; [by apply exits_bind|]. intros ex. destruct (negb ex); [done|].
  apply exits_bind; [by apply exits_bind|]. intros ex'. destruct (negb ex'); [done|]. unfold boot_guest.
  apply exits_bind; [apply own_pin_list|]. intros pins. apply exits_bind; [done|]. intros _. apply exits_bind; [apply own_qemu|].
  intros [t r]. cbn [fst]. destruct t; [done|]. unfold report_guest. apply exits_bind; [apply own_Sanitize|]. intros san.
  apply exits_bind; [done|]. intros raw. repeat case_match; try done; by apply exits_bind.
Qed.
Lemma own_host c : own (GuestBoots.HostSelftest c).
Proof.
  unfold GuestBoots.HostSelftest. apply exits_andthen; [apply own_needRun|]. cbv zeta. apply exits_bind; [apply own_qemu|].
  intros [t r]. cbn [fst]. destruct t; [done|]. unfold report_host. apply exits_bind; [done|]. intros raw. cbv zeta.
  destruct (negb _); [done|]. apply exits_bind; [done|]. intros _. apply own_Sanitize.
Qed.
Lemma own_step n s : own s.2 → own (regress_step n s).
Proof.
  intros Hs. unfold regress_step. apply exits_bind; [done|]. intros _. apply exits_bind; [done|]. intros _.
  apply exits_bind; [exact Hs|]. intros [e|]; by apply exits_bind.
Qed.
Lemma own_regress pf c : own (GuestBoots.Regress pf c).
Proof.
  unfold GuestBoots.Regress. apply exits_bind.
  - cbn [each_with]. do 3 (apply exits_bind; [apply own_step, own_guest|intros ?]). apply exits_bind; [apply own_step, own_host|done].
  - intros n. destruct (0 <? n)%nat; [done|]. apply exits_bind; [done|]. intros _. by apply exits_bind.
Qed.
Lemma own_profile pf c case vs : own (Profile.ExitProfile pf c case vs).
Proof.
  unfold Profile.ExitProfile. cbv zeta. apply exits_bind; [done|]. intros [e|tmp]; [done|]. apply exits_bind.
  - apply exits_each_with. intros p v. unfold profile_vendor.
    assert (∀ p only b, own (profile_run pf c tmp case p v only b)) as Hr.
    { intros p' only b. unfold profile_run. apply exits_bind; [done|]. intros ?. cbv zeta.
      apply exits_bind; [apply exits_boot_l1; by right|]. intros [log err]. cbn [snd].
      apply exits_bind; [destruct err; [by apply exits_bind|done]|]. intros p1. apply exits_bind; [done|]. intros raw.
      destruct (negb _); [done|]. apply exits_bind; [case_decide; [by apply exits_bind|done]|]. intros p2.
      apply exits_bind; [done|]. intros raw2. destruct (contains _ _); [done|]. by apply exits_bind. }
    apply exits_bind; [apply Hr|]. intros p1. apply Hr.
  - intros p. apply exits_bind; [done|]. intros _. by apply exits_bind.
Qed.
Lemma own_resolve sort c log v : own (Profile.ResolveExits sort c log v).
Proof.
  unfold Profile.ResolveExits. cbv zeta. apply exits_bind; [done|]. intros [e|t]; [done|]. destruct (find textRe t); [|done].
  apply exits_bind; [done|]. intros [[e|] out]; cbn [fst snd]; [done|].
  apply exits_bind; [by destruct (_ =? 0)|]. intros _. destruct (Exits.ResolveExits _ _ _) as [lines err].
  apply exits_bind; [by apply exits_each|done].
Qed.
Lemma own_deps : own Profile.Deps.
Proof.
  unfold Profile.Deps. apply exits_bind; [|done].
  assert (Forall own questions) as Hq.
  { unfold questions. generalize build_tools run_tools needed_headers. intros l1 l2 l3.
    apply Forall_cons. split; [exact I|]. repeat apply Forall_app_2; repeat (apply Forall_cons; split; [done|]); try apply Forall_nil;
      try done; apply Forall_fmap, Forall_true; intros ?; by apply exits_bind. }
  generalize 0%nat. induction Hq as [|q qs Hq _ IH]; intros n; cbn [each_with]; [done|].
  apply exits_bind; [|exact IH]. unfold answer. apply exits_bind; [exact Hq|]. intros l. apply exits_bind; [by apply exits_each|done].
Qed.
Lemma pvmtest_behaved : well_behaved pvmtest_commands.
Proof.
  split; intros.
  - exact (conj (own_regress (ParseFloat L) c) (conj own_deps (own_host c))).
  - exact (own_Sanitize c l q).
  - exact (CheckSelftests_own c l v).
  - exact (own_profile (ParseFloat L) c k vs).
  - exact (own_resolve (sort_syms L) c l v).
  - exact (own_guest (ParseFloat L) c o).
  - exact (own_checks c b l).
Qed.

(** ** The statuses of the program *)
Definition small (n : Z) : Prop := n = 0 ∨ n = 1 ∨ n = 2.
(** A program that ends by itself with a status in [E], and otherwise with an
    answer in [R]. *)
Section Codes.
Context (E : Z → Prop).
Fixpoint codes {A} (R : A → Prop) (p : build A) : Prop :=
  match p with
  | Ret a => R a
  | Exit n => E n
  | Do o k => ∀ b, codes R (k b)
  end.
Lemma codes_bind {A B} (R : A → Prop) (S : B → Prop) (p : build A) (f : A → build B) :
  codes R p → (∀ a, R a → codes S (f a)) → codes S (p ≫= f).
Proof. intros Hp Hf. induction p as [a|n|C o k IH]; cbn in *; [by apply Hf|done|]. intros b. by apply IH. Qed.
Lemma codes_skip {A B} (S : B → Prop) (p : build A) (f : A → build B) :
  exits E p → (∀ a, codes S (f a)) → codes S (p ≫= f).
Proof. intros Hp Hf. induction p as [a|n|C o k IH]; cbn in *; [apply Hf|done|]. intros b. by apply IH. Qed.
Lemma codes_exits {A} (R : A → Prop) (p : build A) : codes R p → exits E p.
Proof. induction p as [a|n|C o k IH]; cbn; auto. Qed.
End Codes.
Lemma codes_impl {A} (E E' : Z → Prop) (R : A → Prop) (p : build A) : (∀ n, E n → E' n) → codes E R p → codes E' R p.
Proof. intros H. induction p as [a|n|C o k IH]; cbn; auto. Qed.
Lemma codes_status (p : build Z) : codes small small p → exits small (exits_with p).
Proof. intros H. unfold exits_with. eapply (codes_exits _ (λ _ : unit, True)), codes_bind; [exact H|]. done. Qed.
Lemma codes_flags {A} (R : A → Prop) fs args (k : flagset → list string → build A) :
  (∀ fs rest, codes small R (k fs rest)) → codes small R (with_flags fs args k).
Proof. intros H. unfold with_flags. destruct (Parse fs args); [apply H|by left|]. intros b. right. by right. Qed.
(** The steps of [cmdRun] never end the program by themselves. *)
Definition never (n : Z) : Prop := False.
Lemma small_own {A} (p : build A) : own p → exits small p.
Proof. apply exits_impl. unfold own_status, small. tauto. Qed.

Lemma no_load_config : exits never load_config.
Proof. unfold load_config, testbedDir, fileExists. walk ltac:(exact I). Qed.
(** The steps of [cmdRun], each ending with a small status or going on. *)
Definition stops (r : option Z) : Prop := match r with Some n => small n | None => True end.
Definition halts {A} (r : Z + A) : Prop := match r with inl n => small n | inr _ => True end.
Lemma codes_each_code {A} (l : list A) (f : A → build (option Z)) :
  (∀ x, codes never stops (f x)) → codes never stops (each_code l f).
Proof.
  intros H. induction l as [|x l IH]; cbn [each_code]; [done|]. eapply codes_bind; [apply H|]. intros [n|] Hn; [done|exact IH].
Qed.
Lemma codes_refuse s : codes never stops (refuse s).
Proof. intros ?. right. by right. Qed.
Lemma own_BuildRef c n g r v : exits never (BuildRef c n g r v).
Proof. apply exits_BuildRef. Qed.
Lemma codes_kernel c dry bat k : codes never stops (build_kernel c dry bat k).
Proof.
  unfold build_kernel. destruct dry; [intros ?; exact I|]. apply codes_skip; [apply own_BuildRef|].
  intros [e|]; [apply codes_refuse|done].
Qed.
Lemma own_variant out : exits never (host_variant out).
Proof. unfold host_variant. apply exits_bind; [done|]. intros built. repeat case_match; try done; by apply exits_bind. Qed.
Lemma codes_check c dry bat it : codes never stops (check_item c dry bat it).
Proof.
  unfold check_item. apply codes_skip; [apply own_variant|]. intros host. cbv zeta. repeat case_match; first [apply codes_refuse|done].
Qed.
Lemma own_describe d : exits never (gitDescribe d).
Proof. unfold gitDescribe. case_match; [done|]. by apply exits_bind. Qed.
Lemma own_open c tb ksrc host bat : exits never (open_results c tb ksrc host bat).
Proof.
  unfold open_results. apply exits_bind; [done|]. intros stamp. cbv zeta. apply exits_bind; [done|]. intros [e|]; [done|].
  do 2 (apply exits_bind; [apply own_describe|intros ?]). apply exits_bind; [done|]. intros now. apply exits_bind.
  - apply exits_each_with. intros m k. apply exits_bind; [|done]. unfold kernel_row. apply exits_bind; [apply own_describe|done].
  - intros m. by repeat (apply exits_bind; [done|intros ?]).
Qed.

(** The loop of [cmdRun], for any state it starts in. *)
Section Loop.
Context (c : Config) (tb ksrc results : string) (dry : bool) (jobs : Z) (bat : Battery).
Lemma own_pooled boots j : exits never (pooled c results dry boots j).
Proof. unfold pooled. apply exits_bind; [done|]. intros [e|l]; [by apply exits_bind|done]. Qed.
Lemma own_flush l : exits never (RunCmd.flush c results dry jobs l).
Proof. unfold RunCmd.flush. destruct l; [done|]. apply exits_bind; [apply own_pooled|done]. Qed.
Lemma own_compare p b t : exits never (compare (value_of L) p b t).
Proof.
  unfold compare. apply exits_bind; [done|]. intros now. destruct (readMatrix _ _); [done|].
  apply exits_bind; [by destruct (seqb b "")|]. intros base. destruct (CompareMatrix _ _ _ _ _) as [[t' r] e]. by apply exits_bind.
Qed.
Lemma own_report it l : exits never (report_item (value_of L) (Float64s L) (fmt_g L) c tb ksrc results it l).
Proof.
  unfold report_item. destruct (seqb _ "matrix").
  - unfold report_matrix. cbv zeta. apply exits_bind; [done|]. intros _. apply exits_bind; [unfold envID; by repeat apply exits_bind|].
    intros env. apply exits_bind; [apply own_describe|]. intros k. do 2 (apply exits_bind; [done|intros _]).
    apply exits_bind; [done|]. intros raw. apply exits_bind; [by destruct raw|]. intros _.
    apply exits_bind; [by destruct (seqb _ "auto")|]. intros baseline. apply exits_bind; [apply own_compare|].
    intros [regressed [e|]]; cbn [fst snd]; (apply exits_bind; [done|]); intros _; destruct regressed; try done; by apply exits_bind.
  - destruct (seqb _ "ab"); [|done]. apply exits_bind; [|done]. unfold report_ab, printTSV. cbv zeta. by repeat (apply exits_bind; [done|intros ?]).
Qed.
Lemma codes_measure st it boots :
  codes never halts (measure (value_of L) (Float64s L) (fmt_g L) c tb ksrc results dry jobs st it boots).
Proof.
  unfold measure. apply codes_skip; [apply own_flush|]. intros [n|]; [|right; by right].
  apply codes_skip; [apply own_pooled|]. intros [l|]; [|right; by right]. cbv zeta. destruct dry; [done|].
  apply codes_skip; [apply own_report|]. intros k. apply codes_skip; [|done].
  apply exits_each. intros s. unfold dropped. by destruct (seqb _ "ok").
Qed.
Lemma codes_items items st :
  codes never halts (items_loop (value_of L) (Float64s L) (fmt_g L) c tb ksrc results dry jobs bat items st).
Proof.
  revert st. induction items as [|it items IH]; intros st; cbn [items_loop]; [done|].
  destruct (Boots it) as [e|boots]; [intros ?; right; by right|]. intros ?. destruct (seqb _ "run"); [apply IH|].
  eapply codes_bind; [apply codes_measure|]. intros [n|st'] H; [exact H|apply IH].
Qed.
Lemma codes_run items :
  codes never small (run_items (value_of L) (Float64s L) (fmt_g L) c tb ksrc results dry jobs bat items).
Proof.
  unfold run_items. eapply codes_bind; [apply codes_items|]. intros [n|st] H; [exact H|].
  apply codes_skip; [apply own_flush|]. intros [n|]; [|right; by right]. destruct dry; [by left|]. intros ?. cbv zeta.
  destruct (0 <? _)%nat; [intros ?; right; by left|by left].
Qed.
End Loop.
Lemma codes_battery dry only jobs path :
  codes never small (run_battery (value_of L) (Float64s L) (fmt_g L) dry only jobs path).
Proof.
  unfold run_battery. apply codes_skip; [apply exits_bind; [done|]; intros raw; apply exits_bind; [apply exits_getenvs|done]|].
  intros [e|bat]; [intros ?; right; by right|]. apply codes_skip; [unfold testbedDir, fileExists; walk ltac:(exact I)|]. intros tb.
  apply codes_skip; [apply no_load_config|]. intros c. apply codes_skip; [done|]. intros ksrc. cbv zeta.
  eapply codes_bind; [apply codes_each_code; intros k; apply codes_kernel|]. intros [n|] Hn; [exact Hn|].
  apply codes_skip; [apply own_variant|]. intros host.
  eapply codes_bind; [apply codes_each_code; intros it; apply codes_check|]. intros [n|] Hn'; [exact Hn'|].
  destruct dry; [apply codes_run|]. apply codes_skip; [apply own_open|].
  intros [e|results]; [intros ?; right; by right|apply codes_run].
Qed.
Lemma codes_cmdRun args listOnly : codes small small (cmdRun (value_of L) (Float64s L) (fmt_g L) args listOnly).
Proof.
  apply codes_flags. intros fs rest. destruct rest as [|path [|]]; [intros ?; right; by right| |intros ?; right; by right].
  eapply codes_impl; [|apply codes_battery]. by intros n [].
Qed.
Lemma codes_cmdStats args : codes small small (cmdStats (ParseFloat L) args).
Proof.
  apply codes_flags. intros fs rest. destruct rest as [|path [|]]; [intros ?; right; by right| |intros ?; right; by right].
  apply codes_skip; [done|]. intros [e|text]; [intros ?; right; by right|]. destruct (compile _); [|intros ?; right; by right].
  destruct (ParseLog.ParseLog (ParseFloat L) text) as [oc|]; [|right; by right].
  destruct (StatsPairs oc) as [[|p ps] ks]; [intros ?; right; by left|].
  apply codes_skip; [done|]. intros tmp. apply codes_skip; [apply exits_bind; [done|by intros [e|]]|]. intros _.
  apply codes_skip; [by apply exits_bind|]. intros _. apply codes_skip; [done|]. intros _. by left.
Qed.
Lemma codes_cmdCheck args : codes small small (RunCmd.cmdCheck (ParseFloat L) args).
Proof.
  unfold RunCmd.cmdCheck. destruct args as [|path more]; [intros ?; right; by right|].
  apply codes_skip; [done|]. intros [e|t]; [intros ?; right; by right|]. apply codes_skip; [done|]. intros raw.
  destruct (ParseLog.ParseLog (ParseFloat L) (or_empty raw)) as [oc|]; [|right; by right].
  destruct (cmdCheck_verdict _ _ _ _) as [v why]. intros ?. destruct (seqb v "ok"); [by left|right; by left].
Qed.
Lemma pvmtest_exits argv : exits small (pvmtest argv).
Proof.
  unfold pvmtest, Cli.main. destruct argv as [|prog [|name args]]; [intros ?; right; by right..|].
  apply exits_bind; [apply small_own, exits_runSub, pvmtest_behaved|].
  intros [[e|]|]; [intros ?; right; by left|done|].
  do 2 (destruct (seqb name _); [apply codes_status, codes_cmdRun|]). destruct (seqb name _); [apply codes_status, codes_cmdStats|].
  destruct (seqb name _); [apply codes_status, codes_cmdCheck|]. destruct (seqb name _); [|intros ?; right; by right].
  destruct args as [|m [|b [|]]]; try (intros ?; right; by right). apply exits_bind; [eapply exits_impl; [|apply own_compare]; by intros n []|].
  intros [r [e|]]; [intros ?; right; by right|]. destruct r; [right; by left|done].
Qed.

(** What [pvmtest run] does is [cmdRun], once the environment was read. *)
Lemma run_command prog args tr n : runs (pvmtest (prog :: "run" :: args)) tr (Exited n) →
  ∃ tr1 tr2, tr = tr1 ++ tr2 ∧
    (runs (cmdRun (value_of L) (Float64s L) (fmt_g L) args false) tr2 (Returned n) ∨
     runs (cmdRun (value_of L) (Float64s L) (fmt_g L) args false) tr2 (Exited n)).
Proof.
  intros [(r & t1 & t2 & -> & H1 & H)|[(m & H1 & [= ->])|(_ & [=])]]%runs_bind.
  - exists t1, t2. split; [done|]. destruct r as [r|].
    { assert ("run" ∈ sub_names) as Hin by (eapply runSub_handled; [exact H1|by eexists]).
      exfalso. revert Hin. apply (bool_decide_unpack (¬ "run" ∈ sub_names)). vm_compute. exact I. }
    change (runs (exits_with (cmdRun (value_of L) (Float64s L) (fmt_g L) args false)) t2 (Exited n)) in H.
    apply runs_bind in H as [(m & t3 & t4 & -> & H3 & [-> [= ->]])|[(m & H3 & [= ->])|(_ & [=])]].
    + left. by rewrite app_nil_r.
    + by right.
  - exfalso. assert (exits never (runSub pvmtest_commands "run" args)) as He.
    { change (exits never (load_config ≫= λ _, Ret None : build (option (option string)))). by apply exits_bind; [apply no_load_config|]. }
    exact (exits_runs _ _ _ _ He H1).
Qed.
Lemma said (s : string) tr :
  runs (call (Eprint s) ;; Exit 2 : build Z) tr (Returned 0) ∨ runs (call (Eprint s) ;; Exit 2 : build Z) tr (Exited 0) → False.
Proof. intros [H|H]; apply runs_bind in H as [(u & t1 & t2 & -> & _ & [_ [=]])|[(? & H & _)|(_ & [=])]]; by apply runs_call in H as [[_ [=]]|(? & _ & [=])]. Qed.

(** C11: [pvmtest] ends with status 0, 1 or 2 whatever its arguments are and
    whatever the machine answers.  For a sub-command that builds, boots or reads
    logs it is 0 when the command has no error and 1, after one line on stderr,
    when it has one; otherwise the command ended the program by itself, with 0
    when asked for help and with 2 on wrong flags or a panic. *)
Theorem pvmtest_status argv tr out : runs (pvmtest argv) tr out →
  (∀ n, out = Exited n → n = 0 ∨ n = 1 ∨ n = 2) ∧
  ∀ prog name args, argv = prog :: name :: args → name ∈ sub_names →
    (∃ tr' e, runs (runSub pvmtest_commands name args) tr' (Returned (Some e)) ∧
       match e with
       | None => tr = tr' ∧ out = Returned tt
       | Some e => (tr = tr' ++ [Ev (Eprint (failed_mark +:+ e)) (Some tt)] ∧ out = Exited 1) ∨
                   (tr = tr' ++ [Ev (Eprint (failed_mark +:+ e)) None] ∧ out = Stopped)
       end) ∨
    (∃ n, own_status n ∧ runs (runSub pvmtest_commands name args) tr (Exited n) ∧ out = Exited n) ∨
    (runs (runSub pvmtest_commands name args) tr Stopped ∧ out = Stopped).
Proof.
  intros H. split; [intros n ->; exact (exits_runs small _ _ _ (pvmtest_exits argv) H)|].
  intros prog name args -> Hn. by apply (main_status _ prog); [apply pvmtest_behaved| |].
Qed.

(** C2: When [pvmtest run] ends with status 0, whatever the machine answers and
    however the goroutines of its pools interleave, then it was asked for help
    or for a dry run, or the battery file it read was accepted, every selected
    item expanded into its boots, and every boot of every selected run item
    passed: L1 was booted for it with the item's options, ended in time, and its
    log, read after that, was judged ok with what the log checkers answered. *)
Theorem run_status_0 prog args tr :
  runs (pvmtest (prog :: "run" :: args)) tr (Exited 0) → answered (poolM (ParseFloat L)) tr tt →
  Parse run_flags args = Help ∨
  (∃ fs rest, Parse run_flags args = Parsed fs rest ∧ get_bool fs "n" = true) ∨
  ∃ fs path before raw tr' getenv bat c results,
    Parse run_flags args = Parsed fs [path] ∧ tr = before ++ Ev (ReadFile path) (Some raw) :: tr' ∧
    Spec.ParseBattery getenv path raw = inr bat ∧
    let items := Cmd.selected (get_string fs "only") (Items bat) in
    Forall expands items ∧ ∀ b, of_run items b → boot_passed (ParseFloat L) c results b.
Proof.
  intros H Ha. apply run_command in H as (t1 & t2 & -> & H). apply answered_suffix in Ha.
  unfold cmdRun, with_flags in H. destruct (Parse run_flags args) as [fs rest| |e]; [|by left|by apply said in H].
  right. destruct rest as [|path [|]]; [by apply said in H| |by apply said in H]. rewrite orb_false_r in H.
  destruct (get_bool fs "n") eqn:En; [left; by exists fs, [path]|right].
  destruct H as [H|H]; [|by destruct (exits_runs _ _ _ _ (codes_exits _ _ _ (codes_battery _ _ _ _)) H)].
  destruct (run_battery_0 _ _ _ _ _ _ _ _ H Ha) as (raw & tr' & getenv & bat & c & results & -> & Hb & Hr).
  by exists fs, path, t1, raw, tr', getenv, bat, c, results.
Qed.
End Pvmtest.

(** ** At the command line *)
Definition demo_library : library := {|
  ParseFloat := nothing; value_of := zero_of; Float64s := id; fmt_g := plain; map_order := id; sort_syms := id |}.
Lemma pvmtest_status_witness :
  let r := drive demo_machine (pvmtest demo_library ["pvmtest"; "deps"]) in
  ∃ n, r.2 = Exited n ∧ (n = 0 ∨ n = 1 ∨ n = 2).
Proof.
  intros r. assert (r.2 = Exited 1) as Hr by (vm_compute; reflexivity). exists 1. split; [exact Hr|].
  apply (proj1 (pvmtest_status demo_library ["pvmtest"; "deps"] r.1 r.2 ltac:(apply drive_runs))). exact Hr.
Defined.
(** What was read of a file in a run. *)
Definition read_of (path : string) (e : event bop) : option (string + string) :=
  match ev_op e in bop B return option B → option (string + string) with
  | ReadFile p => if seqb p path then id else λ _, None
  | _ => λ _, None
  end (ev_ans e).
Lemma read_there path before raw tr' : raw ∈ omap (read_of path) (before ++ Ev (ReadFile path) (Some raw) :: tr').
Proof.
  rewrite list_elem_of_omap. exists (Ev (ReadFile path) (Some raw)). split; [rewrite elem_of_app; right; by left|].
  unfold read_of. cbn. by destruct (seqb_spec path path).
Qed.
Lemma run_status_0_witness :
  let r := drive one_boot_pool (pvmtest demo_library ["pvmtest"; "run"; "x.battery"]) in
  r.2 = Exited 0 ∧ ∃ bat c results b, Spec.ParseBattery (λ _, "") "x.battery" (inr ("run up suite=smoke" +:+ nl)) = inr bat ∧
    of_run (Items bat) b ∧ boot_passed nothing c results b.
Proof.
  intros r. assert (r.2 = Exited 0) as Hr by (vm_compute; reflexivity). split; [exact Hr|].
  destruct (run_status_0 demo_library "pvmtest" ["x.battery"] r.1) as [H|[(fs & rest & H & Hn)|H]].
  - rewrite <- Hr. apply drive_runs.
  - apply drive_answered.
  - vm_compute in H. discriminate H.
  - vm_compute in H. injection H as <- <-. vm_compute in Hn. discriminate Hn.
  - destruct H as (fs & path & before & raw & tr' & getenv & bat & c & results & H & Ht & Hb & _ & Hp).
    vm_compute in H. injection H as <- <-. pose proof (read_there "x.battery" before raw tr') as Hin. rewrite <- Ht in Hin.
    vm_compute in Hin. apply list_elem_of_singleton in Hin as ->. vm_compute in Hb. injection Hb as <-.
    eexists _, c, results, _. split; [vm_compute; reflexivity|]. split; [|apply Hp].
    + eexists _, _. split; [left; reflexivity|]. split; [reflexivity|]. split; [vm_compute; reflexivity|by left].
    + eexists _, _. split; [left; reflexivity|]. split; [reflexivity|]. split; [vm_compute; reflexivity|by left].
Defined.
