(* ===== verification/Init.v ===== *)
(** * initrd/internal/sysinit and cmd/pvminit: PID 1 of the guest

    [main] is a program over the calls of [iop].  What a case does is the answer
    of the call that runs it, or [None] for a panic of the main goroutine that
    the harness does not recover; the lines a case prints itself come with the
    answer.  The cases' own functions are in [GuestCases]. *)
From Stdlib Require Import Ascii.
From S2P Require Import Prelude GoStrings Harness Prog Flags.

#[local] Open Scope Z_scope.

Record mount := { source : string; target : string; fstype : string; m_flags : Z; data : string }.
Inductive reboot := POWER_OFF | RESTART.
Inductive iop : Type → Type :=
| Print (s : string) : iop unit
| Getpid : iop Z
| MkdirAll (path : string) : iop unit                           (* its error is dropped *)
| Mount (m : mount) : iop (option (bool * string))              (* an error, marked when it is EBUSY *)
| WriteFile (path value : string) : iop (option string)
| ReadFile (path : string) : iop (string + string)
| Uname : iop (option (list Z * list Z * list Z))               (* C strings of int8: sysname, release, version *)
| OpenMSR : iop (option string)                                 (* its error *)
| WriteMSR (offset value : Z) : iop (option string)
| RunCase (c : Case) (scale : Z) : iop (option ran)
| Since : iop string                                            (* the time taken, printed *)
| SyncOut : iop unit
| SyncDisks : iop unit
| Reboot (cmd : reboot) : iop unit                              (* answered only when it failed *)
| Block : iop Empty_set                                         (* select {} *)
| RunVictim (args : list string) : iop (option Z).              (* the status it exits with, if it does not return *)
Abbreviation init := (prog iop).
Definition print (s : string) : init unit := call (Print s).

(** ** sysinit *)
Definition MS_NOSUID : Z := 2.
Definition MS_NODEV : Z := 4.
Definition MS_NOEXEC : Z := 8.
Definition mounts : list mount :=
  let all := Z.lor MS_NOSUID (Z.lor MS_NODEV MS_NOEXEC) in
  [Build_mount "proc" "/proc" "proc" all ""; Build_mount "sysfs" "/sys" "sysfs" all "";
   Build_mount "devtmpfs" "/dev" "devtmpfs" MS_NOSUID "mode=0755";
   Build_mount "tmpfs" "/tmp" "tmpfs" (Z.lor MS_NOSUID MS_NODEV) "mode=1777";
   Build_mount "tmpfs" "/run" "tmpfs" (Z.lor MS_NOSUID MS_NODEV) "mode=0755";
   Build_mount "debugfs" "/sys/kernel/debug" "debugfs" all ""].
Definition write (path value : string) : init unit :=
  e ← call (WriteFile path value);
  match e with Some e => print ("PVMINIT: write " +:+ path +:+ ": " +:+ e +:+ nl) | None => Ret tt end.
Definition mount_one (m : mount) : init unit :=
  call (MkdirAll (target m)) ;;
  e ← call (Mount m);
  match e with
  | Some (false, e) => print ("PVMINIT: mount " +:+ fstype m +:+ " on " +:+ target m +:+ ": " +:+ e +:+ nl)
  | _ => Ret tt
  end.
(** The text of the command line, empty when it cannot be read. *)
Definition cmdline_text : init string :=
  r ← call (ReadFile "/proc/cmdline"); Ret (match r with inr t => t | inl _ => "" end).
Definition Setup : init unit :=
  each mounts mount_one ;;
  write "/proc/sys/kernel/kptr_restrict" "0" ;;
  t ← cmdline_text;
  let v := Get (Cmdline t) "pvmtest.tlb_ceiling" "" in
  (if seqb v "" then Ret tt else
     write "/sys/kernel/debug/x86/tlb_single_page_flush_ceiling" v ;;
     print ("PVMINIT: tlb_single_page_flush_ceiling = " +:+ v +:+ nl)) ;;
  write "/proc/sys/kernel/panic" "-1" ;;
  write "/proc/sys/kernel/printk" "8 4 1 7".
(** [Sscanf] with %x: the hexadecimal digits the word begins with. *)
Definition is_hex_digit (c : ascii) : bool := is_digit c || in_range "a" "f" c || in_range "A" "F" c.
Fixpoint hex_prefix (s : string) : string :=
  match s with String c r => if is_hex_digit c then String c (hex_prefix r) else "" | EmptyString => "" end.
Definition scan_x (s : string) : option Z :=
  match unradix 16 (hex_prefix s) with Some n => if Z.of_N n <? 2 ^ 64 then Some (Z.of_N n) else None | None => None end.
(** The first line of /proc/kallsyms that names [_text]. *)
Definition text_line (l : string) : option string :=
  match fields l with a :: _ :: n :: _ => if seqb n "_text" then Some a else None | _ => None end.
Definition KernelTextBase_of (kallsyms : string + string) : option Z :=
  match kallsyms with
  | inl _ => None
  | inr t => match head (omap text_line (split ch_nl t)) with Some a => scan_x a | None => None end
  end.
Definition KernelTextBase : init (option Z) := r ← call (ReadFile "/proc/kallsyms"); Ret (KernelTextBase_of r).
Definition Hypervisor : init string :=
  r ← call (ReadFile "/sys/hypervisor/type");
  match r with
  | inr t => Ret (trim_space t)
  | inl _ =>
      c ← call (ReadFile "/proc/cpuinfo");
      Ret (match c with
           | inr t => if contains t "hypervisor" then "unnamed (hypervisor flag set)" else "none detected"
           | inl _ => "none detected"
           end)
  end.
Fixpoint charsToString (ca : list Z) : string :=
  match ca with
  | [] => ""
  | c :: ca => if c =? 0 then "" else String (ascii_of_N (Z.to_N (c mod 256))) (charsToString ca)
  end.
(** %016x *)
Definition hex16 (v : Z) : string := pad_left "0" 16 (fmt_x v).
Definition text_banner (base : Z) : string := "PVMINIT: _text at 0x" +:+ hex16 base +:+ nl.
Definition Banner : init unit :=
  u ← call Uname;
  (match u with
   | Some (s, r, v) => print ("PVMINIT: " +:+ charsToString s +:+ " " +:+ charsToString r +:+ " " +:+ charsToString v +:+ nl)
   | None => Ret tt
   end) ;;
  c ← call (ReadFile "/proc/cmdline");
  (match c with inr t => print ("PVMINIT: cmdline: " +:+ t) | inl _ => Ret tt end) ;;
  b ← KernelTextBase;
  (match b with Some base => print (text_banner base) | None => Ret tt end) ;;
  h ← Hypervisor;
  print ("PVMINIT: hypervisor: " +:+ h +:+ nl).
Definition PowerOff : init unit :=
  call SyncOut ;; call SyncDisks ;; call (Reboot POWER_OFF) ;; call (Reboot RESTART) ;;
  b ← call Block; match b : Empty_set with end.

(** ** main *)
Section Main.
Context (cs : list Case) (durString : Z → string).
(** [MarkMSR] when the command line asks for it: the MSR that is marked. *)
Definition mark_device (m : gmap string string) : init (option Z) :=
  let msr := Get m "pvmtest.statsmsr" "" in
  if seqb msr "" then Ret None else
  match parse_uint0 32 msr with
  | None => Ret None
  | Some n =>
      print ("PVMINIT: marking each case with MSR " +:+ fmt_hash_x n +:+ nl) ;;
      e ← call OpenMSR;
      match e with
      | Some e => print ("PVMINIT: no marks: " +:+ e +:+ nl) ;; Ret None
      | None => Ret (Some n)
      end
  end.
Definition perf_scale (m : gmap string string) : init Z :=
  let sc := Get m "pvmtest.scale" "" in
  if seqb sc "" then Ret 1 else
  match atoi sc with
  | Some n => print ("PVMINIT: perf iteration counts scaled by " +:+ itoa n +:+ nl) ;; Ret (SetScale 1 n)
  | None => Ret 1
  end.
(** [mark], with the writes it makes. *)
Definition mark_msr (dev : option Z) (v : Z) (name : string) : init unit :=
  match dev with
  | None => Ret tt
  | Some n =>
      print ("PVMTEST-MARK: " +:+ itoa v +:+ " " +:+ name +:+ " #END" +:+ nl) ;;
      call SyncOut ;;
      e ← call (WriteMSR n v);
      match e with
      | Some e => print ("PVMINIT: mark " +:+ itoa v +:+ " failed: " +:+ e +:+ nl)
      | None => Ret tt
      end
  end.
(** The loop of [Run]; [None] for a panic. *)
Fixpoint run_cases (dev : option Z) (scale : Z) (h : Harness) (i : Z) (run : list Case) : init (option Harness) :=
  match run with
  | [] => Ret (Some h)
  | c :: run =>
      mark_msr dev (2 * (i + 1)) (Name c +:+ "/before") ;;
      x ← call (RunCase c scale);
      match x with
      | None => Ret None
      | Some r =>
          let '(h, ls) := runOne durString (λ _, r) h (i + 1) c in
          print (unlines ls) ;;
          call SyncOut ;;
          mark_msr dev (2 * (i + 1) + 1) (Name c +:+ "/after") ;;
          run_cases dev scale h (i + 1) run
      end
  end.
(** [Run] and [Report]; false for a panic. *)
Definition run_tests (dev : option Z) (scale : Z) (h : Harness) : init bool :=
  let h := set_cases h (sort_stable (λ a b, str_less (Name a) (Name b)) (cases h)) in
  let '(h, run) := foldl select_step (h, []) (cases h) in
  print ("1.." +:+ itoa (Z.of_nat (length run)) +:+ nl) ;;
  x ← run_cases dev scale h 0 run;
  match x with
  | None => Ret false
  | Some h => took ← call Since; print (unlines (Report h took)) ;; call SyncOut ;; Ret true
  end.
Definition guest_main : init bool :=
  t ← cmdline_text;
  let m := Cmdline t in
  pid ← call Getpid;
  print (nl +:+ "PVMINIT: up  tag=" +:+ Get m "pvmtest.tag" "guest" +:+ " suite=" +:+ Get m "pvmtest.suite" "default" +:+
         " pid=" +:+ itoa pid +:+ nl) ;;
  Banner ;;
  scale ← perf_scale m;
  dev ← mark_device m;
  (let only := Get m "pvmtest.only" "" in
   if seqb only "" then Ret tt else print ("PVMINIT: only cases matching " +:+ quote only +:+ nl)) ;;
  run_tests dev scale (guest_harness t cs None).
Definition main (argv : list string) : init unit :=
  let run :=
    pid ← call Getpid;
    if pid =? 1 then Setup ;; guest_main ;; PowerOff
    else ok ← guest_main; if ok : bool then Ret tt else Exit 2 in
  match argv with
  | _ :: a :: args =>
      if has_prefix a "victim-" then
        r ← call (RunVictim (a :: args));
        match r with Some n => Exit n | None => Ret tt end
      else run
  | _ => run
  end.
End Main.
