(* ===== verification/InitRuns.v ===== *)
(** * What PID 1 prints and how it ends

    The runs of [Init.main]: the machine is always left by a power off, after
    the report; and what a complete run prints is the output of
    [Harness.Run]. *)
From Stdlib Require Import Ascii.
From S2P Require Import Prelude GoStrings Harness Prog Flags Init.

#[local] Open Scope Z_scope.

Lemma unlines_app l l' : unlines (l ++ l') = unlines l +:+ unlines l'.
Proof.
  induction l as [|x l IH]; [done|]. cbn [app unlines foldr]. fold (unlines (l ++ l')) (unlines l). rewrite IH.
  by rewrite !app_assoc_s.
Qed.

Lemma unlines_cons x l : unlines (x :: l) = x +:+ nl +:+ unlines l.
Proof. done. Qed.

(** ** The end of a run

    What was printed, whether a case panicked, and how far the machine is on
    its way down: the output synced, then the disks, then the power off tried,
    then the restart. *)
Record down := { out : string; broken : bool; stage : nat }.
Definition reported (g : down) : Prop := ∃ before h took, out g = before +:+ unlines (Report h took).
Definition down_obs B (o : iop B) : B → down → down :=
  match o with
  | Print s => λ _ g, {| out := out g +:+ s; broken := broken g; stage := 0 |}
  | RunCase c sc => λ b g, {| out := out g; broken := match b with None => true | Some _ => broken g end; stage := 0 |}
  | SyncOut => λ _ g, {| out := out g; broken := broken g; stage := 1 |}
  | SyncDisks => λ _ g, {| out := out g; broken := broken g; stage := if decide (stage g = 1%nat) then 2 else 0 |}
  | Reboot POWER_OFF => λ _ g, {| out := out g; broken := broken g; stage := 3 |}
  | Reboot RESTART => λ _ g, {| out := out g; broken := broken g; stage := 4 |}
  | _ => λ _ g, g
  end.
Definition down_pre B (o : iop B) (g : down) : Prop :=
  match o with
  | Reboot POWER_OFF => stage g = 2%nat ∧ (broken g = true ∨ reported g)
  | Reboot RESTART => stage g = 3%nat ∧ (broken g = true ∨ reported g)
  | Block => stage g = 4%nat ∧ (broken g = true ∨ reported g)
  | RunVictim _ => False
  | _ => (stage g < 3)%nat
  end.
Definition pid1 B (o : iop B) : B → down → Prop :=
  match o with Getpid => λ b _, b = 1 | _ => λ _ _, True end.
Definition down_monitor : monitor iop := Monitor _ down down_obs down_pre pid1.
Definition down0 : down := {| out := ""; broken := false; stage := 0 |}.


Definition running (g : down) : Prop := (stage g < 3)%nat.
(** A call that neither stops the machine nor leaves PID 1. *)
Definition ordinary B (o : iop B) : Prop :=
  match o with Reboot _ | Block | RunVictim _ => False | _ => True end.
Lemma running_call B (o : iop B) : ordinary B o →
  ∀ g, running g → m_pre down_monitor o g ∧ ∀ b, m_ans down_monitor o b g → running (m_obs down_monitor o b g).
Proof.
  unfold running. destruct o; cbn; intros Ho g Hg; try done; (split; [done|]); intros; cbn; try lia; try done.
  case_decide; lia.
Qed.
Lemma ordinary_wp {A} (p : init A) Q E g :
  all_ops ordinary p → exits (λ _, False) p → running g → (∀ a g, running g → Q a g) → wp down_monitor p Q E g.
Proof.
  intros Hp He Hg HQ.
  eapply wp_mono with (E := E); [apply (wp_all_ops down_monitor running); [| |exact Hg]|by intros; apply HQ|done].
  - eapply all_ops_impl; [exact running_call|exact Hp].
  - by eapply exits_impl; [|exact He].
Qed.
Ltac up_tac := unfold running in *; cbn in *; lia.
Ltac ordinary_tac := walk ltac:(exact I).
Ltac ordinary_step := apply ordinary_wp; [ordinary_tac|ordinary_tac|assumption|]; intros ? ? ?.

Lemma write_ordinary p v : all_ops ordinary (write p v) ∧ exits (λ _, False) (write p v).
Proof. unfold write, print. split; ordinary_tac. Qed.
Lemma Setup_ordinary : all_ops ordinary Setup ∧ exits (λ _, False) Setup.
Proof. unfold Setup, mount_one, cmdline_text, write, print. split; ordinary_tac. Qed.
Lemma Banner_ordinary : all_ops ordinary Banner ∧ exits (λ _, False) Banner.
Proof. unfold Banner, KernelTextBase, Hypervisor, print. split; ordinary_tac. Qed.
Lemma mark_msr_ordinary dev v n : all_ops ordinary (mark_msr dev v n) ∧ exits (λ _, False) (mark_msr dev v n).
Proof. unfold mark_msr, print. split; ordinary_tac. Qed.

Lemma seq_wp {A B} (p : init A) (k : A → init B) Q E g :
  all_ops ordinary p ∧ exits (λ _, False) p → running g → (∀ a g, running g → wp down_monitor (k a) Q E g) →
  wp down_monitor (p ≫= k) Q E g.
Proof. intros [Hp He] Hg Hk. apply wp_bind. by apply ordinary_wp. Qed.
Lemma ordinary_call {B} (o : iop B) : ordinary B o → all_ops ordinary (call o) ∧ exits (λ _, False) (call o).
Proof. done. Qed.

Section Main.
Context (cs : list Case) (durString : Z → string).
Definition ended (g : down) : Prop := running g ∧ (broken g = true ∨ reported g).
(** A panic marks the state; without one the harness is returned. *)
Lemma run_cases_wp dev scale h i run g : running g →
  wp down_monitor (run_cases durString dev scale h i run)
    (λ x g, running g ∧ match x with None => broken g = true | Some _ => True end) (λ _ _, False) g.
Proof.
  revert h i g. induction run as [|c run IH]; intros h i g Hg; cbn [run_cases]; [done|].
  apply seq_wp; [apply mark_msr_ordinary|done|]. intros _ g1 Hg1.
  apply wp_bind, wp_call; [exact Hg1|]. intros [r|] _; cbn [wp]; [|split; [up_tac|done]].
  destruct (runOne durString _ h (i + 1) c) as [h' ls].
  apply seq_wp; [by apply ordinary_call|up_tac|]. intros _ g2 Hg2.
  apply seq_wp; [by apply ordinary_call|done|]. intros _ g3 Hg3.
  apply seq_wp; [apply mark_msr_ordinary|done|]. intros _ g4 Hg4. by apply IH.
Qed.
Lemma run_tests_wp dev scale h g : running g →
  wp down_monitor (run_tests durString dev scale h) (λ _, ended) (λ _ _, False) g.
Proof.
  intros Hg. unfold run_tests. destruct (foldl _ _ _) as [h' run].
  apply seq_wp; [by apply ordinary_call|done|]. intros _ g1 Hg1.
  apply wp_bind. eapply wp_mono; [by apply run_cases_wp| |done].
  intros [h2|] g2 [Hg2 Hb]; [|split; [done|by left]].
  apply seq_wp; [by apply ordinary_call|done|]. intros t g3 Hg3.
  apply wp_bind, wp_call; [done|]. intros [] _. apply wp_bind, wp_call; [up_tac|]. intros [] _.
  split; [up_tac|]. right. by exists (out g3), h2, t.
Qed.
Lemma guest_main_wp g : running g →
  wp down_monitor (guest_main cs durString) (λ _, ended) (λ _ _, False) g.
Proof.
  intros Hg. unfold guest_main.
  apply seq_wp; [unfold cmdline_text; split; ordinary_tac|done|]. intros t g1 Hg1.
  apply seq_wp; [by apply ordinary_call|done|]. intros pid g2 Hg2.
  apply seq_wp; [by apply ordinary_call|done|]. intros _ g3 Hg3.
  apply seq_wp; [apply Banner_ordinary|done|]. intros _ g4 Hg4.
  apply seq_wp; [unfold perf_scale, print; split; ordinary_tac|done|]. intros sc g5 Hg5.
  apply seq_wp; [unfold mark_device, print; split; ordinary_tac|done|]. intros dev g6 Hg6.
  apply seq_wp; [unfold print; split; ordinary_tac|done|]. intros _ g7 Hg7. by apply run_tests_wp.
Qed.
Lemma PowerOff_wp g Q : ended g → wp down_monitor PowerOff Q (λ _ _, False) g.
Proof.
  intros [Hg Hr]. unfold PowerOff. apply wp_bind, wp_call; [exact Hg|]. intros [] _. apply wp_bind, wp_call; [up_tac|].
  intros [] _. apply wp_bind, wp_call; [by split|]. intros [] _. apply wp_bind, wp_call; [by split|].
  intros [] _. apply wp_bind, wp_call; [by split|]. intros [].
Qed.
Definition is_victim (argv : list string) : bool :=
  match argv with _ :: a :: _ => has_prefix a "victim-" | _ => false end.
Lemma main_wp argv : is_victim argv = false →
  wp down_monitor (main cs durString argv) (λ _ _, False) (λ _ _, False) down0.
Proof.
  intros Hv.
  assert (wp down_monitor (pid ← call Getpid; if pid =? 1 then Setup ;; guest_main cs durString ;; PowerOff
    else ok ← guest_main cs durString; if ok : bool then Ret tt else Exit 2) (λ _ _, False) (λ _ _, False) down0) as H.
  { apply wp_bind, wp_call; [up_tac|]. intros pid ->. cbn [Z.eqb Pos.eqb].
    apply seq_wp; [apply Setup_ordinary|up_tac|]. intros _ g Hg.
    apply wp_bind. eapply wp_mono; [by apply guest_main_wp| |done]. intros b g' Hg'. by apply PowerOff_wp. }
  unfold main. destruct argv as [|x [|a args]]; [exact H..|]. cbn in Hv. by rewrite Hv.
Qed.

(** C15: PID 1, however it was started but as a victim and whatever the kernel
    answers (every mount, write and read may fail, a case may panic), never
    returns and never exits: its run ends in a call that does not return.
    The machine is stopped only after the report was printed as the last
    output, unless a case panicked, and after that output and the disks were
    synced, in that order; the restart is tried after the power off, and
    blocking for ever only after both. *)
Theorem pid1_powers_off argv tr o :
  is_victim argv = false → runs (main cs durString argv) tr o → answered down_monitor tr down0 →
  o = Stopped ∧ allowed down_monitor tr down0 ∧
  ∃ tr' B (last : iop B), tr = tr' ++ [Ev last None] ∧ down_pre B last (observe down_monitor tr' down0).
Proof.
  intros Hv Hr Ha. destruct (wp_runs down_monitor _ _ _ _ _ _ (main_wp argv Hv) Hr Ha) as [Hal Ho].
  destruct o as [a|n|]; [done..|]. split; [done|]. split; [done|].
  destruct Ho as (tr' & B & last & -> & Hp). exists tr', B, last. split; [done|].
  replace (observe down_monitor tr' down0) with (observe down_monitor (tr' ++ [Ev last None]) down0); [done|].
  clear. generalize down0 as g. induction tr' as [|[C o [b|]] tr' IH]; intros g; cbn; auto.
Qed.
End Main.

(** ** What a complete run prints

    The guest as the run sees it: the command line, what the cases do, whether
    the MSR device opens and what it answers. *)
Record guest := {
  boot_cmdline : string; exec : Case → ran; open_error : option string; write_msr : Z → Z → option string }.
Section Console.
Context (w : guest).
Definition heard B (o : iop B) : B → string → string :=
  match o with Print s => λ _ g, g +:+ s | _ => λ _ g, g end.
Definition behaves B (o : iop B) : B → string → Prop :=
  match o with
  | ReadFile p => λ b _, if seqb p "/proc/cmdline" then b = inr (boot_cmdline w) else True
  | RunCase c _ => λ b _, b = Some (exec w c)
  | OpenMSR => λ b _, b = open_error w
  | WriteMSR n v => λ b _, b = write_msr w n v
  | _ => λ _ _, True
  end.
Definition console : monitor iop := Monitor _ string heard (λ _ _ _, True) behaves.
(** The MSR that is marked: one was asked for and the device opened. *)
Definition marked : option Z :=
  let msr := Get (Cmdline (boot_cmdline w)) "pvmtest.statsmsr" "" in
  if seqb msr "" then None else
  match open_error w with Some _ => None | None => parse_uint0 32 msr end.
Definition device : option (Z → option string) := write_msr w <$> marked.

Definition with_dev (d : option (Z → option string)) (h : Harness) : Harness := {|
  suite := suite h; tag := tag h; only := only h; cases := cases h; pass := pass h; fail := fail h;
  skip := skip h; failed := failed h; markDev := d |}.
Lemma with_dev_runOne dur ex d h n c :
  runOne dur ex (with_dev d h) n c = (with_dev d (runOne dur ex h n c).1, (runOne dur ex h n c).2).
Proof. unfold runOne. by destruct (err_of _ _ _). Qed.
Lemma with_dev_select d st l :
  foldl select_step (with_dev d st.1, st.2) l = (with_dev d (foldl select_step st l).1, (foldl select_step st l).2).
Proof.
  revert st. induction l as [|c l IH]; intros [h run]; [done|]. cbn [foldl fst snd].
  unfold select_step at 2. change (selected (with_dev d h) c) with (selected h c).
  rewrite <- !IH. by destruct (selected h c) eqn:E; cbn; rewrite E.
Qed.
Lemma with_dev_harness d t cs : with_dev d (guest_harness t cs None) = guest_harness t cs d.
Proof.
  unfold guest_harness. set (h0 := New _ _). clearbody h0.
  assert (∀ cs h, with_dev d (foldl Add h cs) = foldl Add (with_dev d h) cs) as H.
  { clear. induction cs as [|c cs IH]; intros h; [done|]. cbn [foldl]. by rewrite IH. }
  rewrite H. by case_match.
Qed.

(** Calls that print something of no interest here. *)
Lemma print_wp {A} s (k : unit → init A) Q E g : wp console (k tt) Q E (g +:+ s) → wp console (print s ≫= k) Q E g.
Proof. intros H. apply wp_bind, wp_call; [exact I|]. by intros [] _. Qed.
Lemma mark_wp {A} v n (k : unit → init A) Q E g :
  wp console (k tt) Q E (g +:+ unlines (mark (with_dev device (New "" "")) v n)) →
  wp console (mark_msr marked v n ≫= k) Q E g.
Proof.
  unfold mark_msr, mark, device. cbn [markDev with_dev]. destruct marked as [m|]; cbn [fmap option_fmap option_map].
  2:{ by rewrite app_nil_r_s. }
  intros H. apply wp_bind, print_wp. apply wp_bind, wp_call; [exact I|]. intros [] _. apply wp_bind, wp_call; [exact I|].
  intros e ->. cbn [heard console m_obs]. destruct (write_msr w m v) as [e|]; cbn [wp].
  - split; [exact I|]. intros [] _. cbn [m_obs console heard].
    cbn [unlines foldr] in H. by rewrite ?app_assoc_s, ?app_nil_r_s in *.
  - cbn [unlines foldr] in H. by rewrite ?app_assoc_s, ?app_nil_r_s in *.
Qed.

Context (durString : Z → string).
Lemma mark_with_dev h v n : mark (with_dev device (New "" "")) v n = mark (with_dev device h) v n.
Proof. done. Qed.
Lemma run_cases_console scale h i run g :
  wp console (run_cases durString marked scale h i run)
    (λ x g', ∃ h', x = Some h' ∧
       run_loop durString (exec w) (with_dev device h) i run =
       (with_dev device h', (run_loop durString (exec w) (with_dev device h) i run).2) ∧
       g' = g +:+ unlines (run_loop durString (exec w) (with_dev device h) i run).2) (λ _ _, True) g.
Proof.
  revert h i g. induction run as [|c run IH]; intros h i g; cbn [run_cases run_loop].
  { exists h. by rewrite app_nil_r_s. }
  apply mark_wp. rewrite (mark_with_dev h). apply wp_bind, wp_call; [exact I|]. intros r ->.
  cbn [console m_obs heard]. change (runOne durString (λ _, exec w c) h (i + 1) c) with (runOne durString (exec w) h (i + 1) c).
  rewrite with_dev_runOne. destruct (runOne durString (exec w) h (i + 1) c) as [h1 l]. cbn [fst snd].
  apply print_wp, wp_bind, wp_call; [exact I|]. intros [] _. apply mark_wp. rewrite (mark_with_dev h1).
  eapply wp_mono; [apply IH| |done]. intros x g' (h' & -> & He & ->). exists h'. split; [done|].
  destruct (run_loop durString (exec w) (with_dev device h1) (i + 1) run) as [h2 ls]. cbn [fst snd] in *.
  injection He as ->. split; [done|]. cbn [console m_obs heard]. by rewrite !unlines_app, !app_assoc_s.
Qed.
Lemma run_tests_console scale h g :
  wp console (run_tests durString marked scale h)
    (λ ok g', ok = true ∧ ∃ took, let '(h', ls) := Run durString (exec w) (with_dev device h) in
       g' = g +:+ unlines ls +:+ unlines (Report h' took)) (λ _ _, True) g.
Proof.
  unfold run_tests, Run. cbn zeta.
  set (h0 := set_cases h _).
  change (set_cases (with_dev device h) _) with (with_dev device h0). change (cases (with_dev device h0)) with (cases h0).
  pose proof (with_dev_select device (h0, []) (cases h0)) as Hs. cbn [fst snd] in Hs. rewrite Hs.
  destruct (foldl select_step (h0, []) (cases h0)) as [h1 run]. cbn [fst snd].
  apply print_wp. apply wp_bind. eapply wp_mono; [apply run_cases_console| |done].
  intros x g' (h' & -> & He & ->). destruct (run_loop _ _ _ _ _) as [h2 ls]. cbn [fst snd] in *. injection He as ->.
  apply wp_bind, wp_call; [exact I|]. intros t _. apply print_wp, wp_bind, wp_call; [exact I|]. intros [] _.
  split; [done|]. exists t. cbn [console m_obs heard]. change (Report (with_dev device h') t) with (Report h' t).
  by rewrite unlines_cons, !app_assoc_s.
Qed.

(** A program of which only the answer matters. *)
Lemma any_wp {A} (p : init A) Q g : (∀ a g, Q a g) → wp console p Q (λ _ _, True) g.
Proof. intros HQ. by apply wp_any. Qed.
Lemma mark_device_console (Q : option Z → string → Prop) g :
  (∀ g, Q marked g) → wp console (mark_device (Cmdline (boot_cmdline w))) Q (λ _ _, True) g.
Proof.
  intros HQ. unfold mark_device. unfold marked in HQ. destruct (seqb _ ""); [apply HQ|].
  destruct (parse_uint0 32 _) as [n|]; [|destruct (open_error w); apply HQ].
  apply print_wp, wp_bind, wp_call; [exact I|]. intros e ->. destruct (open_error w); [|apply HQ].
  apply print_wp, HQ.
Qed.
Lemma guest_main_console cs g :
  wp console (guest_main cs durString)
    (λ ok g', ok = true ∧ ∃ before took,
       let '(h', ls) := Run durString (exec w) (guest_harness (boot_cmdline w) cs device) in
       g' = before +:+ unlines ls +:+ unlines (Report h' took)) (λ _ _, True) g.
Proof.
  unfold guest_main. apply wp_bind. unfold cmdline_text. apply wp_bind, wp_call; [exact I|]. intros t Ht.
  assert (t = inr (boot_cmdline w)) as -> by exact Ht. cbn [wp]. apply wp_bind, any_wp. intros pid g1. apply wp_bind, any_wp. intros _ g2. apply wp_bind, any_wp. intros _ g3.
  apply wp_bind, any_wp. intros sc g4. apply wp_bind, mark_device_console. intros g5. apply wp_bind, any_wp. intros _ g6.
  eapply wp_mono; [apply run_tests_console| |done]. rewrite with_dev_harness.
  intros ok g' [-> [took H]]. split; [done|]. exists g6, took. destruct (Run _ _ _) as [h' ls]. exact H.
Qed.

(** C33: a complete run of the guest's main prints, after its banner, exactly
    the lines of [Harness.Run] for the cases it registers, the command line it
    was booted with and the MSR device it opened, and then the report of the
    harness that run ends with, whatever each case does, the marks answer and
    the other files say; it tells that no case panicked. *)
Theorem guest_main_runs_harness cs tr ok :
  runs (guest_main cs durString) tr (Returned ok) → answered console tr "" →
  ok = true ∧ ∃ before took,
    let '(h, ls) := Run durString (exec w) (guest_harness (boot_cmdline w) cs device) in
    observe console tr "" = before +:+ unlines ls +:+ unlines (Report h took).
Proof. intros Hr Ha. by destruct (wp_runs console _ _ _ _ _ _ (guest_main_console cs "") Hr Ha) as [_ H]. Qed.
End Console.

(** ** A machine that answers *)
Definition demo_guest : guest := {|
  boot_cmdline := "console=ttyS0 pvmtest.suite=smoke pvmtest.tag=t1 pvmtest.statsmsr=0x4b564dff";
  exec := λ c, {| recv := R_err (if seqb (Name c) "mm/bad" then Some "no" else None); notes := []; during := []; took := "1ms" |};
  open_error := None; write_msr := λ n v, if v =? 2 then Some "input/output error" else None |}.
Definition demo_guest_cases : list Case :=
  [{| Name := "mm/fork"; Suites := [Smoke]; Timeout := 0 |}; {| Name := "mm/bad"; Suites := [Smoke]; Timeout := 0 |};
   {| Name := "perf/x"; Suites := [Perf]; Timeout := 0 |}].
Definition demo_answers (w : guest) : ∀ B, iop B → option B :=
  λ B o, match o in iop B return option B with
  | Print _ => Some tt
  | Getpid => Some 1
  | MkdirAll _ => Some tt
  | Mount m => Some (if seqb (fstype m) "debugfs" then Some (false, "no such device") else Some (true, "busy"))
  | WriteFile _ _ => Some None
  | ReadFile p => Some (if seqb p "/proc/cmdline" then inr (boot_cmdline w) else
                        if seqb p "/proc/kallsyms" then inr ("ffffc98001000000 T _text" +:+ nl) else inl "no such file")
  | Uname => Some None
  | OpenMSR => Some (open_error w)
  | WriteMSR n v => Some (write_msr w n v)
  | RunCase c _ => Some (Some (exec w c))
  | Since => Some "1s"
  | SyncOut => Some tt
  | SyncDisks => Some tt
  | Reboot POWER_OFF => Some tt
  | Reboot RESTART => None
  | Block => None
  | RunVictim _ => Some None
  end.
Definition milliseconds (d : Z) : string := itoa (d / 1000000) +:+ "ms".
Lemma guest_main_runs_harness_witness :
  let r := drive (demo_answers demo_guest) (guest_main demo_guest_cases milliseconds) in
  r.2 = Returned true ∧
  ∃ before took,
    let '(h, ls) := Run milliseconds (exec demo_guest) (guest_harness (boot_cmdline demo_guest) demo_guest_cases (device demo_guest)) in
    observe (console demo_guest) r.1 "" = before +:+ unlines ls +:+ unlines (Report h took).
Proof.
  intros r. assert (r.2 = Returned true) as Hr by (vm_compute; reflexivity). split; [exact Hr|].
  refine (proj2 (guest_main_runs_harness demo_guest milliseconds demo_guest_cases r.1 true _ _)).
  - rewrite <- Hr. apply drive_runs.
  - vm_compute. repeat split; reflexivity.
Defined.
Lemma pid1_powers_off_witness :
  let r := drive (demo_answers demo_guest) (main demo_guest_cases milliseconds ["/init"; "nokaslr"]) in
  r.2 = Stopped ∧ allowed down_monitor r.1 down0 ∧
  ∃ tr' B (last : iop B), r.1 = tr' ++ [Ev last None] ∧ down_pre B last (observe down_monitor tr' down0).
Proof.
  intros r. apply (pid1_powers_off demo_guest_cases milliseconds ["/init"; "nokaslr"] r.1 r.2).
  - reflexivity.
  - apply drive_runs.
  - vm_compute. repeat split; reflexivity.
Defined.
