(* ===== verification/CaseOps.v ===== *)
(** * initrd/internal/tests: what the guest's cases are made of

    The calls a case makes, as an alphabet for [Prog]: system calls, memory
    accesses, the clock, child processes.  A memory access is a call because
    the memory is what is tested: a load may answer anything.  Then the helpers
    the cases share: victims (victim.go, security.go), the walk over the CPUs
    (sched.go), what /proc tells (cpuid.go, sysinit). *)
From Stdlib Require Import Ascii.
From Stdlib Require Import SpecFloat.
From S2P Require Import Prelude GoStrings Regexp Text Float64 Harness Prog Flags Init.

#[local] Open Scope Z_scope.

(** ** Calls *)
Definition errno := Z.
Inductive wstatus := WExited (n : Z) | WSignaled (s : Z) | WStopped (s : Z).
(** What [cmd.Run] gives: no error, an [ExitError], another error. *)
Inductive child := Child_ok | Child_status (w : wstatus) | Child_error (e : string).
Record ptrace_regs := { Rip : Z; Rsp : Z; Cs : Z; Ss : Z }.
(** Goroutines started together and waited for; each is a program ([work] of
    [PerfCases]), and only its error comes back. *)
Inductive worker :=
| Churn | FaultStorm
| ParallelFork | ParallelFault | ScalingFault (regions : list Z) | ScalingUnmap | RoundFault (r : Z)
| RaceReader (b : Z) (tail : string) | Adder | Ponger.
Inductive channel := Ping | Pong | Done_.
Inductive gop : Type → Type :=
| Logf (s : string) : gop unit
| Metric (name value unit_ : string) : gop unit
| ReadFile (path : string) : gop (string + string)
| Executable : gop (option string)
| RunSelf (argv : list string) : gop (child * string)
| Uname : gop (option string)
| Getpid : gop Z
| Getppid : gop Z
| Open (path : string) (flags : Z) : gop (errno + Z)
| OpenFile (path : string) (flags : Z) : gop (string + Z)       (* the errors of os.OpenFile; true: it says not exist *)
| Missing (path : string) : gop (bool * string)                 (* os.Open of a file that is not there: IsNotExist, and the error *)
| Read_ (fd n : Z) : gop (errno + string)
| Close (fd : Z) : gop errno
| Mmap (addr len prot flags : Z) : gop (errno + Z)
| Munmap (addr len : Z) : gop errno
| Mprotect (addr len prot : Z) : gop errno
| Load (addr : Z) : gop Z
| Store (addr v : Z) : gop unit
| Buffer (n : Z) : gop Z                                        (* the address of a slice of the Go heap *)
| Syscall (nr a b c : Z) : gop (Z * errno)
| LockOSThread : gop unit
| UnlockOSThread : gop unit
| Getaffinity : gop (errno + list Z)
| Setaffinity (mask : list Z) : gop errno
| Getcpu : gop (errno + Z * Z)
| Now : gop Z
| Sleep (d : Z) : gop unit
| Notify (sig : Z) : gop unit
| StopNotify : gop unit
| Kill (pid sig : Z) : gop errno
| Await (timeout : Z) : gop (option Z)                          (* a signal of the channel, or the timer *)
| ClockGettime : gop (errno + Z)
| StartSelf (argv : list string) (ptrace : bool) : gop (string + Z)
| KillWait (pid : Z) : gop unit                                 (* Process.Kill and Process.Wait *)
| Wait4 (pid : Z) : gop (errno + wstatus)
| PtraceGetRegs (pid : Z) : gop (errno + ptrace_regs)
| PtraceSingleStep (pid : Z) : gop errno
| PtraceAttach (pid : Z) : gop errno
| PtraceDetach (pid : Z) : gop errno
| Cpuid (leaf sub : Z) : gop (list Z)
| Go (w : worker) (ids : list Z) : gop unit
| WaitAll : gop (list (option string))                          (* wg.Wait, and errs in the order of the goroutines *)
| ReadyDone : gop unit                                          (* the barrier of the scaling cases *)
| ReadyWait : gop unit
| CloseStart : gop unit
| AwaitStart : gop unit
| GOMAXPROCS (n : Z) : gop Z
| StopLoad : gop bool                                           (* the atomics the goroutines of a case share *)
| StopStore : gop unit
| AddReads (n : Z) : gop unit
| LoadReads : gop Z
| AddCounter : gop unit
| LoadCounter : gop Z
| Gosched : gop unit
| Send (c : channel) : gop unit
| Recv (c : channel) : gop unit
| Pipe : gop (string + Z * Z)
| StartFiles (argv : list string) (files : list Z) : gop (string + Z)
| Madvise (addr len advice : Z) : gop errno
| Mark (v : Z) (label : string) : gop unit
| Panic (s : string) : gop Empty_set
(* of victims *)
| Stdout (s : string) : gop unit
| Stderr (s : string) : gop unit
| CallAddr (addr : Z) : gop unit
| ReadAddr (addr : Z) : gop Z
| PkeyAlloc (rights : Z) : gop (errno + Z)
| PkeyMprotect (addr len prot key : Z) : gop errno
| Fork : gop (errno + Z)
| LoadOr (addr : Z) : gop (Z * string + Z)                      (* with SetPanicOnFault: the address and text of the panic *)
| Rdpkru : gop Z
| ReadFull (fd : Z) : gop (option string)                       (* one byte *)
| Write (fd : Z) : gop (option string)
| Hang : gop Empty_set
| Setitimer (usec : Z) : gop errno.
Abbreviation guest := (prog gop).
(** The function of a case: its error. *)
Abbreviation body := (prog gop (option string)).

Definition done_ok : body := Ret None.
Definition fail (e : string) : body := Ret (Some e).
Definition panic {A} (s : string) : guest A := b ← call (Panic s); match b : Empty_set with end.
Definition guard (b : bool) (e : string) (k : body) : body := if b then fail e else k.
Definition andthen (p k : body) : body := e ← p; match e with Some e => fail e | None => k end.
Definition deferred {A} (p : guest A) (q : guest unit) : guest A := r ← p; q ;; Ret r.
(** A loop that ends at the first error. *)
Fixpoint each_ok {A} (l : list A) (f : A → body) : body :=
  match l with
  | [] => done_ok
  | x :: l => andthen (f x) (each_ok l f)
  end.
Definition or_else {A B} (r : A + B) (k : B → body) (h : A → string) : body :=
  match r with inl e => fail (h e) | inr x => k x end.

Definition PROT_NONE : Z := 0.
Definition PROT_READ : Z := 1.
Definition PROT_WRITE : Z := 2.
Definition PROT_EXEC : Z := 4.
Definition PROT_RW : Z := Z.lor PROT_READ PROT_WRITE.
Definition MAP_PRIVATE : Z := 0x2.
Definition MAP_FIXED : Z := 0x10.
Definition MAP_ANONYMOUS : Z := 0x20.
Definition mapFixedNoreplace : Z := 0x100000.
Definition MAP_ANON : Z := Z.lor MAP_PRIVATE MAP_ANONYMOUS.
Definition EBADF : errno := 9.
Definition EAGAIN : errno := 11.
Definition EFAULT : errno := 14.
Definition EEXIST : errno := 17.
Definition EPIPE : errno := 32.
Definition ENOSYS : errno := 38.
Definition SIGKILL : Z := 9.
Definition SIGUSR1 : Z := 10.
Definition SIGSEGV : Z := 11.
Definition SIGUSR2 : Z := 12.
Definition SIGTRAP : Z := 5.
Definition SIGALRM : Z := 14.
Definition second : Z := 1000000000.
Definition millisecond : Z := 1000000.
Definition microsecond : Z := 1000.
(** [Duration.Round] of a duration that is not negative. *)
Definition Round (d m : Z) : Z := let r := d mod m in if r + r <? m then d - r else d + (m - r).
Definition show_bool (b : bool) : string := if b then "true" else "false".
Definition byte_of (n : Z) : Z := n mod 256.
(** %#016x *)
Definition hash016 (v : Z) : string := "0x" +:+ hex16 v.
(** [for i := 0; i < size; i += step]. *)
Definition offsets (size step : Z) : list Z := (λ k, k * step) <$> seqZ 0 ((size + step - 1) / step).
Example offsets_ex : offsets 10 4 = [0; 4; 8] ∧ offsets 8 4 = [0; 4].
Proof. vm_compute. done. Qed.
Fixpoint count_go (fuel : nat) (s sub : string) : nat :=
  match fuel with
  | O => O
  | S fuel => match cut s sub with Some (_, r) => S (count_go fuel r sub) | None => O end
  end.
(** [strings.Count] of a text that is not empty. *)
Definition count (s sub : string) : nat := count_go (S (slen s)) s sub.
Example count_ex : count "aXbXc" "X" = 2%nat ∧ count "aaa" "aa" = 1%nat.
Proof. vm_compute. done. Qed.
Definition trim (s : string) : string :=
  let s := trim_space s in if (200 <? slen s)%nat then stake 200 s +:+ "..." else s.

(** ** What the kernel's files tell *)
Definition or_empty (r : string + string) : string := match r with inr t => t | inl _ => "" end.
Definition cmdline_get (key : string) : guest string := r ← call (ReadFile "/proc/cmdline"); Ret (Get (Cmdline (or_empty r)) key "").
Definition isPVMRun : guest bool := v ← cmdline_get "pvmtest.expect"; Ret (seqb v "pvm").
Definition boot_part (p : string) : bool := seqb p "pvh" || seqb p "bzimage".
(** The boot modes the words of a command line name as a part of a tag. *)
Definition tag_parts (text : string) : list string :=
  tok ← fields text;
  match cut_prefix "pvmtest.tag=" tok with
  | Some tag => filter (λ p, boot_part p = true) (split "-" tag)
  | None => []
  end.
Definition cmdlineTag : guest string :=
  r ← call (ReadFile "/proc/cmdline");
  Ret (match r with inl _ => "" | inr t => default "" (hd_error (tag_parts t)) end).
Definition hypervisor : guest string :=
  r ← call (ReadFile "/sys/hypervisor/type");
  match r with
  | inr t => Ret (trim_space t)
  | inl _ =>
      c ← call (ReadFile "/proc/cpuinfo");
      Ret (match c with
           | inr t => if contains t "hypervisor" then "unnamed (hypervisor flag set)" else "none detected"
           | inl _ => "none detected"
           end)
  end.
Definition flags_line (l : string) : option string :=
  match cut l ":" with
  | Some (name, rest) => if seqb (trim_space name) "flags" then Some rest else None
  | None => None
  end.
Definition flags_of (cpuinfo : string) : list string :=
  match hd_error (omap flags_line (split ch_nl cpuinfo)) with Some rest => fields rest | None => [] end.
Definition cpuinfoFlags : guest (string + list string) :=
  r ← call (ReadFile "/proc/cpuinfo");
  Ret (match r with
       | inl e => inl e
       | inr t => match flags_of t with [] => inl "/proc/cpuinfo has no flags line" | l => inr l end
       end).
Definition has_flag (fs : list string) (f : string) : bool := existsb (seqb f) fs.
Definition sysfsLine (name : string) : guest string :=
  r ← call (ReadFile ("/sys/devices/system/cpu/vulnerabilities/" +:+ name));
  Ret (match r with inl e => "unreadable: " +:+ e | inr t => trim_space t end).
Definition startKernelMap : Z := 0xffffffff80000000.

(** The texts of Go's library: of an errno, of a signal, of a failed
    [Sscanf], of a duration and of a float printed with [%g]. *)
Record texts := {
  errText : errno → string;
  sigText : Z → string;
  scanText : string → string;
  durText : Z → string;
  gText : spec_float → string }.

Section Ops.
Context (T : texts).
Definition kernel_text (kallsyms : string + string) : string + Z :=
  match kallsyms with
  | inl e => inl e
  | inr t =>
      match hd_error (omap text_line (split ch_nl t)) with
      | Some a => match scan_x a with Some v => inr v | None => inl (scanText T a) end
      | None => inl "_text not found in /proc/kallsyms"
      end
  end.
Definition KernelTextBase : guest (string + Z) := r ← call (ReadFile "/proc/kallsyms"); Ret (kernel_text r).
(** A system call whose failure ends the case. *)
Definition must (p : guest errno) (pre : string) (k : body) : body :=
  e ← p; if e =? 0 then k else fail (pre +:+ errText T e).

(** ** Victims, from the parent *)
Definition runVictim (mode : string) (extra : list string) : guest (string + Z * string) :=
  self ← call Executable;
  r ← call (RunSelf (default "/init" self :: mode :: extra));
  Ret (match r with
       | (Child_ok, out) => inr (0, out)
       | (Child_error e, _) => inl ("running " +:+ mode +:+ ": " +:+ e)
       | (Child_status (WSignaled s), out) => inr (128 + s, out)
       | (Child_status (WExited n), out) => inr (n, out)
       | (Child_status (WStopped _), out) => inr (-1, out)
       end).
Definition with_victim (mode : string) (extra : list string) (k : Z → string → body) : body :=
  r ← runVictim mode extra;
  match r with inl e => fail e | inr (rc, out) => k rc out end.
Definition signalName (s : Z) : string :=
  if s =? 11 then "SIGSEGV" else if s =? 7 then "SIGBUS" else if s =? 4 then "SIGILL" else
  if s =? 8 then "SIGFPE" else if s =? 5 then "SIGTRAP" else if s =? 31 then "SIGSYS" else "".
(** The signal a line of a crash report names. *)
Definition report_signal (line : string) : option Z :=
  match cut line "[signal SIG" with
  | None => None
  | Some (_, rest) =>
      let name := match cut ("SIG" +:+ rest) ":" with Some (n, _) => n | None => "SIG" +:+ rest end in
      hd_error (filter (λ s, seqb (asciiLower (trim_space (sigText T s))) (asciiLower name) || seqb (signalName s) name = true) (seqZ 1 31))
  end.
Definition deathSignal (rc : Z) (out : string) : Z :=
  if 128 <? rc then rc - 128 else default 0 (hd_error (omap report_signal (split ch_nl out))).
Definition expectDeath (whatWentWrong mode : string) (args : list string) : body :=
  with_victim mode args (λ rc out,
  guard (negb (contains out "victim: reached"))
    (mode +:+ " never got as far as the thing under test: rc=" +:+ itoa rc +:+ " out=" +:+ quote (trim out)) (
  guard (rc =? 0) (mode +:+ ": " +:+ whatWentWrong) (
  let sig := deathSignal rc out in
  guard (negb (sig =? SIGSEGV)) (mode +:+ " died of " +:+ sigText T sig +:+ ", want SIGSEGV: " +:+ trim out) (
  call (Logf ("SIGSEGV, as required (rc=" +:+ itoa rc +:+ ")")) ;; done_ok)))).

(** ** The walk over the CPUs *)
Definition isSet (s : list Z) (cpu : Z) : bool := Z.testbit (default 0 (s !! Z.to_nat (cpu / 64))) (cpu mod 64).
Definition one_cpu (cpu : Z) : list Z := <[Z.to_nat (cpu / 64) := 2 ^ (cpu mod 64)]> (replicate 16 0).
Definition cpus_of (mask : list Z) : list Z := filter (λ c, isSet mask c = true) (seqZ 0 1024).
Definition on_cpu {S} (fn : Z → S → guest (option string * S)) (cpu : Z) (st : S) : guest (option string * S) :=
  e ← call (Setaffinity (one_cpu cpu));
  if e =? 0 then fn cpu st else Ret (Some ("pinning to cpu " +:+ itoa cpu +:+ ": " +:+ errText T e), st).
Fixpoint cpu_loop {S} (fn : Z → S → guest (option string * S)) (cpus : list Z) (st : S) : guest (option string * S) :=
  match cpus with
  | [] => Ret (None, st)
  | cpu :: cpus =>
      r ← on_cpu fn cpu st;
      match r with
      | (Some e, st) => Ret (Some e, st)
      | (None, st) => cpu_loop fn cpus st
      end
  end.
(** The state is what the closure changes. *)
Definition onEachCPU {S} (st : S) (fn : Z → S → guest (option string * S)) : guest (option string * S) :=
  call LockOSThread ;;
  deferred (
    r ← call Getaffinity;
    match r with
    | inl e => Ret (Some ("sched_getaffinity: " +:+ errText T e), st)
    | inr orig => deferred (cpu_loop fn (cpus_of orig) st) (call (Setaffinity orig) ;; Ret tt)
    end) (call UnlockOSThread).
End Ops.
