(* ===== verification/GuestCases.v ===== *)
(** * initrd/internal/tests: the guest's cases

    The function of each case as a program over the calls of [CaseOps].  Those
    that measure and those whose goroutines share memory are in [PerfCases], the
    registry in [Registry]. *)
From Stdlib Require Import Ascii.
From S2P Require Import Prelude GoStrings Regexp Harness Prog Flags Init CaseOps.

#[local] Open Scope Z_scope.

Section Cases.
Context (T : texts).
(** [os.Getpagesize] and [runtime.NumCPU], which do not change while the
    program runs. *)
Context (page ncpu : Z).
Definition log (s : string) : guest unit := call (Logf s).

(** ** boot.go, entrypath.go *)
Definition boot_alive : body :=
  u ← call Uname;
  match u with
  | Some e => fail e
  | None =>
      pid ← call Getpid; ppid ← call Getppid;
      log ("pid=" +:+ itoa pid +:+ " ppid=" +:+ itoa ppid +:+ " cpus=" +:+ itoa ncpu) ;; done_ok
  end.
Definition boot_procfs : body :=
  each_ok ["/proc/cmdline"; "/proc/cpuinfo"; "/proc/self/maps"; "/proc/meminfo"] (λ p,
    r ← call (ReadFile p);
    or_else r (λ t, guard (slen t =? 0)%nat (p +:+ " is empty") done_ok) (λ e, "read " +:+ p +:+ ": " +:+ e)).
Definition boot_smp : body :=
  r ← call (ReadFile "/sys/devices/system/cpu/online");
  or_else r (λ online,
    log ("cpu online: " +:+ trim_space online) ;;
    guard (ncpu <? 1) "no usable CPU" (
    r ← call (ReadFile "/proc/cpuinfo");
    or_else r (λ t,
      let n := Z.of_nat (count t ("processor" +:+ tab +:+ ":")) in
      log ("cpuinfo reports " +:+ itoa n +:+ " processors, runtime sees " +:+ itoa ncpu) ;;
      guard (negb (n =? ncpu)) ("cpuinfo says " +:+ itoa n +:+ " processors but the scheduler sees " +:+ itoa ncpu) done_ok)
      id)) id.
Definition O_WRONLY : Z := 1.
Definition O_NONBLOCK : Z := 0x800.
(** The text read of /dev/kmsg, or the errno that is not its end. *)
Fixpoint kmsg_loop (n : nat) (fd : Z) (text : string) : guest (errno + string) :=
  match n with
  | O => Ret (inr text)
  | S n =>
      r ← call (Read_ fd 8192);
      match r with
      | inl e => if e =? EAGAIN then Ret (inr text) else if e =? EPIPE then kmsg_loop n fd text else Ret (inl e)
      | inr s => if (slen s =? 0)%nat then Ret (inr text) else kmsg_loop n fd (text +:+ s)
      end
  end.
Definition kmsg_reads : nat := N.to_nat 100000.
Definition bad_words : list string :=
  ["BUG:"; "Oops"; "WARNING:"; "general protection fault"; "unable to handle"; "Call Trace:"; "stack segment"].
Definition boot_no_oops : body :=
  r ← call (Open "/dev/kmsg" O_NONBLOCK);
  match r with
  | inl e => log ("cannot open /dev/kmsg: " +:+ errText T e) ;; done_ok
  | inr fd =>
      deferred (
        r ← kmsg_loop kmsg_reads fd "";
        or_else r (λ text,
          let found := filter (λ bad, contains text bad = true) bad_words in
          log ("scanned " +:+ itoa (Z.of_nat (slen text)) +:+ " bytes of kernel log") ;;
          guard (0 <? length found)%nat ("the kernel log contains " +:+ join ", " found) done_ok)
          (λ e, "reading /dev/kmsg: " +:+ errText T e))
        (call (Close fd) ;; Ret tt)
  end.
Definition boot_exec : body :=
  with_victim "victim-exit" [] (λ code out,
  guard (negb (code =? 42)) ("child exited " +:+ itoa code +:+ ", want 42") (
  hypervisor ;; done_ok)).
Definition byte_at (s : string) (i : nat) : Z := default 0 (Z.of_N ∘ code <$> bytes s !! i).
Definition bpVersion : nat := N.to_nat 0x206.
Definition bpTypeOfLoader : nat := N.to_nat 0x210.
Definition bpLoadflags : nat := N.to_nat 0x211.
Definition kaslrFlag : Z := 2.
Definition pvhBootProtoVersion : Z := 0x020c.
Definition hex4 (v : Z) : string := "0x" +:+ pad_left "0" 4 (fmt_x v).
Definition hex2 (v : Z) : string := "0x" +:+ pad_left "0" 2 (fmt_x v).
Definition boot_entry_path : body :=
  r ← call (ReadFile "/sys/kernel/boot_params/data");
  or_else r (λ b,
    guard (slen b <? bpLoadflags + 1)%nat ("boot_params is " +:+ itoa (Z.of_nat (slen b)) +:+ " bytes, too short") (
    let version := byte_at b bpVersion + 256 * byte_at b (bpVersion + 1) in
    let loader := byte_at b bpTypeOfLoader in
    let flags := byte_at b bpLoadflags in
    let path := if version =? pvhBootProtoVersion then "PVH entry (pvh_start_xen)" else "bzImage or direct" in
    log ("boot protocol " +:+ hex4 version +:+ ", type_of_loader " +:+ hex2 loader +:+ ", loadflags " +:+ hex2 flags) ;;
    log ("entry path: " +:+ path) ;;
    log ("KASLR flag: " +:+ show_bool (negb (Z.land flags kaslrFlag =? 0))) ;;
    want ← cmdlineTag;
    guard (seqb want "pvh" && negb (version =? pvhBootProtoVersion))
      ("booted for the PVH path but the boot protocol is " +:+ hex4 version +:+ ", not " +:+ hex4 pvhBootProtoVersion +:+
       ": qemu did not use the ELF note") done_ok))
    (λ e, "read boot_params (CONFIG_DEBUG_BOOT_PARAMS?): " +:+ e).

(** ** pvm.go *)
Definition pvm_kernel_map : body :=
  r ← KernelTextBase T;
  or_else r (λ base,
    guard (base =? 0) "kallsyms gave 0 for _text: kptr_restrict is set, or this is not running as root" (
    log ("_text = 0x" +:+ hex16 base) ;;
    log (if startKernelMap <=? base then "kernel is in the usual top-2GB mapping: not relocated"
         else "kernel was relocated out of the top 2GB: PVM early relocation ran") ;;
    done_ok)) id.
Definition pvm_relocated : body :=
  pvm ← isPVMRun;
  if negb pvm then log "not declared a PVM run (pvmtest.expect != pvm); nothing to check" ;; done_ok else
  r ← KernelTextBase T;
  or_else r (λ base,
    guard (startKernelMap <=? base)
      ("_text is at 0x" +:+ hex16 base +:+ ", still inside the top 2GB the hypervisor withholds: the early relocation did not run")
      (log ("_text = 0x" +:+ hex16 base) ;; done_ok)) id.
(** The range a line begins with; a word that does not scan leaves 0. *)
Definition range_of (line : string) : option (Z * Z) :=
  match cut (default "" (hd_error (fields line))) "-" with
  | Some (lo, hi) => Some (default 0 (scan_x lo), default 0 (scan_x hi))
  | None => None
  end.
(** The lines of /proc/iomem; the state says which ranges were seen. *)
Fixpoint iomem_loop (lines : list string) (code data : bool) : guest (string + bool * bool) :=
  match lines with
  | [] => Ret (inr (code, data))
  | line :: lines =>
      if negb (contains line "Kernel code") && negb (contains line "Kernel data") then iomem_loop lines code data else
      match range_of line with
      | None => Ret (inl ("unparsable iomem line: " +:+ quote line))
      | Some (a, z) =>
          if z =? 0 then
            Ret (inl ("iomem range is zeroed -- not running as root, or kptr_restrict is set: " +:+ quote (trim_space line)))
          else if z <=? a then Ret (inl ("empty or inverted kernel range: " +:+ quote line)) else
          log ("iomem: " +:+ trim_space line) ;;
          if contains line "Kernel code" then iomem_loop lines true data else iomem_loop lines code true
      end
  end.
Definition pvm_phys_map : body :=
  r ← call (ReadFile "/proc/iomem");
  or_else r (λ t,
    s ← iomem_loop (split ch_nl t) false false;
    or_else s (λ s,
      guard (negb s.1 || negb s.2) "/proc/iomem has no Kernel code/data ranges: __pa() of the kernel image is not resolving" done_ok)
      id) id.
Definition pvm_paravirt : body :=
  r ← call (ReadFile "/proc/cpuinfo");
  or_else r (λ t,
    log ("hypervisor flag: " +:+ show_bool (contains t "hypervisor")) ;;
    h ← hypervisor;
    log ("reported: " +:+ h) ;; done_ok) id.

(** ** mm.go *)
Definition map_rw (size : Z) (pre : string) (k : Z → body) : body :=
  r ← call (Mmap 0 size PROT_RW MAP_ANON);
  or_else r k (λ e, pre +:+ errText T e).
Definition unmap (b size : Z) : body := must T (call (Munmap b size)) "" done_ok.
Definition hash_off (i : Z) : string := "+" +:+ fmt_hash_x i.
(** A store to each of the addresses, and their check. *)
Definition touch (b : Z) (offs : list Z) (v : Z → Z) : guest unit := each offs (λ i, call (Store (b + i) (v i))).
Definition expect_byte (a v : Z) (e : Z → string) : body := x ← call (Load a); guard (negb (x =? v)) (e x) done_ok.
Definition verify (b : Z) (offs : list Z) (v : Z → Z) (e : Z → Z → string) : body :=
  each_ok offs (λ i, expect_byte (b + i) (v i) (e i)).
Definition mm_anon_mmap : body :=
  let size := Z.shiftl 64 20 in
  map_rw size ("mmap " +:+ itoa size +:+ " bytes: ") (λ b,
  touch b (offsets size page) byte_of ;;
  andthen (verify b (offsets size page) byte_of (λ i x,
             "page at " +:+ hash_off i +:+ " read back " +:+ fmt_hash_x x +:+ ", wrote " +:+ fmt_hash_x (byte_of i)))
    (unmap b size)).
Definition freed (b size : Z) : guest unit := call (Munmap b size) ;; Ret tt.
Definition mm_mprotect : body :=
  map_rw (4 * page) "" (λ b, deferred (
    call (Store b 1) ;;
    must T (call (Mprotect b page PROT_READ)) "mprotect ro: " (
    andthen (expect_byte b 1 (λ _, "read-only page lost its contents")) (
    must T (call (Mprotect b page PROT_RW)) "mprotect rw: " (
    call (Store b 2) ;;
    expect_byte b 2 (λ _, "page did not become writable again")))))
    (freed b (4 * page))).
Definition mm_protection_faults : body :=
  with_victim "victim-segv" [] (λ code out,
  guard (code =? 0) "writing to a PROT_NONE page did not fault -- the page protection was not enforced" (
  log ("child died as expected (exit " +:+ itoa code +:+ ")") ;;
  (if negb (contains out "SIGSEGV") && negb (contains out "signal")
   then log ("note: child output did not mention SIGSEGV: " +:+ quote (trim out)) else Ret tt) ;;
  done_ok)).
Definition mm_fork_cow : body :=
  map_rw page "" (λ b, deferred (
    touch b (seqZ 0 page) (λ _, 0xa5) ;;
    with_victim "victim-exit" [] (λ _ _,
    verify b (seqZ 0 page) (λ _, 0xa5) (λ i x, "byte " +:+ itoa i +:+ " changed under us: " +:+ fmt_hash_x x)))
    (freed b page)).
(** Lines of /proc/self/maps: how many, and whether the vsyscall page was one. *)
Fixpoint maps_loop (lines : list string) (n : Z) (vsyscall : bool) : guest (string + Z * bool) :=
  match lines with
  | [] => Ret (inr (n, vsyscall))
  | line :: lines =>
      if seqb line "" then maps_loop lines n vsyscall else
      match fields line with
      | [] => panic "runtime error: index out of range [0] with length 0"
      | _ =>
          match range_of line with
          | None => Ret (inl ("unparsable maps line: " +:+ quote line))
          | Some (a, z) =>
              if z <=? a then Ret (inl ("empty or inverted mapping: " +:+ quote line)) else
              if (2 ^ 47 <? z) && negb (contains line "[vsyscall]") then
                Ret (inl ("user mapping above the canonical split: " +:+ quote line)) else
              maps_loop lines (n + 1) (vsyscall || contains line "[vsyscall]")
          end
      end
  end.
Definition mm_maps_sane : body :=
  r ← call (ReadFile "/proc/self/maps");
  or_else r (λ t,
    s ← maps_loop (split ch_nl t) 0 false;
    or_else s (λ s, log (itoa s.1 +:+ " mappings, vsyscall page present: " +:+ show_bool s.2) ;; done_ok) id) id.
Definition churn_round (i : Z) : body :=
  let it := "iteration " +:+ itoa i +:+ ": " in
  map_rw (32 * page) (it +:+ "mmap: ") (λ b,
  touch b (offsets (32 * page) page) (λ _, byte_of i) ;;
  andthen (verify b (offsets (32 * page) page) (λ _, byte_of i) (λ j _, it +:+ "stale page at " +:+ hash_off j))
    (must T (call (Munmap b (32 * page))) (it +:+ "munmap: ") done_ok)).
Definition mm_churn : body := each_ok (seqZ 0 4000) churn_round.

(** ** directpf.go *)
Definition sigCodeRe : re := must_compile "code=(0x[0-9a-f]+|[0-9]+)".
Definition sigCode (out : string) : Z :=
  match find sigCodeRe out with
  | Some m => default (-1) (parse_uint0 63 (group 1 m))
  | None => -1
  end.
Definition want_segv (rc : Z) (out : string) (code : Z) (what : string) : body :=
  let sig := deathSignal T rc out in
  guard (negb (sig =? SIGSEGV)) ("died of " +:+ sigText T sig +:+ " (rc=" +:+ itoa rc +:+ "), want SIGSEGV: " +:+ trim out) (
  guard (negb (sigCode out =? code)) ("si_code " +:+ itoa (sigCode out) +:+ ", want " +:+ what +:+ ": " +:+ trim out) done_ok).
Definition fork_present_and_cow : body :=
  with_victim "victim-forktouch" [] (λ rc out,
  guard (negb (rc =? 0)) ("rc=" +:+ itoa rc +:+ ": " +:+ trim out) (log (trim out) ;; done_ok)).
Definition readonly_write : body :=
  with_victim "victim-rowrite" [] (λ rc out, want_segv rc out 2 "SEGV_ACCERR (2)").
(** A victim that found no protection keys says so with status 77. *)
Definition with_keys (mode : string) (k : Z → string → body) : body :=
  with_victim "victim-pkey" [mode] (λ rc out,
  if rc =? 77 then log "skipped: the guest kernel has no protection keys" ;; done_ok else k rc out).
Definition pkey_denied_code : body := with_keys "deny" (λ rc out, want_segv rc out 4 "SEGV_PKUERR (4)").
Definition repeat_runs : Z := 200.
Definition repeat_end (failed : Z) : body :=
  call (Metric "failed" (itoa failed) "count") ;;
  guard (0 <? failed) (itoa failed +:+ " of " +:+ itoa repeat_runs +:+ " allowed reads failed") done_ok.
Fixpoint repeat_loop (rs : list Z) (failed : Z) : body :=
  match rs with
  | [] => repeat_end failed
  | i :: rs =>
      with_keys "allow" (λ rc out,
      if rc =? 0 then repeat_loop rs failed else
      (if failed + 1 <=? 5
       then log ("run " +:+ itoa i +:+ ": rc=" +:+ itoa rc +:+ " " +:+ List.last (split ch_nl (trim_space out)) "") else Ret tt) ;;
      repeat_loop rs (failed + 1))
  end.
Definition pkey_allowed_repeat : body := repeat_loop (seqZ 0 repeat_runs) 0.

(** ** syscall.go *)
Definition syscall_roundtrip : body :=
  want ← call Getpid;
  each_ok (seqZ 0 200000) (λ i,
    got ← call Getpid;
    guard (negb (got =? want))
      ("getpid returned " +:+ itoa got +:+ ", want " +:+ itoa want +:+ ", on iteration " +:+ itoa i) done_ok).
Fixpoint getcpu_loop (n : nat) (seen : gset Z) : guest (string + gset Z) :=
  match n with
  | O => Ret (inr seen)
  | S n =>
      r ← call Getcpu;
      match r with
      | inl e => Ret (inl ("getcpu: " +:+ errText T e))
      | inr (cpu, node) =>
          if (cpu <? 0) || (4096 <? cpu) then Ret (inl ("getcpu returned cpu=" +:+ itoa cpu +:+ " node=" +:+ itoa node))
          else getcpu_loop n ({[cpu]} ∪ seen)
      end
  end.
Definition syscall_getcpu : body :=
  r ← getcpu_loop (N.to_nat 10000) ∅;
  or_else r (λ seen, log ("observed " +:+ itoa (Z.of_nat (size seen)) +:+ " distinct CPUs") ;; done_ok) id.
Definition on_this_cpu (cpu : Z) : body :=
  each_ok (seqZ 0 1000) (λ _,
    r ← call Getcpu;
    or_else r (λ got,
      guard (negb (got.1 =? cpu)) ("pinned to cpu " +:+ itoa cpu +:+ " but getcpu says " +:+ itoa got.1) done_ok) (errText T)).
Definition syscall_getcpu_affinity : body :=
  r ← onEachCPU T tt (λ cpu u, e ← on_this_cpu cpu; Ret (e, u)); Ret r.1.
Definition syscall_errno : body :=
  m ← call (Missing "/definitely/not/here");
  guard (negb m.1) ("open of a missing path gave " +:+ m.2 +:+ ", want ENOENT") (
  e ← call (Close (-1));
  guard (negb (e =? EBADF)) ("close(-1) gave " +:+ (if e =? 0 then "<nil>" else errText T e) +:+ ", want EBADF") done_ok).
Definition syscall_vdso_agrees : body :=
  each_ok (seqZ 0 1000) (λ _,
    vdso ← call Now;
    r ← call ClockGettime;
    or_else r (λ sys,
      let d := Z.abs (sys - vdso) in
      guard (second <? d) ("vDSO and syscall clocks differ by " +:+ durText T d) done_ok) (λ e, "clock_gettime: " +:+ errText T e)).

(** ** signal.go *)
Definition with_channel (sig : Z) (k : body) : body :=
  call (Notify sig) ;; deferred k (call StopNotify ;; Ret tt).
Definition signal_delivery : body :=
  with_channel SIGUSR1 (
    pid ← call Getpid;
    must T (call (Kill pid SIGUSR1)) "" (
    s ← call (Await (5 * second));
    match s with
    | Some s => guard (negb (s =? SIGUSR1)) ("got " +:+ sigText T s +:+ ", want SIGUSR1") done_ok
    | None => fail "SIGUSR1 was never delivered"
    end)).
Definition storm_size : Z := 20000.
Definition signal_storm : body :=
  with_channel SIGUSR2 (
    start ← call Now;
    andthen (each_ok (seqZ 0 storm_size) (λ i,
      pid ← call Getpid;
      must T (call (Kill pid SIGUSR2)) ("kill on iteration " +:+ itoa i +:+ ": ") (
      s ← call (Await (5 * second));
      match s with
      | Some _ => done_ok
      | None => fail ("signal " +:+ itoa i +:+ " of " +:+ itoa storm_size +:+ " never arrived")
      end))) (
    now ← call Now;
    let d := now - start in
    log (itoa storm_size +:+ " signal round trips in " +:+ durText T (Round d millisecond) +:+ " (" +:+
         durText T (Z.quot d storm_size) +:+ " each)") ;;
    done_ok)).
Definition signal_timer : body :=
  with_channel SIGALRM (
    start ← call Now;
    must T (call (Setitimer 100000)) "setitimer: " (
    s ← call (Await (10 * second));
    match s with
    | Some _ => now ← call Now; log ("SIGALRM after " +:+ durText T (Round (now - start) millisecond)) ;; done_ok
    | None => fail "the interval timer never fired: interrupt injection is stuck"
    end)).

(** ** sched.go *)
Definition sched_affinity : body :=
  r ← onEachCPU T 0 (λ _ n, Ret (None, n + 1));
  match r with
  | (Some e, _) => fail e
  | (None, n) => log ("ran on " +:+ itoa n +:+ " CPUs") ;; guard (n =? 0) "could not pin to any CPU" done_ok
  end.

(** ** time.go *)
Fixpoint monotonic_loop (n : nat) (i last worst : Z) : body :=
  match n with
  | O => log ("largest gap between consecutive reads: " +:+ durText T worst) ;; done_ok
  | S n =>
      now ← call Now;
      let d := now - last in
      guard (d <? 0) ("the monotonic clock went backwards by " +:+ durText T (- d) +:+ " on iteration " +:+ itoa i)
        (monotonic_loop n (i + 1) now (Z.max worst d))
  end.
Definition time_monotonic : body := last ← call Now; monotonic_loop (N.to_nat 2000000) 0 last 0.
Definition time_sleep : body :=
  each_ok [millisecond; 10 * millisecond; 100 * millisecond] (λ want,
    start ← call Now;
    call (Sleep want) ;;
    now ← call Now;
    let got := now - start in
    guard (got <? want) ("sleep(" +:+ durText T want +:+ ") returned after only " +:+ durText T got) (
    guard (want * 20 + 50 * millisecond <? got) ("sleep(" +:+ durText T want +:+ ") took " +:+ durText T got) (
    log ("sleep(" +:+ durText T want +:+ ") took " +:+ durText T (Round got microsecond)) ;; done_ok))).
Definition cross_cpu_step (cpu : Z) (prev : option Z) : guest (option string * option Z) :=
  now ← call Now;
  match prev with
  | Some p =>
      if now <? p then
        Ret (Some ("time on cpu " +:+ itoa cpu +:+ " is " +:+ durText T (p - now) +:+ " behind the previous cpu"), prev)
      else Ret (None, Some now)
  | None => Ret (None, Some now)
  end.
Definition time_cross_cpu : body := r ← onEachCPU T None cross_cpu_step; Ret r.1.

(** ** entry.go *)
(** The number a wait status prints as, without the core-dump flag. *)
Definition show_ws (w : wstatus) : string :=
  itoa (match w with WExited n => Z.shiftl n 8 | WSignaled s => s | WStopped s => Z.shiftl s 8 + 0x7f end).
Definition locked (k : body) : body := call LockOSThread ;; deferred k (call UnlockOSThread).
Definition ptrace_steps : Z := 2000.
Fixpoint step_loop (n : nat) (pid i moved : Z) (first last : ptrace_regs) : body :=
  match n with
  | O =>
      log (itoa ptrace_steps +:+ " single steps, rip changed on " +:+ itoa moved +:+ " of them") ;;
      log ("rip: start " +:+ fmt_hash_x (Rip first) +:+ ", end " +:+ fmt_hash_x (Rip last)) ;;
      guard (moved =? 0)
        ("rip never moved in " +:+ itoa ptrace_steps +:+ " single steps: the tracee is not making progress") done_ok
  | S n =>
      must T (call (PtraceSingleStep pid)) ("PTRACE_SINGLESTEP at step " +:+ itoa i +:+ ": ") (
      w ← call (Wait4 pid);
      or_else w (λ ws,
        match ws with
        | WExited _ => fail ("the tracee exited after " +:+ itoa i +:+ " steps")
        | _ =>
            guard (match ws with WStopped s => negb (s =? SIGTRAP) | _ => true end)
              ("step " +:+ itoa i +:+ " stopped with " +:+ show_ws ws +:+ ", want SIGTRAP") (
            r ← call (PtraceGetRegs pid);
            or_else r (λ regs,
              step_loop n pid (i + 1) (if Rip regs =? Rip last then moved else moved + 1) first regs)
              (λ e, "PTRACE_GETREGS at step " +:+ itoa i +:+ ": " +:+ errText T e))
        end) (λ e, "wait at step " +:+ itoa i +:+ ": " +:+ errText T e))
  end.
Definition start_loop (ptrace : bool) (pre : string) (k : Z → body) : body :=
  self ← call Executable;
  r ← call (StartSelf [default "/init" self; "victim-loop"] ptrace);
  or_else r k (λ e, pre +:+ e).
Definition is_stopped (w : wstatus) : bool := match w with WStopped _ => true | _ => false end.
Definition entry_singlestep : body :=
  locked (start_loop true "starting the tracee: " (λ pid, deferred (
    w ← call (Wait4 pid);
    or_else w (λ ws,
      guard (negb (is_stopped ws)) ("the tracee did not stop at exec: " +:+ show_ws ws) (
      r ← call (PtraceGetRegs pid);
      or_else r (λ first, step_loop (Z.to_nat ptrace_steps) pid 0 0 first first) (λ e, "PTRACE_GETREGS: " +:+ errText T e)))
      (λ e, "waiting for the initial stop: " +:+ errText T e))
    (call (Kill pid SIGKILL) ;; call (Wait4 pid) ;; Ret tt))).
Definition entry_attach : body :=
  locked (start_loop false "" (λ pid, deferred (
    must T (call (PtraceAttach pid)) "PTRACE_ATTACH: " (
    w ← call (Wait4 pid);
    or_else w (λ _,
      r ← call (PtraceGetRegs pid);
      or_else r (λ regs,
        log ("tracee rip=" +:+ fmt_hash_x (Rip regs) +:+ " rsp=" +:+ fmt_hash_x (Rsp regs) +:+ " cs=" +:+ fmt_hash_x (Cs regs) +:+
             " ss=" +:+ fmt_hash_x (Ss regs)) ;;
        guard (negb (Z.land (Cs regs) 3 =? 3))
          ("tracee CS is " +:+ fmt_hash_x (Cs regs) +:+ ": RPL " +:+ itoa (Z.land (Cs regs) 3) +:+ ", want 3") (
        guard ((Rip regs =? 0) || (Rsp regs =? 0))
          ("tracee registers look empty: rip=" +:+ fmt_hash_x (Rip regs) +:+ " rsp=" +:+ fmt_hash_x (Rsp regs)) (
        must T (call (PtraceDetach pid)) "" done_ok)))
        (λ e, "PTRACE_GETREGS: " +:+ errText T e))
      (λ e, "wait after attach: " +:+ errText T e)))
    (call (KillWait pid)))).

(** ** stress.go *)
Definition churn_child : body :=
  with_victim "victim-exit" [] (λ code _, guard (negb (code =? 42)) ("child exited " +:+ itoa code +:+ ", want 42") done_ok).
Definition storm_bytes : Z := Z.shiftl 32 20.
Definition storm_round (w round : Z) : body :=
  let at_ := "worker " +:+ itoa w +:+ " round " +:+ itoa round +:+ ": " in
  let mark := byte_of (w * 16 + round) in
  map_rw storm_bytes (at_ +:+ "mmap: ") (λ b,
  touch b (offsets storm_bytes page) (λ _, mark) ;;
  e ← verify b (offsets storm_bytes page) (λ _, mark) (λ i x,
        at_ +:+ "page " +:+ hash_off i +:+ " holds " +:+ fmt_hash_x x +:+ ", wrote " +:+ fmt_hash_x mark);
  match e with
  | Some e => call (Munmap b storm_bytes) ;; fail e
  | None => must T (call (Munmap b storm_bytes)) (at_ +:+ "munmap: ") done_ok
  end).
Definition storm_worker (w : Z) : body := each_ok (seqZ 0 8) (storm_round w).
(** [for _, err := range errs] *)
Definition first_error (l : list (option string)) : option string := hd_error (omap id l).
Definition churn_rounds : Z := 300.
Definition churn_parallel : Z := 8.
Definition process_churn : body :=
  start ← call Now;
  andthen (each_ok (offsets churn_rounds churn_parallel) (λ i,
    call (Go Churn (seqZ 0 churn_parallel)) ;;
    errs ← call WaitAll;
    match first_error errs with Some e => fail ("after " +:+ itoa i +:+ " rounds: " +:+ e) | None => done_ok end)) (
  now ← call Now;
  let d := now - start in
  log (itoa churn_rounds +:+ " fork+exec+exit in " +:+ durText T (Round d millisecond) +:+ " (" +:+
       durText T (Round (Z.quot d churn_rounds) microsecond) +:+ " each)") ;;
  done_ok).
Definition fault_storm : body := call (Go FaultStorm (seqZ 0 4)) ;; errs ← call WaitAll; Ret (first_error errs).

(** ** security.go *)
Definition firstNoncanonical : Z := 0x0000800000000000.
Definition hostText : Z := 0xffffffff81000000.
Definition userKernelBoundary : guest (string + Z) :=
  r ← cpuinfoFlags;
  Ret (match r with inl e => inl e | inr fs => inr (if has_flag fs "pvm_guest" then 2 ^ 46 else 2 ^ 47) end).
Definition topUserPage (boundary : Z) : Z := boundary - 2 * 4096.
Definition priv_insn (name : string) : body := expectDeath T "the instruction executed at CPL3" "victim-privinsn" [name].
Definition exec_noexec_page : body := expectDeath T "a RET on a PROT_READ|PROT_WRITE page returned" "victim-execpage" ["rw"].
Definition exec_exec_page : body :=
  with_victim "victim-execpage" ["rwx"] (λ rc out,
  guard (negb (rc =? 0))
    ("a RET on a PROT_EXEC page did not return: rc=" +:+ itoa rc +:+ " out=" +:+ quote (trim out) +:+
     " -- every other case in this suite is passing for the wrong reason") done_ok).
Definition pkey_denied : body :=
  with_keys "deny" (λ rc out,
  guard (rc =? 0) ("a read through a PKEY_DISABLE_ACCESS key was allowed: " +:+ trim out) (
  let sig := deathSignal T rc out in
  guard (negb (sig =? SIGSEGV)) ("died of " +:+ sigText T sig +:+ ", want SIGSEGV: " +:+ trim out) done_ok)).
Definition pkey_allowed : body :=
  with_keys "allow" (λ rc out,
  guard (negb (rc =? 0))
    ("a read through an unrestricted protection key did not succeed: rc=" +:+ itoa rc +:+ " out=" +:+ quote (trim out) +:+
     " -- security/pkey-denied is then passing for the wrong reason") done_ok).
Definition read_denied (whatWentWrong : string) (addr : Z) : body :=
  expectDeath T whatWentWrong "victim-readaddr" [fmt_hash_x addr].
Definition kernel_text_denied : body :=
  r ← KernelTextBase T;
  or_else r (λ base,
    guard (base =? 0) "kallsyms gave 0 for _text: kptr_restrict is set" (
    log ("reading _text = 0x" +:+ hex16 base +:+ " from an unprivileged process") ;;
    read_denied ("guest kernel text at 0x" +:+ hex16 base +:+ " is readable from user mode") base)) id.
Definition host_window : body :=
  r ← KernelTextBase T;
  (match r with
   | inr base =>
       if startKernelMap <=? base then
         log ("this kernel is itself at 0x" +:+ hex16 base +:+ " -- not a relocated PVM guest, so this is the same check as kernel-text")
       else Ret tt
   | inl _ => Ret tt
   end) ;;
  read_denied "the host's kernel mapping is readable from the guest" hostText.
Definition noncanonical_read : body := read_denied "a non-canonical read returned" firstNoncanonical.
Definition fixed_flags : Z := Z.lor MAP_ANON (Z.lor MAP_FIXED mapFixedNoreplace).
Definition row (name : string) (addr : Z) (what : string) : string :=
  pad_right_to 28 name +:+ " " +:+ hash016 addr +:+ " -> " +:+ what.
Definition must_refuse (t : string * Z) : body :=
  r ← call (Mmap t.2 page PROT_RW fixed_flags);
  match r with
  | inr p =>
      call (Munmap p page) ;;
      fail ("mmap(MAP_FIXED) at " +:+ t.1 +:+ " (" +:+ fmt_hash_x t.2 +:+ ") succeeded, returning " +:+ fmt_hash_x p)
  | inl e => log (row t.1 t.2 (errText T e)) ;; done_ok
  end.
Definition mmap_boundary : body :=
  r ← userKernelBoundary;
  or_else r (λ boundary,
    let top := topUserPage boundary in
    r ← call (Mmap top page PROT_RW fixed_flags);
    or_else r (λ p,
      call (Munmap p page) ;;
      log (row "top user page" top "ok (control)") ;;
      each_ok [("first page above user space", boundary); ("non-canonical", firstNoncanonical); ("kernel half", hostText);
               ("one page into the hole", firstNoncanonical + page)] must_refuse)
      (λ e, "mmap at the top user page (" +:+ fmt_hash_x top +:+ ") failed with " +:+ errText T e +:+
            ": the user/kernel boundary is not where it should be")) id.
Definition SYS_READ : Z := 0.
Definition SYS_WRITE : Z := 1.
Definition SYS_UNAME : Z := 63.
Definition errno_of (nr a b c : Z) : guest errno := r ← call (Syscall nr a b c); Ret r.2.
Definition with_file (path : string) (flags : Z) (k : Z → body) : body :=
  r ← call (OpenFile path flags);
  or_else r (λ fd, deferred (k fd) (call (Close fd) ;; Ret tt)) id.
(** Both directions are refused at an address. *)
Definition must_fault (zero null : Z) (t : string * Z) : body :=
  e ← errno_of SYS_READ zero t.2 8;
  guard (negb (e =? EFAULT))
    ("read(/dev/zero) into " +:+ t.1 +:+ " (" +:+ fmt_hash_x t.2 +:+ ") gave " +:+ errText T e +:+
     ", want EFAULT: the kernel accepted a user pointer above TASK_SIZE_MAX") (
  e ← errno_of SYS_WRITE null t.2 8;
  guard (negb (e =? EFAULT))
    ("write(/dev/null) from " +:+ t.1 +:+ " (" +:+ fmt_hash_x t.2 +:+ ") gave " +:+ errText T e +:+
     ", want EFAULT: the kernel read its own memory for an unprivileged process") (
  log (row t.1 t.2 "EFAULT both ways") ;; done_ok)).
Definition uaccess_boundary : body :=
  with_file "/dev/zero" 0 (λ zero,
  with_file "/dev/null" O_WRONLY (λ null,
    r ← userKernelBoundary;
    or_else r (λ boundary,
      ok ← call (Buffer 8);
      must T (errno_of SYS_READ zero ok 8) "read(/dev/zero) into a valid buffer gave " (
      must T (errno_of SYS_WRITE null ok 8) "write(/dev/null) from a valid buffer gave " (
      log (row "a buffer we own" ok "ok (control)") ;;
      base ← KernelTextBase T;
      let live := match base with inr b => if b =? 0 then [] else [("guest kernel _text", b)] | inl _ => [] end in
      each_ok (("first page above user space", boundary) :: live) (must_fault zero null)))) id)).
Definition mmap_noreplace : body :=
  map_rw page "" (λ b, deferred (
    call (Store b 0x5a) ;;
    r ← call (Mmap b page PROT_RW (Z.lor MAP_ANON mapFixedNoreplace));
    let e := match r with inl e => e | inr _ => 0 end in
    guard (negb (e =? EEXIST)) ("MAP_FIXED_NOREPLACE over a live mapping gave " +:+ errText T e +:+ ", want EEXIST") (
    expect_byte b 0x5a (λ x, "the mapping was replaced anyway: byte is " +:+ fmt_hash_x x)))
    (freed b page)).
Definition syscall_garbage : body :=
  r ← call (Syscall (2 ^ 63 - 1) 0 0 0);
  guard (negb (r.2 =? ENOSYS)) ("syscall(LONG_MAX) gave r=" +:+ itoa r.1 +:+ " errno=" +:+ errText T r.2 +:+ ", want ENOSYS") (
  e ← errno_of SYS_UNAME firstNoncanonical 0 0;
  guard (negb (e =? EFAULT)) ("uname(non-canonical) gave " +:+ errText T e +:+ ", want EFAULT") (
  e ← errno_of SYS_UNAME hostText 0 0;
  guard (negb (e =? EFAULT)) ("uname(kernel address) gave " +:+ errText T e +:+ ", want EFAULT") (
  log "ENOSYS, EFAULT, EFAULT -- all three refused in the guest" ;; done_ok))).

(** ** cpuid.go *)
Record cpuidBit := { flag : string; leaf : Z; sub : Z; reg : nat; bit : Z }.
Definition watchedBits : list cpuidBit :=
  [Build_cpuidBit "ibrs" 7 0 3 26; Build_cpuidBit "stibp" 7 0 3 27; Build_cpuidBit "ssbd" 7 0 3 31;
   Build_cpuidBit "ibpb" 0x80000008 0 1 12; Build_cpuidBit "ibrs" 0x80000008 0 1 14; Build_cpuidBit "stibp" 0x80000008 0 1 15;
   Build_cpuidBit "ssbd" 0x80000008 0 1 24; Build_cpuidBit "virt_ssbd" 0x80000008 0 1 25;
   Build_cpuidBit "pku" 7 0 2 3; Build_cpuidBit "ospke" 7 0 2 4;
   Build_cpuidBit "smep" 7 0 1 7; Build_cpuidBit "smap" 7 0 1 20;
   Build_cpuidBit "xsaves" 13 1 0 3; Build_cpuidBit "la57" 7 0 2 16; Build_cpuidBit "pcid" 1 0 2 17].
Definition reg_of (regs : list Z) (i : nat) : Z := default 0 (regs !! i).
Definition present_bit (c : cpuidBit) : guest bool :=
  max ← call (Cpuid (if 0x80000000 <=? leaf c then 0x80000000 else 0) 0);
  if reg_of max 0 <? leaf c then Ret false else
  regs ← call (Cpuid (leaf c) (sub c));
  Ret (Z.testbit (reg_of regs (reg c)) (bit c)).
Definition bit_name (c : cpuidBit) : string :=
  flag c +:+ " (" +:+ fmt_hash_x (leaf c) +:+ ":" +:+ itoa (Z.of_nat (reg c)) +:+ " bit " +:+ itoa (bit c) +:+ ")".
(** The bits only the hardware has and those only the kernel has. *)
Definition compare_bit (kernel : list string) (st : list string * list string) (c : cpuidBit) : guest (list string * list string) :=
  hw ← present_bit c;
  let kn := has_flag kernel (flag c) in
  Ret (if hw && negb kn then (st.1 ++ [bit_name c], st.2) else if kn && negb hw then (st.1, st.2 ++ [bit_name c]) else st).
Definition kernel_vs_hardware : body :=
  r ← cpuinfoFlags;
  or_else r (λ fs,
    st ← each_with watchedBits ([], []) (compare_bit fs);
    let onlyHW := sort_strings st.1 in
    let onlyKernel := sort_strings st.2 in
    (match onlyHW, onlyKernel with
     | [], [] =>
         log ("the kernel's CPUID and a userspace CPUID agree on all " +:+ itoa (Z.of_nat (length watchedBits)) +:+ " watched bits")
     | _, _ =>
         each onlyHW (λ n, log ("hardware only (userspace sees it, the kernel does not): " +:+ n)) ;;
         each onlyKernel (λ n, log ("kernel only (the kernel sees it, userspace does not): " +:+ n))
     end) ;;
    done_ok) id.
Definition spec_ctrl_flags : list string := ["ibrs"; "stibp"; "ssbd"; "virt_ssbd"; "amd_ssbd"; "amd_ibrs"].
Definition show_list (l : list string) : string := "[" +:+ join " " l +:+ "]".
(** The clause of the mitigation before its first semicolon. *)
Definition spectre_mode (s : string) : string := match cut s ";" with Some (m, _) => m | None => s end.
Definition spec_ctrl_contract : body :=
  r ← cpuinfoFlags;
  or_else r (λ fs,
    let advertised := filter (λ f, has_flag fs f = true) spec_ctrl_flags in
    spectreV2 ← sysfsLine "spectre_v2";
    ssb ← sysfsLine "spec_store_bypass";
    log ("SPEC_CTRL family: " +:+ show_list advertised) ;;
    log ("spectre_v2:        " +:+ spectreV2) ;;
    log ("spec_store_bypass: " +:+ ssb) ;;
    pvm ← isPVMRun;
    if negb pvm then log "not declared a PVM run; reported for comparison only" ;; done_ok else
    guard (negb (length advertised =? 0)%nat)
      ("PVM advertises " +:+ show_list advertised +:+
       ", but MSR_IA32_SPEC_CTRL is not emulated: the guest will report a mitigation it does not have") (
    andthen (each_ok ["pku"; "ospke"] (λ f,
      guard (negb (has_flag fs f))
        ("PVM does not advertise " +:+ quote f +:+ "; the guest gets no protection keys, and shadow_pkey_mask, " +:+
         "the PKU capability or the supervisor PKRU split has been lost") done_ok)) (
    guard (has_flag fs "smap")
      ("PVM advertises smap, but the guest runs at CPL3 in both modes and nothing emulates " +:+
       "supervisor-mode access prevention (invariant M4)") (
    guard (contains (spectre_mode spectreV2) "IBRS")
      ("spectre_v2 mode is " +:+ quote (trim_space (spectre_mode spectreV2)) +:+
       ": the guest believes in an IBRS mode whose MSR writes go nowhere " +:+
       "(is ARCH_CAP_IBRS_ALL still being advertised?)") done_ok)))) id.
End Cases.
