(* ===== verification/PerfCases.v ===== *)
(** * initrd/internal/tests: the cases that measure and those that race

    perf.go, parallel.go, faultrace.go, the race of directpf.go and the first
    two cases of sched.go; then what each goroutine of a case does.  A loop that
    ends when another goroutine says so takes fuel and then makes the call
    [Hang]. *)
From Stdlib Require Import Ascii.
From Stdlib Require Import SpecFloat.
From S2P Require Import Prelude GoStrings Float64 Harness Prog Flags Init CaseOps GuestCases.

#[local] Open Scope Z_scope.

Section PerfCases.
Context (T : texts).
(** As in [GuestCases]; [scale] is the harness's. *)
Context (page ncpu scale : Z).
Abbreviation N := (Harness.N scale).
Definition metric (name : string) (v : spec_float) (unit_ : string) : guest unit := call (Metric name (gText T v) unit_).
(** float64(a)/float64(b) *)
Definition per (a b : Z) : spec_float := fdiv (float64 a) (float64 b).
Definition Microseconds (d : Z) : Z := Z.quot d 1000.
Definition madvNoHugepage : Z := 15.
Definition MADV_DONTNEED : Z := 4.

(** ** perf.go *)
Definition getpids : Z := 2000000.
Definition perf_syscall : body :=
  let n := N getpids in
  start ← call Now;
  each (seqZ 0 n) (λ _, call Getpid ;; Ret tt) ;;
  now ← call Now;
  metric "ns_per_getpid" (per (now - start) n) "ns" ;; done_ok.
Definition fault_bytes : Z := Z.shiftl 256 20.
Definition perf_page_fault : body :=
  map_rw T fault_bytes "" (λ b, deferred (
    e ← call (Madvise b fault_bytes madvNoHugepage);
    (if e =? 0 then Ret tt else log ("MADV_NOHUGEPAGE: " +:+ errText T e +:+ " (result will be noisy)")) ;;
    start ← call Now;
    touch b (offsets fault_bytes page) (λ _, 1) ;;
    now ← call Now;
    log (itoa (Z.quot fault_bytes page) +:+ " base-page faults, THP suppressed") ;;
    metric "ns_per_fault" (per (now - start) (Z.quot fault_bytes page)) "ns" ;; done_ok)
    (freed b fault_bytes)).
Definition forks : Z := 200.
Definition perf_fork_exec : body :=
  let n := N forks in
  start ← call Now;
  andthen (each_ok (seqZ 0 n) (λ _, with_victim "victim-exit" [] (λ _ _, done_ok))) (
  now ← call Now;
  metric "us_per_fork_exec" (per (Microseconds (now - start)) n) "us" ;; done_ok).
(** [pipePair], given back by [pipes.close]. *)
Definition with_pipe (k : Z * Z → body) : body :=
  p ← call Pipe;
  or_else p (λ p, deferred (k p) (call (Close p.1) ;; call (Close p.2) ;; Ret tt)) id.
Definition startVictimPinned (mode : string) (extra : list Z) (cpu : Z) : guest (string + Z) :=
  self ← call Executable;
  r ← call (StartFiles [default "/init" self; mode; itoa cpu] extra);
  Ret (match r with inl e => inl ("starting " +:+ mode +:+ ": " +:+ e) | inr pid => inr pid end).
(** A byte to the child and one back. *)
Definition roundtrip (w r : Z) (pre : string) : body :=
  e ← call (Write w);
  match e with
  | Some e => fail e
  | None => e ← call (ReadFull r); match e with Some e => fail (pre +:+ e) | None => done_ok end
  end.
Definition roundtrips : Z := 50000.
Definition perf_context_switch : body :=
  let n := N roundtrips in
  with_pipe (λ toChild, with_pipe (λ toParent,
  v ← startVictimPinned "victim-pingpong" [toChild.1; toParent.2] 0;
  or_else v (λ pid, deferred (
    locked (
      must T (call (Setaffinity (one_cpu 0))) "pinning the parent: " (
      andthen (roundtrip toChild.2 toParent.1 "the child never answered: ") (
      start ← call Now;
      andthen (each_ok (seqZ 0 n) (λ _, roundtrip toChild.2 toParent.1 "")) (
      now ← call Now;
      log (itoa n +:+ " roundtrips between two processes pinned to cpu 0, two context switches each") ;;
      metric "ns_per_pipe_roundtrip" (per (now - start) n) "ns" ;; done_ok)))))
    (call (KillWait pid))) id)).

(** ** parallel.go *)
(** [defer runtime.GOMAXPROCS(runtime.GOMAXPROCS(n))] *)
Definition with_procs (n : Z) (k : body) : body :=
  old ← call (GOMAXPROCS n);
  deferred k (call (GOMAXPROCS old) ;; Ret tt).
Definition every_cpu : list Z := seqZ 0 ncpu.
Definition perCPU : Z := 60.
Definition perf_parallel_fork : body :=
  with_procs ncpu (
    start ← call Now;
    call (Go ParallelFork every_cpu) ;;
    errs ← call WaitAll;
    match first_error errs with
    | Some e => fail e
    | None =>
        now ← call Now;
        log (itoa ncpu +:+ " cpus x " +:+ itoa perCPU) ;;
        metric "us_per_fork_exec" (per (Microseconds (now - start)) (ncpu * perCPU)) "us" ;;
        metric "cpus" (float64 ncpu) "count" ;; done_ok
    end).
Definition churn_size : Z := Z.shiftl 16 20.
Definition fault_rounds : Z := 6.
Definition perf_parallel_fault : body :=
  with_procs ncpu (
    start ← call Now;
    call (Go ParallelFault every_cpu) ;;
    errs ← call WaitAll;
    match first_error errs with
    | Some e => fail e
    | None =>
        now ← call Now;
        log (itoa ncpu +:+ " cpus x " +:+ itoa fault_rounds +:+ " rounds x 16MB, per page: map+touch+verify+unmap") ;;
        metric "ns_per_page_cycle" (per (now - start) (ncpu * fault_rounds * Z.quot churn_size page)) "ns" ;; done_ok
    end).
(** The two metrics of the scaling cases. *)
Definition scaling_metrics (total pages rounds : Z) (what : string) : body :=
  let all := float64 (int64 (ncpu * pages * rounds)) in
  log (itoa ncpu +:+ " cpus x " +:+ itoa pages +:+ " pages x " +:+ itoa rounds +:+ " rounds, " +:+ what) ;;
  metric "ns_per_page" (fdiv (float64 total) all) "ns" ;;
  metric "ns_per_page_per_cpu" (fdiv (fmul (float64 total) (float64 ncpu)) all) "ns" ;; done_ok.
(** Workers lined up on the barrier and let go: the time until all are done. *)
Definition barrier_run (w : worker) : guest (Z * list (option string)) :=
  call (Go w every_cpu) ;;
  call ReadyWait ;;
  t0 ← call Now;
  call CloseStart ;;
  errs ← call WaitAll;
  now ← call Now;
  Ret (now - t0, errs).
(** One region for each worker. *)
Fixpoint map_regions (n : nat) (size : Z) (got : list Z) : guest (string + list Z) :=
  match n with
  | O => Ret (inr got)
  | S n =>
      r ← call (Mmap 0 size PROT_RW MAP_ANON);
      match r with inl e => Ret (inl (errText T e)) | inr b => map_regions n size (got ++ [b]) end
  end.
Definition scaling_pages : Z := 8192.
Fixpoint scaling_loop (rounds : nat) (pages total : Z) : guest (string + Z) :=
  match rounds with
  | O => Ret (inr total)
  | S rounds =>
      m ← map_regions (Z.to_nat ncpu) (int64 (pages * page)) [];
      match m with
      | inl e => Ret (inl e)
      | inr regions =>
          r ← barrier_run (ScalingFault regions);
          each regions (λ b, freed b (int64 (pages * page))) ;;
          match first_error r.2 with
          | Some e => Ret (inl e)
          | None => scaling_loop rounds pages (total + r.1)
          end
      end
  end.
Definition perf_fault_scaling : body :=
  let pages := N scaling_pages in
  with_procs ncpu (r ← scaling_loop 4 pages 0; or_else r (λ total, scaling_metrics total pages 4 "first touch only") id).
Definition unmap_pages : Z := 4096.
Fixpoint unmap_loop (rounds : nat) (total : Z) : guest (string + Z) :=
  match rounds with
  | O => Ret (inr total)
  | S rounds =>
      r ← barrier_run ScalingUnmap;
      match first_error r.2 with
      | Some e => Ret (inl e)
      | None => unmap_loop rounds (total + r.1)
      end
  end.
Definition perf_unmap_scaling : body :=
  with_procs ncpu (r ← unmap_loop 6 0; or_else r (λ total, scaling_metrics total (N unmap_pages) 6 "munmap only") id).
Definition fault_round (r : Z) : body :=
  let tag := "perf/fault-rounds/r" +:+ itoa (r + 1) in
  call (Go (RoundFault r) every_cpu) ;;
  call ReadyWait ;;
  call (Mark (1000 + 2 * r) (tag +:+ "/before")) ;;
  t0 ← call Now;
  call CloseStart ;;
  errs ← call WaitAll;
  now ← call Now;
  call (Mark (1001 + 2 * r) (tag +:+ "/after")) ;;
  match first_error errs with
  | Some e => fail e
  | None => metric ("r" +:+ itoa (r + 1) +:+ "_ns_per_page") (per (now - t0) (int64 (ncpu * N unmap_pages))) "ns" ;; done_ok
  end.
Definition perf_fault_rounds : body := with_procs ncpu (each_ok (seqZ 0 fault_rounds) fault_round).

(** ** faultrace.go and mprotectRace *)
Definition race_pages : Z := 64.
Definition readers : Z := Z.max ncpu 2.
(** A marker on every page, at the place of each reader. *)
Definition mark_pages (b mark : Z) : guest unit :=
  each (seqZ 0 race_pages) (λ p, each (seqZ 0 readers) (λ i, call (Store (b + (p * page + i mod page)) mark))).
(** The cycles, until a reader stops them or a call fails. *)
Fixpoint cycle_loop (cs : list Z) (cycle : Z → body) : body :=
  match cs with
  | [] => done_ok
  | c :: cs => s ← call StopLoad; if s : bool then done_ok else andthen (cycle c) (cycle_loop cs cycle)
  end.
Definition race (tail what : string) (cycles : Z) (cycle : Z → Z → body) : body :=
  with_procs readers (
    map_rw T (race_pages * page) "" (λ b, deferred (
      call (Go (RaceReader b tail) (seqZ 1 (readers - 1))) ;;
      start ← call Now;
      e0 ← cycle_loop (seqZ 0 cycles) (cycle b);
      call StopStore ;;
      errs ← call WaitAll;
      match first_error (e0 :: errs) with
      | Some e => fail e
      | None =>
          reads ← call LoadReads;
          now ← call Now;
          log (itoa cycles +:+ what +:+ itoa race_pages +:+ " pages, " +:+ itoa reads +:+ " reads from " +:+ itoa (readers - 1) +:+
               " CPUs in " +:+ durText T (Round (now - start) millisecond)) ;; done_ok
      end)
      (freed b (race_pages * page)))).
Definition mark_of (c : Z) : Z := byte_of (2 * c + 1).
Definition zap_cycle (b c : Z) : body :=
  mark_pages b (mark_of c) ;;
  must T (call (Madvise b (race_pages * page) MADV_DONTNEED)) "madvise: " done_ok.
Definition fault_race : body := race ", neither zero nor a marker" " zap cycles of " 2000 zap_cycle.
Definition protect_cycle (b c : Z) : body :=
  must T (call (Mprotect b (race_pages * page) PROT_READ)) "mprotect ro: " (
  must T (call (Mprotect b (race_pages * page) PROT_RW)) "mprotect rw: " (
  mark_pages b (mark_of c) ;;
  if c mod 8 =? 7 then must T (call (Madvise b (race_pages * page) MADV_DONTNEED)) "madvise: " done_ok else done_ok)).
Definition mprotectRace : body := race "" " protection cycles of " 1500 protect_cycle.

(** ** sched.go *)
Definition adders : Z := 64.
Definition additions : Z := 20000.
Definition sched_threads : body :=
  call (Go Adder (seqZ 0 adders)) ;;
  call WaitAll ;;
  got ← call LoadCounter;
  guard (negb (got =? adders * additions))
    ("counter is " +:+ itoa got +:+ ", want " +:+ itoa (adders * additions) +:+ ": lost atomic updates") done_ok.
Definition pings : Z := 20000.
Definition sched_futex : body :=
  call (Go Ponger [0]) ;;
  start ← call Now;
  each (seqZ 0 pings) (λ _, call (Send Ping) ;; call (Recv Pong)) ;;
  call (Recv Done_) ;;
  now ← call Now;
  let d := now - start in
  log (itoa pings +:+ " round trips in " +:+ durText T (Round d millisecond) +:+ " (" +:+ durText T (Round (Z.quot d pings) 1) +:+ " each)") ;;
  done_ok.

(** ** Goroutines *)
(** [pinWorker]; the set has room for 1024 CPUs. *)
Definition pinWorker (cpu : Z) : body :=
  call LockOSThread ;;
  if 1024 <=? cpu then panic ("runtime error: index out of range [" +:+ itoa (cpu / 64) +:+ "] with length 16") else
  must T (call (Setaffinity (one_cpu cpu))) ("pinning to cpu " +:+ itoa cpu +:+ ": ") done_ok.
Definition fork_worker (i : Z) : body :=
  andthen (pinWorker i) (each_ok (seqZ 0 perCPU) (λ _,
    with_victim "victim-exit" [] (λ code _, guard (negb (code =? 42)) ("child exited " +:+ itoa code) done_ok))).
Definition parallel_round (i r : Z) : body :=
  map_rw T churn_size "" (λ b,
  touch b (offsets churn_size page) (λ _, byte_of r) ;;
  e ← verify b (offsets churn_size page) (λ _, byte_of r) (λ off x,
        "worker " +:+ itoa i +:+ " round " +:+ itoa r +:+ ": page " +:+ hash_off off +:+ " holds " +:+ fmt_hash_x x);
  match e with
  | Some e => call (Munmap b churn_size) ;; fail e
  | None => must T (call (Munmap b churn_size)) "" done_ok
  end).
Definition fault_worker (i : Z) : body := andthen (pinWorker i) (each_ok (seqZ 0 fault_rounds) (parallel_round i)).
(** Pinned, or ready all the same with the error. *)
Definition pinned_for_barrier (i : Z) (k : body) : body :=
  e ← pinWorker i;
  match e with Some e => call ReadyDone ;; fail e | None => k end.
Definition scaling_worker (regions : list Z) (i : Z) : body :=
  pinned_for_barrier i (
    call ReadyDone ;; call AwaitStart ;;
    match regions !! Z.to_nat i with
    | Some b => touch b (offsets (int64 (N scaling_pages * page)) page) (λ _, 1) ;; done_ok
    | None => panic "runtime error: index out of range"
    end).
Definition unmap_worker (i : Z) : body :=
  let size := int64 (N unmap_pages * page) in
  pinned_for_barrier i (
    r ← call (Mmap 0 size PROT_RW MAP_ANON);
    match r with
    | inl e => call ReadyDone ;; fail (errText T e)
    | inr b =>
        touch b (offsets size page) (λ _, 1) ;;
        call ReadyDone ;; call AwaitStart ;;
        unmap T b size
    end).
Definition round_worker (r i : Z) : body :=
  let size := int64 (N unmap_pages * page) in
  pinned_for_barrier i (
    call ReadyDone ;; call AwaitStart ;;
    map_rw T size "" (λ b, touch b (offsets size page) (λ _, byte_of r) ;; unmap T b size)).
(** One pass of a reader over the pages: the error of a byte that is neither
    zero nor odd. *)
Definition read_pages (b : Z) (tail : string) (r : Z) : body :=
  each_ok (seqZ 0 race_pages) (λ p,
    v ← call (Load (b + (p * page + r mod page)));
    guard (negb (v =? 0) && Z.even v)
      ("reader " +:+ itoa r +:+ ": page " +:+ itoa p +:+ " holds " +:+ fmt_hash_x v +:+ tail) done_ok).
Fixpoint read_loop (fuel : nat) (b : Z) (tail : string) (r : Z) : body :=
  match fuel with
  | O => x ← call Hang; match x : Empty_set with end
  | S fuel =>
      s ← call StopLoad;
      if s : bool then done_ok else
      e ← read_pages b tail r;
      match e with
      | Some e => call StopStore ;; fail e
      | None => call (AddReads race_pages) ;; read_loop fuel b tail r
      end
  end.
Definition race_reader (fuel : nat) (b : Z) (tail : string) (r : Z) : body := call LockOSThread ;; read_loop fuel b tail r.
Definition adder : body :=
  each (seqZ 0 additions) (λ j, call AddCounter ;; if j mod 1000 =? 0 then call Gosched else Ret tt) ;; done_ok.
Definition ponger : body :=
  each (seqZ 0 pings) (λ _, call (Recv Ping) ;; call (Send Pong)) ;; call (Send Done_) ;; done_ok.
(** What the goroutine [i] does. *)
Definition work (fuel : nat) (w : worker) (i : Z) : body :=
  match w with
  | Churn => churn_child
  | FaultStorm => storm_worker T page i
  | ParallelFork => fork_worker i
  | ParallelFault => fault_worker i
  | ScalingFault regions => scaling_worker regions i
  | ScalingUnmap => unmap_worker i
  | RoundFault r => round_worker r i
  | RaceReader b tail => race_reader fuel b tail i
  | Adder => adder
  | Ponger => ponger
  end.
End PerfCases.
