(* ===== verification/Registry.v ===== *)
(** * initrd/internal/tests: the registry

    Every case with its name, suites, timeout and function, in the order the
    source registers them. *)
From Stdlib Require Import Ascii.
From S2P Require Import Prelude GoStrings Harness Prog Flags Init CaseOps GuestCases PerfCases.

#[local] Open Scope Z_scope.

Record gcase := { g_case : Case; Fn : body }.
Definition case_ (name : string) (suites : list string) (timeout : Z) (fn : body) : gcase :=
  {| g_case := {| Name := name; Suites := suites; Timeout := timeout |}; Fn := fn |}.

Section Registry.
(** As in [GuestCases] and [PerfCases]. *)
Context (T : texts) (page ncpu scale : Z).
Definition sec : Z := 1000000000.
Definition SF : list string := [Security; Full].
Definition SCF : list string := [Security; Core; Full].
Definition registerBoot : list gcase :=
  [case_ "boot/alive" [Smoke] 0 (boot_alive ncpu); case_ "boot/procfs" [Smoke] 0 boot_procfs;
   case_ "boot/smp" [Smoke] 0 (boot_smp ncpu); case_ "boot/no-oops" [Smoke] 0 (boot_no_oops T);
   case_ "boot/exec" [Smoke] 0 boot_exec].
Definition registerEntryPath : list gcase := [case_ "boot/entry-path" [Smoke] 0 boot_entry_path].
Definition registerPVM : list gcase :=
  [case_ "pvm/kernel-map" [Smoke] 0 (pvm_kernel_map T); case_ "pvm/relocated" [Core] 0 (pvm_relocated T);
   case_ "pvm/phys-map" [Core] 0 pvm_phys_map; case_ "pvm/paravirt" [Core] 0 pvm_paravirt].
Definition registerMM : list gcase :=
  [case_ "mm/anon-mmap" [Smoke] 0 (mm_anon_mmap T page); case_ "mm/mprotect" [Core] 0 (mm_mprotect T page);
   case_ "mm/protection-faults" [Core] 0 mm_protection_faults; case_ "mm/fork-cow" [Core] 0 (mm_fork_cow T page);
   case_ "mm/maps-sane" [Core] 0 mm_maps_sane; case_ "mm/churn" [Full] (120 * sec) (mm_churn T page)].
Definition registerFaultRace : list gcase := [case_ "mm/fault-race" [Core] (120 * sec) (fault_race T page ncpu)].
Definition registerDirectPF : list gcase :=
  [case_ "mm/direct-pf/fork-present-and-cow" [Core] 0 fork_present_and_cow;
   case_ "mm/direct-pf/readonly-write" [Core] 0 (readonly_write T);
   case_ "mm/direct-pf/pkey-denied-code" SF 0 (pkey_denied_code T);
   case_ "security/pkey-allowed-repeat" [Scaling] (3600 * sec) pkey_allowed_repeat;
   case_ "mm/direct-pf/mprotect-race" [Core] (120 * sec) (mprotectRace T page ncpu)].
Definition registerSyscall : list gcase :=
  [case_ "syscall/roundtrip" [Smoke] 0 syscall_roundtrip; case_ "syscall/getcpu" [Core] 0 (syscall_getcpu T);
   case_ "syscall/getcpu-affinity" [Core] 0 (syscall_getcpu_affinity T); case_ "syscall/errno" [Core] 0 (syscall_errno T);
   case_ "syscall/vdso-agrees" [Core] 0 (syscall_vdso_agrees T)].
Definition registerSignal : list gcase :=
  [case_ "signal/delivery" [Smoke] 0 (signal_delivery T); case_ "signal/storm" [Core] (120 * sec) (signal_storm T);
   case_ "signal/timer" [Core] 0 (signal_timer T)].
Definition registerSched : list gcase :=
  [case_ "sched/threads" [Core] 0 sched_threads; case_ "sched/futex" [Core] 0 (sched_futex T);
   case_ "sched/affinity" [Core] 0 (sched_affinity T)].
Definition registerTime : list gcase :=
  [case_ "time/monotonic" [Smoke] 0 (time_monotonic T); case_ "time/sleep" [Core] 0 (time_sleep T);
   case_ "time/cross-cpu" [Core] 0 (time_cross_cpu T)].
Definition registerEntry : list gcase :=
  [case_ "entry/ptrace-singlestep" [Core] (60 * sec) (entry_singlestep T);
   case_ "entry/ptrace-attach" [Core] 0 (entry_attach T)].
Definition registerStress : list gcase :=
  [case_ "stress/process-churn" [Full] (300 * sec) (process_churn T);
   case_ "stress/fault-storm" [Full] (300 * sec) fault_storm].
Definition registerPerf : list gcase :=
  [case_ "perf/syscall" [Perf] (120 * sec) (perf_syscall T scale);
   case_ "perf/page-fault" [Perf] (120 * sec) (perf_page_fault T page);
   case_ "perf/fork-exec" [Perf] (300 * sec) (perf_fork_exec T scale);
   case_ "perf/context-switch" [Perf] (180 * sec) (perf_context_switch T scale)].
Definition registerParallel : list gcase :=
  [case_ "perf/parallel-fork" [Perf] (600 * sec) (perf_parallel_fork T ncpu);
   case_ "perf/parallel-fault" [Perf] (600 * sec) (perf_parallel_fault T page ncpu)].
Definition registerFaultScaling : list gcase := [case_ "perf/fault-scaling" [Scaling] (600 * sec) (perf_fault_scaling T page ncpu scale)].
Definition registerUnmapScaling : list gcase := [case_ "perf/unmap-scaling" [Scaling] (600 * sec) (perf_unmap_scaling T ncpu scale)].
Definition registerFaultRounds : list gcase := [case_ "perf/fault-rounds" [Scaling] (600 * sec) (perf_fault_rounds T ncpu scale)].
(** The instructions come in the order Go iterates over their map. *)
Definition registerSecurity (insns : list string) : list gcase :=
  ((λ n, case_ ("security/priv-insn/" +:+ n) SF 0 (priv_insn T n)) <$> insns) ++
  [case_ "security/exec-noexec-page" SF 0 (exec_noexec_page T); case_ "security/exec-exec-page" SF 0 exec_exec_page;
   case_ "security/pkey-denied" SF 0 (pkey_denied T); case_ "security/pkey-allowed" SF 0 pkey_allowed;
   case_ "security/kernel-text" SCF 0 (kernel_text_denied T); case_ "security/host-window" SCF 0 (host_window T);
   case_ "security/noncanonical-read" SF 0 (noncanonical_read T); case_ "security/mmap-boundary" SCF 0 (mmap_boundary T page);
   case_ "security/uaccess-boundary" SCF 0 (uaccess_boundary T); case_ "security/mmap-noreplace" SF 0 (mmap_noreplace T page);
   case_ "security/syscall-garbage" SF 0 (syscall_garbage T)].
Definition registerCPUID : list gcase :=
  [case_ "pvm/cpuid-kernel-vs-hardware" [Core] 0 kernel_vs_hardware;
   case_ "pvm/spec-ctrl-contract" [Core] 0 spec_ctrl_contract].
Definition Register (insns : list string) : list gcase :=
  registerBoot ++ registerEntryPath ++ registerPVM ++ registerMM ++ registerFaultRace ++ registerDirectPF ++ registerSyscall ++
  registerSignal ++ registerSched ++ registerTime ++ registerEntry ++ registerStress ++ registerPerf ++ registerParallel ++
  registerFaultScaling ++ registerUnmapScaling ++ registerFaultRounds ++ registerSecurity insns ++ registerCPUID.
End Registry.
