(* ===== verification/Victims.v ===== *)
(** * initrd/internal/tests: the victims

    The processes some cases start: the same binary in a victim mode, as
    programs over the calls of [CaseOps].  A memory access that faults is a call
    that is never answered, and the process dies there of the signal.  The two
    that loop for ever take fuel and then make the call [Hang]. *)
From Stdlib Require Import Ascii.
From S2P Require Import Prelude GoStrings Prog Flags Init CaseOps GuestCases.

#[local] Open Scope Z_scope.

Definition privInsns : list (string * list Z) :=
  [("hlt", [0xf4; 0xc3]); ("cli", [0xfa; 0xc3]); ("sti", [0xfb; 0xc3]); ("wbinvd", [0x0f; 0x09; 0xc3]);
   ("rdmsr", [0x31; 0xc9; 0x0f; 0x32; 0xc3]); ("wrmsr", [0x31; 0xc9; 0x0f; 0x30; 0xc3]); ("swapgs", [0x0f; 0x01; 0xf8; 0xc3]);
   ("mov-cr3-rax", [0x0f; 0x20; 0xd8; 0xc3]); ("mov-dr7-rax", [0x0f; 0x21; 0xf8; 0xc3]); ("invd", [0x0f; 0x08; 0xc3]);
   ("rdpmc", [0x31; 0xc9; 0x0f; 0x33; 0xc3])].
Definition insn_code (name : string) : option (list Z) := snd <$> hd_error (filter (λ p, seqb p.1 name = true) privInsns).

Section Victims.
Context (T : texts) (page : Z).
Definition say (s : string) : guest unit := call (Stderr ("victim: " +:+ s +:+ nl)).
Definition die (s : string) (n : Z) : guest unit := say s ;; Exit n.
Definition v_map (prot : Z) (k : Z → guest unit) : guest unit :=
  r ← call (Mmap 0 page prot MAP_ANON);
  match r with inl e => die ("mmap: " +:+ errText T e) 3 | inr b => k b end.
Definition v_must (p : guest errno) (what : string) (k : guest unit) : guest unit :=
  e ← p; if e =? 0 then k else die (what +:+ ": " +:+ errText T e) 3.
Definition store_bytes (b : Z) (l : list Z) : guest unit := each (imap (λ i v, (b + Z.of_nat i, v)) l) (λ p, call (Store p.1 p.2)).

(** ** security.go *)
Definition victimPrivInsn (name : string) : guest unit :=
  match insn_code name with
  | None => die ("unknown instruction " +:+ quote name) 3
  | Some code =>
      v_map (Z.lor PROT_RW PROT_EXEC) (λ b,
      store_bytes b code ;;
      say ("reached " +:+ name) ;;
      call (CallAddr b) ;;
      die (name +:+ " returned") 0)
  end.
Definition victimExecPage (prot : string) : guest unit :=
  v_map (if seqb prot "rwx" then Z.lor PROT_RW PROT_EXEC else PROT_RW) (λ b,
  call (Store b 0xc3) ;;
  say ("reached " +:+ prot +:+ " page") ;;
  call (CallAddr b) ;;
  Exit 0).
Definition victimReadAddr (addr : string) : guest unit :=
  match parse_hex (trim_prefix addr "0x") with
  | None => die ("bad address " +:+ quote addr +:+ ": " +:+ scanText T addr) 3
  | Some v =>
      say ("reached read of " +:+ fmt_hash_x v) ;;
      x ← call (ReadAddr v);
      die ("read " +:+ fmt_hash_x x +:+ " from " +:+ fmt_hash_x v) 0
  end.

(** ** victim.go *)
Definition victimSegv : guest unit :=
  v_map PROT_RW (λ b,
  v_must (call (Mprotect b page PROT_NONE)) "mprotect" (
  call (Store b 1) ;;
  die "the write to a PROT_NONE page returned" 0)).
Fixpoint victimLoop (fuel : nat) : guest unit :=
  match fuel with
  | O => b ← call Hang; match b : Empty_set with end
  | S fuel => call Getpid ;; victimLoop fuel
  end.
Definition alarm : guest unit := call (Setitimer (5 * 1000000)) ;; Ret tt.
Fixpoint pong_loop (fuel : nat) : guest unit :=
  match fuel with
  | O => b ← call Hang; match b : Empty_set with end
  | S fuel =>
      e ← call (ReadFull 3);
      match e with
      | Some _ => Exit 0
      | None => e ← call (Write 4); match e with Some _ => Exit 0 | None => pong_loop fuel end
      end
  end.
Definition victimPingPong (fuel : nat) (cpuArg : string) : guest unit :=
  match atoi cpuArg with
  | None => die ("bad cpu " +:+ quote cpuArg) 3
  | Some cpu =>
      call LockOSThread ;;
      alarm ;;
      e ← call (Setaffinity (one_cpu cpu));
      if e =? 0 then pong_loop fuel else die ("pinning to cpu " +:+ itoa cpu +:+ ": " +:+ errText T e) 3
  end.
(** The read of a page with a key on it; only "allow" recovers from a fault. *)
Definition pkey_read (mode : string) (b key : Z) : guest unit :=
  let check x :=
    if x =? 0x5a then call (Stdout ("victim: read through key " +:+ itoa key +:+ " succeeded" +:+ nl)) ;; Exit 0
    else die ("read back " +:+ fmt_hash_x x) 4 in
  if seqb mode "allow" then
    before ← call Rdpkru;
    r ← call (LoadOr b);
    match r with
    | inl (addr, what) =>
        after ← call Rdpkru;
        die ("allowed read faulted: addr=" +:+ fmt_hash_x addr +:+ " page=" +:+ fmt_hash_x b +:+ " key=" +:+ itoa key +:+
             " pkru before=" +:+ fmt_hash_x before +:+ " after=" +:+ fmt_hash_x after +:+ ": " +:+ what) 6
    | inr x => check x
    end
  else x ← call (Load b); check x.
Definition victimPkey (mode : string) : guest unit :=
  call LockOSThread ;;
  alarm ;;
  cpu ← call (ReadFile "/proc/cpuinfo");
  say ("kernel sees ospke=" +:+ show_bool (contains (or_empty cpu) " ospke") +:+ " pku=" +:+ show_bool (contains (or_empty cpu) " pku")) ;;
  r ← call (PkeyAlloc (if seqb mode "deny" then 1 else 0));
  match r with
  | inl e => die ("pkey_alloc: " +:+ errText T e) 77
  | inr key =>
      say ("pkey_alloc -> " +:+ itoa key) ;;
      v_map PROT_RW (λ b,
      call (Store b 0x5a) ;;
      v_must (call (PkeyMprotect b page PROT_RW key)) "pkey_mprotect" (
      call (Stdout ("victim: reached (key " +:+ itoa key +:+ ", " +:+ mode +:+ ")" +:+ nl)) ;;
      pkey_read mode b key))
  end.

(** ** directpf.go *)
Definition touch_pages : Z := 64.
Definition page_mark (i : Z) : Z := byte_of (0xa0 + i).
Definition expect_or (a v : Z) (bad k : guest unit) : guest unit := x ← call (Load a); if x =? v then k else bad.
Fixpoint each_then (l : list Z) (f : Z → guest unit → guest unit) (k : guest unit) : guest unit :=
  match l with [] => k | i :: l => f i (each_then l f k) end.
(** The child of the fork: each page read, then each written. *)
Definition fork_child (b : Z) : guest unit :=
  each_then (seqZ 0 touch_pages) (λ i, expect_or (b + i * page + 100) (page_mark i) (Exit (10 + i))) (
  each_then (seqZ 0 touch_pages) (λ i k,
    call (Store (b + i * page + 200) 0x55) ;;
    expect_or (b + i * page + 200) 0x55 (Exit (80 + i)) (expect_or (b + i * page + 100) (page_mark i) (Exit (80 + i)) k)) (
  Exit 0)).
Definition child_verdict (w : wstatus) : string :=
  match w with
  | WSignaled s => "child killed by " +:+ sigText T s
  | WExited st =>
      if 80 <=? st then "child's COW write to page " +:+ itoa (st - 80) +:+ " did not stick"
      else if 10 <=? st then "child read the wrong byte from page " +:+ itoa (st - 10)
      else "child exited " +:+ itoa st
  | WStopped _ => "child exited -1"
  end.
Definition fork_parent (b pid : Z) : guest unit :=
  w ← call (Wait4 pid);
  match w with
  | inl e => die ("wait4: " +:+ errText T e) 3
  | inr (WExited 0) =>
      each_then (seqZ 0 touch_pages) (λ i,
        expect_or (b + i * page + 200) (page_mark i) (die ("the child's write reached the parent's page " +:+ itoa i) 5)) (
      call (Stdout ("child read " +:+ itoa touch_pages +:+ " inherited pages and copied them on write; parent intact" +:+ nl)) ;;
      Exit 0)
  | inr w => die (child_verdict w) 4
  end.
Definition victimForkTouch : guest unit :=
  call LockOSThread ;;
  r ← call (Mmap 0 (touch_pages * page) PROT_RW MAP_ANON);
  match r with
  | inl e => die ("mmap: " +:+ errText T e) 3
  | inr b =>
      each (seqZ 0 touch_pages) (λ i, each (seqZ 0 page) (λ off, call (Store (b + i * page + off) (page_mark i)))) ;;
      f ← call Fork;
      match f with
      | inl e => die ("fork: " +:+ errText T e) 3
      | inr pid => if pid =? 0 then fork_child b else fork_parent b pid
      end
  end.
Definition victimRoWrite : guest unit :=
  v_map PROT_RW (λ b,
  call (Store (b + 7) 0x11) ;;
  v_must (call (Mprotect b page PROT_READ)) "mprotect" (
  x ← call (Load (b + 7));
  if negb (x =? 0x11) then die ("read back " +:+ fmt_hash_x x) 4 else
  call (Store (b + 7) 0x22) ;;
  x ← call (Load (b + 7));
  die ("the write to a read-only page returned (" +:+ fmt_hash_x x +:+ ")") 0)).

(** ** tests.go *)
Definition with_arg (args : list string) (k : string → guest unit) : guest unit :=
  match args with
  | x :: _ => k x
  | [] => panic "runtime error: index out of range [1] with length 1"
  end.
Definition RunVictim (fuel : nat) (mode : string) (args : list string) : guest unit :=
  if seqb mode "victim-segv" then victimSegv else
  if seqb mode "victim-loop" then victimLoop fuel else
  if seqb mode "victim-exit" then Exit 42 else
  if seqb mode "victim-privinsn" then with_arg args victimPrivInsn else
  if seqb mode "victim-execpage" then with_arg args victimExecPage else
  if seqb mode "victim-readaddr" then with_arg args victimReadAddr else
  if seqb mode "victim-pkey" then with_arg args victimPkey else
  if seqb mode "victim-forktouch" then victimForkTouch else
  if seqb mode "victim-rowrite" then victimRoWrite else
  if seqb mode "victim-pingpong" then with_arg args (victimPingPong fuel) else
  call (Stderr ("unknown victim mode: " +:+ mode +:+ nl)) ;; Exit 127.
End Victims.
