(* ===== verification/CaseRuns.v ===== *)
(** * What the guest's cases promise

    A case of the security suite only passes when the access it tries is
    denied; a memory case only passes when every byte read back is the one
    written; and the walk over the CPUs leaves the thread as it found it. *)
From Stdlib Require Import Ascii.
From S2P Require Import Prelude GoStrings Float64 Harness Prog Flags Init CaseOps GuestCases PerfCases Victims.

#[local] Open Scope Z_scope.

(** ** Victims as their parent sees them *)
Section Denied.
Context (T : texts) (page : Z).
Abbreviation reached := "victim: reached".
(** What a run wrote, and the accesses a signal can end it at. *)
Definition written (e : event gop) : string :=
  match ev_op e in gop B return option B → string with
  | Stdout s => λ a, match a with Some _ => s | None => "" end
  | Stderr s => λ a, match a with Some _ => s | None => "" end
  | _ => λ _, ""
  end (ev_ans e).
Definition output (tr : list (event gop)) : string := foldr (λ e s, written e +:+ s) "" tr.
Definition mem_access {B} (o : gop B) : Prop :=
  match o with Load _ | Store _ _ | CallAddr _ | ReadAddr _ | LoadOr _ => True | _ => False end.
Definition stopped_in_access (tr : list (event gop)) : Prop :=
  match last tr with Some e => mem_access (ev_op e) | None => False end.
(** The status and the output of a process whose run was [tr] and [out].  One
    that was killed may have left a report of Go's runtime behind, which does not
    say that the victim reached anything; and it is an access to memory a process
    dies of SIGSEGV at. *)
Definition status_of (c : child) : option Z :=
  match c with
  | Child_ok => Some 0
  | Child_status (WExited n) => Some n
  | Child_status (WSignaled s) => Some (128 + s)
  | Child_status (WStopped _) => Some (-1)
  | Child_error _ => None
  end.
Definition ended (tr : list (event gop)) (out : outcome unit) (c : child) (seen : string) : Prop :=
  match out with
  | Exited n => (c = if n =? 0 then Child_ok else Child_status (WExited n)) ∧ seen = output tr
  | Returned _ => c = Child_ok ∧ seen = output tr
  | Stopped =>
      contains seen reached = contains (output tr) reached ∧
      ∀ rc, status_of c = Some rc → deathSignal T rc seen = SIGSEGV → stopped_in_access tr
  end.
(** A child is a run of [RunVictim], unless it could not be started. *)
Definition victim_answers B (o : gop B) : B → unit → Prop :=
  match o with
  | RunSelf (self :: mode :: args) => λ a _,
      match a with
      | (Child_error _, _) => True
      | (c, seen) => ∃ fuel tr out, runs (RunVictim T page fuel mode args) tr out ∧ ended tr out c seen
      end
  | _ => λ _ _, True
  end.
Definition victimM : monitor gop := Monitor gop unit (λ _ _ _ _, tt) (λ _ _ _, True) victim_answers.
(** The victim of a mode was run, and died of the access it was to try. *)
Definition died_at (mode : string) (args : list string) (P : ∀ B, gop B → Prop) : Prop :=
  ∃ fuel tr B (o : gop B), runs (RunVictim T page fuel mode args) (tr ++ [Ev o None]) Stopped ∧ P B o.

Lemma skip_wp {A B} (p : guest A) (k : A → guest B) (Q : B → unit → Prop) :
  (∀ a, wp victimM (k a) Q (λ _ _, True) tt) → wp victimM (p ≫= k) Q (λ _ _, True) tt.
Proof. intros H. apply wp_bind. apply wp_any; [done|by intros a []|done]. Qed.

(** What a victim may do: die of the access, or tell it was reached only before
    it exits with 0. *)
Definition honest (P : ∀ B, gop B → Prop) (tr : list (event gop)) (out : outcome unit) : Prop :=
  contains (output tr) reached = true →
  match out with
  | Exited n => n = 0
  | Returned _ => True
  | Stopped => ∃ tr' B (o : gop B), tr = tr' ++ [Ev o None] ∧ (mem_access o → P B o)
  end.
Lemma expectDeath_wp what mode args P :
  (∀ fuel tr out, runs (RunVictim T page fuel mode args) tr out → honest P tr out) →
  wp victimM (expectDeath T what mode args) (λ e _, e = None → died_at mode args P) (λ _ _, True) tt.
Proof.
  intros Hv. unfold expectDeath, with_victim, runVictim. apply wp_bind, wp_bind, wp_call; [exact I|]. intros self _.
  apply wp_bind, wp_call; [exact I|]. intros [c seen] Ha. cbn [wp victimM m_obs].
  assert (∀ rc, status_of c = Some rc → wp victimM
    (guard (negb (contains seen reached)) (mode +:+ " never got as far as the thing under test: rc=" +:+ itoa rc +:+ " out=" +:+ quote (trim seen))
      (guard (rc =? 0) (mode +:+ ": " +:+ what)
        (let sig := deathSignal T rc seen in
         guard (negb (sig =? SIGSEGV)) (mode +:+ " died of " +:+ sigText T sig +:+ ", want SIGSEGV: " +:+ trim seen)
           (call (Logf ("SIGSEGV, as required (rc=" +:+ itoa rc +:+ ")")) ;; done_ok))))
    (λ e _, e = None → died_at mode args P) (λ _ _, True) tt) as Hk.
  { intros rc Hrc. unfold guard. destruct (contains seen reached) eqn:Er; [|by intros [=]]. cbn [negb].
    destruct (Z.eqb_spec rc 0) as [->|Hrc0]; [by intros [=]|]. cbv zeta.
    destruct (Z.eqb_spec (deathSignal T rc seen) SIGSEGV) as [Hs|]; [|by intros [=]]. cbn [negb]. apply skip_wp. intros _ _.
    assert (∃ fuel tr out, runs (RunVictim T page fuel mode args) tr out ∧ ended tr out c seen) as (fuel & tr & out & Hr & He).
    { destruct c as [|w|e]; [exact Ha..|done]. }
    specialize (Hv _ _ _ Hr). unfold honest in Hv. destruct out as [u|n|]; cbn [ended] in He.
    - destruct He as [-> ->]. by injection Hrc as <-.
    - destruct He as [-> ->]. specialize (Hv Er). subst n. by injection Hrc as <-.
    - destruct He as [Hc Hmem]. rewrite <-Hc in Hv. destruct (Hv Er) as (tr' & B & o & -> & HP).
      specialize (Hmem _ Hrc Hs). unfold stopped_in_access in Hmem. rewrite last_snoc in Hmem.
      exists fuel, tr', B, o. split; [exact Hr|]. auto. }
  destruct c as [|[n|s|s]|e]; cbn [wp]; [by apply Hk..|by intros [=]].
Qed.

(** Honesty is shown along a run, with what was written so far. *)
Definition textM (P : ∀ B, gop B → Prop) : monitor gop := Monitor gop string
  (λ B o b g, g +:+ written (Ev o (Some b))) (λ B o g, contains g reached = true → mem_access o → P B o) (λ _ _ _ _, True).
Lemma observe_text P tr g : observe (textM P) tr g = g +:+ output tr.
Proof.
  revert g. induction tr as [|[B o [b|]] tr IH]; intros g; cbn [observe output foldr]; [by rewrite app_nil_r_s| |].
  - rewrite IH. cbn [textM m_obs]. by rewrite app_assoc_s.
  - rewrite IH. f_equal. unfold written. cbn. by destruct o.
Qed.
Lemma answered_text P tr g : answered (textM P) tr g.
Proof. revert g. induction tr as [|[B o [b|]] tr IH]; intros g; cbn; auto. Qed.
Lemma honest_wp P (p : guest unit) tr out :
  wp (textM P) p (λ _ _, True) (λ n g, contains g reached = true → n = 0) "" → runs p tr out → honest P tr out.
Proof.
  intros Hw Hr Hc. pose proof (wp_runs _ _ _ _ _ _ _ Hw Hr (answered_text P tr "")) as [_ H].
  destruct out as [u|n|]; [done|by apply H; rewrite observe_text|].
  destruct H as (tr' & B & o & -> & H). exists tr', B, o. split; [done|]. apply H. rewrite observe_text.
  by rewrite app_nil_l_s.
Qed.
(** The texts of the errnos do not say that a victim reached anything. *)
Context (Htexts : ∀ e, contains ("victim: mmap: " +:+ errText T e +:+ nl) reached = false).
Section Honest.
Context (P : ∀ B, gop B → Prop).
Abbreviation E := (λ (n : Z) (g : string), contains g reached = true → n = 0).
Lemma map_honest prot k :
  (∀ b, wp (textM P) (k b) (λ _ _, True) E "") → wp (textM P) (v_map T page prot k) (λ _ _, True) E "".
Proof.
  intros Hk. unfold v_map. apply wp_bind, wp_call; [by intros [=]|]. intros [e|b] _; cbn [textM m_obs].
  - unfold die, say. apply wp_bind, wp_call; [by intros [=]|]. intros [] _. cbn. intros H.
    assert (contains ("victim: mmap: " +:+ errText T e +:+ nl) reached = true) as H' by exact H.
    by rewrite Htexts in H'.
  - apply Hk.
Qed.
Lemma stores_honest {B} (l : list Z) b (k : guest B) (Q : B → string → Prop) :
  wp (textM P) k Q E "" → wp (textM P) (store_bytes b l ≫= λ _, k) Q E "".
Proof.
  intros Hk. apply wp_bind. eapply (wp_mono (textM P) _ (λ _ (g : string), g = "") _ E); [|by intros [] g ->|done].
  apply (wp_each (textM P) (λ g : string, g = "")); [done|]. intros x g _ ->.
  apply wp_call; [by intros [=]|]. by intros [] _.
Qed.
Lemma access_honest (s : string) {B} (o : gop B) (k : B → guest unit) :
  P B o → (∀ b g, wp (textM P) (k b) (λ _ _, True) E g) →
  wp (textM P) (say ("reached " +:+ s) ;; b ← call o; k b) (λ _ _, True) E "".
Proof.
  intros HP Hk. unfold say. apply wp_bind, wp_call; [by intros [=]|]. intros [] _. apply wp_bind, wp_call; [by intros _ _|].
  intros b _. apply Hk.
Qed.
Lemma die_honest s g : wp (textM P) (die s 0) (λ _ _, True) E g.
Proof. unfold die, say. apply wp_bind, wp_call; [by intros _ []|]. by intros [] _. Qed.
End Honest.

(** The accesses the victims are to die of. *)
Inductive call_at : ∀ B, gop B → Prop := a_call addr : call_at unit (CallAddr addr).
Inductive read_at (v : Z) : ∀ B, gop B → Prop := a_read : read_at v Z (ReadAddr v).
Lemma privinsn_honest name fuel tr out : name ∈ privInsns.*1 →
  runs (RunVictim T page fuel "victim-privinsn" [name]) tr out → honest call_at tr out.
Proof.
  intros Hn. apply honest_wp. change (wp (textM call_at) (victimPrivInsn T page name) (λ _ _, True) (λ n g, contains g reached = true → n = 0) "").
  assert (∃ l, insn_code name = Some l) as [l Hl].
  { revert Hn. unfold privInsns. cbn [fmap list_fmap fst]. intros Hn.
    repeat (apply elem_of_cons in Hn as [-> |Hn]; [eexists; vm_compute; reflexivity|]). by apply not_elem_of_nil in Hn. }
  unfold victimPrivInsn. rewrite Hl. apply map_honest. intros b. apply stores_honest, access_honest; [constructor|].
  intros [] g. apply die_honest.
Qed.
Lemma execpage_honest prot fuel tr out :
  runs (RunVictim T page fuel "victim-execpage" [prot]) tr out → honest call_at tr out.
Proof.
  apply honest_wp. change (wp (textM call_at) (victimExecPage T page prot) (λ _ _, True) (λ n g, contains g reached = true → n = 0) "").
  unfold victimExecPage. apply map_honest. intros b. apply wp_bind, wp_call; [by intros [=]|]. intros [] _.
  apply (access_honest call_at (prot +:+ " page")); [constructor|]. by intros [] g.
Qed.
Lemma readaddr_honest v fuel tr out : 0 <= v < 2 ^ 64 →
  runs (RunVictim T page fuel "victim-readaddr" [fmt_hash_x v]) tr out → honest (read_at v) tr out.
Proof.
  intros Hv. apply honest_wp.
  change (wp (textM (read_at v)) (victimReadAddr T (fmt_hash_x v)) (λ _ _, True) (λ n g, contains g reached = true → n = 0) "").
  unfold victimReadAddr, fmt_hash_x at 1. rewrite trim_prefix_app. unfold parse_hex, fmt_x at 1. rewrite unradix_radix by done.
  destruct (N.ltb_spec (Z.to_N v) (2 ^ 64)); [|lia]. rewrite Z2N.id by lia. apply access_honest; [constructor|].
  intros x g. apply die_honest.
Qed.
Lemma scan_x_range a v : scan_x a = Some v → 0 <= v < 2 ^ 64.
Proof. unfold scan_x. destruct (unradix 16 _) as [n|]; [|done]. destruct (Z.ltb_spec (Z.of_N n) (2 ^ 64)); [|done]. intros [= <-]. lia. Qed.
Lemma kernel_text_range raw base : kernel_text T raw = inr base → 0 <= base < 2 ^ 64.
Proof.
  unfold kernel_text. destruct raw as [e|t]; [done|]. destruct (hd_error _) as [a|]; [|done].
  destruct (scan_x a) as [v|] eqn:E; [|done]. intros [= <-]. by eapply scan_x_range.
Qed.

(** A case passes: some run of it, whose victims are runs of the victims'
    programs, ends without an error. *)
Definition passes (p : body) : Prop := ∃ tr, runs p tr (Returned None) ∧ answered victimM tr tt.
Lemma passes_wp (p : body) (P : Prop) : wp victimM p (λ e _, e = None → P) (λ _ _, True) tt → passes p → P.
Proof. intros Hw (tr & Hr & Ha). destruct (wp_runs _ _ _ _ _ _ _ Hw Hr Ha) as [_ H]. by apply H. Qed.
Definition read_dies (v : Z) : Prop := died_at "victim-readaddr" [fmt_hash_x v] (read_at v).
Lemma read_denied_wp what v : 0 <= v < 2 ^ 64 →
  wp victimM (read_denied T what v) (λ e _, e = None → read_dies v) (λ _ _, True) tt.
Proof. intros Hv. apply expectDeath_wp. intros fuel tr out. by apply readaddr_honest. Qed.

(** C3: Each of the five kinds of case that are written with [expectDeath] --
    security/priv-insn/<name> for every name of the table, exec-noexec-page,
    kernel-text, host-window and noncanonical-read -- passes only when a victim
    process was started for it, got as far as the access, and died of it: the
    privileged instruction or the page without execute permission it called, or
    the byte it read of the guest's kernel (at the address that kallsyms gave,
    which is not 0), of the host's window or of the hole between them.  An access
    that comes back, a victim that ends any other way and one that never got
    there are errors of these cases.  The other cases of the security suite are
    not spoken of: pkey-denied also passes when its victim exits with 77, no
    protection keys, and mmap-boundary, uaccess-boundary, mmap-noreplace and
    syscall-garbage look at errnos and have no victim. *)
Theorem security_denied :
  (∀ name, name ∈ privInsns.*1 → passes (priv_insn T name) → died_at "victim-privinsn" [name] call_at) ∧
  (passes (exec_noexec_page T) → died_at "victim-execpage" ["rw"] call_at) ∧
  (passes (kernel_text_denied T) → ∃ kallsyms base, kernel_text T kallsyms = inr base ∧ base ≠ 0 ∧ read_dies base) ∧
  (passes (host_window T) → read_dies hostText) ∧
  (passes (noncanonical_read T) → read_dies firstNoncanonical).
Proof.
  split_and!.
  - intros name Hn. apply passes_wp, expectDeath_wp. intros fuel tr out. by apply privinsn_honest.
  - apply passes_wp, expectDeath_wp. intros fuel tr out. apply execpage_honest.
  - apply passes_wp. unfold kernel_text_denied, KernelTextBase. apply wp_bind, wp_bind, wp_call; [exact I|]. intros raw _. cbn [wp].
    destruct (kernel_text T raw) as [e|base] eqn:Eb; [by intros [=]|]. cbn [or_else]. unfold guard.
    destruct (Z.eqb_spec base 0) as [|Hb]; [by intros [=]|]. apply skip_wp. intros _.
    eapply wp_mono; [apply read_denied_wp; by eapply kernel_text_range| |done]. intros e g H He. exists raw, base. auto.
  - apply passes_wp. unfold host_window. apply skip_wp. intros r. apply skip_wp. intros _. by apply read_denied_wp.
  - apply passes_wp. by apply read_denied_wp.
Qed.
End Denied.

(** ** A guest that denies what it must *)
Definition demo_texts : texts := {|
  errText := λ _, "invalid argument"; sigText := λ s, "signal " +:+ itoa s; scanText := λ a, "expected integer"; durText := itoa; gText := fmt_6g |}.
Definition crash : string := "unexpected fault address" +:+ nl +:+ "[signal SIGSEGV: segmentation violation code=0x80 addr=0x0]" +:+ nl.
Definition victim_machine B (o : gop B) : option B :=
  match o in gop B return option B with
  | Mmap _ _ _ _ => Some (inr 0x10000)
  | Store _ _ => Some tt
  | Stderr _ => Some tt
  | _ => None
  end.
Definition hlt_run : list (event gop) * outcome unit := drive victim_machine (RunVictim demo_texts 4096 0 "victim-privinsn" ["hlt"]).
Definition deny_machine B (o : gop B) : option B :=
  match o in gop B return option B with
  | Executable => Some None
  | RunSelf _ => Some (Child_status (WExited 2), output hlt_run.1 +:+ crash)
  | Logf _ => Some tt
  | _ => None
  end.
Lemma demo_texts_quiet e : contains ("victim: mmap: " +:+ errText demo_texts e +:+ nl) "victim: reached" = false.
Proof. vm_compute. reflexivity. Qed.
Lemma hlt_ended : ended demo_texts hlt_run.1 hlt_run.2 (Child_status (WExited 2)) (output hlt_run.1 +:+ crash).
Proof.
  assert (hlt_run.2 = Stopped) as -> by (vm_compute; reflexivity). split; [vm_compute; reflexivity|].
  intros rc _ _. unfold stopped_in_access. vm_compute. exact I.
Qed.
Lemma security_denied_witness :
  passes demo_texts 4096 (priv_insn demo_texts "hlt") ∧ died_at demo_texts 4096 "victim-privinsn" ["hlt"] call_at.
Proof.
  assert (passes demo_texts 4096 (priv_insn demo_texts "hlt")) as Hp.
  { pose proof (drive_runs deny_machine (priv_insn demo_texts "hlt")) as Hr.
    assert (drive deny_machine (priv_insn demo_texts "hlt") =
      ([Ev Executable (Some None);
        Ev (RunSelf ["/init"; "victim-privinsn"; "hlt"]) (Some (Child_status (WExited 2), output hlt_run.1 +:+ crash));
        Ev (Logf "SIGSEGV, as required (rc=2)") (Some tt)], Returned None)) as H2 by (vm_compute; reflexivity).
    rewrite H2 in Hr. eexists. split; [exact Hr|]. split; [exact I|]. split; [|by split].
    exists 0%nat, hlt_run.1, hlt_run.2. split; [apply drive_runs|exact hlt_ended]. }
  split; [exact Hp|]. apply (proj1 (security_denied demo_texts 4096 demo_texts_quiet)); [vm_compute; left|exact Hp].
Defined.

(** ** Memory *)
Section Memory.
Context (T : texts) (page : Z).
(** What was stored last at each address, what is mapped and not yet given back,
    and whether a load answered something else than what was stored. *)
Record mstate := { m_mem : gmap Z Z; m_maps : list (Z * Z); m_bad : bool }.
Definition mem0 : mstate := {| m_mem := ∅; m_maps := []; m_bad := false |}.
Definition mem_obs B (o : gop B) : B → mstate → mstate :=
  match o with
  | Store a v => λ _ g, {| m_mem := <[a := v]> (m_mem g); m_maps := m_maps g; m_bad := m_bad g |}
  | Load a => λ x g, {| m_mem := m_mem g; m_maps := m_maps g; m_bad := m_bad g || negb (bool_decide (m_mem g !! a = Some x)) |}
  | Mmap _ len _ _ => λ r g,
      match r with
      | inr b => {| m_mem := m_mem g; m_maps := (b, len) :: m_maps g; m_bad := m_bad g |}
      | inl _ => g
      end
  | Munmap b len => λ _ g, {| m_mem := m_mem g; m_maps := filter (λ p, p ≠ (b, len)) (m_maps g); m_bad := m_bad g |}
  | _ => λ _ g, g
  end.
Definition memM : monitor gop := Monitor gop mstate mem_obs (λ _ _ _, True) (λ _ _ _ _, True).
Abbreviation wpm p Q g := (wp memM p Q (λ _ _, True) g).
Abbreviation stored b offs v g := (∀ i, i ∈ offs → m_mem g !! (b + i) = Some (v i)).

Lemma store_wp {B} a v (k : guest B) Q g :
  wpm k Q {| m_mem := <[a := v]> (m_mem g); m_maps := m_maps g; m_bad := m_bad g |} → wpm (call (Store a v) ;; k) Q g.
Proof. intros H. apply wp_bind, wp_call; [done|]. by intros [] _. Qed.
Lemma touch_wp b offs v g :
  wpm (touch b offs v) (λ _ g', m_maps g' = m_maps g ∧ m_bad g' = m_bad g ∧ stored b offs v g' ∧
    ∀ a x, m_mem g !! a = Some x → m_mem g' !! a = Some x ∨ ∃ i, i ∈ offs ∧ a = b + i) g.
Proof.
  unfold touch. revert g. induction offs as [|i offs IH]; intros g; cbn [each].
  { cbn. split_and!; [done..|intros i Hi; by apply not_elem_of_nil in Hi|by left]. }
  apply store_wp. eapply wp_mono; [apply IH| |done]. intros [] g'. cbn [m_mem m_maps m_bad]. intros (Hm & Hb & Hs & Hk).
  split_and!; [done..| |].
  - intros j [-> |Hj]%elem_of_cons; [|by apply Hs].
    destruct (Hk (b + i) (v i)) as [?|(j & Hj & Ej)]; [by rewrite lookup_insert_eq|done|].
    assert (i = j) as -> by lia. by apply Hs.
  - intros a x Hx. destruct (decide (a = b + i)) as [->|Hne]; [right; exists i; split; [by left|done]|].
    destruct (Hk a x) as [?|(j & Hj & Ej)]; [by rewrite lookup_insert_ne|by left|right; exists j; split; [by right|done]].
Qed.
(** A byte that is read back as it was stored, or an error. *)
Lemma expect_wp a v e g : m_mem g !! a = Some v → wpm (expect_byte a v e) (λ r g', r = None → g' = g) g.
Proof.
  intros Ha. unfold expect_byte. apply wp_bind, wp_call; [done|]. intros x _. unfold guard.
  destruct (Z.eqb_spec x v) as [->|]; [|by intros [=]]. intros _. cbn. rewrite Ha, bool_decide_eq_true_2 by done.
  rewrite orb_false_r. by destruct g.
Qed.
Lemma each_ok_wp {A} (I : mstate → Prop) (l : list A) f g :
  I g → (∀ x g, x ∈ l → I g → wpm (f x) (λ r g', r = None → I g') g) → wpm (each_ok l f) (λ r g', r = None → I g') g.
Proof.
  revert g. induction l as [|x l IH]; intros g HI Hf; cbn [each_ok]; [by intros _|]. unfold andthen. apply wp_bind.
  eapply wp_mono; [apply Hf; [left|done]| |done]. intros [e|] g' H; [by intros [=]|]. apply IH; [by apply H|].
  intros y g'' Hy. apply Hf. by right.
Qed.
Lemma verify_wp b offs v e g : stored b offs v g → wpm (verify b offs v e) (λ r g', r = None → g' = g) g.
Proof.
  intros Hs. unfold verify. apply (each_ok_wp (λ g', g' = g)); [done|]. intros i g' Hi ->. by apply expect_wp, Hs.
Qed.
Lemma must_wp (p : guest errno) pre k Q g :
  wpm p (λ _ g', wpm k Q g' ∧ ∀ e, Q (Some e) g') g → wpm (must T p pre k) Q g.
Proof.
  intros Hp. unfold must. apply wp_bind. eapply wp_mono; [exact Hp| |done]. intros e g' [Hk Hf].
  destruct (e =? 0); [exact Hk|apply Hf].
Qed.
(** What a case is to leave: nothing mapped, and only right bytes seen. *)
Definition sound (r : option string) (g : mstate) : Prop := r = None → m_bad g = false ∧ m_maps g = [].
Definition mapped b len (g : mstate) : Prop := m_bad g = false ∧ m_maps g = [(b, len)].
Lemma map_wp len pre k g : m_bad g = false → m_maps g = [] →
  (∀ b g, mapped b len g → wpm (k b) sound g) → wpm (map_rw T len pre k) sound g.
Proof.
  intros Hb Hm Hk. unfold map_rw. apply wp_bind, wp_call; [done|]. intros [e|b] _; cbn [or_else]; [by intros [=]|].
  apply Hk. split; [done|]. cbn. by rewrite Hm.
Qed.
Lemma filter_self (p : Z * Z) : filter (λ q, q ≠ p) [p] = [].
Proof. rewrite filter_cons_False; [done|]. intros H. by apply H. Qed.
Lemma unmap_sound b len pre g : mapped b len g → wpm (must T (call (Munmap b len)) pre done_ok) sound g.
Proof.
  intros [Hb Hm]. apply must_wp, wp_call; [done|]. intros e _. split; [|by intros e' [=]].
  intros _. cbn. rewrite Hm. split; [done|apply filter_self].
Qed.
Lemma freed_sound b len k g : wpm k (λ r g', r = None → mapped b len g') g → wpm (deferred k (freed b len)) sound g.
Proof.
  intros Hk. unfold deferred, freed. apply wp_bind. eapply wp_mono; [exact Hk| |done]. intros r g' H. apply wp_bind, wp_bind, wp_call; [done|].
  intros e _ Hr. destruct (H Hr) as [Hb Hm]. cbn. rewrite Hm. split; [done|apply filter_self].
Qed.
(** Pages written, read back and given back. *)
Lemma pages_sound b len offs v e k g : mapped b len g → (∀ g, mapped b len g → wpm k sound g) →
  wpm (touch b offs v ;; andthen (verify b offs v e) k) sound g.
Proof.
  intros [Hb Hm] Hk. apply wp_bind. eapply wp_mono; [apply touch_wp| |done]. intros [] g' (Hm' & Hb' & Hs & _).
  unfold andthen. apply wp_bind. eapply wp_mono; [by apply verify_wp| |done]. intros [x|] g'' H; [by intros [=]|].
  rewrite (H eq_refl). apply Hk. split; congruence.
Qed.

Lemma protect_wp b len prot pre k (Q : option string → mstate → Prop) g :
  (∀ e, Q (Some e) g) → wpm k Q g → wpm (must T (call (Mprotect b len prot)) pre k) Q g.
Proof. intros He Hk. apply must_wp, wp_call; [done|]. intros e _. by split. Qed.
Lemma anon_sound : wpm (mm_anon_mmap T page) sound mem0.
Proof. unfold mm_anon_mmap. apply map_wp; [done..|]. intros b g Hg. eapply pages_sound; [exact Hg|]. intros g'. by apply unmap_sound. Qed.
Lemma mprotect_sound : wpm (mm_mprotect T page) sound mem0.
Proof.
  unfold mm_mprotect. apply map_wp; [done..|]. intros b g [Hb Hm]. apply freed_sound, store_wp, protect_wp; [by intros e [=]|].
  unfold andthen. apply wp_bind. eapply wp_mono; [apply expect_wp; cbn; apply lookup_insert_eq| |done].
  intros [e|] g' H; [by intros [=]|]. rewrite (H eq_refl). apply protect_wp; [by intros e [=]|]. apply store_wp.
  eapply wp_mono; [apply expect_wp; cbn; apply lookup_insert_eq| |done]. intros r g'' H' Hr. rewrite (H' Hr). by split.
Qed.
Lemma victim_wp mode args k (Q : option string → mstate → Prop) g :
  (∀ e, Q (Some e) g) → (∀ rc out, wpm (k rc out) Q g) → wpm (with_victim mode args k) Q g.
Proof.
  intros He Hk. unfold with_victim, runVictim. apply wp_bind, wp_bind, wp_call; [done|]. intros self _.
  apply wp_bind, wp_call; [done|]. intros [c seen] _. destruct c as [|[n|s|s]|e]; cbn [wp]; [apply Hk..|apply He].
Qed.
Lemma fork_cow_sound : wpm (mm_fork_cow T page) sound mem0.
Proof.
  unfold mm_fork_cow. apply map_wp; [done..|]. intros b g [Hb Hm]. apply freed_sound, wp_bind.
  eapply wp_mono; [apply touch_wp| |done]. intros [] g' (Hm' & Hb' & Hs & _). apply victim_wp; [by intros e [=]|]. intros rc out.
  eapply wp_mono; [by apply verify_wp| |done]. intros r g'' H Hr. rewrite (H Hr). split; congruence.
Qed.
Lemma churn_sound : wpm (mm_churn T page) sound mem0.
Proof.
  unfold mm_churn. apply (each_ok_wp (λ g, m_bad g = false ∧ m_maps g = [])); [done|]. intros i g _ [Hb Hm].
  unfold churn_round. cbv zeta. apply map_wp; [done..|]. intros b g' Hg. eapply pages_sound; [exact Hg|]. intros g''. by apply unmap_sound.
Qed.
Lemma noreplace_sound : wpm (mmap_noreplace T page) sound mem0.
Proof.
  unfold mmap_noreplace. apply map_wp; [done..|]. intros b g [Hb Hm]. apply freed_sound, store_wp, wp_bind, wp_call; [done|].
  intros [e|x] _; cbv zeta; unfold guard; [|by intros [=]]. destruct (negb (e =? EEXIST)); [by intros [=]|].
  eapply wp_mono; [apply expect_wp; cbn; apply lookup_insert_eq| |done]. intros r g'' H Hr. rewrite (H Hr). by split.
Qed.
(** A round of a goroutine: pages mapped, written, read back and given back,
    whatever they read. *)
Lemma round_sound len pre v e pre' g : m_bad g = false → m_maps g = [] →
  wpm (map_rw T len pre (λ b, touch b (offsets len page) v ;;
    x ← verify b (offsets len page) v e;
    match x with
    | Some x => call (Munmap b len) ;; fail x
    | None => must T (call (Munmap b len)) pre' done_ok
    end)) sound g.
Proof.
  intros Hb Hm. apply map_wp; [done..|]. intros b g' [Hb' Hm']. apply wp_bind.
  eapply wp_mono; [apply touch_wp| |done]. intros [] g1 (Hm1 & Hb1 & Hs & _). apply wp_bind.
  eapply wp_mono; [by apply verify_wp| |done]. intros [x|] g2 H.
  - apply wp_bind, wp_call; [done|]. by intros y _ [=].
  - rewrite (H eq_refl). apply unmap_sound. split; congruence.
Qed.
Lemma rounds_sound (l : list Z) f g : m_bad g = false → m_maps g = [] →
  (∀ r g, m_bad g = false → m_maps g = [] → wpm (f r) sound g) → wpm (each_ok l f) sound g.
Proof. intros Hb Hm Hf. apply (each_ok_wp (λ g, m_bad g = false ∧ m_maps g = [])); [done|]. intros r g' _ [? ?]. by apply Hf. Qed.
Lemma storm_sound w : wpm (storm_worker T page w) sound mem0.
Proof. apply rounds_sound; [done..|]. intros r g Hb Hm. by apply round_sound. Qed.
Lemma fault_worker_sound i : wpm (fault_worker T page i) sound mem0.
Proof.
  unfold fault_worker, andthen, pinWorker. apply wp_bind, wp_bind, wp_call; [done|]. intros [] _.
  destruct (1024 <=? i); [by split; [|intros []]|]. apply must_wp, wp_call; [done|]. intros e _. split; [|by intros e' [=]].
  cbn [wp done_ok]. apply rounds_sound; [done..|]. intros r g Hb Hm. by apply round_sound.
Qed.

(** C4: A case that writes memory and reads it back passes only when every byte
    it read was the one stored there last, through the changes of protection,
    the copies on write and the mappings before it, and then it has given back
    everything it mapped; so does each goroutine of the fault storm, and of the
    parallel churn. *)
Theorem memory_cases_sound ncpu p tr :
  p ∈ [mm_anon_mmap T page; mm_mprotect T page; mm_fork_cow T page; mm_churn T page; mmap_noreplace T page] ++
      (storm_worker T page <$> seqZ 0 4) ++ (fault_worker T page <$> every_cpu ncpu) →
  runs p tr (Returned None) → m_bad (observe memM tr mem0) = false ∧ m_maps (observe memM tr mem0) = [].
Proof.
  intros Hin Hr. assert (∀ tr g, answered memM tr g) as Hany.
  { intros t. induction t as [|[B o [b|]] t IH]; intros g; cbn; auto. }
  assert (wpm p sound mem0) as Hw.
  { apply elem_of_app in Hin as [Hin|[(w & -> & _)%list_elem_of_fmap|(w & -> & _)%list_elem_of_fmap]%elem_of_app];
      [|apply storm_sound|apply fault_worker_sound]. rewrite !elem_of_cons in Hin.
    destruct Hin as [->|[->|[->|[->|[->|Hin]]]]]; [apply anon_sound|apply mprotect_sound|apply fork_cow_sound|apply churn_sound
      |apply noreplace_sound|by apply not_elem_of_nil in Hin]. }
  destruct (wp_runs memM _ _ _ _ _ _ Hw Hr (Hany _ _)) as [_ H]. by apply H.
Qed.
End Memory.

(** A machine whose memory keeps what is stored. *)
Definition memory_machine B (m : gmap Z Z) (o : gop B) : option (B * gmap Z Z) :=
  match o in gop B return option (B * gmap Z Z) with
  | Mmap _ _ _ _ => Some (inr 0x10000, m)
  | Munmap _ _ => Some (0, m)
  | Mprotect _ _ _ => Some (0, m)
  | Store a v => Some (tt, <[a := v]> m)
  | Load a => Some (default 0 (m !! a), m)
  | _ => None
  end.
Lemma memory_cases_sound_witness :
  let r := drive_with memory_machine ∅ (mm_mprotect demo_texts 4096) in
  r.2 = Returned None ∧ (0 < length (omap (λ e, match ev_op e with Load _ => Some e | _ => None end) r.1))%nat ∧
  m_bad (observe memM r.1 mem0) = false ∧ m_maps (observe memM r.1 mem0) = [].
Proof.
  intros r. assert (r.2 = Returned None) as Hr by (vm_compute; reflexivity). split; [exact Hr|]. split; [vm_compute; lia|].
  apply (memory_cases_sound demo_texts 4096 2 (mm_mprotect demo_texts 4096)); [right; left|].
  rewrite <-Hr. apply drive_with_runs.
Defined.

(** ** The walk over the CPUs *)
(** Whether the thread is locked, the affinity it came with, and the masks it
    asked for. *)
Record wstate := { w_locked : bool; w_orig : option (list Z); w_asked : list (list Z) }.
Definition walk0 : wstate := {| w_locked := false; w_orig := None; w_asked := [] |}.
Definition walk_obs B (o : gop B) : B → wstate → wstate :=
  match o with
  | LockOSThread => λ _ g, {| w_locked := true; w_orig := w_orig g; w_asked := w_asked g |}
  | UnlockOSThread => λ _ g, {| w_locked := false; w_orig := w_orig g; w_asked := w_asked g |}
  | Getaffinity => λ r g,
      match r with inr m => {| w_locked := w_locked g; w_orig := Some m; w_asked := w_asked g |} | inl _ => g end
  | Setaffinity m => λ _ g, {| w_locked := w_locked g; w_orig := w_orig g; w_asked := w_asked g ++ [m] |}
  | _ => λ _ g, g
  end.
Definition walkM : monitor gop := Monitor gop wstate walk_obs (λ _ _ _, True) (λ _ _ _ _, True).
Definition stays B (o : gop B) : Prop :=
  match o with LockOSThread | UnlockOSThread | Getaffinity | Setaffinity _ => False | _ => True end.
Section Walk.
Context (T : texts) {S : Type} (fn : Z → S → guest (option string * S)).
Context (Hfn : ∀ cpu st, all_ops stays (fn cpu st)).
Abbreviation wpw p Q g := (wp walkM p Q (λ _ _, True) g).
Lemma stays_wp {A} (p : guest A) g : all_ops stays p → wpw p (λ _ g', g' = g) g.
Proof.
  intros Hp. induction p as [a|n|B o k IH]; cbn [wp all_ops] in *; [done..|]. destruct Hp as [Ho Hk]. split; [exact I|].
  intros b _. assert (walk_obs B o b g = g) as Hg by (by destruct o). cbn [walkM m_obs]. rewrite Hg. by apply IH.
Qed.
Lemma cpu_loop_wp cpus st g :
  wpw (cpu_loop T fn cpus st) (λ r g', w_locked g' = w_locked g ∧ w_orig g' = w_orig g ∧
    ∃ k, w_asked g' = w_asked g ++ (one_cpu <$> take k cpus) ∧ (r.1 = None → take k cpus = cpus)) g.
Proof.
  revert st g. induction cpus as [|cpu cpus IH]; intros st g; cbn [cpu_loop].
  { split_and!; [done..|]. exists 0%nat. by rewrite app_nil_r. }
  apply wp_bind. unfold on_cpu. apply wp_bind, wp_call; [done|]. intros e _.
  set (g1 := m_obs walkM (Setaffinity (one_cpu cpu)) e g).
  assert (∀ s st', wpw (Ret (Some s, st') : guest (option string * S)) (λ r g', w_locked g' = w_locked g ∧ w_orig g' = w_orig g ∧
    ∃ k, w_asked g' = w_asked g ++ (one_cpu <$> take k (cpu :: cpus)) ∧ (r.1 = None → take k (cpu :: cpus) = cpu :: cpus)) g1) as Hend.
  { intros s st'. split_and!; [done..|]. exists 1%nat. by rewrite firstn_cons, firstn_O. }
  destruct (e =? 0); [|apply Hend]. eapply wp_mono; [by apply stays_wp| |done]. intros [[s|] st'] g' ->; [apply Hend|].
  eapply wp_mono; [apply IH| |done]. intros r g' (Hl & Ho & k & Ha & Hr). split_and!; [exact Hl|exact Ho|].
  exists (Datatypes.S k). rewrite firstn_cons. split; [rewrite Ha; cbn; by rewrite <-app_assoc|]. intros H. by rewrite Hr.
Qed.

(** However a walk over the CPUs ends, with an error of its own or of what
    it does on each, the thread is unlocked again and the last affinity it asked
    for is the one it came with; until then it was pinned to the CPUs of that
    mask, one at a time and in increasing order, and to all of them when there
    was no error. *)
Theorem onEachCPU_restores st tr r :
  runs (onEachCPU T st fn) tr (Returned r) →
  let g := observe walkM tr walk0 in
  w_locked g = false ∧
  match w_orig g with
  | None => w_asked g = [] ∧ is_Some r.1
  | Some orig => ∃ k, w_asked g = (one_cpu <$> take k (cpus_of orig)) ++ [orig] ∧ (r.1 = None → take k (cpus_of orig) = cpus_of orig)
  end.
Proof.
  intros Hr. assert (∀ tr g, answered walkM tr g) as Hany.
  { intros t. induction t as [|[B o [b|]] t IH]; intros g; cbn; auto. }
  assert (wpw (onEachCPU T st fn) (λ r g, w_locked g = false ∧
    match w_orig g with
    | None => w_asked g = [] ∧ is_Some r.1
    | Some orig => ∃ k, w_asked g = (one_cpu <$> take k (cpus_of orig)) ++ [orig] ∧ (r.1 = None → take k (cpus_of orig) = cpus_of orig)
    end) walk0) as Hw.
  { unfold onEachCPU, deferred. apply wp_bind, wp_call; [done|]. intros [] _. apply wp_bind, wp_bind, wp_call; [done|].
    intros [e|orig] _; [apply wp_bind, wp_call; [done|]; intros [] _; split; [done|]; split; [done|by eexists]|].
    apply wp_bind. eapply wp_mono; [apply cpu_loop_wp| |done]. intros r' g (_ & Ho & k & Ha & Hk).
    apply wp_bind, wp_bind, wp_call; [done|]. intros e _. apply wp_bind, wp_call; [done|]. intros [] _.
    cbn in *. split; [done|]. rewrite Ho, Ha. by exists k. }
  destruct (wp_runs walkM _ _ _ _ _ _ Hw Hr (Hany _ _)) as [_ H]. exact H.
Qed.
End Walk.

(** Two CPUs, the second of which the thread cannot be pinned to. *)
Definition two_cpus B (o : gop B) : option B :=
  match o in gop B return option B with
  | Getaffinity => Some (inr [6])
  | Setaffinity m => Some (if decide (m = one_cpu 2) then 22 else 0)
  | LockOSThread => Some tt
  | UnlockOSThread => Some tt
  | Now => Some 7
  | _ => None
  end.
Lemma onEachCPU_restores_witness :
  let r := drive two_cpus (onEachCPU demo_texts None (cross_cpu_step demo_texts)) in
  r.2 = Returned (Some "pinning to cpu 2: invalid argument", Some 7) ∧
  w_locked (observe walkM r.1 walk0) = false ∧ w_asked (observe walkM r.1 walk0) = [one_cpu 1; one_cpu 2; [6]].
Proof.
  intros r. assert (r.2 = Returned (Some "pinning to cpu 2: invalid argument", Some 7)) as Hr by (vm_compute; reflexivity).
  split; [exact Hr|]. split; [|vm_compute; reflexivity].
  apply (onEachCPU_restores demo_texts (cross_cpu_step demo_texts)) with (st := None) (r := (Some "pinning to cpu 2: invalid argument", Some 7)).
  - intros cpu st. unfold cross_cpu_step. apply all_ops_bind; [by split|]. intros now. destruct st as [p|]; [by destruct (now <? p)|done].
  - rewrite <- Hr. apply drive_runs.
Defined.

(** The churn starts eight children in each of its rounds, 304 where it reports
    300. *)
Example churn_starts : (length (offsets churn_rounds churn_parallel) * Z.to_nat churn_parallel)%nat = 304%nat ∧ churn_rounds = 300.
Proof. vm_compute. done. Qed.
