(* ===== verification/CaseList.v ===== *)
(** * The list of the guest's cases

    What [Register] registers is what the rest of the development assumes of the
    cases of a guest: the log parser reads their names, a command line carries
    them, and the order in which Go iterates over a map does not show. *)
From Stdlib Require Import Ascii.
From S2P Require Import Prelude GoStrings Regexp EndToEnd Harness GuestLog CaseOps GuestCases Registry Victims.

(** Lists of the same things, told apart by a key, in the order of the keys. *)
Lemma same_keys {A B} (f : A → B) (l1 l2 : list A) :
  NoDup (f <$> l1) → l1 ≡ₚ l2 → f <$> l1 = f <$> l2 → l1 = l2.
Proof.
  intros Hnd Hp Hk. apply list_eq. intros i. pose proof (f_equal (λ l, l !! i) Hk) as Hi. cbn in Hi. rewrite !list_lookup_fmap in Hi.
  destruct (l1 !! i) as [x|] eqn:E1, (l2 !! i) as [y|] eqn:E2; try done. cbn in Hi. injection Hi as Hi. f_equal.
  assert (y ∈ l1) as [j Hj]%list_elem_of_lookup by (rewrite Hp; by eapply list_elem_of_lookup_2).
  assert (i = j) as ->; [|congruence].
  eapply NoDup_lookup; [exact Hnd|rewrite list_lookup_fmap, E1; reflexivity|rewrite list_lookup_fmap, Hj; cbn; by rewrite Hi].
Qed.
Abbreviation by_name := (sort_stable (λ a b : Case, str_less (Name a) (Name b))).
#[export] Instance by_name_strict : StrictWeak (λ a b : Case, str_less (Name a) (Name b)).
Proof. split; intros *; [apply (less_asym str_less)|apply (less_neg_trans str_less)]. Qed.
Lemma names_sorted l : StronglySorted (not_after str_less) (Name <$> by_name l).
Proof.
  pose proof (sort_stable_sorted (λ a b : Case, str_less (Name a) (Name b)) l) as H.
  induction H as [|c l' Hs IH Hall]; cbn; [constructor|]. constructor; [exact IH|]. apply Forall_fmap. exact Hall.
Qed.
(** Cases whose names differ are sorted in one way only. *)
Lemma by_name_unique l1 l2 : NoDup (Name <$> l1) → l1 ≡ₚ l2 → by_name l1 = by_name l2.
Proof.
  intros Hnd Hp. apply (same_keys Name); [by rewrite sort_stable_perm|by rewrite !sort_stable_perm|].
  assert (AntiSymm (=) (not_after str_less)) as Hanti by (intros a b Ha Hb; by apply str_less_total).
  apply (StronglySorted_unique (not_after str_less)); [apply names_sorted..|]. by rewrite !sort_stable_perm, Hp.
Qed.

Definition with_default (c : Case) : Case :=
  if (Timeout c =? 0)%Z then {| Name := Name c; Suites := Suites c; Timeout := default_timeout |} else c.
Lemma add_all h cs : foldl Add h cs = set_cases h (cases h ++ (with_default <$> cs)).
Proof.
  revert h. induction cs as [|c cs IH]; intros h; cbn [foldl fmap list_fmap]; [by rewrite app_nil_r; destruct h|].
  rewrite IH. unfold Add, set_cases. cbn. by rewrite <-app_assoc.
Qed.
Lemma with_default_name c : Name (with_default c) = Name c.
Proof. unfold with_default. by destruct (_ =? _)%Z. Qed.
(** The order in which the cases are registered does not show in a run. *)
Lemma Run_order durString exec cmdline dev cs1 cs2 : NoDup (Name <$> cs1) → cs1 ≡ₚ cs2 →
  Run durString exec (guest_harness cmdline cs1 dev) = Run durString exec (guest_harness cmdline cs2 dev).
Proof.
  intros Hnd Hp. unfold guest_harness. cbv zeta. rewrite !add_all. unfold Run. set (h := if seqb _ "" then _ else _).
  assert (cases h = []) as Hh by (unfold h; by destruct (seqb _ "")). rewrite Hh. cbn [app].
  assert (by_name (with_default <$> cs1) = by_name (with_default <$> cs2)) as Hs.
  { apply by_name_unique; [|by apply Permutation_map].
    rewrite <-list_fmap_compose. erewrite list_fmap_ext; [exact Hnd|]. intros i c _. apply with_default_name. }
  cbn [cases set_cases]. by rewrite Hs.
Qed.

Section Registered.
Context (T : texts) (page ncpu scale : Z).
Abbreviation registered insns := (g_case <$> Register T page ncpu scale insns).
Definition known_suites : list string := [Smoke; Core; Full; Perf; Security; Scaling].
(** A name the parser of the log reads back, and the command lines carry; and
    suites a command line can ask for. *)
Definition well_named (c : Case) : bool :=
  bool_decide (Name c ≠ "") && all_bytes (in_class name_cl) (Name c) && all_bytes (λ c, negb (is_space c)) (Name c) &&
  no_byte "," (Name c) && no_byte "|" (Name c) && bool_decide (Suites c ≠ []) &&
  forallb (λ s, existsb (seqb s) known_suites) (Suites c).
Lemma registered_perm i1 i2 : i1 ≡ₚ i2 → registered i1 ≡ₚ registered i2.
Proof. intros H. apply Permutation_map. unfold Register, registerSecurity. by rewrite H. Qed.

(** C12: Whatever order Go iterates over the map of privileged instructions in,
    the cases registered have names of their own, which the parser of the log
    reads back whole, which one word of a command line carries and which the
    separators of [cases=] and [pvmtest.only] do not split; each is in a suite
    that can be asked for; and that order changes nothing of a run: which cases
    are selected, in which order they run, what is printed and reported. *)
Theorem registered_cases insns :
  insns ≡ₚ privInsns.*1 →
  NoDup (Name <$> registered insns) ∧
  Forall (λ c, run_of name_cl (Name c) ∧ word (Name c) ∧ no_byte "," (Name c) = true ∧ no_byte "|" (Name c) = true ∧
               Suites c ≠ [] ∧ Forall (λ s, s ∈ known_suites) (Suites c)) (registered insns) ∧
  ∀ durString exec cmdline dev,
    Run durString exec (guest_harness cmdline (registered insns) dev) =
    Run durString exec (guest_harness cmdline (registered privInsns.*1) dev).
Proof.
  intros Hi. pose proof (registered_perm _ _ Hi) as Hp.
  assert (NoDup (Name <$> registered privInsns.*1)) as Hnd by (apply (bool_decide_unpack _); vm_compute; exact I).
  assert (NoDup (Name <$> registered insns)) as Hnd' by (by rewrite Hp).
  split; [exact Hnd'|]. split; [|intros; by apply Run_order].
  assert (forallb well_named (registered privInsns.*1) = true) as Hw by (vm_compute; reflexivity).
  rewrite Hp. apply Forall_forall. intros c Hc. rewrite forallb_forall in Hw. specialize (Hw c). rewrite <-list_elem_of_In in Hw.
  specialize (Hw Hc). unfold well_named in Hw. repeat (apply andb_prop in Hw as [Hw ?]).
  repeat match goal with H : bool_decide _ = true |- _ => apply bool_decide_eq_true in H end.
  split_and!; try done; try by split. apply Forall_forall. intros s Hs.
  match goal with H : forallb _ _ = true |- _ => rewrite forallb_forall in H; specialize (H s); rewrite <-list_elem_of_In in H; specialize (H Hs) end.
  apply existsb_exists in H as (s' & Hs' & ->%seqb_true). by apply list_elem_of_In.
Qed.
End Registered.
Lemma registered_cases_witness :
  let insns := reverse privInsns.*1 in
  insns ≡ₚ privInsns.*1 ∧ NoDup (Name <$> (g_case <$> Register {| errText := λ _, ""; sigText := λ _, ""; scanText := id; durText := λ _, ""; gText := λ _, "" |} 4096 2 1 insns)).
Proof.
  intros insns. assert (insns ≡ₚ privInsns.*1) as H by apply reverse_Permutation. split; [exact H|].
  apply (registered_cases _ 4096 2 1 insns H).
Defined.
