(* ===== verification/CaseHeld.v ===== *)
(** * What a case takes it gives back

    A case runs in PID 1 and the next one in the same process.  A monitor
    follows what the process holds: descriptors, children, mappings, threads
    that are locked, the number of processors Go uses, signals that are
    redirected; and every case of the registry leaves it as it was.  A second
    monitor follows the CPUs the thread may run on: every case gives them back
    but perf/context-switch, which leaves its thread on CPU 0. *)
From Stdlib Require Import Ascii SpecFloat.
From stdpp Require Import gmultiset.
From S2P Require Import Prelude GoStrings Regexp Float64 Harness Prog Flags Init CaseOps GuestCases PerfCases Registry CaseRuns.

#[local] Open Scope Z_scope.

(** [h_dead] are the children that were killed and not yet waited for. *)
Record held := {
  h_fds : gmultiset Z; h_kids : gmultiset Z; h_dead : gmultiset Z; h_maps : gmultiset (Z * Z);
  h_locks : Z; h_procs : Z; h_notify : Z; h_ready : Z }.
Definition with_fds (g : held) x : held := {|
  h_fds := x; h_kids := h_kids g; h_dead := h_dead g; h_maps := h_maps g; h_locks := h_locks g; h_procs := h_procs g;
  h_notify := h_notify g; h_ready := h_ready g |}.
Definition with_kids (g : held) x d : held := {|
  h_fds := h_fds g; h_kids := x; h_dead := d; h_maps := h_maps g; h_locks := h_locks g; h_procs := h_procs g;
  h_notify := h_notify g; h_ready := h_ready g |}.
Definition with_maps (g : held) x : held := {|
  h_fds := h_fds g; h_kids := h_kids g; h_dead := h_dead g; h_maps := x; h_locks := h_locks g; h_procs := h_procs g;
  h_notify := h_notify g; h_ready := h_ready g |}.
Definition with_counts (g : held) l p n r : held := {|
  h_fds := h_fds g; h_kids := h_kids g; h_dead := h_dead g; h_maps := h_maps g; h_locks := l; h_procs := p;
  h_notify := n; h_ready := r |}.
Definition locks_by (g : held) d : held := with_counts g (h_locks g + d) (h_procs g) (h_notify g) (h_ready g).
Definition notes_by (g : held) d : held := with_counts g (h_locks g) (h_procs g) (h_notify g + d) (h_ready g).
Definition opened {E : Type} (r : E + Z) (g : held) : held :=
  match r with inr fd => with_fds g (h_fds g ⊎ {[+ fd +]}) | inl _ => g end.
Definition started {E : Type} (r : E + Z) (g : held) : held :=
  match r with inr pid => with_kids g (h_kids g ⊎ {[+ pid +]}) (h_dead g) | inl _ => g end.
Definition held_obs B (o : gop B) : B → held → held :=
  match o with
  | Open _ _ => opened
  | OpenFile _ _ => opened
  | Pipe => λ r g, match r with inr p => with_fds g (h_fds g ⊎ {[+ p.1 +]} ⊎ {[+ p.2 +]}) | inl _ => g end
  | Close fd => λ _ g, if fd <? 0 then g else with_fds g (h_fds g ∖ {[+ fd +]})
  | StartSelf _ _ => started
  | StartFiles _ _ => started
  | KillWait pid => λ _ g, with_kids g (h_kids g ∖ {[+ pid +]}) (h_dead g)
  | Kill pid sig => λ _ g, if sig =? SIGKILL then with_kids g (h_kids g ∖ {[+ pid +]}) (h_dead g ⊎ {[+ pid +]}) else g
  | Wait4 pid => λ _ g, with_kids g (h_kids g) (h_dead g ∖ {[+ pid +]})
  | Mmap _ len _ _ => λ r g, match r with inr b => with_maps g (h_maps g ⊎ {[+ (b, len) +]}) | inl _ => g end
  | Munmap b len => λ _ g, with_maps g (h_maps g ∖ {[+ (b, len) +]})
  | LockOSThread => λ _ g, locks_by g 1
  | UnlockOSThread => λ _ g, locks_by g (-1)
  | GOMAXPROCS n => λ _ g, with_counts g (h_locks g) n (h_notify g) (h_ready g)
  | Notify _ => λ _ g, notes_by g 1
  | StopNotify => λ _ g, notes_by g (-1)
  | ReadyDone => λ _ g, with_counts g (h_locks g) (h_procs g) (h_notify g) (h_ready g + 1)
  | _ => λ _ g, g
  end.
(** A goroutine says once that it is ready, and waits for the start only then. *)
Definition held_pre B (o : gop B) (g : held) : Prop :=
  match o with ReadyDone => h_ready g = 0 | AwaitStart => h_ready g = 1 | _ => True end.
(** [runtime.GOMAXPROCS] answers the number it replaces; a descriptor is not
    negative. *)
Definition fd_answer {E : Type} (r : E + Z) (_ : held) : Prop := match r with inr fd => 0 ≤ fd | inl _ => True end.
Definition held_ans B (o : gop B) : B → held → Prop :=
  match o with
  | GOMAXPROCS _ => λ old g, old = h_procs g
  | Open _ _ => fd_answer
  | OpenFile _ _ => fd_answer
  | Pipe => λ r _, match r with inr p => 0 ≤ p.1 ∧ 0 ≤ p.2 | inl _ => True end
  | _ => λ _ _, True
  end.
Definition heldM : monitor gop := Monitor gop held held_obs held_pre held_ans.
Abbreviation wph p Q g := (wp heldM p Q (λ _ _, True) g).
(** What was added is taken away. *)
Lemma ms_back `{Countable A} (M N : gmultiset A) : (M ⊎ N) ∖ N = M.
Proof. multiset_solver. Qed.
Lemma ms_back_eq `{Countable A} (M m N : gmultiset A) : m = M ⊎ N → m ∖ N = M.
Proof. intros ->. apply ms_back. Qed.
Lemma ms_none `{Countable A} (M : gmultiset A) : M ∖ ∅ = M.
Proof. multiset_solver. Qed.
Lemma ms_minus `{Countable A} (M N K : gmultiset A) : M ∖ N ∖ K = M ∖ (N ⊎ K).
Proof. multiset_solver. Qed.
Lemma maps_self g : with_maps g (h_maps g) = g.
Proof. by destruct g. Qed.
Lemma fds_self g : with_fds g (h_fds g) = g.
Proof. by destruct g. Qed.
Lemma locks_back g m : locks_by (with_maps (locks_by g 1) m) (-1) = with_maps g m.
Proof. destruct g. unfold locks_by, with_maps, with_counts. cbn. f_equal. lia. Qed.
Lemma notes_back g m : notes_by (with_maps (notes_by g 1) m) (-1) = with_maps g m.
Proof. destruct g. unfold notes_by, with_maps, with_counts. cbn. f_equal. lia. Qed.

(** ** Programs that keep what is held *)
Definition neutral B (o : gop B) : Prop :=
  match o with
  | Open _ _ | OpenFile _ _ | Pipe | StartSelf _ _ | StartFiles _ _ | KillWait _ | Mmap _ _ _ _ | Munmap _ _
  | LockOSThread | UnlockOSThread | GOMAXPROCS _ | Notify _ | StopNotify | ReadyDone | AwaitStart => False
  | Close fd => fd < 0
  | Kill _ sig => sig ≠ SIGKILL
  | _ => True
  end.
Definition same {A} (p : guest A) : Prop := ∀ g, h_dead g = ∅ → wph p (λ _ g', g' = g) g.
(** What ends with everything but mappings as it was, and those too when there
    was no error. *)
Definition kept (g : held) (r : option string) (g' : held) : Prop := ∃ m, g' = with_maps g m ∧ (r = None → m = h_maps g).
Definition back (p : body) : Prop := ∀ g, h_dead g = ∅ → wph p (kept g) g.
(** The same for what is to give one mapping back. *)
Definition frees (b len : Z) (p : body) : Prop := ∀ g, h_dead g = ∅ →
  wph p (λ r g', ∃ m, g' = with_maps g m ∧ (r = None → m = h_maps g ∖ {[+ (b, len) +]})) g.

Lemma same_neutral {A} (p : guest A) : all_ops neutral p → same p.
Proof.
  intros Hp g Hg. induction p as [a|n|B o k IH]; cbn [wp all_ops] in *; [done..|]. destruct Hp as [Ho Hk].
  split; [by destruct o|]. intros b _. assert (held_obs B o b g = g) as Heq; [|cbn [heldM m_obs]; rewrite Heq; by apply IH].
  destruct o; try done; cbn in *.
  - by rewrite (proj2 (Z.ltb_lt fd 0)).
  - destruct (Z.eqb_spec sig SIGKILL); done.
  - rewrite Hg. assert ((∅ : gmultiset Z) ∖ {[+ pid +]} = ∅) as -> by multiset_solver. rewrite <-Hg. by destruct g.
Qed.
Lemma same_bind {A B} (p : guest A) (k : A → guest B) : same p → (∀ a, same (k a)) → same (p ≫= k).
Proof. intros Hp Hk g Hg. apply wp_bind. eapply wp_mono; [by apply Hp| |done]. intros a g' ->. by apply Hk. Qed.
Lemma back_same (p : body) : same p → back p.
Proof. intros Hp g Hg. eapply wp_mono; [by apply Hp| |done]. intros r g' ->. exists (h_maps g). by rewrite maps_self. Qed.
Lemma back_neutral (p : body) : all_ops neutral p → back p.
Proof. intros H. by apply back_same, same_neutral. Qed.
Lemma back_bind {A} (p : guest A) (k : A → body) : same p → (∀ a, back (k a)) → back (p ≫= k).
Proof. intros Hp Hk g Hg. apply wp_bind. eapply wp_mono; [by apply Hp| |done]. intros a g' ->. by apply Hk. Qed.
Lemma back_skip {A} (p : guest A) (k : A → body) : all_ops neutral p → (∀ a, back (k a)) → back (p ≫= k).
Proof. intros Hp. by apply back_bind, same_neutral. Qed.
Lemma back_fail e : back (fail e).
Proof. by apply back_same. Qed.
Lemma back_ok : back done_ok.
Proof. by apply back_same. Qed.
Lemma back_andthen p q : back p → back q → back (andthen p q).
Proof.
  intros Hp Hq g Hg. unfold andthen. apply wp_bind. eapply wp_mono; [by apply Hp| |done].
  intros [e|] g' (m & -> & Hm); [by exists m|]. rewrite (Hm eq_refl), maps_self. by apply Hq.
Qed.
Lemma back_each {A} (l : list A) f : (∀ x, back (f x)) → back (each_ok l f).
Proof. intros Hf. induction l as [|x l IH]; cbn [each_ok]; [apply back_ok|by apply back_andthen]. Qed.
Lemma back_guard b e k : back k → back (guard b e k).
Proof. intros Hk. unfold guard. destruct b; [apply back_fail|exact Hk]. Qed.
Lemma back_or_else {A B} (r : A + B) k h : (∀ x, back (k x)) → back (or_else r k h).
Proof. intros Hk. destruct r; [apply back_fail|apply Hk]. Qed.
Lemma back_must T p pre k : all_ops neutral p → back k → back (must T p pre k).
Proof. intros Hp Hk. apply back_skip; [exact Hp|]. intros e. destruct (e =? 0); [exact Hk|apply back_fail]. Qed.
Lemma back_victim mode args k : (∀ rc out, back (k rc out)) → back (with_victim mode args k).
Proof. intros Hk. apply back_skip; [unfold runVictim; walk ltac:(exact I)|]. intros [e|[rc out]]; [apply back_fail|apply Hk]. Qed.
Lemma back_if (b : bool) p q : back p → back q → back (if b then p else q).
Proof. by destruct b. Qed.

(** ** What is taken and given back *)
(** A deferred call that undoes a change of the state. *)
Lemma back_deferred (take : held → held) (p : body) (q : guest unit) g :
  h_dead (take g) = ∅ → back p → (∀ m, wph q (λ _ g', g' = with_maps g m) (with_maps (take g) m)) → h_maps (take g) = h_maps g →
  wph (deferred p q) (kept g) (take g).
Proof.
  intros Hd Hp Hq Hm. unfold deferred. apply wp_bind. eapply wp_mono; [by apply Hp| |done]. intros r g' (m & -> & Hr).
  apply wp_bind. eapply wp_mono; [apply Hq| |done]. intros [] g'' ->. exists m. by rewrite <-Hm.
Qed.
Lemma back_locked k : back k → back (locked k).
Proof.
  intros Hk g Hg. unfold locked. apply wp_bind, wp_call; [done|]. intros [] _.
  apply (back_deferred (λ g, locks_by g 1)); [done..| |done]. intros m. apply wp_call; [done|]. intros [] _. apply locks_back.
Qed.
Lemma back_channel sig k : back k → back (with_channel sig k).
Proof.
  intros Hk g Hg. unfold with_channel. apply wp_bind, wp_call; [done|]. intros [] _.
  apply (back_deferred (λ g, notes_by g 1)); [done..| |done]. intros m. apply wp_bind, wp_call; [done|]. intros [] _. apply notes_back.
Qed.
Lemma back_procs n k : back k → back (with_procs n k).
Proof.
  intros Hk g Hg. unfold with_procs. apply wp_bind, wp_call; [done|]. intros old ->.
  apply (back_deferred (λ g, with_counts g (h_locks g) n (h_notify g) (h_ready g))); [done..| |done].
  intros m. apply wp_bind, wp_call; [done|]. intros old _. by destruct g.
Qed.
Lemma fds_back g x m y : x = h_fds g ⊎ y → with_fds (with_maps (with_fds g x) m) (x ∖ y) = with_maps g m.
Proof.
  intros ->. unfold with_fds, with_maps. cbn [h_fds h_kids h_dead h_maps h_locks h_procs h_notify h_ready]. by rewrite ms_back.
Qed.
Lemma close_obs fd (e : errno) g : 0 ≤ fd → m_obs heldM (Close fd) e g = with_fds g (h_fds g ∖ {[+ fd +]}).
Proof. intros H. cbn. by rewrite (proj2 (Z.ltb_ge fd 0)) by lia. Qed.
Lemma close_wp fd g m x : 0 ≤ fd → x = h_fds g ⊎ {[+ fd +]} →
  wph (call (Close fd) ;; Ret tt) (λ _ g', g' = with_maps g m) (with_maps (with_fds g x) m).
Proof.
  intros Hfd Hx. apply wp_bind, wp_call; [done|]. intros e _. rewrite close_obs by done. by apply fds_back.
Qed.
Lemma back_opened (k : body) fd g : back k → h_dead g = ∅ → 0 ≤ fd →
  wph (deferred k (call (Close fd) ;; Ret tt)) (kept g) (with_fds g (h_fds g ⊎ {[+ fd +]})).
Proof.
  intros Hk Hg Hfd. apply (back_deferred (λ g, with_fds g (h_fds g ⊎ {[+ fd +]}))); [done..| |done]. intros m. by apply close_wp.
Qed.
Lemma back_pipe k : (∀ p, back (k p)) → back (with_pipe k).
Proof.
  intros Hk g Hg. unfold with_pipe. apply wp_bind, wp_call; [done|]. intros [e|[r w]] Hp; [by apply back_fail|]. destruct Hp as [Hr Hw].
  apply (back_deferred (λ g, with_fds g (h_fds g ⊎ {[+ r +]} ⊎ {[+ w +]}))); [done|done| |done].
  intros m. cbn [fst snd] in *. apply wp_bind, wp_call; [done|]. intros e _.
  rewrite close_obs by done. refine (close_wp w g m ((h_fds g ⊎ {[+ r +]} ⊎ {[+ w +]}) ∖ {[+ r +]}) Hw _).
  multiset_solver.
Qed.
Lemma back_file path flags k : (∀ fd, back (k fd)) → back (with_file path flags k).
Proof. intros Hk g Hg. unfold with_file. apply wp_bind, wp_call; [done|]. intros [e|fd] Hr; [by apply back_fail|by apply back_opened]. Qed.
(** A child that was started is killed and waited for. *)
Definition ends_child (pid : Z) (q : guest unit) : Prop := ∀ g m, h_dead g = ∅ →
  wph q (λ _ g', g' = with_maps g m) (with_maps (with_kids g (h_kids g ⊎ {[+ pid +]}) (h_dead g)) m).
Lemma kids_back g m x d : x = h_kids g → d = h_dead g → with_kids (with_maps g m) x d = with_maps g m.
Proof. intros -> ->. by destruct g. Qed.
Lemma ends_KillWait pid : ends_child pid (call (KillWait pid)).
Proof.
  intros g m _. apply wp_call; [done|]. intros [] _. change (with_kids (with_maps g m) ((h_kids g ⊎ {[+ pid +]}) ∖ {[+ pid +]}) (h_dead g) = with_maps g m).
  apply kids_back; [apply ms_back|done].
Qed.
Lemma ends_kill pid : ends_child pid (call (Kill pid SIGKILL) ;; call (Wait4 pid) ;; Ret tt).
Proof.
  intros g m Hg. apply wp_bind, wp_call; [done|]. intros e _. apply wp_bind, wp_call; [done|]. intros w _.
  change (with_kids (with_maps g m) ((h_kids g ⊎ {[+ pid +]}) ∖ {[+ pid +]}) ((h_dead g ⊎ {[+ pid +]}) ∖ {[+ pid +]}) = with_maps g m).
  by apply kids_back; apply ms_back.
Qed.
Lemma back_child {E} (r : E + Z) (k : Z → body) q h g : (∀ pid, back (k pid)) → (∀ pid, ends_child pid (q pid)) → h_dead g = ∅ →
  wph (or_else r (λ pid, deferred (k pid) (q pid)) h) (kept g) (started r g).
Proof.
  intros Hk Hq Hg. destruct r as [e|pid]; cbn [or_else started]; [by apply back_fail|].
  apply (back_deferred (λ g, with_kids g (h_kids g ⊎ {[+ pid +]}) (h_dead g))); [done..| |done]. intros m. by apply Hq.
Qed.
Lemma back_loop ptrace pre k q : (∀ pid, back (k pid)) → (∀ pid, ends_child pid (q pid)) →
  back (start_loop ptrace pre (λ pid, deferred (k pid) (q pid))).
Proof.
  intros Hk Hq g Hg. unfold start_loop. apply wp_bind, wp_call; [done|]. intros self _. apply wp_bind, wp_call; [done|]. intros r _.
  by apply back_child.
Qed.

Lemma back_pinned mode extra cpu k q : (∀ pid, back (k pid)) → (∀ pid, ends_child pid (q pid)) →
  back (r ← startVictimPinned mode extra cpu; or_else r (λ pid, deferred (k pid) (q pid)) id).
Proof.
  intros Hk Hq g Hg. unfold startVictimPinned. apply wp_bind, wp_bind, wp_call; [done|]. intros self _. apply wp_bind, wp_call; [done|].
  intros [e|pid] _; [by apply back_fail|]. by apply (back_child (inr pid : string + Z)).
Qed.

(** *** Mappings *)
Lemma frees_end b len (p : body) : (∀ g, h_dead g = ∅ → wph p (λ r g', ∃ m, g' = with_maps g m ∧ r ≠ None) g) → frees b len p.
Proof. intros Hp g Hg. eapply wp_mono; [by apply Hp| |done]. intros r g' (m & -> & Hr). exists m. by split. Qed.
Lemma frees_fail b len e : frees b len (fail e).
Proof. apply frees_end. intros g _. exists (h_maps g). by rewrite maps_self. Qed.
Lemma frees_unmap T b len pre : frees b len (must T (call (Munmap b len)) pre done_ok).
Proof. intros g _. unfold must. apply wp_bind, wp_call; [done|]. intros e _. destruct (e =? 0); eexists; by split. Qed.
Lemma frees_skip {A} b len (p : guest A) k : all_ops neutral p → (∀ a, frees b len (k a)) → frees b len (p ≫= k).
Proof.
  intros Hp Hk g Hg. apply wp_bind. eapply wp_mono; [by apply (same_neutral _ Hp)| |done]. intros a g' ->. by apply Hk.
Qed.
Lemma frees_andthen b len p k : all_ops neutral p → frees b len k → frees b len (andthen p k).
Proof. intros Hp Hk. apply frees_skip; [exact Hp|]. intros [e|]; [apply frees_fail|exact Hk]. Qed.
Lemma frees_give_up b len e : frees b len (call (Munmap b len) ;; fail e).
Proof. apply frees_end. intros g _. apply wp_bind, wp_call; [done|]. intros x _. eexists. by split. Qed.
Lemma back_map T len pre k : (∀ b, frees b len (k b)) → back (map_rw T len pre k).
Proof.
  intros Hk g Hg. unfold map_rw. apply wp_bind, wp_call; [done|]. intros [e|b] _; cbn [or_else]; [by apply back_fail|].
  eapply wp_mono; [by apply Hk| |done]. intros r g' (m & -> & Hm). exists m. split; [done|]. intros Hr. rewrite (Hm Hr). by apply ms_back_eq.
Qed.
Lemma back_freed T len pre k : (∀ b, back (k b)) → back (map_rw T len pre (λ b, deferred (k b) (freed b len))).
Proof.
  intros Hk. apply back_map. intros b g Hg. unfold deferred, freed. apply wp_bind. eapply wp_mono; [by apply Hk| |done].
  intros r g' (m & -> & Hm). apply wp_bind, wp_bind, wp_call; [done|]. intros e _. eexists. split; [done|]. intros Hr. cbn.
  by rewrite (Hm Hr).
Qed.
(** A mapping that should be refused is given back at once, or it is an error. *)
Lemma back_probe addr len prot flags (k : errno + Z → body) : (∀ e, back (k (inl e))) →
  (∀ p, ∃ k', k (inr p) = (call (Munmap p len) ;; k') ∧ back k') → back (r ← call (Mmap addr len prot flags); k r).
Proof.
  intros He Hk g Hg. apply wp_bind, wp_call; [done|]. intros [e|p] _; [by apply He|]. destruct (Hk p) as (k' & -> & Hk').
  apply wp_bind, wp_call; [done|]. intros x _.
  change (wph k' (kept g) (with_maps g ((h_maps g ⊎ {[+ (p, len) +]}) ∖ {[+ (p, len) +]}))). rewrite ms_back, maps_self. by apply Hk'.
Qed.
Lemma back_refused addr len prot flags (k : errno + Z → body) : (∀ e, back (k (inl e))) →
  (∀ p, ∃ e, k (inr p) = fail e) → back (r ← call (Mmap addr len prot flags); k r).
Proof.
  intros He Hk g Hg. apply wp_bind, wp_call; [done|]. intros [e|p] _; [by apply He|]. destruct (Hk p) as (e & ->). by eexists.
Qed.

(** ** Programs that take nothing
    The same programs leave the affinity of their thread alone: what follows is
    for any property of operations that the plain ones have. *)
Definition away B (o : gop B) : Prop := match o with Getaffinity | Setaffinity _ => False | _ => True end.
Definition plain B (o : gop B) : Prop := neutral B o ∧ away B o.
Class Calm (P : ∀ B, gop B → Prop) : Prop := calm_plain : ∀ B (o : gop B), plain B o → P B o.
#[global] Instance calm_neutral : Calm neutral.
Proof. by intros B o [H _]. Qed.
#[global] Instance calm_away : Calm away.
Proof. by intros B o [_ H]. Qed.
Section Calm.
Context {P : ∀ B, gop B → Prop} `{HP : !Calm P}.
Lemma neutral_ok : all_ops P done_ok.
Proof. done. Qed.
Lemma neutral_fail e : all_ops P (fail e).
Proof. done. Qed.
Lemma ops_andthen (Q : ∀ B, gop B → Prop) p q : all_ops Q p → all_ops Q q → all_ops Q (andthen p q).
Proof. intros Hp Hq. apply all_ops_bind; [exact Hp|]. by intros [e|]. Qed.
Lemma ops_each_ok {A} (Q : ∀ B, gop B → Prop) (l : list A) f : (∀ x, all_ops Q (f x)) → all_ops Q (each_ok l f).
Proof. intros H. induction l as [|x l IH]; cbn [each_ok]; [done|]. by apply ops_andthen. Qed.
Lemma neutral_guard b e k : all_ops P k → all_ops P (guard b e k).
Proof. intros Hk. by destruct b. Qed.
Lemma neutral_or_else {A B} (r : A + B) k h : (∀ x, all_ops P (k x)) → all_ops P (or_else r k h).
Proof. intros Hk. destruct r; [exact I|apply Hk]. Qed.
Lemma neutral_must T p pre k : all_ops P p → all_ops P k → all_ops P (must T p pre k).
Proof. intros Hp Hk. apply all_ops_bind; [exact Hp|]. intros e. by destruct (e =? 0). Qed.
Lemma neutral_victim mode args : all_ops P (runVictim mode args).
Proof. unfold runVictim. walk ltac:(apply calm_plain; exact (conj I I)). Qed.
Lemma neutral_with_victim mode args k : (∀ rc out, all_ops P (k rc out)) → all_ops P (with_victim mode args k).
Proof. intros Hk. apply all_ops_bind; [apply neutral_victim|]. intros [e|[rc out]]; [done|apply Hk]. Qed.
Lemma neutral_touch b l v : all_ops P (touch b l v).
Proof. apply all_ops_each. intros x. split; [|done]. by apply calm_plain. Qed.
Lemma neutral_verify b l v e : all_ops P (verify b l v e).
Proof. apply ops_each_ok. intros x. apply all_ops_bind; [split; [|done]; by apply calm_plain|]. intros y. by apply neutral_guard. Qed.
End Calm.
Ltac head t := lazymatch t with ?f _ => head f | _ => t end.
(** Walks a program that takes nothing down to its calls. *)
Ltac calm :=
  repeat (intros; lazymatch goal with
    | |- all_ops _ done_ok => apply neutral_ok
    | |- all_ops _ (fail _) => apply neutral_fail
    | |- all_ops _ (Ret _) => apply all_ops_ret
    | |- all_ops _ (touch _ _ _) => apply neutral_touch
    | |- all_ops _ (verify _ _ _ _) => apply neutral_verify
    | |- all_ops _ (runVictim _ _) => apply neutral_victim
    | |- all_ops _ (guard _ _ _) => apply neutral_guard
    | |- all_ops _ (or_else _ _ _) => apply neutral_or_else
    | |- all_ops _ (must _ _ _ _) => apply neutral_must
    | |- all_ops _ (with_victim _ _ _) => apply neutral_with_victim
    | |- all_ops _ (andthen _ _) => apply ops_andthen
    | |- all_ops _ (each_ok _ _) => apply ops_each_ok
    | |- all_ops _ (each_with _ _ _) => apply all_ops_each_with
    | |- all_ops _ (each _ _) => apply all_ops_each
    | |- all_ops _ (_ ≫= _) => apply all_ops_bind
    | |- all_ops _ (call _) => apply all_ops_call; first
        [exact I | discriminate | reflexivity | apply calm_plain; split; first [exact I | discriminate | reflexivity]]
    | |- all_ops _ (log _) => unfold log
    | |- all_ops _ (panic _) => unfold panic
    | |- _ => first [progress case_match | eassumption]
    end).

(** *** Their loops *)
Section Loops.
Context {P : ∀ B, gop B → Prop} `{HP : !Calm P}.
Context (T : texts) (page ncpu : Z).
Lemma calm_kmsg n fd t : all_ops P (kmsg_loop n fd t).
Proof. revert t. induction n as [|n IH]; intros t; cbn [kmsg_loop]; calm. all: intros; apply IH. Qed.
Lemma calm_iomem ls c d : all_ops P (iomem_loop ls c d).
Proof. revert c d. induction ls as [|l ls IH]; intros c d; cbn [iomem_loop]; unfold log; calm. all: intros; apply IH. Qed.
Lemma calm_maps ls n v : all_ops P (maps_loop ls n v).
Proof. revert n v. induction ls as [|l ls IH]; intros n v; cbn [maps_loop]; unfold panic; calm. all: intros; apply IH. Qed.
Lemma calm_getcpu n seen : all_ops P (getcpu_loop T n seen).
Proof. revert seen. induction n as [|n IH]; intros seen; cbn [getcpu_loop]; calm. all: intros; apply IH. Qed.
Lemma calm_monotonic n i l w : all_ops P (monotonic_loop T n i l w).
Proof. revert i l w. induction n as [|n IH]; intros i l w; cbn [monotonic_loop]; cbv zeta; unfold log; calm. all: intros; apply IH. Qed.
Lemma calm_repeat rs f : all_ops P (repeat_loop rs f).
Proof. revert f. induction rs as [|r rs IH]; intros f; cbn [repeat_loop]; unfold repeat_end, with_keys, log; calm. all: intros; apply IH. Qed.
Lemma calm_cycle cs cycle : (∀ c, all_ops P (cycle c)) → all_ops P (cycle_loop cs cycle).
Proof. intros Hc. induction cs as [|c cs IH]; cbn [cycle_loop]; calm. all: first [apply Hc|apply IH]. Qed.
Lemma calm_marks b m : all_ops P (mark_pages page ncpu b m).
Proof. unfold mark_pages. calm. Qed.
Lemma calm_steps n pid i m f l : all_ops P (step_loop T n pid i m f l).
Proof. revert i m l. induction n as [|n IH]; intros i m l; cbn [step_loop]; unfold log; calm. all: intros; apply IH. Qed.
(** Workers lined up and let go take nothing. *)
Lemma calm_barrier w : all_ops P (barrier_run ncpu w).
Proof. unfold barrier_run. calm. Qed.
Lemma calm_unmaps n total : all_ops P (unmap_loop ncpu n total).
Proof. revert total. induction n as [|n IH]; intros total; cbn [unmap_loop]; calm; [apply calm_barrier|]. all: intros; apply IH. Qed.
End Loops.

(** *** The affinity of the thread
    The CPUs the thread of the case may run on, how often it is locked, and the
    masks the kernel refused.  Only a locked thread is asked for its CPUs or
    told them: another may run the goroutine at the next call. *)
Record cpus := { c_mask : list Z; c_locks : Z; c_refused : list (list Z) }.
Definition cpus_at (mask : list Z) : cpus := {| c_mask := mask; c_locks := 0; c_refused := [] |}.
Definition cpu_obs B (o : gop B) : B → cpus → cpus :=
  match o with
  | LockOSThread => λ _ a, {| c_mask := c_mask a; c_locks := c_locks a + 1; c_refused := c_refused a |}
  | UnlockOSThread => λ _ a, {| c_mask := c_mask a; c_locks := c_locks a - 1; c_refused := c_refused a |}
  | Setaffinity m => λ e a,
      if e =? 0 then {| c_mask := m; c_locks := c_locks a; c_refused := c_refused a |}
      else {| c_mask := c_mask a; c_locks := c_locks a; c_refused := m :: c_refused a |}
  | _ => λ _ a, a
  end.
Definition cpu_pre B (o : gop B) (a : cpus) : Prop :=
  match o with Getaffinity | Setaffinity _ => 0 < c_locks a | _ => True end.
Definition cpu_ans B (o : gop B) : B → cpus → Prop :=
  match o with Getaffinity => λ r a, match r with inr m => m = c_mask a | inl _ => True end | _ => λ _ _, True end.
Definition cpuM : monitor gop := Monitor gop cpus cpu_obs cpu_pre cpu_ans.
Abbreviation wpc p Q a := (wp cpuM p Q (λ _ _, True) a).
(** The thread has its CPUs again, or the kernel refused to give them back. *)
Definition restored (mask : list Z) (a : cpus) : Prop := c_mask a = mask ∨ mask ∈ c_refused a.
Definition unpinned (p : body) : Prop := ∀ mask, wpc p (λ _ a, restored mask a) (cpus_at mask).
Lemma away_wp {A} (p : guest A) mask a : all_ops away p → restored mask a → wpc p (λ _ a', restored mask a') a.
Proof.
  revert a. induction p as [x|n|B o k IH]; intros a; cbn [wp all_ops]; [done..|]. intros [Ho Hk] Ha.
  split; [by destruct o|]. intros b _. apply IH; [done|]. by destruct o.
Qed.
Lemma stays_cpus {A} (p : guest A) a : all_ops stays p → wpc p (λ _ a', a' = a) a.
Proof.
  intros Hp. induction p as [x|n|B o k IH]; cbn [wp all_ops] in *; [done..|]. destruct Hp as [Ho Hk].
  split; [by destruct o|]. intros b _. assert (cpu_obs B o b a = a) as Hg by (by destruct o). cbn [cpuM m_obs]. rewrite Hg. by apply IH.
Qed.
Lemma unpinned_away (p : body) : all_ops away p → unpinned p.
Proof. intros Hp mask. apply away_wp; [exact Hp|by left]. Qed.
Lemma set_cpus m a Q (k : errno → body) :
  0 < c_locks a → (∀ e, wpc (k e) Q (m_obs cpuM (Setaffinity m) e a)) → wpc (e ← call (Setaffinity m); k e) Q a.
Proof. intros Hl Hk. apply wp_bind, wp_call; [exact Hl|]. intros e _. apply Hk. Qed.
Lemma locks_set m (e : errno) a : c_locks (m_obs cpuM (Setaffinity m) e a) = c_locks a.
Proof. cbn. by destruct (e =? 0). Qed.
Lemma walk_locks {S} T fn cpus (st : S) a : (∀ cpu st, all_ops stays (fn cpu st)) → 0 < c_locks a →
  wpc (cpu_loop T fn cpus st) (λ _ a', 0 < c_locks a') a.
Proof.
  intros Hfn. revert st a. induction cpus as [|cpu cpus IH]; intros st a Ha; cbn [cpu_loop]; [done|].
  apply wp_bind. unfold on_cpu. apply wp_bind, wp_call; [exact Ha|]. intros e _.
  rewrite <-(locks_set (one_cpu cpu) e a) in Ha. revert Ha. generalize (m_obs cpuM (Setaffinity (one_cpu cpu)) e a). intros a' Ha.
  destruct (e =? 0); [|exact Ha]. eapply wp_mono; [by apply stays_cpus| |done]. intros [[x|] st'] a'' ->; [exact Ha|by apply IH].
Qed.
Lemma unpinned_walk {S} T (st : S) fn (k : option string * S → body) :
  (∀ cpu st, all_ops stays (fn cpu st)) → (∀ r, all_ops away (k r)) → unpinned (onEachCPU T st fn ≫= k).
Proof.
  intros Hfn Hk mask. unfold onEachCPU, deferred. apply wp_bind, wp_bind, wp_call; [done|]. intros [] _.
  apply wp_bind, wp_bind, wp_call; [done|]. intros [e|orig] Ho.
  { apply wp_bind, wp_call; [done|]. intros [] _. apply away_wp; [done|by left]. }
  cbn in Ho. subst orig. apply wp_bind. eapply wp_mono; [by apply walk_locks| |done]. intros r a Ha.
  apply wp_bind, wp_bind, wp_call; [exact Ha|]. intros e _. apply wp_bind, wp_call; [done|]. intros [] _. apply away_wp; [done|].
  unfold restored. cbn. destruct (e =? 0); [by left|right; left].
Qed.

(** Two processes that hand each other a byte are pinned to one CPU, and the
    thread of this one stays there. *)
Definition switch_pins (p : body) : Prop := ∀ mask, wpc p (λ r a, r = None → c_mask a = one_cpu 0) (cpus_at mask).
Lemma pins_deferred (p : body) (q : guest unit) a (m : list Z) : all_ops stays q →
  wpc p (λ r a, r = None → c_mask a = m) a → wpc (deferred p q) (λ r a, r = None → c_mask a = m) a.
Proof.
  intros Hq Hp. unfold deferred. apply wp_bind. eapply wp_mono; [exact Hp| |done]. intros r a' H. apply wp_bind.
  eapply wp_mono; [by apply stays_cpus| |done]. by intros [] a'' ->.
Qed.
Lemma pins_pipe k a m : (∀ p, wpc (k p) (λ r a, r = None → c_mask a = m) a) → wpc (with_pipe k) (λ r a, r = None → c_mask a = m) a.
Proof.
  intros Hk. unfold with_pipe. apply wp_bind, wp_call; [done|]. intros [e|p] _; [by intros [=]|]. apply pins_deferred; [by split; [|split]|apply Hk].
Qed.
Lemma context_switch_pins T scale : switch_pins (perf_context_switch T scale).
Proof.
  intros mask. unfold perf_context_switch. cbv zeta. apply pins_pipe. intros c. apply pins_pipe. intros p. apply wp_bind.
  eapply wp_mono; [apply stays_cpus; by repeat split| |done]. intros [e|pid] a ->; [by intros [=]|]. apply pins_deferred; [by split|].
  unfold locked, deferred. apply wp_bind, wp_call; [done|]. intros [] _. apply wp_bind. unfold must. apply set_cpus; [done|].
  intros e. cbn [cpuM m_obs cpu_obs]. destruct (e =? 0); [|apply wp_bind, wp_call; [done|]; intros [] _; by intros [=]].
  eapply wp_mono; [apply stays_cpus| |done].
  - unfold andthen, roundtrip, metric, log. walk ltac:(exact I). apply ops_each_ok. walk ltac:(exact I).
  - intros r a ->. apply wp_bind, wp_call; [done|]. intros [] _ _. done.
Qed.

(** ** The cases *)
Section Cases.
Context (T : texts) (page ncpu scale : Z).
Lemma calm_cpus {S} (fn : Z → S → guest (option string * S)) cpus st :
  (∀ cpu st, all_ops neutral (fn cpu st)) → all_ops neutral (cpu_loop T fn cpus st).
Proof.
  intros Hf. revert st. induction cpus as [|c cpus IH]; intros st; cbn [cpu_loop]; unfold on_cpu; calm. all: intros; first [apply IH|apply Hf].
Qed.
Lemma same_walk {S} (st : S) fn : (∀ cpu st, all_ops neutral (fn cpu st)) → same (onEachCPU T st fn).
Proof.
  intros Hf g Hg. unfold onEachCPU. apply wp_bind, wp_call; [done|]. intros [] _. unfold deferred. apply wp_bind.
  set (g' := m_obs heldM LockOSThread () g).
  assert (∀ p : guest (option string * S), all_ops neutral p →
    wph p (λ a, wp heldM (call UnlockOSThread ;; Ret a) (λ _ g', g' = g) (λ _ _, True)) g') as Hn.
  { intros p Hp. eapply wp_mono; [apply (same_neutral p Hp); exact Hg| |done]. intros a g'' ->. apply wp_bind, wp_call; [done|]. intros [] _.
    change (locks_by (locks_by g 1) (-1) = g). rewrite <-(maps_self g) at 2. rewrite <-locks_back. by destruct g. }
  apply Hn. calm. by apply calm_cpus.
Qed.
Lemma back_race tail what cycles cycle : (∀ b c, all_ops neutral (cycle b c)) → back (race T page ncpu tail what cycles cycle).
Proof.
  intros Hc. unfold race. apply back_procs, back_freed. intros b. apply back_neutral. unfold log. calm. all: by apply calm_cycle.
Qed.
Ltac tame :=
  repeat (calm; intros; lazymatch goal with
    | |- all_ops _ (kmsg_loop _ _ _) => apply calm_kmsg
    | |- all_ops _ (iomem_loop _ _ _) => apply calm_iomem
    | |- all_ops _ (maps_loop _ _ _) => apply calm_maps
    | |- all_ops _ (getcpu_loop _ _ _) => apply calm_getcpu
    | |- all_ops _ (monotonic_loop _ _ _ _ _) => apply calm_monotonic
    | |- all_ops _ (repeat_loop _ _) => apply calm_repeat
    | |- all_ops _ (step_loop _ _ _ _ _ _ _) => apply calm_steps
    | |- all_ops _ (mark_pages _ _ _ _) => apply calm_marks
    | |- all_ops _ (cycle_loop _ _) => apply calm_cycle
    | |- all_ops _ (unmap_loop _ _ _) => apply calm_unmaps
    | |- all_ops _ ?p => let h := head p in unfold h; cbv zeta
    end).
(** Walks a case down to what it takes. *)
Ltac reveal_body p := let h := head p in unfold h; cbv zeta.
Ltac give :=
  repeat (intros; lazymatch goal with
    | |- back done_ok => apply back_ok
    | |- back (fail _) => apply back_fail
    | |- back (guard _ _ _) => apply back_guard
    | |- back (or_else _ _ _) => apply back_or_else
    | |- back (with_victim _ _ _) => apply back_victim
    | |- back (andthen _ _) => apply back_andthen
    | |- back (each_ok _ _) => apply back_each
    | |- back (must _ _ _ _) => apply back_must; [solve [tame]|]
    | |- back (locked _) => apply back_locked
    | |- back (with_channel _ _) => apply back_channel
    | |- back (with_procs _ _) => apply back_procs
    | |- back (with_pipe _) => apply back_pipe
    | |- back (with_file _ _ _) => apply back_file
    | |- back (race _ _ _ _ _ _ _) => apply back_race
    | |- back (map_rw _ _ _ (λ b, deferred _ (freed _ _))) => apply back_freed
    | |- back (start_loop _ _ (λ pid, deferred _ _)) => apply back_loop
    | |- back (startVictimPinned _ _ _ ≫= _) => apply back_pinned
    | |- ends_child _ (call (KillWait _)) => apply ends_KillWait
    | |- ends_child _ _ => apply ends_kill
    | |- back (onEachCPU _ _ _ ≫= _) => apply back_bind; [apply same_walk|]
    | |- back (map_rw _ _ _ _) => apply back_map
    | |- frees _ _ (andthen _ _) => apply frees_andthen; [solve [tame]|]
    | |- frees _ _ (call (Munmap _ _) ≫= _) => apply frees_give_up
    | |- frees _ _ (_ ≫= _) => apply frees_skip; [solve [tame]|]
    | |- frees _ _ (unmap _ _ _) => apply frees_unmap
    | |- frees _ _ (must _ (call (Munmap _ _)) _ _) => apply frees_unmap
    | |- frees _ _ _ => progress case_match
    | |- back (_ ≫= _) => apply back_skip; [solve [tame]|]
    | |- back ?p => first [progress case_match | apply back_neutral; solve [tame] | reveal_body p]
    | |- _ => solve [tame]
    end).
(** Each case of a list by its definition. *)
Ltac reveal := match goal with |- back (Fn ?c) => cbn [Fn case_]; match goal with |- back ?p => reveal_body p end end.
Ltac settle := repeat (apply Forall_cons; split; [reveal; first [apply back_neutral; solve [tame] | solve [give] | idtac] | ]); try apply Forall_nil_2.
Abbreviation all_back l := (Forall (λ c, back (Fn c)) l).
Lemma back_boot : all_back (registerBoot T ncpu).
Proof.
  unfold registerBoot. settle. intros g Hg. apply wp_bind, wp_call; [done|]. intros [e|fd] Hfd; [by apply back_neutral; [tame|]|].
  apply back_opened; [give|done|exact Hfd].
Qed.
Lemma back_entry_path : all_back registerEntryPath.
Proof. unfold registerEntryPath. settle. Qed.
Lemma back_pvm : all_back (registerPVM T).
Proof. unfold registerPVM. settle. Qed.
Lemma back_mm : all_back (registerMM T page).
Proof. unfold registerMM. settle. Qed.
Lemma back_fault_race : all_back (registerFaultRace T page ncpu).
Proof. unfold registerFaultRace. settle. Qed.
Lemma back_directpf : all_back (registerDirectPF T page ncpu).
Proof. unfold registerDirectPF. settle. Qed.
Lemma back_syscall : all_back (registerSyscall T).
Proof. unfold registerSyscall. settle. Qed.
Lemma back_signal : all_back (registerSignal T).
Proof. unfold registerSignal. settle. Qed.
Lemma back_sched : all_back (registerSched T).
Proof. unfold registerSched. settle. Qed.
Lemma back_time : all_back (registerTime T).
Proof. unfold registerTime. settle. Qed.
Lemma back_entry : all_back (registerEntry T).
Proof. unfold registerEntry. settle. Qed.
Lemma back_stress : all_back (registerStress T).
Proof. unfold registerStress. settle. Qed.
Lemma back_perf : all_back (registerPerf T page scale).
Proof. unfold registerPerf. settle. Qed.
Lemma back_parallel : all_back (registerParallel T page ncpu).
Proof. unfold registerParallel. settle. Qed.
Lemma back_rounds : all_back (registerFaultRounds T ncpu scale).
Proof. unfold registerFaultRounds. settle. Qed.
Lemma back_cpuid : all_back registerCPUID.
Proof. unfold registerCPUID. settle. Qed.
Lemma back_security insns : all_back (registerSecurity T page insns).
Proof.
  apply Forall_app. split.
  - apply Forall_fmap, Forall_forall. intros n _. cbn [compose]. reveal. give.
  - settle.
    + apply back_skip; [tame|]. intros r. apply back_or_else. intros top. apply back_probe; [intros e; apply back_fail|].
      intros p. eexists. split; [reflexivity|]. give. apply back_probe; [give|]. intros p'. eexists. split; [reflexivity|]. give.
    + apply back_freed. intros b. apply back_skip; [tame|]. intros [].
      apply back_refused; [intros e; apply back_neutral; tame|]. intros p. eexists. reflexivity.
Qed.

(** *** The regions of the scaling cases *)
Abbreviation regions_of size l := (list_to_set_disj ((λ b : Z, (b, size)) <$> l)).
Lemma regions_wp n size got g :
  wph (map_regions T n size got) (λ r g', ∃ new, g' = with_maps g (h_maps g ⊎ regions_of size new) ∧
    match r with inr l => l = got ++ new | inl _ => True end) g.
Proof.
  revert got g. induction n as [|n IH]; intros got g; cbn [map_regions].
  { exists []. cbn. rewrite app_nil_r, gmultiset_disj_union_right_id, maps_self. done. }
  apply wp_bind, wp_call; [done|]. intros [e|b] _.
  { exists []. cbn. by rewrite gmultiset_disj_union_right_id, maps_self. }
  eapply wp_mono; [apply IH| |done]. intros r g' (new & -> & Hr). exists (b :: new). split.
  - cbn. unfold with_maps. cbn [h_fds h_kids h_dead h_maps h_locks h_procs h_notify h_ready]. by rewrite <-(assoc_L (⊎)).
  - destruct r; [done|]. by rewrite Hr, <-app_assoc.
Qed.
Lemma unmapped_wp size l g : wph (each l (λ b, freed b size)) (λ _ g', g' = with_maps g (h_maps g ∖ regions_of size l)) g.
Proof.
  revert g. induction l as [|b l IH]; intros g; cbn [each].
  { cbn. by rewrite ms_none, maps_self. }
  apply wp_bind. unfold freed at 1. apply wp_bind, wp_call; [done|]. intros e _. cbn [wp]. eapply wp_mono; [apply IH| |done]. intros [] g' ->.
  change (with_maps g (h_maps g ∖ {[+ (b, size) +]} ∖ regions_of size l) = with_maps g (h_maps g ∖ ({[+ (b, size) +]} ⊎ regions_of size l))).
  by rewrite ms_minus.
Qed.
Definition sum_kept (g : held) (r : string + Z) (g' : held) : Prop :=
  ∃ m, g' = with_maps g m ∧ ((∃ t, r = inr t) → m = h_maps g).
Lemma scaling_wp n pages total g : h_dead g = ∅ → wph (scaling_loop T page ncpu n pages total) (sum_kept g) g.
Proof.
  revert total. induction n as [|n IH]; intros total Hg; cbn [scaling_loop]; [exists (h_maps g); by rewrite maps_self|].
  apply wp_bind. eapply wp_mono; [apply regions_wp| |done]. intros [e|l] g' (new & -> & Hl); [eexists; split; [done|by intros []]|].
  cbn [app] in Hl. subst l. apply wp_bind. eapply wp_mono; [by apply (same_neutral _ (calm_barrier _ _))| |done]. intros x g' ->.
  apply wp_bind. eapply wp_mono; [apply unmapped_wp| |done]. intros [] g' ->.
  change (wph match first_error x.2 with Some e => Ret (inl e) | None => scaling_loop T page ncpu n pages (total + x.1) end (sum_kept g)
    (with_maps g ((h_maps g ⊎ regions_of (int64 (pages * page)) new) ∖ regions_of (int64 (pages * page)) new))).
  rewrite ms_back, maps_self. destruct (first_error x.2); [exists (h_maps g); by rewrite maps_self|by apply IH].
Qed.
Lemma back_scaling : all_back (registerFaultScaling T page ncpu scale).
Proof.
  apply Forall_cons; split; [|apply Forall_nil_2]. reveal. apply back_procs. intros g Hg. apply wp_bind.
  eapply wp_mono; [by apply scaling_wp| |done]. intros [e|t] g' (m & -> & Hm); cbn [or_else]; [by exists m|].
  rewrite Hm, maps_self by eauto. apply back_neutral; [|done]. tame.
Qed.
Lemma back_unmap_scaling : all_back (registerUnmapScaling T ncpu scale).
Proof.
  apply Forall_cons; split; [|apply Forall_nil_2]. reveal. apply back_procs, back_skip; [apply calm_unmaps|]. intros r. apply back_or_else. give.
Qed.

Lemma back_Register insns : all_back (Register T page ncpu scale insns).
Proof.
  unfold Register. rewrite !Forall_app. split_and!; auto using back_boot, back_entry_path, back_pvm, back_mm, back_fault_race, back_directpf,
    back_syscall, back_signal, back_sched, back_time, back_entry, back_stress, back_perf, back_parallel, back_scaling,
    back_unmap_scaling, back_rounds, back_security, back_cpuid.
Qed.

(** *** What the cases do to the affinity of their thread *)
Lemma away_regions n size got : all_ops away (map_regions T n size got).
Proof. revert got. induction n as [|n IH]; intros got; cbn [map_regions]; [done|]. calm. apply IH. Qed.
Lemma away_scaling n pages total : all_ops away (scaling_loop T page ncpu n pages total).
Proof.
  revert total. induction n as [|n IH]; intros total; cbn [scaling_loop]; [done|]. apply all_ops_bind; [apply away_regions|].
  unfold freed. calm; [apply calm_barrier|]. intros; apply IH.
Qed.
Definition affinity_rule (c : gcase) : Prop :=
  if String.eqb (Name (g_case c)) "perf/context-switch" then switch_pins (Fn c) else unpinned (Fn c).
Lemma rule_other c : unpinned (Fn c) → String.eqb (Name (g_case c)) "perf/context-switch" = false → affinity_rule c.
Proof. intros Hc Hn. unfold affinity_rule. by rewrite Hn. Qed.
Ltac freed_of :=
  cbn [Fn case_ compose fmap list_fmap];
  first [ match goal with |- unpinned ?p => let h := head p in unfold h end;
          apply unpinned_walk; intros; [solve [tame; walk ltac:(exact I)] | solve [tame]]
        | apply unpinned_away; solve [tame] ].
Ltac free_all := repeat (apply Forall_cons; split; [apply rule_other; [freed_of|reflexivity]|]); try apply Forall_nil_2.
Abbreviation all_ruled l := (Forall affinity_rule l).
Lemma ruled_perf : all_ruled (registerPerf T page scale).
Proof. unfold registerPerf. free_all. apply Forall_cons; split; [exact (context_switch_pins T scale)|apply Forall_nil_2]. Qed.
Lemma ruled_scaling : all_ruled (registerFaultScaling T page ncpu scale).
Proof.
  apply Forall_cons; split; [|apply Forall_nil_2]. apply rule_other; [|reflexivity]. apply unpinned_away. cbn [Fn case_].
  unfold perf_fault_scaling, with_procs, deferred. cbv zeta. apply all_ops_bind; [done|]. intros old.
  apply all_ops_bind; [apply all_ops_bind; [apply away_scaling|tame]|tame].
Qed.
Lemma ruled_security insns : all_ruled (registerSecurity T page insns).
Proof.
  apply Forall_app. split; [|free_all]. apply Forall_fmap, Forall_forall. intros n _. apply rule_other; [freed_of|reflexivity].
Qed.
Lemma ruled_Register insns : all_ruled (Register T page ncpu scale insns).
Proof.
  unfold Register. rewrite !Forall_app. split_and!; first [apply ruled_perf | apply ruled_scaling | apply ruled_security | idtac].
  - unfold registerBoot. free_all.
  - unfold registerEntryPath. free_all.
  - unfold registerPVM. free_all.
  - unfold registerMM. free_all.
  - unfold registerFaultRace. free_all.
  - unfold registerDirectPF. free_all.
  - unfold registerSyscall. free_all.
  - unfold registerSignal. free_all.
  - unfold registerSched. free_all.
  - unfold registerTime. free_all.
  - unfold registerEntry. free_all.
  - unfold registerStress. free_all.
  - unfold registerParallel. free_all.
  - unfold registerUnmapScaling. free_all.
  - unfold registerFaultRounds. free_all.
  - unfold registerCPUID. free_all.
Qed.


(** ** The goroutines *)
Definition at_barrier (w : worker) : bool :=
  match w with ScalingFault _ | ScalingUnmap | RoundFault _ => true | _ => false end.
(** What a goroutine leaves: its thread may stay locked, and ends with it. *)
Definition left_by (ready : Z) (g : held) (r : option string) (g' : held) : Prop :=
  ∃ l m, g' = with_maps (with_counts g l (h_procs g) (h_notify g) ready) m ∧ (r = None → m = h_maps g).
Lemma left_back (p : body) g l ready : back p → h_dead g = ∅ →
  wph p (left_by ready g) (with_counts g l (h_procs g) (h_notify g) ready).
Proof.
  intros Hp Hg. eapply wp_mono; [by apply Hp| |done]. intros r g' (m & -> & Hm). exists l, m. by split.
Qed.
Lemma left_plain (p : body) g : back p → h_dead g = ∅ → wph p (left_by (h_ready g) g) g.
Proof. intros Hp Hg. pose proof (left_back p g (h_locks g) (h_ready g) Hp Hg) as H. by destruct g. Qed.
Lemma pin_wp i (k : option string → body) Q g :
  (∀ e, wph (k e) Q (locks_by g 1)) → wph (e ← pinWorker T i; k e) Q g.
Proof.
  intros Hk. apply wp_bind. unfold pinWorker. apply wp_bind, wp_call; [done|]. intros [] _.
  destruct (1024 <=? i); [by split; [|intros []]|]. unfold must. apply wp_bind, wp_call; [done|]. intros e _.
  destruct (e =? 0); apply Hk.
Qed.
Lemma pinned_wp i k g : back k → h_dead g = ∅ → wph (andthen (pinWorker T i) k) (left_by (h_ready g) g) g.
Proof. intros Hk Hg. apply pin_wp. intros [e|]; [by apply left_back; [apply back_fail|]|by apply left_back]. Qed.
(** Ready, and then waiting for the start. *)
Lemma ready_wp (k : body) l g : back k → h_dead g = ∅ → h_ready g = 0 →
  wph (call ReadyDone ;; call AwaitStart ;; k) (left_by 1 g) (with_counts g l (h_procs g) (h_notify g) (h_ready g)).
Proof.
  intros Hk Hg H0. apply wp_bind, wp_call; [exact H0|]. intros [] _. apply wp_bind, wp_call; [cbn; lia|]. intros [] _.
  change (wph k (left_by 1 g) (with_counts g l (h_procs g) (h_notify g) (h_ready g + 1))). rewrite H0. by apply left_back.
Qed.
Lemma ready_fail e l g : h_dead g = ∅ → h_ready g = 0 →
  wph (call ReadyDone ;; fail e) (left_by 1 g) (with_counts g l (h_procs g) (h_notify g) (h_ready g)).
Proof.
  intros Hg H0. apply wp_bind, wp_call; [exact H0|]. intros [] _. exists l, (h_maps g). split; [|done]. cbn. by rewrite H0.
Qed.
Lemma barrier_wp i k g : h_dead g = ∅ → h_ready g = 0 →
  wph k (left_by 1 g) (locks_by g 1) → wph (pinned_for_barrier T i k) (left_by 1 g) g.
Proof. intros Hg H0 Hk. apply pin_wp. intros [e|]; [by apply ready_fail|exact Hk]. Qed.
Lemma unmap_worker_wp i g : h_dead g = ∅ → h_ready g = 0 → wph (unmap_worker T page scale i) (left_by 1 g) g.
Proof.
  intros Hg H0. unfold unmap_worker. cbv zeta. apply barrier_wp; [done..|]. apply wp_bind, wp_call; [done|].
  intros [e|b] _; [by apply ready_fail|]. apply wp_bind. eapply wp_mono; [apply (same_neutral _ (neutral_touch _ _ _)); exact Hg| |done].
  intros [] g' ->. apply wp_bind, wp_call; [exact H0|]. intros [] _. apply wp_bind, wp_call; [cbn; lia|]. intros [] _.
  unfold unmap, must. apply wp_bind, wp_call; [done|]. intros e _.
  assert (∀ r, left_by 1 g r (with_maps (with_counts g (h_locks g + 1) (h_procs g) (h_notify g) (h_ready g + 1))
    ((h_maps g ⊎ {[+ (b, int64 (N scale unmap_pages * page)) +]}) ∖ {[+ (b, int64 (N scale unmap_pages * page)) +]}))) as Hl.
  { intros r. exists (h_locks g + 1), (h_maps g). by rewrite ms_back, H0. }
  destruct (e =? 0); apply Hl.
Qed.
Lemma calm_read b tail r : all_ops neutral (read_pages page b tail r).
Proof. unfold read_pages. calm. Qed.
Lemma calm_reader fuel b tail r : all_ops neutral (read_loop page fuel b tail r).
Proof.
  induction fuel as [|n IH]; cbn [read_loop]; calm. all: intros; first [apply calm_read|apply IH|done].
Qed.

(** C13: A goroutine of a case that has ended has given back what it mapped,
    unless it reports an error, and holds nothing else but its thread; and one
    that takes part in a barrier has said exactly once that it is ready, whatever
    failed before, and waited for the start only then: so the case that waits for
    all of them goes on. *)
Theorem goroutines_ready fuel w i tr r g :
  h_dead g = ∅ → h_ready g = 0 → answered heldM tr g → runs (work T page scale fuel w i) tr (Returned r) →
  allowed heldM tr g ∧ left_by (if at_barrier w then 1 else 0) g r (observe heldM tr g).
Proof.
  intros Hg H0 Ha Hr. eapply (wp_runs heldM _ _ (λ _ _, True) _ _ _ _ Hr Ha). Unshelve.
  assert (∀ p : body, back p → wph p (left_by 0 g) g) as Hplain by (intros p Hp; rewrite <-H0; by apply left_plain).
  assert (∀ k, back k → wph (andthen (pinWorker T i) k) (left_by 0 g) g) as Hpin by (intros k Hk; rewrite <-H0; by apply pinned_wp).
  destruct w as [| | | |regions| |rd|b tail| |]; cbn [work at_barrier].
  - apply Hplain. unfold churn_child. give.
  - apply Hplain. unfold storm_worker, storm_round. cbv zeta. give.
  - apply Hpin. give.
  - apply Hpin. unfold parallel_round. give.
  - unfold scaling_worker. apply barrier_wp; [done..|]. apply ready_wp; [|done..]. destruct (regions !! Z.to_nat i); give.
  - by apply unmap_worker_wp.
  - unfold round_worker. cbv zeta. apply barrier_wp; [done..|]. apply ready_wp; [|done..]. give.
  - unfold race_reader. apply wp_bind, wp_call; [done|]. intros [] _.
    assert (left_by 0 g = left_by (h_ready g) g) as -> by (by rewrite H0).
    apply (left_back (read_loop page fuel b tail i) g (h_locks g + 1)); [apply back_neutral, calm_reader|exact Hg].
  - apply Hplain, back_neutral. unfold adder. calm.
  - apply Hplain, back_neutral. unfold ponger. calm.
Qed.
End Cases.

(** A guest with a process to attach to, where mappings succeed. *)
Definition attached B (o : gop B) : option B :=
  match o in gop B return option B with
  | Logf _ => Some tt
  | Executable => Some None
  | StartSelf _ _ => Some (inr 321)
  | PtraceAttach _ => Some 0
  | Wait4 _ => Some (inr (WStopped 19))
  | PtraceGetRegs _ => Some (inr {| Rip := 0x401000; Rsp := 0x7ffe0000; Cs := 0x33; Ss := 0x2b |})
  | PtraceDetach _ => Some 0
  | KillWait _ => Some tt
  | LockOSThread => Some tt
  | UnlockOSThread => Some tt
  | Setaffinity _ => Some 0
  | Mmap _ _ _ _ => Some (inr 0x10000)
  | Munmap _ _ => Some 0
  | Store _ _ => Some tt
  | ReadyDone => Some tt
  | AwaitStart => Some tt
  | _ => None
  end.
Lemma attached_answered {A} (p : guest A) g : answered heldM (drive attached p).1 g.
Proof.
  revert g. induction p as [a|n|B o k IH]; intros g; cbn [drive]; [done..|]. destruct (attached B o) as [b|] eqn:E; [|done].
  specialize (IH b). destruct (drive attached (k b)) as [tr out]. split; [|apply IH]. by destruct o.
Qed.
Definition held0 : held :=
  {| h_fds := ∅; h_kids := ∅; h_dead := ∅; h_maps := ∅; h_locks := 0; h_procs := 2; h_notify := 0; h_ready := 0 |}.
(** A guest with the CPUs 1 and 2, whose thread comes with both. *)
Definition sched_run : list (event gop) * outcome (option string) :=
  drive two_cpus (sched_affinity demo_texts).
Lemma goroutines_ready_witness :
  let r := drive attached (work demo_texts 4096 1 0 ScalingUnmap 1) in
  r.2 = Returned None ∧ allowed heldM r.1 held0 ∧ left_by 1 held0 None (observe heldM r.1 held0).
Proof.
  intros r. assert (r.2 = Returned None) as Hr by (vm_compute; reflexivity). split; [exact Hr|].
  assert (runs (work demo_texts 4096 1 0 ScalingUnmap 1) r.1 (Returned None)) as Hruns by (rewrite <-Hr; apply drive_runs).
  exact (goroutines_ready demo_texts 4096 1 0 ScalingUnmap 1 r.1 None held0 eq_refl eq_refl (attached_answered _ held0) Hruns).
Defined.
