(* ===== verification/Threads.v ===== *)
(** * Goroutines that share memory, on every interleaving

    The cases of [PerfCases] whose goroutines meet in memory, in an atomic or in
    a channel, run as the scheduler of Go and a correct machine run them: a step
    is a call of any of the goroutines, or a meeting of two at a channel.  On such
    a machine the cases pass, and they do end. *)
From Stdlib Require Import Ascii.
From stdpp Require Import relations.
From S2P Require Import Prelude GoStrings Harness Prog Flags Init CaseOps GuestCases PerfCases CaseRuns CaseHeld.

#[local] Open Scope Z_scope.

(** ** The machine *)
(** Memory of one byte an address, zero where nothing was stored; the flag and
    the counter; how many values the buffered channel holds. *)
Record shared := { s_mem : gmap Z Z; s_stop : bool; s_count : Z; s_done : nat }.
Definition read_mem (σ : shared) (a : Z) : Z := default 0 (s_mem σ !! a).
Definition with_mem (σ : shared) (m : gmap Z Z) : shared :=
  {| s_mem := m; s_stop := s_stop σ; s_count := s_count σ; s_done := s_done σ |}.
(** Fresh pages, and pages given up, read as zeros. *)
Definition zeroed (b len : Z) (σ : shared) : shared := with_mem σ (filter (λ p, ¬ (b ≤ p.1 < b + len)) (s_mem σ)).
(** The calls a goroutine makes alone: the memory is coherent, the atomics
    atomic, the calls that manage memory succeed; the others answer anything.
    The barrier of the scaling cases is left out. *)
Definition alone B (o : gop B) (σ : shared) : B → shared → Prop :=
  match o with
  | Store a v => λ _ σ', σ' = with_mem σ (<[a := v]> (s_mem σ))
  | Load a => λ v σ', v = read_mem σ a ∧ σ' = σ
  | Mmap _ len _ _ => λ r σ', ∃ b, r = inr b ∧ σ' = zeroed b len σ
  | Munmap _ _ => λ e σ', e = 0 ∧ σ' = σ
  | Mprotect _ _ _ => λ e σ', e = 0 ∧ σ' = σ
  | Madvise b len advice => λ e σ', e = 0 ∧ σ' = if advice =? MADV_DONTNEED then zeroed b len σ else σ
  | StopLoad => λ s σ', s = s_stop σ ∧ σ' = σ
  | StopStore => λ _ σ', σ' = {| s_mem := s_mem σ; s_stop := true; s_count := s_count σ; s_done := s_done σ |}
  | AddCounter => λ _ σ', σ' = {| s_mem := s_mem σ; s_stop := s_stop σ; s_count := s_count σ + 1; s_done := s_done σ |}
  | LoadCounter => λ n σ', n = s_count σ ∧ σ' = σ
  | Send Done_ => λ _ σ', s_done σ = 0%nat ∧ σ' = {| s_mem := s_mem σ; s_stop := s_stop σ; s_count := s_count σ; s_done := 1 |}
  | Recv Done_ => λ _ σ', s_done σ = 1%nat ∧ σ' = {| s_mem := s_mem σ; s_stop := s_stop σ; s_count := s_count σ; s_done := 0 |}
  | Send _ | Recv _ => λ _ _, False
  | Go _ _ | WaitAll | ReadyDone | ReadyWait | CloseStart | AwaitStart => λ _ _, False
  | _ => λ _ σ', σ' = σ
  end.
Section Steps.
Context (work_ : worker → Z → body).
(** The case is the first of the goroutines. *)
Inductive gstep : shared * list body → shared * list body → Prop :=
| step_alone i B (o : gop B) k b σ σ' ts :
    ts !! i = Some (Do o k) → alone B o σ b σ' → gstep (σ, ts) (σ', <[i := k b]> ts)
| step_go w ids k σ ts :
    gstep (σ, Do (Go w ids) k :: ts) (σ, k tt :: ts ++ (work_ w <$> ids))
| step_wait k rs σ :
    gstep (σ, Do WaitAll k :: (Ret <$> rs)) (σ, [k rs])
| step_meet i j c k k' σ ts :
    c ≠ Done_ → i ≠ j → ts !! i = Some (Do (Send c) k) → ts !! j = Some (Do (Recv c) k') →
    gstep (σ, ts) (σ, <[j := k' tt]> (<[i := k tt]> ts)).

Lemma step_first B (o : gop B) k b σ σ' ts : alone B o σ b σ' → gstep (σ, Do o k :: ts) (σ', k b :: ts).
Proof. exact (step_alone 0 B o k b σ σ' (Do o k :: ts) eq_refl). Qed.

(** *** Runs that exist *)
(** A program that can be run to an end [Q] holds of, while the other goroutines
    [ts] wait until it waits for them. *)
Definition next B (o : gop B) : (B → shared → list body → Prop) → shared → list body → Prop :=
  match o in gop B return (B → shared → list body → Prop) → shared → list body → Prop with
  | Go w ids => λ K σ ts, K tt σ (ts ++ (work_ w <$> ids))
  | WaitAll => λ K σ ts, ∀ m, ∃ rs σ', rtc gstep (σ, m :: ts) (σ', m :: (Ret <$> rs)) ∧ K rs σ' []
  | o => λ K σ ts, ∃ b σ', alone _ o σ b σ' ∧ K b σ' ts
  end.
Fixpoint may {A} (p : guest A) (Q : A → shared → list body → Prop) (σ : shared) (ts : list body) : Prop :=
  match p with
  | Ret a => Q a σ ts
  | Exit _ => False
  | Do o k => next _ o (λ b, may (k b) Q) σ ts
  end.
Lemma next_mono B (o : gop B) K K' σ ts : (∀ b σ ts, K b σ ts → K' b σ ts) → next B o K σ ts → next B o K' σ ts.
Proof.
  intros H. destruct o; try (intros (x & σ' & Ha & HK); exists x, σ'; split; [exact Ha|by apply H]).
  - intros HK. by apply H.
  - intros HK m. destruct (HK m) as (rs & σ' & Hr & Hk). exists rs, σ'. split; [exact Hr|by apply H].
Qed.
Lemma may_mono {A} (p : guest A) (Q Q' : A → shared → list body → Prop) σ ts :
  (∀ a σ ts, Q a σ ts → Q' a σ ts) → may p Q σ ts → may p Q' σ ts.
Proof.
  intros H. revert σ ts. induction p as [a|n|B o k IH]; intros σ ts; cbn [may]; [apply H|done|]. apply next_mono. intros b. apply IH.
Qed.
Lemma may_bind {A B} (p : guest A) (f : A → guest B) Q σ ts : may p (λ a, may (f a) Q) σ ts → may (p ≫= f) Q σ ts.
Proof.
  unfold mbind, prog_bind. revert σ ts. induction p as [a|n|C o k IH]; intros σ ts; cbn [bind may]; [done..|].
  apply next_mono. intros b. apply IH.
Qed.
Lemma may_rtc (p : body) σ ts : may p (λ _ _ _, True) σ ts → ∃ σ' r ts', rtc gstep (σ, p :: ts) (σ', Ret r :: ts').
Proof.
  revert σ ts. induction p as [r|n|B o k IH]; intros σ ts; cbn [may]; [intros _; by exists σ, r, ts|done|].
  assert (∀ b σ' ts', gstep (σ, Do o k :: ts) (σ', k b :: ts') → may (k b) (λ _ _ _, True) σ' ts' →
    ∃ σ'' r ts'', rtc gstep (σ, Do o k :: ts) (σ'', Ret r :: ts'')) as Hstep.
  { intros b σ' ts' Hs Hm. destruct (IH b σ' ts' Hm) as (σ'' & r & ts'' & Hr). exists σ'', r, ts''. eapply rtc_l; eassumption. }
  destruct o; cbn [next];
    try (intros (x & σ' & Ha & Hm); eapply (Hstep x σ' ts); [by apply step_first|exact Hm]).
  - intros Hm. eapply Hstep; [apply step_go|exact Hm].
  - intros Hw. destruct (Hw (Do WaitAll k)) as (rs & σ' & Hwr & Hm). destruct (IH rs σ' [] Hm) as (σ'' & r & ts'' & Hr). exists σ'', r, ts''.
    etrans; [exact Hwr|]. eapply rtc_l; [apply step_wait|exact Hr].
Qed.

(** Calls these cases make that need no other goroutine. *)
Definition solo B (o : gop B) : Prop :=
  match o with
  | Logf _ | LockOSThread | UnlockOSThread | Now | GOMAXPROCS _ | Munmap _ _ | Mprotect _ _ _ | Madvise _ _ _ | Store _ _ | Load _
  | StopLoad | StopStore | AddReads _ | LoadReads | AddCounter | LoadCounter | Gosched => True
  | _ => False
  end.
Lemma solo_answered B (o : gop B) σ : solo B o → ∃ b σ', alone B o σ b σ'.
Proof.
  destruct o; cbn; try done; intros _; try (by exists tt; eexists); try (by exists 0; eexists); try (by eexists _, _); by exists true; eexists.
Qed.
Lemma may_solo {A} (p : guest A) (Q : A → shared → list body → Prop) σ ts :
  all_ops solo p → exits (λ _, False) p → (∀ a σ, Q a σ ts) → may p Q σ ts.
Proof.
  intros Hp He HQ. revert σ. induction p as [a|n|B o k IH]; intros σ; cbn [may all_ops exits] in *; [apply HQ|done|].
  destruct Hp as [Ho Hk]. destruct (solo_answered B o σ Ho) as (b & σ' & Ha).
  assert (next B o (λ b, may (k b) Q) σ ts = ∃ b σ', alone B o σ b σ' ∧ may (k b) Q σ' ts) as -> by (by destruct o).
  exists b, σ'. split; [exact Ha|]. by apply IH.
Qed.
(** Goroutines that each end, in states [P] holds of, all end. *)
Lemma others_end (P : shared → Prop) (ws : list body) :
  Forall (λ p, ∀ σ i ts, P σ → ts !! i = Some p → ∃ σ' r, P σ' ∧ rtc gstep (σ, ts) (σ', <[i := Ret r]> ts)) ws →
  ∀ σ m pre, P σ → ∃ rs σ', P σ' ∧ rtc gstep (σ, m :: (Ret <$> pre) ++ ws) (σ', m :: (Ret <$> rs)).
Proof.
  induction 1 as [|p ws Hp _ IH]; intros σ m pre Hσ.
  { exists pre, σ. by rewrite app_nil_r. }
  destruct (Hp σ (S (length pre)) (m :: (Ret <$> pre) ++ p :: ws) Hσ) as (σ1 & r & H1 & Hr).
  { change (((Ret <$> pre) ++ p :: ws) !! length pre = Some p). apply list_lookup_middle. by rewrite length_fmap. }
  destruct (IH σ1 m (pre ++ [r]) H1) as (rs & σ' & H' & Hr'). exists rs, σ'. split; [exact H'|]. etrans; [exact Hr|].
  rewrite fmap_app, <-app_assoc in Hr'.
  change (<[S (length pre) := Ret r]> (m :: (Ret <$> pre) ++ p :: ws)) with (m :: <[length pre := Ret r]> ((Ret <$> pre) ++ p :: ws)).
  rewrite insert_app_r_alt by (by rewrite length_fmap). rewrite length_fmap, Nat.sub_diag. exact Hr'.
Qed.
Lemma solo_ends (P : shared → Prop) (p : body) :
  all_ops (λ B o, solo B o ∧ ∀ σ b σ', P σ → alone B o σ b σ' → P σ') p → exits (λ _, False) p →
  ∀ σ i ts, P σ → ts !! i = Some p → ∃ σ' r, P σ' ∧ rtc gstep (σ, ts) (σ', <[i := Ret r]> ts).
Proof.
  induction p as [r|n|B o k IH]; intros Hp He σ i ts HP Hi; cbn [all_ops exits] in *; [|done|].
  { exists σ, r. by rewrite list_insert_id. }
  destruct Hp as [[Ho HPo] Hk]. destruct (solo_answered B o σ Ho) as (b & σ' & Ha).
  destruct (IH b (Hk b) (He b) σ' i (<[i := k b]> ts)) as (σ'' & r & HP' & Hr);
    [by eapply HPo|apply list_lookup_insert_eq; by eapply lookup_lt_Some|].
  exists σ'', r. split; [exact HP'|]. rewrite list_insert_insert_eq in Hr. eapply rtc_l; [by eapply step_alone|exact Hr].
Qed.
End Steps.

(** ** The races *)
Section Races.
Context (T : texts) (page ncpu scale : Z) (fuel : nat).
Abbreviation work_ := (work T page scale fuel).
(** A byte no reader complains of: zero, or a marker. *)
Definition good (v : Z) : Prop := v = 0 ∨ Z.odd v = true.
Definition coherent (σ : shared) : Prop := map_Forall (λ _, good) (s_mem σ).
Definition race_pre B (o : gop B) (_ : unit) : Prop :=
  match o with Store _ v => good v | Go w _ => ∃ b tail, w = RaceReader b tail | _ => True end.
Definition race_ans B (o : gop B) : B → unit → Prop :=
  match o with
  | Load _ => λ v _, good v
  | Mmap _ _ _ _ => λ r _, ∃ b, r = inr b
  | Mprotect _ _ _ => λ e _, e = 0
  | Madvise _ _ _ => λ e _, e = 0
  | WaitAll => λ rs _, Forall (λ r, r = None) rs
  | _ => λ _ _, True
  end.
Definition raceM : monitor gop := Monitor gop unit (λ _ _ _ _, tt) race_pre race_ans.
Definition quiet (p : body) : Prop := wp raceM p (λ r _, r = None) (λ _ _, True) tt.

Lemma good_marks c : good (mark_of c).
Proof. right. unfold mark_of, byte_of. rewrite Z.odd_spec. exists (c - 128 * ((2 * c + 1) / 256)). rewrite Z.mod_eq by lia. lia. Qed.
Lemma zeroed_coherent b len σ : coherent σ → coherent (zeroed b len σ).
Proof. intros H a v Ha. apply map_lookup_filter_Some in Ha as [Ha _]. by eapply H. Qed.
Lemma alone_coherent B (o : gop B) σ b σ' : coherent σ → race_pre B o tt → alone B o σ b σ' → race_ans B o b tt ∧ coherent σ'.
Proof.
  intros Hc Hp Ha. destruct o; cbn in *; try (by subst); try (by destruct Ha as [-> ->]).
  - destruct Ha as (x & -> & ->). split; [by eexists|by apply zeroed_coherent].
  - destruct Ha as [-> ->]. split; [|done]. unfold read_mem. destruct (s_mem σ !! addr) as [v|] eqn:E; [by eapply Hc|by left].
  - subst. split; [done|]. by apply map_Forall_insert_2.
  - destruct c; [done..|]. by destruct Ha as [_ ->].
  - destruct c; [done..|]. by destruct Ha as [_ ->].
  - destruct Ha as [-> ->]. split; [done|]. destruct (advice =? MADV_DONTNEED); [by apply zeroed_coherent|done].
Qed.
Lemma quiet_ops {A} (p : guest A) (Q : A → unit → Prop) :
  all_ops (λ B o, race_pre B o tt) p → (∀ a, Q a tt) → wp raceM p Q (λ _ _, True) tt.
Proof.
  intros Hp HQ. induction p as [a|n|B o k IH]; cbn [wp all_ops] in *; [apply HQ|done|]. destruct Hp as [Ho Hk]. split; [exact Ho|].
  intros b _. by apply IH.
Qed.
Lemma quiet_andthen p q : quiet p → quiet q → quiet (andthen p q).
Proof. intros Hp Hq. apply wp_bind. eapply wp_mono; [exact Hp| |done]. by intros r [] ->. Qed.
Lemma quiet_each_ok {A} (l : list A) f : (∀ x, quiet (f x)) → quiet (each_ok l f).
Proof. intros Hf. induction l as [|x l IH]; cbn [each_ok]; [done|by apply quiet_andthen]. Qed.
Lemma quiet_must p pre k : wp raceM p (λ e _, e = 0) (λ _ _, True) tt → quiet k → quiet (must T p pre k).
Proof. intros Hp Hk. apply wp_bind. eapply wp_mono; [exact Hp| |done]. by intros e [] ->. Qed.
Lemma quiet_skip {A} (p : guest A) (k : A → body) : all_ops (λ B o, race_pre B o tt) p → (∀ a, quiet (k a)) → quiet (p ≫= k).
Proof. intros Hp Hk. apply wp_bind. by apply quiet_ops. Qed.
Lemma quiet_reader b tail r : quiet (work_ (RaceReader b tail) r).
Proof.
  cbn [work]. unfold race_reader. apply quiet_skip; [by split|]. intros []. induction fuel as [|n IH]; cbn [read_loop].
  { apply quiet_skip; [by split|]. intros []. }
  apply quiet_skip; [by split|]. intros [|]; [done|]. apply wp_bind.
  eapply wp_mono; [apply quiet_each_ok| |done].
  - intros p. apply wp_bind, wp_call; [done|]. intros v [->|Hv]; unfold guard; [done|].
    assert (Z.even v = false) as -> by (by rewrite <-Z.negb_odd, Hv). by rewrite andb_false_r.
  - intros e [] ->. apply wp_bind, wp_call; [done|]. intros [] _. exact IH.
Qed.
Lemma quiet_marks b m k : good m → quiet k → quiet (mark_pages page ncpu b m ;; k).
Proof.
  intros Hm Hk. apply quiet_skip; [|done]. unfold mark_pages. apply all_ops_each. intros p. apply all_ops_each. intros i. by split.
Qed.
Lemma quiet_race tail what cycles cycle : (∀ b c, quiet (cycle b c)) → quiet (race T page ncpu tail what cycles cycle).
Proof.
  intros Hc. unfold race, with_procs. apply quiet_skip; [by split|]. intros old.
  assert (∀ (p : body) (q : guest unit), quiet p → all_ops (λ B o, race_pre B o tt) q → quiet (deferred p q)) as Hdef.
  { intros p q Hp Hq. apply wp_bind. eapply wp_mono; [exact Hp| |done]. intros r [] ->. apply quiet_skip; [exact Hq|]. done. }
  apply Hdef; [|by split]. unfold map_rw. apply wp_bind, wp_call; [done|]. intros r [b ->]. cbn [or_else]. apply Hdef; [|by split].
  apply wp_bind, wp_call; [by eexists _, _|]. intros [] _. apply quiet_skip; [by split|]. intros start. apply wp_bind.
  eapply wp_mono with (Q := λ r _, r = None); [|intros e [] ->|done].
  - induction (seqZ 0 cycles) as [|c cs IH]; cbn [cycle_loop]; [done|]. apply quiet_skip; [by split|]. intros [|]; [done|].
    by apply quiet_andthen.
  - apply quiet_skip; [by split|]. intros []. apply wp_bind, wp_call; [done|]. intros rs Hrs.
    assert (first_error (None :: rs) = None) as ->.
    { unfold first_error. cbn. induction Hrs as [|r rs -> _ IH]; [done|exact IH]. }
    unfold log. apply quiet_skip; [by split|]. intros reads. apply quiet_skip; [by split|]. intros now. by apply quiet_skip; [split|].
Qed.
Lemma quiet_cases p : p ∈ [fault_race T page ncpu; mprotectRace T page ncpu] → quiet p.
Proof.
  rewrite !elem_of_cons, elem_of_nil. intros [->|[->|[]]]; apply quiet_race; intros b c.
  - apply quiet_marks; [apply good_marks|]. by apply quiet_must; [apply wp_call|].
  - do 2 (apply quiet_must; [by apply wp_call|]). apply quiet_marks; [apply good_marks|].
    destruct (c mod 8 =? 7); [|done]. by apply quiet_must; [apply wp_call|].
Qed.
Lemma race_step s s' : gstep work_ s s' → coherent s.1 ∧ Forall quiet s.2 → coherent s'.1 ∧ Forall quiet s'.2.
Proof.
  intros [i B o k b σ σ' ts Hi Ha|w ids k σ ts|k rs σ|i j c k k' σ ts Hc Hij Hi Hj] [Hσ Hts]; cbn [fst snd] in *.
  - destruct (Forall_lookup_1 _ _ _ _ Hts Hi) as [Hp Hk]. destruct (alone_coherent B o σ b σ' Hσ Hp Ha) as [Hb Hσ'].
    split; [exact Hσ'|]. apply Forall_insert; [done|]. exact (Hk b Hb).
  - apply Forall_cons in Hts as [[Hg Hk] Hts']. cbn in Hg. destruct Hg as (b & tail & ->). split; [done|]. constructor; [by apply (Hk tt)|].
    apply Forall_app. split; [done|]. apply Forall_fmap, Forall_true. intros i. apply quiet_reader.
  - apply Forall_cons in Hts as [[_ Hk] Hrs]. split; [done|]. constructor; [|done]. apply (Hk rs).
    assert (Forall (quiet ∘ Ret) rs) as H by (by apply Forall_fmap). exact H.
  - destruct (Forall_lookup_1 _ _ _ _ Hts Hi) as [_ Hk], (Forall_lookup_1 _ _ _ _ Hts Hj) as [_ Hk'].
    split; [done|]. apply Forall_insert; [apply Forall_insert; [done|]|]; [by apply (Hk tt)|by apply (Hk' tt)].
Qed.
Lemma race_steps s s' : rtc (gstep work_) s s' → coherent s.1 ∧ Forall quiet s.2 → coherent s'.1 ∧ Forall quiet s'.2.
Proof. induction 1 as [|s s1 s2 H _ IH]; [done|]. intros Hs. by apply IH, (race_step s). Qed.

(** C6: On a machine whose memory is coherent and whose calls that manage memory
    succeed, however the writer and the readers of a race interleave, no reader
    sees a byte that is neither zero nor a marker and the case does not fail; so
    a failure is the fault of what is tested. *)
Theorem race_no_false_alarm p σ σ' r ts :
  p ∈ [fault_race T page ncpu; mprotectRace T page ncpu] → s_mem σ = ∅ →
  rtc (gstep work_) (σ, [p]) (σ', Ret r :: ts) → r = None.
Proof.
  intros Hp Hσ Hr. destruct (race_steps _ _ Hr) as [_ H]; [|by inversion H].
  split; cbn [fst snd]; [unfold coherent; rewrite Hσ; apply map_Forall_empty|]. constructor; [by apply quiet_cases|done].
Qed.

(** *** A run there is: the writer first, then each reader finds the flag set *)
Lemma reader_ends b tail r σ i ts : (0 < fuel)%nat → s_stop σ = true → ts !! i = Some (work_ (RaceReader b tail) r) →
  ∃ σ' x, s_stop σ' = true ∧ rtc (gstep work_) (σ, ts) (σ', <[i := Ret x]> ts).
Proof.
  intros Hf Hs Hi. destruct fuel as [|n]; [lia|]. exists σ, None. split; [exact Hs|].
  eapply rtc_l; [eapply (step_alone _ i _ LockOSThread _ tt); [exact Hi|done]|]. cbn [prog_bind mbind bind].
  eapply rtc_l; [eapply (step_alone _ i _ StopLoad _ true σ σ); [apply list_lookup_insert_eq; by eapply lookup_lt_Some|by split]|].
  by rewrite list_insert_insert_eq.
Qed.
Lemma race_can_end tail what cycles cycle σ :
  (0 < fuel)%nat → (∀ b c, all_ops solo (cycle b c) ∧ exits (λ _, False) (cycle b c)) →
  ∃ σ' r ts, rtc (gstep work_) (σ, [race T page ncpu tail what cycles cycle]) (σ', Ret r :: ts).
Proof.
  intros Hf Hc. apply may_rtc. unfold race, with_procs. apply may_bind. exists 0, σ. split; [done|]. cbn [may].
  assert (∀ (p : body) (q : guest unit) σ ts, may work_ p (λ _ _ _, True) σ ts → all_ops solo q → exits (λ _, False) q →
    may work_ (deferred p q) (λ _ _ _, True) σ ts) as Hdef.
  { intros p q σ1 ts Hp Hq He. apply may_bind. eapply may_mono; [|exact Hp]. intros r σ2 ts2 _. apply may_bind. by apply may_solo. }
  apply Hdef; [|by split..]. unfold map_rw. apply may_bind. exists (inr 0). eexists. split; [by exists 0|]. cbn [may or_else].
  apply Hdef; [|by split..]. apply may_bind. cbn [may next call]. apply may_bind. apply may_solo; [by split..|]. intros start σ1.
  apply may_bind, may_solo; [| |intros e0 σ2].
  - induction (seqZ 0 cycles) as [|c cs IH]; cbn [cycle_loop]; [done|]. apply all_ops_bind; [by split|]. intros [|]; [done|].
    apply ops_andthen; [apply Hc|exact IH].
  - induction (seqZ 0 cycles) as [|c cs IH]; cbn [cycle_loop]; [done|]. apply exits_bind; [done|]. intros [|]; [done|].
    apply exits_bind; [apply Hc|]. by intros [e|].
  - apply may_bind. eexists tt, _. split; [done|]. cbn [may]. apply may_bind. cbn [may next call]. intros m.
    match goal with |- context [rtc _ (?s, _)] => set (σ3 := s) end.
    destruct (others_end work_ (λ σ, s_stop σ = true) (work_ (RaceReader 0 tail) <$> seqZ 1 (readers ncpu - 1))) with (σ := σ3) (m := m) (pre := @nil (option string))
      as (rs & σ4 & _ & Hr); [|done|].
    { apply Forall_fmap, Forall_true. intros r σ4 i ts. by apply reader_ends. }
    exists rs, σ4. split; [exact Hr|]. apply may_solo; [| |done].
    + unfold log. destruct (first_error _); [done|]. walk ltac:(exact I).
    + destruct (first_error _); [done|]. walk ltac:(exact I).
Qed.
End Races.
Lemma race_no_false_alarm_witness :
  ∃ σ r ts, rtc (gstep (work demo_texts 4096 1 1)) ({| s_mem := ∅; s_stop := false; s_count := 0; s_done := 0 |}, [fault_race demo_texts 4096 2])
    (σ, Ret r :: ts) ∧ r = None.
Proof.
  destruct (race_can_end demo_texts 4096 2 1 1 ", neither zero nor a marker" " zap cycles of " 2000 (zap_cycle demo_texts 4096 2)
    {| s_mem := ∅; s_stop := false; s_count := 0; s_done := 0 |}) as (σ & r & ts & Hr); [lia| |].
  { intros b c. split; unfold zap_cycle, mark_pages, must.
    - apply all_ops_bind; [do 2 (apply all_ops_each; intros ?); by split|]. intros []. apply all_ops_bind; [by split|]. intros e. by destruct (e =? 0).
    - apply exits_bind; [do 2 (apply exits_each; intros ?); done|]. intros []. apply exits_bind; [done|]. intros e. by destruct (e =? 0). }
  exists σ, r, ts. split; [exact Hr|]. refine (race_no_false_alarm demo_texts 4096 2 1 1 (fault_race demo_texts 4096 2) _ σ r ts _ _ Hr); [by left|done].
Defined.

(** ** The counter *)
Section Counter.
Context (T : texts) (page scale : Z) (fuel : nat).
Abbreviation work_ := (work T page scale fuel).
(** The additions a goroutine has made. *)
Definition addM : monitor gop := Monitor gop Z
  (λ B o _ n, match o with AddCounter => n + 1 | _ => n end)
  (λ B o _, match o with AddCounter | Gosched => True | _ => False end) (λ _ _ _ _, True).
Definition adding (p : body) (n : Z) : Prop := wp addM p (λ _ n, n = additions) (λ _ _, False) n.
Lemma adder_adds : adding adder 0.
Proof.
  unfold adding, adder. apply wp_bind.
  assert (∀ l n, wp addM (each l (λ j, call AddCounter ;; if j mod 1000 =? 0 then call Gosched else Ret tt))
    (λ _ n', n' = n + Z.of_nat (length l)) (λ _ _, False) n) as H.
  { induction l as [|j l IH]; intros n; cbn [each length]; [cbn; lia|]. apply wp_bind, wp_bind, wp_call; [done|]. intros [] _.
    apply (wp_mono addM _ (λ _ n', n' = n + 1) _ (λ _ _, False)); [destruct (j mod 1000 =? 0); cbn; auto| |done].
    intros [] n' ->. eapply wp_mono; [apply IH| |done]. cbn. intros _ n' ->. lia. }
  eapply wp_mono; [apply H| |done]. cbn [wp done_ok]. intros _ n ->. by rewrite length_seqZ.
Qed.
Lemma alone_count B (o : gop B) σ b σ' : alone B o σ b σ' →
  s_count σ' = match o with AddCounter => s_count σ + 1 | _ => s_count σ end.
Proof.
  destruct o; cbn; try (by intros ->); try (by intros [_ ->]); try done.
  - by intros (x & _ & ->).
  - destruct c; try done. by intros [_ ->].
  - destruct c; try done. by intros [_ ->].
  - intros [_ ->]. by destruct (_ =? _).
Qed.
Fixpoint total (ns : list Z) : Z := match ns with [] => 0 | n :: ns => n + total ns end.
Lemma total_insert ns i n n' : ns !! i = Some n → total (<[i := n']> ns) = total ns - n + n'.
Proof.
  revert i. induction ns as [|x ns IH]; intros [|i] Hi; [done..|injection Hi as ->; cbn; lia|].
  change (x + total (<[i := n']> ns) = x + total ns - n + n'). rewrite (IH i Hi). lia.
Qed.
(** The case itself: it starts the goroutines, waits for them and looks. *)
Definition phase_pre B (o : gop B) (n : nat) : Prop :=
  match o with
  | Go w ids => n = 0%nat ∧ w = Adder ∧ length ids = Z.to_nat adders
  | WaitAll => n = 1%nat
  | LoadCounter => n = 2%nat
  | _ => False
  end.
Definition phaseM : monitor gop := Monitor gop nat
  (λ B o _ n, match o with Go _ _ => 1%nat | WaitAll => 2%nat | _ => n end)
  phase_pre (λ B o, match o with LoadCounter => λ n _, n = adders * additions | _ => λ _ _, True end).
Definition phase (p : body) (n : nat) : Prop := wp phaseM p (λ r _, r = None) (λ _ _, False) n.
Lemma threads_phase : phase sched_threads 0.
Proof.
  apply wp_bind, wp_call; [split_and!; [done..|]; by rewrite length_seqZ|]. intros [] _. apply wp_bind, wp_call; [done|]. intros rs _.
  apply wp_bind, wp_call; [done|]. intros n ->. unfold guard. by rewrite Z.eqb_refl.
Qed.
(** The states of a run. *)
Inductive counting : shared * list body → Prop :=
| counting_start σ m : phase m 0 → s_count σ = 0 → counting (σ, [m])
| counting_on σ m ts ns : phase m 1 → Forall2 adding ts ns → length ts = Z.to_nat adders → s_count σ = total ns → counting (σ, m :: ts)
| counting_check σ m : phase m 2 → s_count σ = adders * additions → counting (σ, [m]).
Lemma counting_worker σ ts ns i B (o : gop B) k b σ' :
  Forall2 adding ts ns → ts !! i = Some (Do o k) → s_count σ = total ns → alone B o σ b σ' →
  ∃ ns', Forall2 adding (<[i := k b]> ts) ns' ∧ s_count σ' = total ns'.
Proof.
  intros Hts Hi Hc Ha. destruct (Forall2_lookup_l _ _ _ _ _ Hts Hi) as (n & Hn & Hp & Hk). specialize (Hk b I).
  exists (<[i := m_obs addM o b n]> ns). split; [by apply Forall2_insert|]. rewrite (alone_count _ _ _ _ _ Ha), (total_insert _ _ _ _ Hn).
  destruct o; try done; cbn; lia.
Qed.
Lemma total_done (rs : list (option string)) ns : Forall2 adding (Ret <$> rs) ns → total ns = Z.of_nat (length rs) * additions.
Proof.
  revert ns. induction rs as [|r rs IH]; intros ns H; inversion H as [|? n ? ns' Hr Hrs]; subst; [done|]. cbn in Hr. subst n.
  cbn [total length]. rewrite (IH ns' Hrs). lia.
Qed.
Lemma adding_fresh (ids : list Z) : Forall2 adding (work_ Adder <$> ids) (replicate (length ids) 0) ∧ total (replicate (length ids) 0) = 0.
Proof. induction ids as [|i ids [IH1 IH2]]; cbn; [by split|]. split; [constructor; [apply adder_adds|exact IH1]|exact IH2]. Qed.
Lemma single_lookup {A} (x y : A) i : [x] !! i = Some y → i = 0%nat ∧ x = y.
Proof. destruct i as [|[|i]]; cbn; intros H; [by injection H|done..]. Qed.
Lemma counting_step s s' : gstep work_ s s' → counting s → counting s'.
Proof.
  intros Hs Hc. destruct Hc as [σ m Hm Hσ|σ m ts ns Hm Hts Hl Hσ|σ m Hm Hσ].
  - inversion Hs as [i B o k b ? σ' ? Hi Ha|w ids k ? ts'|k rs' ?|i j c k k' ? ? Hch Hij Hi Hj]; subst.
    + apply single_lookup in Hi as [-> ->]. destruct Hm as [Hp _]. by destruct o.
    + destruct Hm as [(_ & -> & Hl) Hk]. destruct (adding_fresh ids) as [Ha Ht]. eapply counting_on; [by apply (Hk tt)|exact Ha|rewrite <-Hl; apply length_fmap|by rewrite Ht].
    + by destruct Hm as [? _].
    + apply single_lookup in Hi as [-> ->]. by destruct Hm as [? _].
  - inversion Hs as [i B o k b ? σ' ? Hi Ha|w ids k ? ts'|k rs' ?|i j c k k' ? ? Hch Hij Hi Hj]; subst.
    + destruct i as [|i]; cbn in Hi.
      * injection Hi as ->. destruct Hm as [Hp _]. by destruct o.
      * destruct (counting_worker _ _ _ _ _ _ _ _ _ Hts Hi Hσ Ha) as (ns' & Hts' & Hσ').
        eapply (counting_on σ' m (<[i := k b]> ts)); [exact Hm|exact Hts'|rewrite <-Hl; apply list.length_insert|exact Hσ'].
    + by destruct Hm as [[? _] _].
    + destruct Hm as [_ Hk]. apply counting_check; [by apply (Hk rs')|]. rewrite length_fmap in Hl. by rewrite Hσ, (total_done _ _ Hts), Hl.
    + destruct i as [|i]; cbn in Hi; [injection Hi as ->; by destruct Hm as [? _]|].
      destruct (Forall2_lookup_l _ _ _ _ _ Hts Hi) as (n & _ & [] & _).
  - inversion Hs as [i B o k b ? σ' ? Hi Ha|w ids k ? ts'|k rs' ?|i j c k k' ? ? Hch Hij Hi Hj]; subst.
    + apply single_lookup in Hi as [-> ->]. destruct Hm as [Hp Hk]. destruct o; try done. destruct Ha as [-> ->].
      apply counting_check; [by apply (Hk (s_count σ))|exact Hσ].
    + by destruct Hm as [[? _] _].
    + by destruct Hm as [? _].
    + apply single_lookup in Hi as [-> ->]. by destruct Hm as [? _].
Qed.

(** However 64 goroutines interleave their additions to a counter that is
    added to atomically, the sum is right when all have ended, and the case does
    not fail. *)
Theorem threads_lose_nothing σ σ' r ts :
  s_count σ = 0 → rtc (gstep work_) (σ, [sched_threads]) (σ', Ret r :: ts) → r = None.
Proof.
  intros Hσ Hr. assert (∀ s s', rtc (gstep work_) s s' → counting s → counting s') as Hc.
  { induction 1 as [|s1 s2 s3 H _ IH]; [done|]. intros Hs. by apply IH, (counting_step s1). }
  specialize (Hc _ _ Hr). assert (counting (σ, [sched_threads])) as H0 by (apply counting_start; [apply threads_phase|exact Hσ]).
  specialize (Hc H0). by inversion Hc.
Qed.
Lemma adder_solo : all_ops (λ B o, solo B o ∧ ∀ σ b σ', True → alone B o σ b σ' → True) adder.
Proof.
  apply all_ops_bind; [|intros []; exact I]. apply all_ops_each. intros j. apply all_ops_bind; [by repeat split|]. intros [].
  destruct (j mod 1000 =? 0); [by repeat split|exact I].
Qed.
Lemma adder_exits : exits (λ _, False) adder.
Proof.
  apply exits_bind; [|intros []; exact I]. apply exits_each. intros j. apply exits_bind; [done|]. intros []. by destruct (j mod 1000 =? 0).
Qed.
Lemma threads_can_end σ : ∃ σ' r ts, rtc (gstep work_) (σ, [sched_threads]) (σ', Ret r :: ts).
Proof.
  apply may_rtc. unfold sched_threads. apply may_bind. cbn [may next call]. apply may_bind. cbn [may next call]. intros m.
  destruct (others_end work_ (λ _, True) (work_ Adder <$> seqZ 0 adders)) with (σ := σ) (m := m) (pre := @nil (option string))
    as (rs & σ1 & _ & Hr); [|done|].
  { apply Forall_fmap, Forall_true. intros i. exact (solo_ends work_ (λ _, True) adder adder_solo adder_exits). }
  exists rs, σ1. split; [exact Hr|]. apply may_solo; [| |done]; unfold guard; walk ltac:(exact I).
Qed.
End Counter.
Lemma threads_lose_nothing_witness :
  let σ0 := {| s_mem := ∅; s_stop := false; s_count := 0; s_done := 0 |} in
  s_count σ0 = 0 ∧ ∃ σ r ts, rtc (gstep (work demo_texts 4096 1 1)) (σ0, [sched_threads]) (σ, Ret r :: ts) ∧ r = None.
Proof.
  split; [done|]. destruct (threads_can_end demo_texts 4096 1 1 {| s_mem := ∅; s_stop := false; s_count := 0; s_done := 0 |}) as (σ & r & ts & Hr).
  exists σ, r, ts. split; [exact Hr|]. refine (threads_lose_nothing demo_texts 4096 1 1 _ σ r ts _ Hr). reflexivity.
Defined.

(** ** The two ends of a channel *)
Section Futex.
Context (T : texts) (page scale : Z) (fuel : nat).
Abbreviation work_ := (work T page scale fuel).
Abbreviation twice := (2 * pings).
(** How far the case is: each exchange over a channel is one more; what else it
    does needs no other goroutine. *)
Definition case_obs B (o : gop B) (_ : B) (p : Z) : Z := match o with Send _ | Recv _ => p + 1 | _ => p end.
Definition case_pre B (o : gop B) (p : Z) : Prop :=
  match o with
  | Send Ping => Z.Even p ∧ p < twice
  | Recv Pong => Z.Odd p ∧ p < twice
  | Recv Done_ => p = twice
  | Logf _ | Now => True
  | _ => False
  end.
Definition caseM : monitor gop := Monitor gop Z case_obs case_pre (λ _ _ _ _, True).
Definition at_case (m : body) (p : Z) : Prop := wp caseM m (λ r p, r = None ∧ p = twice + 1) (λ _ _, False) p.
Definition peer_pre B (o : gop B) (q : Z) : Prop :=
  match o with
  | Recv Ping => Z.Even q ∧ q < twice
  | Send Pong => Z.Odd q ∧ q < twice
  | Send Done_ => q = twice
  | _ => False
  end.
Definition peerM : monitor gop := Monitor gop Z case_obs peer_pre (λ _ _ _ _, True).
Definition at_peer (w : body) (q : Z) : Prop := wp peerM w (λ r q, r = None ∧ q = twice + 1) (λ _ _, False) q.

(** A loop of two exchanges each time round. *)
Lemma exchanges_wp (M : monitor gop) (c1 c2 : gop unit) (l : list Z) (st : Z → m_state M) p :
  (∀ p, Z.Even p → p < twice → m_pre M c1 (st p) ∧ m_obs M c1 tt (st p) = st (p + 1)) →
  (∀ p, Z.Odd p → p < twice → m_pre M c2 (st p) ∧ m_obs M c2 tt (st p) = st (p + 1)) →
  Z.Even p → p + 2 * Z.of_nat (length l) = twice →
  wp M (each l (λ _, call c1 ;; call c2)) (λ _ g, g = st twice) (λ _ _, False) (st p).
Proof.
  intros H1 H2. revert p. induction l as [|x l IH]; intros p Hp Hl; cbn [each length] in *; [by replace twice with p by lia|].
  destruct (H1 p Hp) as [Hp1 Ho1]; [lia|]. destruct (H2 (p + 1)) as [Hp2 Ho2]; [destruct Hp as [h ->]; by exists h|lia|].
  apply wp_bind, wp_bind, wp_call; [exact Hp1|]. intros [] _. rewrite Ho1. apply wp_call; [exact Hp2|]. intros [] _. rewrite Ho2.
  replace (p + 1 + 1) with (p + 2) by lia. apply IH; [|lia]. destruct Hp as [h ->]. exists (h + 1). lia.
Qed.
Lemma ponger_at : at_peer ponger 0.
Proof.
  apply wp_bind. eapply wp_mono; [apply (exchanges_wp peerM (Recv Ping) (Send Pong) _ (λ p, p) 0)| |done]; [done..|by exists 0|by rewrite length_seqZ|].
  intros _ p ->. apply wp_bind, wp_call; [done|]. by intros [] _.
Qed.
(** The case before it has started the other end, and after. *)
Definition started_by (m : body) : Prop :=
  match m with Do o k => match o in gop B return (B → body) → Prop with Go w ids => λ k, w = Ponger ∧ ids = [0] ∧ at_case (k tt) 0 | _ => λ _, False end k | _ => False end.
Lemma futex_started : started_by (sched_futex T).
Proof.
  split_and!; [done..|]. cbn [bind]. apply wp_bind, wp_call; [done|]. intros start _. apply wp_bind.
  eapply wp_mono; [apply (exchanges_wp caseM (Send Ping) (Recv Pong) _ (λ p, p) 0)| |done]; [done..|by exists 0|by rewrite length_seqZ|].
  intros _ p ->. apply wp_bind, wp_call; [done|]. intros [] _. apply wp_bind, wp_call; [done|]. intros now _. cbv zeta.
  unfold log. apply wp_bind, wp_call; [done|]. by intros [] _.
Qed.
(** Both ends are as far, or the last value is in the channel, or it was taken. *)
Definition in_step (p q : Z) (d : nat) : Prop :=
  (p = q ∧ p ≤ twice ∧ d = 0%nat) ∨ (q = twice + 1 ∧ p = twice ∧ d = 1%nat) ∨ (q = twice + 1 ∧ p = twice + 1 ∧ d = 0%nat).
Inductive playing : shared * list body → Prop :=
| playing_start σ m : started_by m → s_done σ = 0%nat → playing (σ, [m])
| playing_on σ m w p q : at_case m p → at_peer w q → in_step p q (s_done σ) → playing (σ, [m; w]).
Lemma pair_lookup {A} (x y z : A) i : [x; y] !! i = Some z → (i = 0%nat ∧ x = z) ∨ (i = 1%nat ∧ y = z).
Proof. destruct i as [|[|[|i]]]; cbn; intros H; [left; by injection H|right; by injection H|done..]. Qed.
Lemma playing_alone σ m w p q i B (o : gop B) k b σ' : at_case m p → at_peer w q → in_step p q (s_done σ) →
  [m; w] !! i = Some (Do o k) → alone B o σ b σ' → playing (σ', <[i := k b]> [m; w]).
Proof.
  intros Hm Hw Hpq Hi Ha. apply pair_lookup in Hi as [[-> ->]|[-> ->]].
  - destruct Hm as [Hp Hk]. specialize (Hk b I). apply (playing_on σ' (k b) w (case_obs B o b p) q); [exact Hk|exact Hw|].
    destruct o; try done; cbn in Ha, Hp |- *; [by rewrite Ha..| |]; destruct c; try done. destruct Ha as [Hd ->]. cbn.
    destruct Hpq as [(_ & _ & Hd')|[(Hq & Hp' & _)|(_ & _ & Hd')]]; [congruence| |congruence]. right. right. split_and!; [exact Hq|lia|done].
  - destruct Hw as [Hq Hk]. specialize (Hk b I). apply (playing_on σ' m (k b) p (case_obs B o b q)); [exact Hm|exact Hk|].
    destruct o; try done; cbn in Ha, Hq |- *; destruct c; try done. destruct Ha as [Hd ->]. cbn.
    destruct Hpq as [(Hp' & _ & _)|[(Hq' & _ & _)|(Hq' & _ & _)]]; [|lia..]. right. left. split_and!; [lia|lia|done].
Qed.
Lemma playing_meet σ m w p q c k k' : at_case m p → at_peer w q → in_step p q (s_done σ) → c ≠ Done_ →
  (m = Do (Send c) k ∧ w = Do (Recv c) k' → playing (σ, [k tt; k' tt])) ∧ (w = Do (Send c) k ∧ m = Do (Recv c) k' → playing (σ, [k' tt; k tt])).
Proof.
  intros Hm Hw Hpq Hc. split; intros [-> ->].
  - destruct Hm as [Hp Hk], Hw as [Hq Hk']. destruct c; cbn in Hp, Hq; [|done..].
    apply (playing_on σ (k tt) (k' tt) (p + 1) (q + 1)); [by apply Hk|by apply Hk'|]. destruct Hpq as [(-> & _ & Hd)|[(? & ? & _)|(? & ? & _)]]; [|lia..].
    left. split_and!; [done|lia|exact Hd].
  - destruct Hm as [Hp Hk'], Hw as [Hq Hk]. destruct c; cbn in Hp, Hq; [done| |done].
    apply (playing_on σ (k' tt) (k tt) (p + 1) (q + 1)); [by apply Hk'|by apply Hk|]. destruct Hpq as [(-> & _ & Hd)|[(? & ? & _)|(? & ? & _)]]; [|lia..].
    left. split_and!; [done|lia|exact Hd].
Qed.
Lemma playing_step s s' : gstep work_ s s' → playing s → playing s'.
Proof.
  intros Hs Hp. destruct Hp as [σ m Hm Hσ|σ m w p q Hm Hw Hpq].
  - inversion Hs as [i B o k b ? σ' ? Hi Ha|wk ids k ? ts'|k rs' ?|i j c k k' ? ? Hch Hij Hi Hj]; subst.
    + apply single_lookup in Hi as [-> ->]. by destruct o.
    + destruct Hm as (-> & -> & Hk). apply (playing_on σ (k tt) ponger 0 0); [exact Hk|apply ponger_at|]. left. split_and!; [done|unfold pings; lia|exact Hσ].
    + done.
    + by apply single_lookup in Hi as [-> ->].
  - inversion Hs as [i B o k b ? σ' ? Hi Ha|wk ids k ? ts'|k rs' ?|i j c k k' ? ? Hch Hij Hi Hj]; subst.
    + by eapply playing_alone.
    + by destruct Hm as [[] _].
    + by destruct Hm as [[] _].
    + apply pair_lookup in Hi as [[-> Hi]|[-> Hi]], Hj as [[-> Hj]|[-> Hj]]; try done;
        by eapply (playing_meet σ m w p q c k k').
Qed.
Lemma ret_inv (w : body) q : at_peer w q → q = twice + 1 → w = Ret None.
Proof.
  intros Hw ->. destruct w as [r|n|B o k]; [by destruct Hw as [-> _]|done|]. destruct Hw as [Hq _]. exfalso.
  destruct o; try done; destruct c; cbn in Hq; try done; try lia.
Qed.
(** What the other end does next. *)
Lemma peer_next w q : at_peer w q → q ≤ twice →
  (Z.Even q ∧ q < twice ∧ ∃ k, w = Do (Recv Ping) k ∧ at_peer (k tt) (q + 1)) ∨
  (Z.Odd q ∧ q < twice ∧ ∃ k, w = Do (Send Pong) k ∧ at_peer (k tt) (q + 1)) ∨
  (q = twice ∧ ∃ k, w = Do (Send Done_) k ∧ at_peer (k tt) (q + 1)).
Proof.
  intros Hw Hle. destruct w as [r|n|B o k]; [destruct Hw; lia|done|]. destruct Hw as [Hq Hk].
  destruct o; try done; destruct c; try done; cbn in Hq.
  - right. left. destruct Hq. split_and!; [done..|]. exists k. split; [done|by apply (Hk tt)].
  - right. right. split; [done|]. exists k. split; [done|by apply (Hk tt)].
  - left. destruct Hq. split_and!; [done..|]. exists k. split; [done|by apply (Hk tt)].
Qed.
Lemma even_odd p : Z.Even p → Z.Odd p → False.
Proof. intros [a ->] [b Hb]. lia. Qed.
(** An end of the game from any of its states. *)
Lemma playing_ends m w p q σ : at_case m p → at_peer w q → in_step p q (s_done σ) →
  ∃ σ', rtc (gstep work_) (σ, [m; w]) (σ', [Ret None; Ret None]).
Proof.
  revert w p q σ. induction m as [r|n|B o k IH]; intros w p q σ Hm Hw Hpq; [|done|].
  { destruct Hm as [-> ->]. assert (q = twice + 1) as Hq by (destruct Hpq as [(? & ? & _)|[(? & ? & _)|(? & ? & _)]]; lia).
    rewrite (ret_inv w q Hw Hq). by exists σ. }
  destruct Hm as [Hp Hk].
  assert (∀ (b : B) σ', gstep work_ (σ, [Do o k; w]) (σ', [k b; w]) → in_step (case_obs B o b p) q (s_done σ') →
    ∃ σ'', rtc (gstep work_) (σ, [Do o k; w]) (σ'', [Ret None; Ret None])) as Hstep.
  { intros b σ' Hs Hi. destruct (IH b w _ q σ' (Hk b I) Hw Hi) as (σ'' & Hr). exists σ''. by eapply rtc_l. }
  destruct o; try done.
  - by apply (Hstep tt σ); [apply step_first|].
  - by apply (Hstep 0 σ); [apply step_first|].
  - destruct c; try done. destruct Hp as [He Hlt]. destruct Hpq as [(<- & Hle & Hd)|[(? & ? & _)|(? & ? & _)]]; [|lia..].
    destruct (peer_next w p Hw Hle) as [(_ & _ & k' & -> & Hk')|[(Ho & _)|(? & _)]]; [|by destruct (even_odd p)|lia].
    destruct (IH tt (k' tt) (p + 1) (p + 1) σ (Hk tt I) Hk') as (σ' & Hr); [left; split_and!; [done|lia|exact Hd]|].
    exists σ'. eapply rtc_l; [|exact Hr]. by apply (step_meet work_ 0 1 Ping k k' σ [Do (Send Ping) k; Do (Recv Ping) k']).
  - destruct c; try done.
    + destruct Hp as [Ho Hlt]. destruct Hpq as [(<- & Hle & Hd)|[(? & ? & _)|(? & ? & _)]]; [|lia..].
      destruct (peer_next w p Hw Hle) as [(He & _)|[(_ & _ & k' & -> & Hk')|(? & _)]]; [by destruct (even_odd p)| |lia].
      destruct (IH tt (k' tt) (p + 1) (p + 1) σ (Hk tt I) Hk') as (σ' & Hr); [left; split_and!; [done|lia|exact Hd]|].
      exists σ'. eapply rtc_l; [|exact Hr]. by apply (step_meet work_ 1 0 Pong k' k σ [Do (Recv Pong) k; Do (Send Pong) k']).
    + cbn in Hp. subst p. set (taken := {| s_mem := s_mem σ; s_stop := s_stop σ; s_count := s_count σ; s_done := 0 |}).
      assert (∀ w' q', at_peer w' q' → q' = twice + 1 → ∃ σ', rtc (gstep work_) (taken, [k tt; w']) (σ', [Ret None; Ret None])) as Hlast.
      { intros w' q' Hw' ->. by apply (IH tt w' (twice + 1) (twice + 1) taken (Hk tt I) Hw'); right; right. }
      destruct Hpq as [(<- & Hle & Hd)|[(Hq & _ & Hd)|(_ & ? & _)]]; [| |lia].
      * destruct (peer_next w twice Hw Hle) as [(_ & ? & _)|[(_ & ? & _)|(_ & k' & -> & Hk')]]; [lia..|].
        destruct (Hlast (k' tt) _ Hk' eq_refl) as (σ' & Hr). exists σ'.
        set (sent := {| s_mem := s_mem σ; s_stop := s_stop σ; s_count := s_count σ; s_done := 1 |}).
        eapply rtc_l; [by apply (step_alone work_ 1 _ (Send Done_) k' tt σ sent [Do (Recv Done_) k; Do (Send Done_) k'])|].
        eapply rtc_l; [by apply (step_first work_ _ (Recv Done_) k tt sent taken)|exact Hr].
      * destruct (Hlast w q Hw Hq) as (σ' & Hr). exists σ'.
        eapply rtc_l; [by apply (step_first work_ _ (Recv Done_) k tt σ taken)|exact Hr].
Qed.

(** C7: The two goroutines that hand each other 20000 turns over two channels are
    never stuck: from every state they can reach, however
    they are scheduled, the case goes on to its end, and it passes. *)
Theorem futex_never_stuck σ s :
  s_done σ = 0%nat → rtc (gstep work_) (σ, [sched_futex T]) s → ∃ σ', rtc (gstep work_) s (σ', [Ret None; Ret None]).
Proof.
  intros Hσ Hr. assert (∀ s s', rtc (gstep work_) s s' → playing s → playing s') as Hp.
  { induction 1 as [|s1 s2 s3 H _ IH]; [done|]. intros Hs. by apply IH, (playing_step s1). }
  assert (playing (σ, [sched_futex T])) as H0 by (apply playing_start; [apply futex_started|exact Hσ]).
  destruct (Hp _ _ Hr H0) as [σ1 m Hm Hd|σ1 m w p q Hm Hw Hpq]; [|by eapply playing_ends].
  destruct m as [r|n|B o k]; [done..|]. destruct o; try done. destruct Hm as (-> & -> & Hk).
  destruct (playing_ends (k tt) ponger 0 0 σ1 Hk ponger_at) as (σ' & Hr'); [left; split_and!; [done|unfold pings; lia|exact Hd]|].
  exists σ'. eapply rtc_l; [apply step_go|exact Hr'].
Qed.
End Futex.
Lemma futex_never_stuck_witness :
  let σ0 := {| s_mem := ∅; s_stop := false; s_count := 0; s_done := 0 |} in
  s_done σ0 = 0%nat ∧ ∃ σ, rtc (gstep (work demo_texts 4096 1 1)) (σ0, [sched_futex demo_texts]) (σ, [Ret None; Ret None]).
Proof. intros σ0. split; [done|]. exact (futex_never_stuck demo_texts 4096 1 1 σ0 (σ0, [sched_futex demo_texts]) eq_refl (rtc_refl _ _)). Defined.
